(* ===== verification/_CoqProject ===== *)
-Q . S2P
Prelude.v
GoStrings.v
GoPath.v
GoUrl.v
GoTime.v
Flags.v
Json.v
Rfc3339.v
Effects.v
Api.v
Promotion.v
Provision.v
Labels.v
AgentTypes.v
Wire.v
WireStatus.v
AgentEnv.v
AgentMem.v
Agent.v
Kube.v
Filter.v
Commands.v
Rclone.v
Ownership.v
Apply.v
ApplyProps.v
Shadow.v
Replica.v
Handlers.v
Watch.v
WatchProps.v
WatchManager.v
Csi.v
Archive.v
ArchiveProps.v
ArchiveSync.v
Claims.v
Resources.v
Failover.v
ReplState.v
Repl.v
KubeMem.v
FailoverProps.v
ReplProps.v
Loop.v
Main.v
Protocol.v
