(* ===== verification/Prelude.v ===== *)
(** * simple-volume: a verification development

    simple-volume replicates node-local volumes between the nodes of a
    Kubernetes cluster.  A controller reads persistent volume claims and
    their annotations, tells the node agents what to replicate where
    (replication controller), and moves a claim to another node when its
    node is lost (failover controller).  An agent on every node owns a
    storage pool; it serves its volumes over WebDAV, applies batches of
    file events and full syncs that other nodes send, keeps shadow copies
    for consistent reads, sets the ownership of what it received, and
    watches the volumes it is the source of.  A CSI server on the node
    binds a volume's directory into the pod.  All source paths below are
    relative to src/internal, except cmd/simple-volume/main.go.

    ** How code is modelled

    A pure Go function is a Rocq function on the same data; Go strings are
    byte strings, with the functions of the packages strings, path,
    path/filepath, time, flag, net/url and encoding/json that the program
    uses written out (GoStrings, GoPath, GoTime, Rfc3339, Flags, GoUrl,
    Json).  A function that talks to the outside is a program
    ([prog], Effects): a tree of calls, each of which stops with an
    operation and goes on with whatever the environment answers.  The
    operations are the calls of the Go code: to the file system, rclone,
    HTTP and the clock for an agent (AgentEnv), to the Kubernetes API and
    to the agents for the controllers (Kube).  [exec p tr a] says that [p]
    can issue the calls of [tr] with the answers recorded there and return
    [a]; a theorem about every such trace holds against every environment,
    failures included.  AgentMem and KubeMem are concrete environments used
    only to run examples.  Errors are values ([error], [result]) that keep
    what the code asks of them: their class, what they wrap, the output of
    a failed command.  State shared by goroutines is a record changed by
    critical sections, and interleavings are transition systems.

    ** Files

    - Prelude: errors, sorting, byte order, 64-bit integers, automation.
      GoStrings, GoPath, GoUrl, GoTime, Flags, Json, Rfc3339: the parts of
      the Go library used.
      Effects: programs, their traces, and the loop and frame lemmas.
    - Api (api/v1alpha1/types.go), Promotion (controller/promotion.go),
      Provision (controller/provision.go, csi/controller.go), Labels
      (controller/labels.go): selection of replicas, placement of new
      volumes, label keys.
    - Wire, WireStatus: the JSON of the requests and of the answers that
      are read (types of agent/replication.go and agent/watch_manager.go,
      the request of main.go), one instance of the classes [Wire] and
      [WireLaws] per message.
    - Agent (agent/agent.go): pools, volume, shadow and backup paths.
    - AgentTypes, Filter, Commands, Ownership, Apply, Shadow, Handlers
      (agent/replication.go): request types; path filters and the
      coalescing of events; rclone command lines and the bounded output;
      ownership of replicated files; batches and full syncs on the
      receiving side; shadow copies on the sending side; the endpoints and
      the lock per volume.  ApplyProps holds the theorems of Apply.
    - Rclone: what an rclone command line asks for, read from its
      arguments, and that the command lines of Commands ask for what is
      meant.
    - Replica: what the calls of Apply and Shadow do to the contents of
      the disks, the contract of a batch, and that the code meets it.
    - Watch (agent/watch.go): directory walks with callbacks, snapshots and
      their differences, the recursive watches, and the loop of WatchVolume
      with its pending events, debounce timer and rescans.  WatchProps
      holds its theorems.
    - WatchManager (agent/watch_manager.go): the sender of batches, the
      manager with its watches as a heap of records, the goroutine of a
      watch, the three endpoints, and the transition system of both.
    - Archive (agent/replication.go): tar archives written from a volume
      and unpacked into one, the clearing of a target, the archive
      endpoint.  ArchiveProps holds the theorems.  ArchiveSync is the
      client that fetches an archive from another agent.
    - Csi (csi/server.go, csi/node.go): all RPCs of the driver, mount
      groups, the node publisher, sessions of RPCs, the start of the
      server.
    - Claims, Resources, Failover (controller/failover_controller.go and
      the claim helpers of replication_controller.go): who uses a claim,
      what fits on a node, the failover loop.  FailoverProps holds its
      theorems.
    - ReplState, Repl (controller/replication_controller.go): the shared
      maps with their critical sections, and the reconciliation with its
      full-sync goroutines and watches.  ReplProps holds the theorems.
      Loop is the construction of the controller and the loop of Run.
    - Main (cmd/simple-volume/main.go): the choice of the command, its
      flags and environment, the start of each process, the routes of an
      agent, the manual trigger of a full sync.
    - Protocol: controller, network and agents put together.

    ** What the theorems show

    - Failover: a pod is deleted only after an outage that lasted the grace
      period and only when an eligible target was chosen and labelled; the
      target is the one the priorities, freshness and free resources
      determine; the active label is unique; only enabled claims are
      touched; the shared bookkeeping refines a per-replica specification.
    - Replication controller: one full sync per volume under every
      interleaving; what a full sync asks of each target and when it counts
      as done; no watch before the sync of the current epoch; the epoch
      check detects any change of the active node; the desired
      replications are those the cluster state determines.
    - Receiving agent: batches and full syncs write only inside their
      volume; a full sync runs no command before the source confirmed its
      required paths and succeeds only when they arrived; a successful
      batch did every deletion and copy it was asked for; on the contents
      of the disk a batch refines its contract, and a full sync mirrors
      the source, up to the files rclone takes for unchanged where nothing
      forces it to copy.  Both rest on the arguments of the rclone commands.
    - From end to end: a change goes from the live volume over the shadow,
      the wire and the other agent to the replica, which then agrees with
      the live volume; every request of the controller reaches the
      endpoint made for it, with the agents' token, and is decoded as it
      was sent; a message read
      is the message written; the status the controller reads is the one
      the agent has; an archive is asked for and served for the volume and
      filter that are meant.
    - The controller process: over all its rounds, each with the clock and
      the lists it read, it evicts only after the grace period without a
      recovery, errors do not stop it, and it ends only with its context or
      for want of a cluster.
    - Shadows: the live volume is never changed; the forwarded batch
      describes the shadow; the manifest marks only complete shadows.
    - Requests of an agent: under every interleaving of batches, full syncs
      and shadow requests two that are at work change different
      directories, and the locks cannot deadlock ("/volumes/prepare" and
      "/replication/archive" take no lock and are not covered); without the
      token no endpoint but the health checks does anything.
    - Watching: an event that is replicated waits with the timer running or
      was handed to the sink in a proper batch; snapshots miss no file and
      their differences rebuild the new snapshot from the old; the sink
      counts a generation as delivered only with the required
      confirmations; at most one watch per volume is live, its counters
      add up, and a replaced watch changes nothing any more.
    - Archives: what is unpacked equals what was archived; unpacking stays
      in its directory by name; clearing a target removes no directory and
      ends.
    - CSI: publishing binds exactly the directory the agents replicate, for
      a created volume the one named after its claim metadata; no sequence
      of RPCs changes the contents of a file, and owners and modes change
      only inside a published volume, for the mount group asked for.
    - Configuration: an agent works with the last setting of each flag, else
      its environment, else the default.
    - Paths and filters: the directories of different volumes, their shadows
      and the backups that are made of them never overlap; event
      paths cannot escape; coalescing equals its reference; filters and
      directory walks agree on patterns without wildcards; label keys are
      legal; modes and ids stay in range.

    Some results state where the code falls short of its intent and are
    proved on a concrete run or input: [Ownership.ownership_climbs_from_symlink],
    [Filter.traversal_misses_wildcard], [Filter.root_pattern_diverges],
    [Labels.role_label_collision], [Resources.exhausted_node_fits],
    [ReplProps.bad_annotation_blocks_all],
    [WatchProps.new_directory_unwatched], [WatchProps.dotdot_names_unwatched],
    [ArchiveProps.extract_follows_links], [Main.missing_claim_status],
    [Filter.unusual_names_confused], [Wire.invalid_name_changed],
    [ApplyProps.unescaped_name_blocks], [ApplyProps.question_mark_skipped],
    [Csi.no_node_refused], [FailoverProps.failed_round_keeps_timer].

    ** Bounds and fuel

    Recursion is structural except in a few library functions, whose fuel
    is the length of their input: the glob matcher of GoPath, the terms of
    a duration in GoTime, the digits of an octal number.  The loop over
    parent directories in Ownership has the length of the path as fuel;
    [chain_of_ancestors] shows that it always reaches the root.  The
    repair of a required path makes three attempts, as in the code.
    [WatchVolume] takes the number of rounds of its endless loop; the
    theorems hold for every number.  Emptying a directory has 4096 as fuel,
    the bound of the kernel on the length of a path;
    [ArchiveProps.clear_fuel_enough] shows that more changes nothing.
    A JSON text nests at most 10000 levels, the limit of encoding/json
    ([Json.max_depth]); its arrays and objects have the length of the text
    as fuel.  The flags of a command have their number as fuel
    ([Flags.parse_fuel]: more changes nothing).  [Loop.Run] takes the
    number of rounds it is watched for; the theorems hold for every
    number.
    Integers are kept as [Z] and wrapped to 64 bits where the code can
    overflow (durations, resource quantities, annotations).

    ** Relied upon

    [Ownership.walks_below]: a directory walk reports the directory and
    paths below it.  [Ownership.seen_as_dir]: the root of the volume is a
    directory when a full sync sets ownership.  [WatchProps.listing]: a
    walk lists the directory itself and cleaned paths below it.
    [ArchiveProps.reads_back]: the tar reader returns the headers and bytes
    that were written, in order and without an error, modification times
    rounded to the second.  [ArchiveProps.names_good] and
    [ArchiveProps.paths_limited]: the names of a listed directory are plain
    names, and the kernel looks up no path of 4096 bytes or more.
    [Replica.effects]: the documented meaning of the file-system calls on
    the contents of a disk, and of an rclone command line by what
    [Rclone.action_of] reads from its arguments.  The contents of a file
    are its bytes or the target of a link, without owner, mode and times;
    [same] stands for the test by which rclone takes two files for equal.
    [Replica.honest] and
    [Replica.honest_local]: a source that says a path is missing, and a
    file system asked for one, tell the truth.  [Replica.plain_path] and
    [Replica.web_source]: the paths and the address of the source need no
    escaping in a URL (what happens to others is in ApplyProps).
    [Wire.wire_ok]: texts are UTF-8, numbers fit their type.  All are
    hypotheses of the theorems that need them.  A directory walk is one
    call: files that appear during the walk are not modelled.  The text of
    an error is a parameter ([Error]).
    A status returned by the watch manager is a value; in the code the
    status of Start and Stop shares its slice of target statuses with the
    running goroutine, so a reader outside the lock may see later counters.

    ** Not modelled

    The matching of HTTP routes by pattern (a path that is not clean is
    redirected, any other is compared literally), time-outs, logging, listening and signals, the
    transport of gRPC and of HTTP, the plumbing of a child process
    ([ExecRunner]; a command is one call that answers with its output and
    error), the text [CommandError.Error] makes, the answers in JSON that
    nothing in the program decodes.  What is left of the source is of these
    kinds, or declarations without behaviour (imports, interfaces). *)
From Stdlib Require Export Ascii.
From stdpp Require Export prelude strings gmap list sorting pretty.

#[global] Arguments String.append !s1 s2 : simpl nomatch.

Declare Scope go_scope.
Delimit Scope go_scope with go.
Open Scope go_scope.

(** ** Errors and fallible results

    A Go [error] value keeps its format string and arguments; wrapped
    errors keep the wrapped one, as [%w] does, and [Joinf] keeps the
    errors whose texts are joined.  [NotExist] and
    [Permission] are the two classes of operating-system error the
    program asks for with [os.IsNotExist] and [os.IsPermission];
    [CommandErr] is [agent.CommandError]; [Canceled] is
    [context.Canceled]; [ApiNotFound] is the Kubernetes error that
    [apierrors.IsNotFound] recognises. *)
Inductive error : Type :=
| Errorf (format : string) (args : list string)
| Wrapf (format : string) (args : list string) (inner : error)
| Joinf (format : string) (inner : list error)
| CommandErr (inner : error) (output : string)
| NotExist (path : string)
| Permission (path : string)
| Canceled
| ApiNotFound (what : string).

Inductive result (A : Type) : Type :=
| Ok (a : A)
| Err (e : error).
Arguments Ok {A} a.
Arguments Err {A} e.

Definition rbind {A B : Type} (x : result A) (f : A → result B) : result B :=
  match x with Ok a => f a | Err e => Err e end.

Notation "x <-? c ;; k" := (rbind c (fun x => k))
  (at level 60, c at next level, right associativity) : go_scope.

Definition is_ok {A : Type} (x : result A) : bool :=
  match x with Ok _ => true | Err _ => false end.

(** [os.IsNotExist] and [os.IsPermission] look at the error itself, not
    at what a formatted error wraps. *)
Definition IsNotExist (e : error) : bool :=
  match e with NotExist _ => true | _ => false end.

Definition IsNotFound (e : error) : bool :=
  match e with ApiNotFound _ => true | _ => false end.

Definition IsPermission (e : error) : bool :=
  match e with Permission _ => true | _ => false end.

(** ** Sorting

    [stable_sort less l] is the list Go's [sort.SliceStable] leaves in
    place: the stable arrangement of [l] in which no element is [less]
    than an earlier one. *)
Fixpoint sort_insert {A : Type} (less : A → A → bool) (x : A) (l : list A) : list A :=
  match l with
  | [] => [x]
  | y :: l' => if less y x then y :: sort_insert less x l' else x :: y :: l'
  end.

Definition stable_sort {A : Type} (less : A → A → bool) (l : list A) : list A :=
  foldr (sort_insert less) [] l.

(** What a comparison function must promise to [sort]. *)
Class LessOrder {A : Type} (less : A → A → bool) : Prop := {
  less_asym a b : less a b = true → less b a = false;
  less_ge_trans a b c : less b a = false → less c b = false → less c a = false;
}.

(** ** Byte-wise comparison of strings, Go's [<] on [string]. *)
Definition str_lt (a b : string) : bool := String.ltb a b.

(** ** 64-bit integers *)
Definition int64_min : Z := (- 2 ^ 63)%Z.
Definition int64_max : Z := (2 ^ 63 - 1)%Z.
Definition in_int64 (z : Z) : Prop := (int64_min ≤ z ≤ int64_max)%Z.
Definition wrap64 (z : Z) : Z := ((z + 2 ^ 63) mod 2 ^ 64 - 2 ^ 63)%Z.

(** ** Automation *)
Create HintDb sv discriminated.

(** Splits the conditionals of the goal or of a hypothesis and clears
    the contradictory branches. *)
Ltac split_ifs :=
  repeat match goal with
  | |- context [if ?b then _ else _] => destruct b eqn:?; simplify_eq/=
  | H : context [if ?b then _ else _] |- _ => destruct b eqn:?; simplify_eq/=
  end.

(** Turns the boolean connectives of a hypothesis into propositions. *)
Ltac bool_hyps :=
  repeat match goal with
  | H : (_ && _) = true |- _ => apply andb_true_iff in H as [? ?]
  | H : (_ || _) = false |- _ => apply orb_false_iff in H as [? ?]
  | H : negb _ = true |- _ => apply negb_true_iff in H
  | H : negb _ = false |- _ => apply negb_false_iff in H
  end.

(** ** Lemmas: results *)
Lemma rbind_ok {A B} (x : result A) (f : A → result B) b :
  rbind x f = Ok b → ∃ a, x = Ok a ∧ f a = Ok b.
Proof. destruct x; simpl; [eauto | discriminate]. Qed.

(** ** Lemmas: sorting *)
Lemma sort_insert_perm {A} (less : A → A → bool) x l :
  sort_insert less x l ≡ₚ x :: l.
Proof.
  induction l as [|y l IH]; simpl; [done|].
  destruct (less y x); [|done]. rewrite IH. constructor.
Qed.

Lemma stable_sort_perm {A} (less : A → A → bool) l : stable_sort less l ≡ₚ l.
Proof.
  induction l as [|x l IH]; simpl; [done|].
  by rewrite sort_insert_perm, IH.
Qed.

Lemma sort_insert_sorted {A} (less : A → A → bool) `{!LessOrder less} x l :
  StronglySorted (λ a b, less b a = false) l →
  StronglySorted (λ a b, less b a = false) (sort_insert less x l).
Proof.
  induction l as [|y l IH]; simpl; intros Hs; [repeat constructor|].
  apply StronglySorted_inv in Hs as [Hs Hy].
  destruct (less y x) eqn:E.
  - constructor; [by apply IH|]. rewrite sort_insert_perm.
    constructor; [by apply less_asym | done].
  - constructor; [by constructor|]. constructor; [done|].
    eapply Forall_impl; [exact Hy|]. intros z Hz. by eapply less_ge_trans.
Qed.

Lemma stable_sort_sorted {A} (less : A → A → bool) `{!LessOrder less} l :
  StronglySorted (λ a b, less b a = false) (stable_sort less l).
Proof. induction l; simpl; [constructor | by apply sort_insert_sorted]. Qed.

Lemma stable_sort_head {A} (less : A → A → bool) `{!LessOrder less} l x t :
  stable_sort less l = x :: t → x ∈ l ∧ ∀ y, y ∈ l → y = x ∨ less y x = false.
Proof.
  intros E. pose proof (stable_sort_perm less l) as P.
  pose proof (stable_sort_sorted less l) as S. rewrite E in P, S.
  apply StronglySorted_inv in S as [_ S]. rewrite Forall_forall in S.
  split; [rewrite <-P; left|]. intros y. rewrite <-P.
  intros [->|?]%elem_of_cons; auto.
Qed.

Lemma stable_sort_nil {A} (less : A → A → bool) l : stable_sort less l = [] ↔ l = [].
Proof.
  split; [intros E|by intros ->].
  apply Permutation_nil_r. by rewrite <-E, stable_sort_perm.
Qed.

Lemma stable_sort_elem_of {A} (less : A → A → bool) l x : x ∈ stable_sort less l ↔ x ∈ l.
Proof. by rewrite stable_sort_perm. Qed.

(** When [less] separates distinct elements, the sorted list does not
    depend on the order of the input. *)
Lemma stable_sort_unique {A} (less : A → A → bool) `{!LessOrder less} (l1 l2 : list A) :
  (∀ a b, a ∈ l1 → b ∈ l1 → less a b = false → less b a = false → a = b) →
  l1 ≡ₚ l2 → stable_sort less l1 = stable_sort less l2.
Proof.
  intros Htot P.
  eapply StronglySorted_unique_strong;
    [|apply stable_sort_sorted, _|apply stable_sort_sorted, _|].
  - intros a b. rewrite !stable_sort_elem_of, <-P. eauto.
  - by rewrite !stable_sort_perm.
Qed.

(** Sorting by a key and then reading the keys is sorting the keys. *)
Lemma stable_sort_map {A B} (f : A → B) (less : B → B → bool) l :
  f <$> stable_sort (λ a b, less (f a) (f b)) l = stable_sort less (f <$> l).
Proof.
  assert (∀ x l', f <$> sort_insert (λ a b, less (f a) (f b)) x l' =
                  sort_insert less (f x) (f <$> l')) as Hins.
  { intros x l'. induction l' as [|y l' IH]; simpl; [done|].
    destruct (less (f y) (f x)); csimpl; by rewrite ?IH. }
  induction l as [|x l IH]; csimpl; [done|]. by rewrite Hins, IH.
Qed.

(** ** Lemmas: the byte-wise string order *)
Lemma ascii_compare_refl a : Ascii.compare a a = Eq.
Proof. unfold Ascii.compare. apply N.compare_refl. Qed.

Lemma ascii_compare_lt_trans a b c :
  Ascii.compare a b = Lt → Ascii.compare b c = Lt → Ascii.compare a c = Lt.
Proof. unfold Ascii.compare. rewrite !N.compare_lt_iff. lia. Qed.

Lemma str_compare_refl s : String.compare s s = Eq.
Proof. induction s; simpl; [done|]. by rewrite ascii_compare_refl. Qed.

Lemma str_compare_lt_trans a b c :
  String.compare a b = Lt → String.compare b c = Lt → String.compare a c = Lt.
Proof.
  revert b c. induction a as [|x a IH]; intros [|y b] [|z c]; simpl; try done.
  destruct (Ascii.compare x y) eqn:Exy; try done.
  - apply Ascii.compare_eq_iff in Exy as ->.
    destruct (Ascii.compare y z) eqn:Eyz; try done. apply IH.
  - intros _. destruct (Ascii.compare y z) eqn:Eyz; try done.
    + apply Ascii.compare_eq_iff in Eyz as ->. by rewrite Exy.
    + by rewrite (ascii_compare_lt_trans _ _ _ Exy Eyz).
Qed.

Lemma str_lt_compare a b : str_lt a b = true ↔ String.compare a b = Lt.
Proof. unfold str_lt, String.ltb. destruct (String.compare a b); split; done. Qed.

Lemma str_lt_irrefl a : str_lt a a = false.
Proof. unfold str_lt, String.ltb. by rewrite str_compare_refl. Qed.

Lemma str_lt_total a b : str_lt a b = false → str_lt b a = false → a = b.
Proof.
  unfold str_lt, String.ltb. rewrite (String.compare_antisym b a).
  destruct (String.compare a b) eqn:E; simpl; try done.
  intros _ _. by apply String.compare_eq_iff.
Qed.

Lemma str_lt_trans a b c : str_lt a b = true → str_lt b c = true → str_lt a c = true.
Proof. rewrite !str_lt_compare. apply str_compare_lt_trans. Qed.

Lemma str_lt_asym a b : str_lt a b = true → str_lt b a = false.
Proof.
  intros H. destruct (str_lt b a) eqn:E; [|done].
  pose proof (str_lt_trans _ _ _ H E) as F. by rewrite str_lt_irrefl in F.
Qed.

#[export] Instance str_lt_order : LessOrder str_lt.
Proof.
  split; [apply str_lt_asym|]. intros a b c Hba Hcb.
  destruct (str_lt c a) eqn:E; [|done].
  destruct (str_lt a b) eqn:Eab.
  - by rewrite (str_lt_trans _ _ _ E Eab) in Hcb.
  - rewrite (str_lt_total a b Eab Hba) in E. congruence.
Qed.

#[export] Hint Resolve str_lt_asym str_lt_irrefl : sv.

(** ** Lemmas: 64-bit integers *)
Lemma wrap64_id z : in_int64 z → wrap64 z = z.
Proof. unfold in_int64, wrap64, int64_min, int64_max. intros. rewrite Z.mod_small; lia. Qed.

Lemma wrap64_range z : in_int64 (wrap64 z).
Proof.
  unfold in_int64, wrap64, int64_min, int64_max.
  pose proof (Z.mod_pos_bound (z + 2 ^ 63) (2 ^ 64)). lia.
Qed.
