(* ===== verification/GoStrings.v ===== *)
(** * The part of Go's [strings], [utf8] and [strconv] the program uses

    A Go string is a sequence of bytes, here [string]: every character
    is one byte.  The functions keep Go's names.  Byte-level functions
    (prefixes, splitting, trimming an ASCII cutset) need no decoding;
    [TrimSpace], [Fields] and the rune map of [safeSegment] follow the
    UTF-8 decoding of [utf8.DecodeRuneInString]. *)
From S2P Require Import Prelude.

Module Str.

(** ** Bytes *)
Definition byte_of (c : ascii) : Z := Z.of_N (N_of_ascii c).

Definition byte_in (lo hi : Z) (c : ascii) : bool :=
  (lo <=? byte_of c)%Z && (byte_of c <=? hi)%Z.

Definition ascii_eqb (a b : ascii) : bool := Ascii.eqb a b.

Definition is_empty (s : string) : bool :=
  match s with EmptyString => true | _ => false end.

(** ** Prefixes and suffixes *)
Fixpoint HasPrefix (s prefix : string) {struct prefix} : bool :=
  match prefix, s with
  | EmptyString, _ => true
  | String _ _, EmptyString => false
  | String p prefix', String c s' => ascii_eqb c p && HasPrefix s' prefix'
  end.

Fixpoint str_drop (n : nat) (s : string) : string :=
  match n, s with
  | S n', String _ s' => str_drop n' s'
  | _, _ => s
  end.

Fixpoint str_take (n : nat) (s : string) : string :=
  match n, s with
  | S n', String c s' => String c (str_take n' s')
  | _, _ => EmptyString
  end.

Definition TrimPrefix (s prefix : string) : string :=
  if HasPrefix s prefix then str_drop (String.length prefix) s else s.

Definition HasSuffix (s suffix : string) : bool :=
  (String.length suffix <=? String.length s)%nat &&
  String.eqb (str_drop (String.length s - String.length suffix) s) suffix.

Definition TrimSuffix (s suffix : string) : string :=
  if HasSuffix s suffix then str_take (String.length s - String.length suffix) s else s.

Fixpoint Contains (s sub : string) : bool :=
  HasPrefix s sub || match s with EmptyString => false | String _ s' => Contains s' sub end.

(** ** Searching and replacing *)
Fixpoint has_byte (c : ascii) (s : string) : bool :=
  match s with
  | EmptyString => false
  | String d s' => ascii_eqb d c || has_byte c s'
  end.

(** [strings.ContainsAny s chars] for ASCII [chars]. *)
Fixpoint ContainsAny (s chars : string) : bool :=
  match s with
  | EmptyString => false
  | String c s' => has_byte c chars || ContainsAny s' chars
  end.

(** [strings.Index s marker] for a one-byte marker; [None] is Go's -1. *)
Fixpoint IndexByte (s : string) (c : ascii) : option nat :=
  match s with
  | EmptyString => None
  | String d s' => if ascii_eqb d c then Some 0 else S <$> IndexByte s' c
  end.

Fixpoint LastIndexByte (s : string) (c : ascii) : option nat :=
  match s with
  | EmptyString => None
  | String d s' =>
      match LastIndexByte s' c with
      | Some i => Some (S i)
      | None => if ascii_eqb d c then Some 0 else None
      end
  end.

(** [strings.ReplaceAll] of a non-empty [old]: the leftmost
    non-overlapping occurrences.  [skip] counts the bytes of an
    occurrence still to be dropped. *)
Fixpoint replace_from (old new : string) (skip : nat) (s : string) : string :=
  match s with
  | EmptyString => EmptyString
  | String c s' =>
      match skip with
      | S k => replace_from old new k s'
      | O => if HasPrefix s old
             then new +:+ replace_from old new (String.length old - 1) s'
             else String c (replace_from old new 0 s')
      end
  end.

Definition ReplaceAll (s old new : string) : string := replace_from old new 0 s.

(** [strings.Replace s old new 1] of a non-empty [old]. *)
Fixpoint ReplaceFirst (s old new : string) : string :=
  if HasPrefix s old then new +:+ str_drop (String.length old) s
  else match s with
       | EmptyString => EmptyString
       | String c s' => String c (ReplaceFirst s' old new)
       end.

Fixpoint map_bytes (f : ascii → ascii) (s : string) : string :=
  match s with
  | EmptyString => EmptyString
  | String c s' => String (f c) (map_bytes f s')
  end.

(** [strings.ReplaceAll(s, "\\", "/")], which the program applies to
    every path and pattern. *)
Definition slash_of_backslash (c : ascii) : ascii :=
  if ascii_eqb c "\" then "/"%char else c.

Definition ToSlashes (s : string) : string := map_bytes slash_of_backslash s.

(** ** Trimming a set of bytes *)
Fixpoint TrimLeft (p : ascii → bool) (s : string) : string :=
  match s with
  | EmptyString => EmptyString
  | String c s' => if p c then TrimLeft p s' else s
  end.

Fixpoint TrimRight (p : ascii → bool) (s : string) : string :=
  match s with
  | EmptyString => EmptyString
  | String c s' =>
      match TrimRight p s' with
      | EmptyString => if p c then EmptyString else String c EmptyString
      | t => String c t
      end
  end.

Definition Trim (p : ascii → bool) (s : string) : string := TrimRight p (TrimLeft p s).

Definition is_slash (c : ascii) : bool := ascii_eqb c "/".
Definition is_dash_dot (c : ascii) : bool := ascii_eqb c "-" || ascii_eqb c ".".

(** ** Splitting and joining *)
Fixpoint Split (sep : ascii) (s : string) : list string :=
  match s with
  | EmptyString => [EmptyString]
  | String c s' =>
      if ascii_eqb c sep then EmptyString :: Split sep s'
      else match Split sep s' with
           | [] => [String c EmptyString]
           | w :: ws => String c w :: ws
           end
  end.

Fixpoint Join (sep : string) (l : list string) : string :=
  match l with
  | [] => EmptyString
  | [w] => w
  | w :: l' => w +:+ sep +:+ Join sep l'
  end.

(** ** White space: the UTF-8 encodings of the runes of [unicode.IsSpace] *)
Definition bytes (l : list Z) : string :=
  foldr (λ z s, String (ascii_of_N (Z.to_N z)) s) EmptyString l.

Definition space_encodings : list string := map bytes
  ([[9]; [10]; [11]; [12]; [13]; [32];
    [194; 133]; [194; 160]; [225; 154; 128]] ++
   map (λ b, [226; 128; b]) [128; 129; 130; 131; 132; 133; 134; 135; 136; 137; 138; 168; 169; 175] ++
   [[226; 129; 159]; [227; 128; 128]])%Z.

(** Number of bytes of the space at the head of [s], 0 if there is none. *)
Definition space_width (s : string) : nat :=
  match List.find (HasPrefix s) space_encodings with
  | Some e => String.length e
  | None => 0
  end.

Fixpoint trim_space_left (skip : nat) (s : string) : string :=
  match s with
  | EmptyString => EmptyString
  | String c s' =>
      match skip with
      | S k => trim_space_left k s'
      | O => match space_width s with
             | O => s
             | S k => trim_space_left k s'
             end
      end
  end.

Fixpoint trim_space_right (s : string) : string :=
  match s with
  | EmptyString => EmptyString
  | String c s' =>
      if is_empty (trim_space_left 0 s) then EmptyString
      else String c (trim_space_right s')
  end.

Definition TrimSpace (s : string) : string := trim_space_right (trim_space_left 0 s).

(** [strings.Fields]: the maximal space-free runs. [cur] is the field
    being read, in reverse. *)
Definition push_field (cur : list ascii) (fs : list string) : list string :=
  match cur with
  | [] => fs
  | _ => String.string_of_list_ascii (rev cur) :: fs
  end.

Fixpoint fields_from (skip : nat) (cur : list ascii) (s : string) : list string :=
  match s with
  | EmptyString => push_field cur []
  | String c s' =>
      match skip with
      | S k => fields_from k cur s'
      | O => match space_width s with
             | O => fields_from 0 (c :: cur) s'
             | S k => push_field cur (fields_from k [] s')
             end
      end
  end.

Definition Fields (s : string) : list string := fields_from 0 [] s.

(** ** Runes *)
Definition rune_error : Z := 65533%Z.

Definition nth_byte (s : string) (i : nat) : Z :=
  match String.get i s with Some c => byte_of c | None => 0%Z end.

Definition cont (b : Z) : bool := (128 <=? b)%Z && (b <=? 191)%Z.

(** [utf8.DecodeRuneInString]: the first rune and its width; an invalid
    encoding is [rune_error] of width 1. *)
Definition DecodeRune (s : string) : Z * nat :=
  match s with
  | EmptyString => (rune_error, 0)
  | String _ _ =>
      let b0 := nth_byte s 0 in let b1 := nth_byte s 1 in
      let b2 := nth_byte s 2 in let b3 := nth_byte s 3 in
      if (b0 <? 128)%Z then (b0, 1)
      else if (194 <=? b0)%Z && (b0 <=? 223)%Z then
        if cont b1 then ((b0 - 192) * 64 + (b1 - 128), 2%nat)%Z else (rune_error, 1)
      else if (224 <=? b0)%Z && (b0 <=? 239)%Z then
        if ((if (b0 =? 224) then 160 else 128) <=? b1)%Z &&
           (b1 <=? (if (b0 =? 237) then 159 else 191))%Z && cont b2
        then ((b0 - 224) * 4096 + (b1 - 128) * 64 + (b2 - 128), 3%nat)%Z
        else (rune_error, 1)
      else if (240 <=? b0)%Z && (b0 <=? 244)%Z then
        if ((if (b0 =? 240) then 144 else 128) <=? b1)%Z &&
           (b1 <=? (if (b0 =? 244) then 143 else 191))%Z && cont b2 && cont b3
        then ((b0 - 240) * 262144 + (b1 - 128) * 4096 + (b2 - 128) * 64 + (b3 - 128), 4%nat)%Z
        else (rune_error, 1)
      else (rune_error, 1)
  end.

(** [strings.Map f s] where [f] sends every rune to an ASCII byte. *)
Fixpoint map_runes_from (f : Z → ascii) (skip : nat) (s : string) : string :=
  match s with
  | EmptyString => EmptyString
  | String _ s' =>
      match skip with
      | S k => map_runes_from f k s'
      | O => let '(r, n) := DecodeRune s in
             String (f r) (map_runes_from f (n - 1) s')
      end
  end.

Definition MapRunes (f : Z → ascii) (s : string) : string := map_runes_from f 0 s.

(** [strings.ToLower].  Two runes outside ASCII have an ASCII lower
    case: U+212A (KELVIN SIGN) and U+0130 (I WITH DOT ABOVE).  Every
    other one lowers to a rune outside ASCII; its bytes are left alone
    here, which none of the uses can tell apart: they compare the
    result with ASCII constants or replace whole runs of non-ASCII
    bytes. *)
Definition lower_byte (c : ascii) : ascii :=
  if byte_in 65 90 c then ascii_of_N (N_of_ascii c + 32) else c.

Fixpoint lower_from (skip : nat) (s : string) : string :=
  match s with
  | EmptyString => EmptyString
  | String c s' =>
      match skip with
      | S k => lower_from k s'
      | O => if HasPrefix s (bytes [226; 132; 170]%Z) then String "k" (lower_from 2 s')
             else if HasPrefix s (bytes [196; 176]%Z) then String "i" (lower_from 1 s')
             else String (lower_byte c) (lower_from 0 s')
      end
  end.

Definition ToLower (s : string) : string := lower_from 0 s.

(** ** Numbers *)
Definition digit_of (base : Z) (c : ascii) : option Z :=
  let d := (byte_of c - 48)%Z in
  if (0 <=? d)%Z && (d <? base)%Z && (d <=? 9)%Z then Some d else None.

Fixpoint digits_from (base acc : Z) (s : string) : option Z :=
  match s with
  | EmptyString => Some acc
  | String c s' =>
      match digit_of base c with
      | Some d => digits_from base (acc * base + d)%Z s'
      | None => None
      end
  end.

(** [strconv.ParseUint(s, base, bits)] for a base of at most ten. *)
Definition ParseUint (base bits : Z) (s : string) : option Z :=
  if is_empty s then None
  else match digits_from base 0 s with
       | Some v => if (v <? 2 ^ bits)%Z then Some v else None
       | None => None
       end.

(** [strconv.ParseInt(s, 10, 64)] and [strconv.Atoi] on a 64-bit
    platform: an optional sign, then decimal digits, in range. *)
Definition ParseInt64 (s : string) : option Z :=
  let '(neg, t) :=
    match s with
    | String c t => if ascii_eqb c "-" then (true, t)
                    else if ascii_eqb c "+" then (false, t) else (false, s)
    | EmptyString => (false, s)
    end in
  if is_empty t then None
  else match digits_from 10 0 t with
       | Some v =>
           if neg then (if (v <=? 2 ^ 63)%Z then Some (- v)%Z else None)
           else (if (v <? 2 ^ 63)%Z then Some v else None)
       | None => None
       end.

Definition Atoi (s : string) : option Z := ParseInt64 s.

(** [strconv.FormatInt(z, 10)]. *)
Definition FormatInt (z : Z) : string := pretty z.

(** [strconv.FormatUint(z, 8)]; 22 octal digits hold any 64-bit value. *)
Fixpoint octal_from (fuel : nat) (z : Z) (acc : string) : string :=
  match fuel with
  | O => acc
  | S n => let acc' := String (ascii_of_N (Z.to_N (z mod 8 + 48))) acc in
           if (z <? 8)%Z then acc' else octal_from n (z / 8)%Z acc'
  end.

Definition FormatOctal (z : Z) : string := octal_from 22 z EmptyString.

Definition FormatBool (b : bool) : string := if b then "true" else "false".

(** ** Predicates on the bytes of a string *)
Fixpoint all_bytes (p : ascii → bool) (s : string) : bool :=
  match s with
  | EmptyString => true
  | String c s' => p c && all_bytes p s'
  end.

Definition first_byte (s : string) : option ascii :=
  match s with EmptyString => None | String c _ => Some c end.

Fixpoint last_byte (s : string) : option ascii :=
  match s with
  | EmptyString => None
  | String c EmptyString => Some c
  | String _ s' => last_byte s'
  end.

(** ** Lemmas: bytes *)
Lemma ascii_eqb_eq a b : ascii_eqb a b = true ↔ a = b.
Proof. apply Ascii.eqb_eq. Qed.

Lemma ascii_eqb_neq a b : ascii_eqb a b = false ↔ a ≠ b.
Proof. apply Ascii.eqb_neq. Qed.

Lemma ascii_eqb_refl a : ascii_eqb a a = true.
Proof. apply Ascii.eqb_refl. Qed.

(** Decides a property of one byte by trying all 256. *)
Ltac byte_cases c := destruct c as [[] [] [] [] [] [] [] []]; vm_compute.

Lemma is_empty_spec s : is_empty s = true ↔ s = "".
Proof. by destruct s. Qed.

Lemma is_empty_false s : is_empty s = false ↔ s ≠ "".
Proof. by destruct s. Qed.

Lemma DecodeRune_ascii c s :
  (byte_of c <? 128)%Z = true → DecodeRune (String c s) = (byte_of c, 1).
Proof.
  intros H. unfold DecodeRune. change (nth_byte (String c s) 0) with (byte_of c).
  by rewrite H.
Qed.

(** ** Lemmas: concatenation *)
Lemma str_app_nil_l s : "" +:+ s = s.
Proof. done. Qed.

Lemma str_app_nil_r s : s +:+ "" = s.
Proof. induction s; simpl; congruence. Qed.

Lemma str_app_assoc a b c : (a +:+ b) +:+ c = a +:+ (b +:+ c).
Proof. induction a; simpl; congruence. Qed.

Lemma str_length_app a b : String.length (a +:+ b) = String.length a + String.length b.
Proof. induction a; simpl; congruence. Qed.

Lemma str_app_eq_nil a b : a +:+ b = "" → a = "" ∧ b = "".
Proof. by destruct a. Qed.

Lemma str_app_inj_l a b c : a +:+ b = a +:+ c → b = c.
Proof. induction a; simpl; [done|]. intros [= ?]; auto. Qed.

Lemma str_app_inj_r a b c : a +:+ c = b +:+ c → a = b.
Proof.
  revert b. induction a as [|x a IH]; intros [|y b] E; simpl in E; [done|..].
  - apply (f_equal String.length) in E; simpl in E; rewrite str_length_app in E; lia.
  - apply (f_equal String.length) in E; simpl in E; rewrite str_length_app in E; lia.
  - injection E as -> E. f_equal. auto.
Qed.

Lemma str_length_nil s : String.length s = 0 ↔ s = "".
Proof. by destruct s. Qed.

Lemma str_take_drop n s : str_take n s +:+ str_drop n s = s.
Proof. revert s. induction n; intros [|c s]; simpl; f_equal; auto. Qed.

Lemma str_take_app a b : str_take (String.length a) (a +:+ b) = a.
Proof. induction a; simpl; [by destruct b|congruence]. Qed.

Lemma str_drop_app a b : str_drop (String.length a) (a +:+ b) = b.
Proof. induction a; simpl; [by destruct b|done]. Qed.

Lemma str_take_ge n s : String.length s ≤ n → str_take n s = s.
Proof. revert s. induction n; intros [|c s]; simpl; intros; f_equal; auto with lia. Qed.

Lemma str_length_take n s : String.length (str_take n s) = min n (String.length s).
Proof. revert s. induction n; intros [|c s]; simpl; auto. Qed.

Lemma str_length_drop n s : String.length (str_drop n s) = String.length s - n.
Proof. revert s. induction n; intros [|c s]; simpl; auto. Qed.

(** ** Lemmas: prefixes and suffixes *)
Lemma HasPrefix_spec s p : HasPrefix s p = true ↔ ∃ t, s = p +:+ t.
Proof.
  revert s. induction p as [|c p IH]; intros s.
  - split; [by exists s|done].
  - destruct s as [|d s]; simpl; [by split; [|intros [? ?]]|].
    rewrite andb_true_iff, ascii_eqb_eq, IH. split.
    + intros [-> [t ->]]. by exists t.
    + intros [t [= -> ->]]. eauto.
Qed.

Lemma HasPrefix_app p t : HasPrefix (p +:+ t) p = true.
Proof. apply HasPrefix_spec. eauto. Qed.

Lemma TrimPrefix_app p t : TrimPrefix (p +:+ t) p = t.
Proof. unfold TrimPrefix. by rewrite HasPrefix_app, str_drop_app. Qed.

Lemma HasSuffix_spec s p : HasSuffix s p = true ↔ ∃ t, s = t +:+ p.
Proof.
  unfold HasSuffix. rewrite andb_true_iff, Nat.leb_le, String.eqb_eq. split.
  - intros [_ E]. eexists (str_take _ s). pattern p at 2. rewrite <-E. symmetry. apply str_take_drop.
  - intros [t ->]. rewrite str_length_app. split; [lia|].
    replace (_ + _ - _) with (String.length t) by lia. apply str_drop_app.
Qed.

Lemma TrimSuffix_app t p : TrimSuffix (t +:+ p) p = t.
Proof.
  unfold TrimSuffix. rewrite (proj2 (HasSuffix_spec _ _)) by eauto.
  rewrite str_length_app. replace (_ + _ - _) with (String.length t) by lia. apply str_take_app.
Qed.

(** ** Lemmas: [all_bytes] *)
Lemma all_bytes_app p a b : all_bytes p (a +:+ b) = all_bytes p a && all_bytes p b.
Proof. induction a; simpl; [done|]. by rewrite IHa, andb_assoc. Qed.

Lemma all_bytes_mono (p q : ascii → bool) s :
  (∀ c, p c = true → q c = true) → all_bytes p s = true → all_bytes q s = true.
Proof. intros H. induction s; simpl; [done|]. rewrite !andb_true_iff. intros []. auto. Qed.

Lemma all_bytes_take p n s : all_bytes p s = true → all_bytes p (str_take n s) = true.
Proof.
  revert s. induction n; intros [|c s]; simpl; [done..|].
  rewrite !andb_true_iff. intros []. auto.
Qed.

Lemma all_bytes_TrimLeft p q s : all_bytes p s = true → all_bytes p (TrimLeft q s) = true.
Proof.
  induction s; simpl; [done|]. destruct (q a); [|done].
  rewrite andb_true_iff. intros []. auto.
Qed.

Lemma TrimRight_prefix q s : ∃ t, s = TrimRight q s +:+ t.
Proof.
  induction s as [|c s [t IH]]; simpl; [by exists ""|].
  destruct (TrimRight q s) as [|d u] eqn:E.
  - destruct (q c); [by eexists|]. by exists s.
  - exists t. simpl. rewrite IH at 1. done.
Qed.

Lemma all_bytes_TrimRight p q s : all_bytes p s = true → all_bytes p (TrimRight q s) = true.
Proof.
  destruct (TrimRight_prefix q s) as [t E]. rewrite E at 1.
  rewrite all_bytes_app, andb_true_iff. by intros [].
Qed.

Lemma all_bytes_Trim p q s : all_bytes p s = true → all_bytes p (Trim q s) = true.
Proof. intros. by apply all_bytes_TrimRight, all_bytes_TrimLeft. Qed.

Lemma has_byte_all c s : has_byte c s = negb (all_bytes (λ d, negb (ascii_eqb d c)) s).
Proof.
  induction s as [|d s IH]; simpl; [done|]. rewrite IH, negb_andb, negb_involutive. done.
Qed.

Lemma has_byte_app c a b : has_byte c (a +:+ b) = has_byte c a || has_byte c b.
Proof. induction a; simpl; [done|]. by rewrite IHa, orb_assoc. Qed.

(** ** Lemmas: trimming *)
Lemma TrimLeft_first p s c : first_byte (TrimLeft p s) = Some c → p c = false.
Proof.
  induction s as [|d s IH]; simpl; [done|]. destruct (p d) eqn:E; [done|]. by intros [= ->].
Qed.

Lemma TrimLeft_id p s : (∀ c, first_byte s = Some c → p c = false) → TrimLeft p s = s.
Proof. destruct s as [|c s]; simpl; [done|]. intros H. by rewrite H. Qed.

Lemma TrimRight_first p s c :
  first_byte s = Some c → p c = false → first_byte (TrimRight p s) = Some c.
Proof.
  destruct s as [|d s]; simpl; [done|]. intros [= ->] Hc.
  destruct (TrimRight p s); simpl; [by rewrite Hc|done].
Qed.

Lemma TrimRight_last p s c : last_byte (TrimRight p s) = Some c → p c = false.
Proof.
  induction s as [|d s IH]; simpl; [done|].
  destruct (TrimRight p s) as [|e u] eqn:E; [|done].
  destruct (p d) eqn:Ed; [done|]. by intros [= ->].
Qed.

Lemma TrimRight_id p s : (∀ c, last_byte s = Some c → p c = false) → TrimRight p s = s.
Proof.
  induction s as [|d s IH]; simpl; [done|]. destruct s as [|e s].
  - simpl. intros H. by rewrite H.
  - intros H. rewrite IH; [done|]. intros c Hc. by apply H.
Qed.

Lemma Trim_first p s c : first_byte (Trim p s) = Some c → p c = false.
Proof.
  unfold Trim. intros H. destruct (TrimLeft p s) as [|d u] eqn:E; [done|].
  assert (p d = false) as Hd by (apply (TrimLeft_first p s); by rewrite E).
  rewrite (TrimRight_first p (String d u) d) in H; [by simplify_eq|done..].
Qed.

Lemma Trim_last p s c : last_byte (Trim p s) = Some c → p c = false.
Proof. apply TrimRight_last. Qed.

Lemma Trim_id p s :
  (∀ c, first_byte s = Some c → p c = false) →
  (∀ c, last_byte s = Some c → p c = false) → Trim p s = s.
Proof. intros. unfold Trim. rewrite TrimLeft_id by done. by apply TrimRight_id. Qed.

Lemma Trim_nonempty p s c : first_byte s = Some c → p c = false → Trim p s ≠ "".
Proof.
  intros Hf Hc E. unfold Trim in E.
  rewrite TrimLeft_id in E by (intros ? ?; congruence).
  pose proof (TrimRight_first p s c Hf Hc) as H. by rewrite E in H.
Qed.

Lemma first_byte_take n s c : first_byte s = Some c → first_byte (str_take (S n) s) = Some c.
Proof. by destruct s. Qed.

Lemma first_byte_Some s : s ≠ "" → ∃ c, first_byte s = Some c.
Proof. destruct s; simpl; eauto. done. Qed.

Lemma length_Trim p s : String.length (Trim p s) ≤ String.length s.
Proof.
  transitivity (String.length (TrimLeft p s)).
  - unfold Trim. destruct (TrimRight_prefix p (TrimLeft p s)) as [t E].
    rewrite E at 2. rewrite str_length_app. lia.
  - induction s as [|c s IH]; simpl; [done|]. destruct (p c); simpl; lia.
Qed.

Lemma last_byte_app a b : b ≠ "" → last_byte (a +:+ b) = last_byte b.
Proof.
  intros Hb. induction a as [|c a IH]; [done|]. simpl.
  destruct (a +:+ b) eqn:E; [|done]. by apply str_app_eq_nil in E as [_ ->].
Qed.

#[export] Hint Resolve all_bytes_take all_bytes_Trim all_bytes_TrimLeft all_bytes_TrimRight : sv.

End Str.
