(* ===== verification/GoPath.v ===== *)
(** * Go's [path] and [path/filepath] on Unix, as far as the program uses them

    [Clean], [Join], [Dir] and [Rel] are lexical: they are written on
    the list of slash-separated elements.  [Match] is the glob matcher
    of package [path], chunk by chunk, with the bad-pattern error. *)
From S2P Require Import Prelude GoStrings.

Module Path.
Import Str.

(** ** Clean *)
Definition slash : ascii := "/"%char.

Definition IsAbs (p : string) : bool := HasPrefix p "/".

(** One element of the path; [acc] holds the elements kept so far, last
    one first. *)
Definition clean_step (rooted : bool) (acc : list string) (c : string) : list string :=
  if is_empty c || String.eqb c "." then acc
  else if String.eqb c ".." then
    match acc with
    | [] => if rooted then [] else [".."]
    | x :: acc' => if String.eqb x ".." then ".." :: acc else acc'
    end
  else c :: acc.

Definition clean_elems (rooted : bool) (l : list string) : list string :=
  rev (foldl (clean_step rooted) [] l).

Definition elems (p : string) : list string := clean_elems (IsAbs p) (Split slash p).

(** The path with the given elements. *)
Definition unsplit (rooted : bool) (l : list string) : string :=
  if rooted then "/" +:+ Join "/" l
  else match l with [] => "." | _ => Join "/" l end.

Definition Clean (p : string) : string := unsplit (IsAbs p) (elems p).

(** [path.Join]: empty arguments are dropped, the rest is cleaned. *)
Definition join (l : list string) : string :=
  match filter (λ s, is_empty s = false) l with
  | [] => EmptyString
  | l' => Clean (Join "/" l')
  end.

(** [filepath.Dir]: the elements before the last slash, cleaned. *)
Definition Dir (p : string) : string :=
  match LastIndexByte p slash with
  | Some i => Clean (str_take (S i) p)
  | None => "."
  end.

(** ** Rel *)
Fixpoint strip_common (b t : list string) : list string * list string :=
  match b, t with
  | x :: b', y :: t' => if String.eqb x y then strip_common b' t' else (b, t)
  | _, _ => (b, t)
  end.

(** The elements [Rel] walks over: [Clean] keeps "." for the empty
    relative path, which [Rel] drops for the base only. *)
Definition rel_base_elems (p : string) : list string := elems p.
Definition rel_targ_elems (p : string) : list string :=
  match elems p with
  | [] => if IsAbs p then [] else ["."]
  | l => l
  end.

Definition Rel (base targ : string) : result string :=
  if String.eqb (Clean targ) (Clean base) then Ok "."
  else if negb (Bool.eqb (IsAbs base) (IsAbs targ)) then
    Err (Errorf "Rel: can't make %s relative to %s" [targ; base])
  else
    let '(b, t) := strip_common (rel_base_elems base) (rel_targ_elems targ) in
    match b with
    | ".." :: _ => Err (Errorf "Rel: can't make %s relative to %s" [targ; base])
    | _ => Ok (Join "/" (map (λ _, "..") b ++ t))
    end.

(** ** Match *)
Inductive match_result : Type :=
| BadPattern
| NoMatch
| Rest (rest : string).

(** [scanChunk]: the leading stars, the chunk up to the next star
    outside a class, and what is left. *)
Fixpoint skip_stars (p : string) : bool * string :=
  match p with
  | String c p' => if ascii_eqb c "*" then (true, snd (skip_stars p')) else (false, p)
  | EmptyString => (false, EmptyString)
  end.

Fixpoint scan (inrange esc : bool) (p : string) : string * string :=
  match p with
  | EmptyString => (EmptyString, EmptyString)
  | String c p' =>
      let continue inrange' esc' :=
        let '(chunk, rest) := scan inrange' esc' p' in (String c chunk, rest) in
      if esc then continue inrange false
      else if ascii_eqb c "\" then continue inrange true
      else if ascii_eqb c "[" then continue true false
      else if ascii_eqb c "]" then continue false false
      else if ascii_eqb c "*" && negb inrange then (EmptyString, p)
      else continue inrange false
  end.

Definition scanChunk (p : string) : bool * string * string :=
  let '(star, p') := skip_stars p in
  let '(chunk, rest) := scan false false p' in (star, chunk, rest).

(** [getEsc]: one possibly escaped character of a class. *)
Definition getEsc (chunk : string) : option (Z * string) :=
  match chunk with
  | EmptyString => None
  | String c t =>
      if ascii_eqb c "-" || ascii_eqb c "]" then None
      else
        let chunk' := if ascii_eqb c "\" then t else chunk in
        if is_empty chunk' then None
        else
          let '(r, n) := DecodeRune chunk' in
          if (r =? rune_error)%Z && (n =? 1)%nat then None
          else let rest := str_drop n chunk' in
               if is_empty rest then None else Some (r, rest)
  end.

(** The ranges of a class up to the closing bracket: what follows it
    and whether [r] is in one of them. *)
Fixpoint ranges (fuel : nat) (r : Z) (first found : bool) (chunk : string)
  : option (string * bool) :=
  match fuel with
  | O => None
  | S fuel' =>
      match chunk with
      | String "]" rest =>
          if first then None (* [getEsc] refuses the bracket *) else Some (rest, found)
      | _ =>
          match getEsc chunk with
          | None => None
          | Some (lo, chunk1) =>
              match chunk1 with
              | String "-" chunk2 =>
                  match getEsc chunk2 with
                  | None => None
                  | Some (hi, chunk3) =>
                      ranges fuel' r false (found || (lo <=? r)%Z && (r <=? hi)%Z) chunk3
                  end
              | _ => ranges fuel' r false (found || (lo =? r)%Z) chunk1
              end
          end
      end
  end.

(** [matchChunk]: [failed] keeps checking the syntax of the chunk once
    the match has failed. *)
Fixpoint matchChunk (fuel : nat) (failed : bool) (chunk s : string) : match_result :=
  match fuel with
  | O => BadPattern
  | S fuel' =>
      match chunk with
      | EmptyString => if failed then NoMatch else Rest s
      | String c chunk' =>
          let failed := failed || is_empty s in
          if ascii_eqb c "[" then
            let '(r, n) := if failed then (0%Z, 0) else DecodeRune s in
            let '(negated, chunk1) :=
              match chunk' with
              | String "^" t => (true, t)
              | _ => (false, chunk')
              end in
            match ranges (S (String.length chunk1)) r true false chunk1 with
            | None => BadPattern
            | Some (chunk2, found) =>
                matchChunk fuel' (failed || Bool.eqb found negated) chunk2 (str_drop n s)
            end
          else if ascii_eqb c "?" then
            matchChunk fuel' (failed || HasPrefix s "/") chunk'
              (if failed then s else str_drop (snd (DecodeRune s)) s)
          else
            let lit :=
              if ascii_eqb c "\" then
                match chunk' with
                | EmptyString => None
                | String d t => Some (d, t)
                end
              else Some (c, chunk') in
            match lit with
            | None => BadPattern
            | Some (d, t) =>
                matchChunk fuel' (failed || negb (HasPrefix s (String d EmptyString))) t (str_drop 1 s)
            end
      end
  end.

Definition match_chunk (chunk s : string) : match_result :=
  matchChunk (S (String.length chunk)) false chunk s.

(** After a star: skip bytes of [name], never a slash, until the chunk
    matches; the last chunk must reach the end of [name]. *)
Fixpoint star_search (chunk : string) (last : bool) (name : string) : match_result :=
  match name with
  | EmptyString => NoMatch
  | String c name' =>
      if ascii_eqb c "/" then NoMatch
      else match match_chunk chunk name' with
           | BadPattern => BadPattern
           | NoMatch => star_search chunk last name'
           | Rest t => if last && negb (is_empty t) then star_search chunk last name' else Rest t
           end
  end.

Fixpoint match_from (fuel : nat) (pattern name : string) : bool :=
  match fuel with
  | O => is_empty name
  | S fuel' =>
      if is_empty pattern then is_empty name
      else
        let '(star, chunk, rest) := scanChunk pattern in
        if star && is_empty chunk then negb (has_byte slash name)
        else
          let last := is_empty rest in
          match match_chunk chunk name with
          | BadPattern => false
          | Rest t =>
              if negb last || is_empty t then match_from fuel' rest t
              else if star then
                match star_search chunk last name with
                | Rest t' => match_from fuel' rest t'
                | _ => false
                end
              else false
          | NoMatch =>
              if star then
                match star_search chunk last name with
                | Rest t' => match_from fuel' rest t'
                | _ => false
                end
              else false
          end
  end.

(** The boolean result of [path.Match]; a malformed pattern gives
    [false], as at the program's only call.  Every round but the last
    consumes a byte of the pattern. *)
Definition Match (pattern name : string) : bool :=
  match_from (S (String.length pattern)) pattern name.

(** ** Specification of clean paths *)

(** An element that names a child: not empty, not a dot element, no
    slash. *)
Definition good_elem (e : string) : Prop :=
  e ≠ "" ∧ e ≠ "." ∧ e ≠ ".." ∧ has_byte slash e = false.

(** The elements of a cleaned path: names only, after some ".." when the
    path is relative. *)
Definition clean_form (rooted : bool) (l : list string) : Prop :=
  ∃ n gs, l = replicate n ".." ++ gs ∧ Forall good_elem gs ∧ (rooted = true → n = 0).

(** [full] is [root] or lies below it. *)
Definition inside (root full : string) : bool :=
  String.eqb full root || HasPrefix full (root +:+ "/").

(** ** Lemmas: splitting *)
Lemma Split_ne sep s : Split sep s ≠ [].
Proof. destruct s; simpl; [done|]. destruct (ascii_eqb a sep); [done|]. by destruct (Split sep s). Qed.

Lemma Split_no_sep s : Forall (λ e, has_byte slash e = false) (Split slash s).
Proof.
  induction s as [|c s IH]; simpl; [by repeat constructor|].
  destruct (ascii_eqb c slash) eqn:E; [by constructor|].
  destruct (Split slash s) as [|w ws]; [by repeat constructor; cbn; rewrite E|].
  inversion IH; subst. constructor; [|done]. cbn. by rewrite E.
Qed.

Lemma Split_app a b : Split slash (a +:+ "/" +:+ b) = Split slash a ++ Split slash b.
Proof.
  assert (Split slash ("/" +:+ b) = [""] ++ Split slash b) as Hb by done.
  revert Hb. generalize ("/" +:+ b) as t. intros t Hb.
  induction a as [|c a IH]; simpl; [done|].
  destruct (ascii_eqb c slash); [by rewrite IH|]. rewrite IH.
  destruct (Split slash a) eqn:E; [by apply Split_ne in E|done].
Qed.

Lemma Split_single e : has_byte slash e = false → Split slash e = [e].
Proof.
  induction e as [|c e IH]; simpl; [done|]. rewrite orb_false_iff. intros [-> H].
  by rewrite (IH H).
Qed.

Lemma Split_Join l :
  l ≠ [] → Forall (λ e, has_byte slash e = false) l → Split slash (Join "/" l) = l.
Proof.
  intros Hne. induction l as [|e l IH]; [done|]. intros [He Hl]%Forall_cons.
  destruct l as [|e' l]; [by apply Split_single|].
  change (Join "/" (e :: e' :: l)) with (e +:+ "/" +:+ Join "/" (e' :: l)).
  rewrite Split_app, Split_single, IH by done. done.
Qed.

Lemma Join_Split s : Join "/" (Split slash s) = s.
Proof.
  induction s as [|c s IH]; simpl; [done|].
  destruct (ascii_eqb c slash) eqn:E.
  - apply ascii_eqb_eq in E as ->. destruct (Split slash s) eqn:E; [by apply Split_ne in E|].
    cbn in *. by rewrite IH.
  - destruct (Split slash s) as [|w ws] eqn:Es; [by apply Split_ne in Es|].
    destruct ws; cbn in *; by rewrite <-IH.
Qed.

Lemma Join_app l m : l ≠ [] → m ≠ [] → Join "/" (l ++ m) = Join "/" l +:+ "/" +:+ Join "/" m.
Proof.
  intros Hl Hm. induction l as [|e l IH]; [done|]. destruct l as [|e' l].
  - simpl. by destruct m.
  - change (Join "/" ((e :: e' :: l) ++ m)) with (e +:+ "/" +:+ Join "/" ((e' :: l) ++ m)).
    rewrite IH by done. cbn [Join]. by rewrite !str_app_assoc.
Qed.

(** ** Lemmas: cleaning *)
Lemma clean_step_good r acc e : good_elem e → clean_step r acc e = e :: acc.
Proof.
  intros (H1 & H2 & H3 & _). unfold clean_step.
  rewrite (proj2 (is_empty_false e) H1), (proj2 (String.eqb_neq e ".") H2),
    (proj2 (String.eqb_neq e "..") H3). done.
Qed.

Lemma foldl_good r acc gs : Forall good_elem gs → foldl (clean_step r) acc gs = rev gs ++ acc.
Proof.
  intros H. revert acc. induction H as [|e gs He _ IH]; intros acc; [done|].
  cbn [foldl]. rewrite clean_step_good, IH by done. simpl. by rewrite <-app_assoc.
Qed.

Lemma rev_replicate {A} n (x : A) : rev (replicate n x) = replicate n x.
Proof.
  induction n as [|n IH]; [done|]. cbn. rewrite IH. by rewrite replicate_cons_app.
Qed.

Lemma clean_step_form r acc c :
  has_byte slash c = false → clean_form r (rev acc) → clean_form r (rev (clean_step r acc c)).
Proof.
  intros Hc (n & gs & E & Hgs & Hr). unfold clean_step.
  destruct (is_empty c || String.eqb c ".") eqn:E0; [by exists n, gs|].
  apply orb_false_iff in E0 as [E1 E2].
  apply is_empty_false in E1. apply String.eqb_neq in E2.
  destruct (String.eqb c "..") eqn:E3.
  - destruct acc as [|x acc].
    + destruct r; [by exists 0, []|]. exists 1, []. by repeat split.
    + simpl in E. destruct (String.eqb x "..") eqn:Ex.
      * apply String.eqb_eq in Ex as ->. destruct (decide (gs = [])) as [->|Hne].
        -- exists (S n), []. split; [|split; [done|]].
           ++ cbn [rev]. rewrite E, !app_nil_r. by rewrite <-replicate_S_end.
           ++ intros ->. rewrite Hr in E by done. simpl in E. by destruct (rev acc).
        -- destruct (exists_last Hne) as (gs' & g & ->). rewrite app_assoc in E.
           apply app_inj_tail in E as [_ <-]. apply Forall_app in Hgs as [_ [Hg _]%Forall_cons].
           by destruct Hg as (_ & _ & ? & _).
      * destruct (decide (gs = [])) as [->|Hne].
        -- destruct n as [|n]; [by destruct (rev acc)|]. rewrite app_nil_r, replicate_S_end in E.
           apply app_inj_tail in E as [_ ->]. by rewrite String.eqb_refl in Ex.
        -- destruct (exists_last Hne) as (gs' & g & ->). rewrite app_assoc in E.
           apply app_inj_tail in E as [E _]. apply Forall_app in Hgs as [Hgs _].
           by exists n, gs'.
  - exists n, (gs ++ [c]). cbn [rev]. rewrite E, app_assoc. repeat split; [|done].
    apply Forall_app. split; [done|]. repeat constructor; try done. by apply String.eqb_neq.
Qed.

Lemma elems_form p : clean_form (IsAbs p) (elems p).
Proof.
  unfold elems, clean_elems. generalize (IsAbs p) as r. intros r.
  assert (∀ l acc, Forall (λ e, has_byte slash e = false) l → clean_form r (rev acc) →
    clean_form r (rev (foldl (clean_step r) acc l))) as H.
  { induction l as [|c l IH]; intros acc; [done|]. intros [Hc Hl]%Forall_cons Hacc.
    apply IH; [done|]. by apply clean_step_form. }
  apply H; [apply Split_no_sep|]. by exists 0, [].
Qed.

Lemma clean_elems_id r l : clean_form r l → clean_elems r l = l.
Proof.
  intros (n & gs & -> & Hgs & Hr). unfold clean_elems.
  assert (foldl (clean_step r) [] (replicate n "..") = replicate n "..") as Hdd.
  { destruct r; [by rewrite Hr|]. clear.
    assert (∀ k, foldl (clean_step false) (replicate k "..") (replicate n "..") =
                 replicate (n + k) "..") as H.
    { induction n as [|n IH]; intros k; [done|]. cbn [replicate foldl].
      replace (clean_step false (replicate k "..") "..") with (replicate (S k) "..")
        by (by destruct k). rewrite IH. f_equal. lia. }
    specialize (H 0). cbn [replicate] in H. rewrite H. f_equal. lia. }
  rewrite foldl_app, Hdd, foldl_good by done.
  by rewrite rev_app_distr, rev_involutive, rev_replicate.
Qed.

Lemma clean_form_no_slash r l : clean_form r l → Forall (λ e, has_byte slash e = false) l.
Proof.
  intros (n & gs & -> & Hgs & _). apply Forall_app; split; [by apply Forall_replicate|].
  eapply Forall_impl; [done|]. by intros e (_ & _ & _ & ?).
Qed.

Lemma clean_form_ne r l e : clean_form r l → e ∈ l → e ≠ "".
Proof.
  intros (n & gs & -> & Hgs & _). rewrite elem_of_app, elem_of_replicate.
  intros [[-> _]|He]; [done|]. rewrite Forall_forall in Hgs. by apply Hgs.
Qed.

Lemma IsAbs_elem e s : e ≠ "" → has_byte slash e = false → IsAbs (e +:+ s) = false.
Proof.
  destruct e as [|c e]; [done|]. intros _. unfold slash. cbn. rewrite orb_false_iff.
  by intros [-> _].
Qed.

Lemma IsAbs_unsplit r l : clean_form r l → IsAbs (unsplit r l) = r.
Proof.
  intros Hl. destruct r; [reflexivity|]. destruct l as [|e l]; [done|].
  pose proof (clean_form_no_slash _ _ Hl) as [He _]%Forall_cons.
  pose proof (clean_form_ne _ _ e Hl ltac:(left)) as Hne. unfold unsplit.
  destruct l as [|e' l]; [rewrite <-(str_app_nil_r (Join "/" [e]))|]; by apply IsAbs_elem.
Qed.

Lemma elems_unsplit r l : clean_form r l → elems (unsplit r l) = l.
Proof.
  intros Hl. unfold elems. rewrite IsAbs_unsplit by done.
  pose proof (clean_form_no_slash _ _ Hl) as Hs.
  destruct l as [|e l]; [by destruct r|].
  unfold unsplit. destruct r.
  - change ("/" +:+ Join "/" (e :: l)) with ("" +:+ "/" +:+ Join "/" (e :: l)).
    rewrite Split_app, Split_Join by done. cbn [Split app].
    unfold clean_elems. cbn [foldl]. apply (clean_elems_id _ _ Hl).
  - rewrite Split_Join by done. by apply clean_elems_id.
Qed.

Lemma Clean_idemp p : Clean (Clean p) = Clean p.
Proof.
  unfold Clean at 1. pose proof (elems_form p) as H. unfold Clean.
  by rewrite IsAbs_unsplit, elems_unsplit by done.
Qed.

Lemma elems_Clean p : elems (Clean p) = elems p.
Proof. apply elems_unsplit, elems_form. Qed.

Lemma IsAbs_Clean p : IsAbs (Clean p) = IsAbs p.
Proof. apply IsAbs_unsplit, elems_form. Qed.

(** Appending names to a path. *)
Lemma elems_app_good p gs :
  p ≠ "" → Forall good_elem gs → gs ≠ [] → 
  IsAbs (p +:+ "/" +:+ Join "/" gs) = IsAbs p ∧
  elems (p +:+ "/" +:+ Join "/" gs) = elems p ++ gs.
Proof.
  intros Hp Hgs Hne.
  assert (IsAbs (p +:+ "/" +:+ Join "/" gs) = IsAbs p) as HA by (by destruct p).
  split; [done|]. unfold elems. rewrite HA. unfold clean_elems.
  rewrite Split_app, Split_Join, foldl_app, foldl_good; [|done|done|].
  - by rewrite rev_app_distr, rev_involutive.
  - eapply Forall_impl; [done|]. by intros ? (_ & _ & _ & ?).
Qed.

Lemma unsplit_app r l gs :
  l ≠ [] → gs ≠ [] → unsplit r (l ++ gs) = unsplit r l +:+ "/" +:+ Join "/" gs.
Proof.
  intros Hl Hgs. unfold unsplit. rewrite Join_app by done. destruct r.
  - by rewrite !str_app_assoc.
  - destruct l; [done|]. by destruct gs.
Qed.

Lemma inside_app root gs :
  inside root (root +:+ "/" +:+ gs) = true.
Proof.
  unfold inside. rewrite orb_true_iff. right. rewrite <-str_app_assoc. apply HasPrefix_app.
Qed.

Lemma inside_refl root : inside root root = true.
Proof. unfold inside. by rewrite String.eqb_refl. Qed.

Lemma Join_ne l : Forall good_elem l → l ≠ [] → Join "/" l ≠ "".
Proof.
  intros Hl Hne. destruct l as [|g l]; [done|]. apply Forall_cons in Hl as [(Hg & _) _].
  destruct l; [done|]. cbn. by destruct g.
Qed.

(** [filepath.Join(root, gs...)] for a cleaned root that has elements. *)
Lemma join_good root gs :
  elems root ≠ [] → Forall good_elem gs → gs ≠ [] →
  join [root; Join "/" gs] = Clean root +:+ "/" +:+ Join "/" gs.
Proof.
  intros Hr Hgs Hne.
  assert (root ≠ "") as Hroot by (by intros ->).
  assert (Join "/" gs ≠ "") as Hj by (by apply Join_ne).
  unfold join. rewrite !filter_cons_True by (by apply is_empty_false). cbn [filter].
  change (filter _ []) with (@nil string). cbn [Join].
  destruct (elems_app_good root gs) as [HA HE]; [done..|].
  unfold Clean. rewrite HA, HE. by apply unsplit_app.
Qed.

(** Joining names only. *)
Lemma join_goods l : Forall good_elem l → l ≠ [] → join l = Join "/" l.
Proof.
  intros Hl Hne. unfold join.
  assert (filter (λ s, is_empty s = false) l = l) as ->.
  { clear Hne. induction Hl as [|e l (He & _) _ IH]; [done|].
    rewrite filter_cons_True by (by apply is_empty_false). by rewrite IH. }
  assert (clean_form false l) as Hf by (by exists 0, l).
  destruct l as [|e l]; [done|].
  change (Join "/" (e :: l)) with (unsplit false (e :: l)). unfold Clean.
  by rewrite elems_unsplit, IsAbs_unsplit.
Qed.

#[export] Hint Resolve elems_form inside_refl inside_app : sv.

(** Proves [Forall good_elem] of a list of elements known to be good. *)
Ltac good_elems :=
  repeat first [apply List.Forall_nil | apply List.Forall_cons];
  auto with sv; try (by repeat split).

(** ** Lemmas: patterns without wildcards *)
Definition literal_byte (c : ascii) : bool :=
  negb (ascii_eqb c "*" || ascii_eqb c "?" || ascii_eqb c "[" || ascii_eqb c "\").

Lemma scan_literal s r : all_bytes literal_byte s = true → scan r false s = (s, EmptyString).
Proof.
  revert r. induction s as [|c s IH]; intros r; cbn; [done|].
  intros [Hc Hs]%andb_true_iff. unfold literal_byte in Hc. apply negb_true_iff in Hc.
  rewrite !orb_false_iff in Hc. destruct Hc as [[[-> _] ->] ->].
  rewrite !IH by done. cbn [andb]. by destruct (ascii_eqb c "]").
Qed.

Lemma matchChunk_literal pat s failed fuel :
  all_bytes literal_byte pat = true → String.length pat < fuel →
  matchChunk fuel failed pat s =
  if failed then NoMatch
  else if HasPrefix s pat then Rest (str_drop (String.length pat) s) else NoMatch.
Proof.
  revert s failed fuel. induction pat as [|c pat IH]; intros s failed [|fuel]; try (cbn; lia).
  - by destruct s.
  - cbn [all_bytes matchChunk String.length]. intros [Hc Hp]%andb_true_iff Hlen.
    unfold literal_byte in Hc. apply negb_true_iff in Hc. rewrite !orb_false_iff in Hc.
    destruct Hc as [[[_ ->] ->] ->]. rewrite IH by (done || lia).
    destruct s as [|d s]; cbn; [by rewrite !orb_true_r; destruct failed|].
    destruct failed; [done|]. destruct (ascii_eqb d c); cbn; [by destruct s|done].
Qed.

Lemma Match_literal pat s : all_bytes literal_byte pat = true → Match pat s = String.eqb s pat.
Proof.
  intros H. unfold Match. destruct pat as [|c pat]; [by destruct s|].
  assert (skip_stars (String c pat) = (false, String c pat)) as Hss.
  { cbn in *. apply andb_true_iff in H as [Hc _]. unfold literal_byte in Hc.
    apply negb_true_iff in Hc. rewrite !orb_false_iff in Hc. by destruct Hc as [[[-> _] _] _]. }
  revert H Hss. generalize (String c pat) as p. intros p H Hss.
  destruct p as [|c0 p0]; [by destruct s|]. revert H Hss.
  remember (String c0 p0) as p eqn:Ep. intros H Hss. cbn [match_from].
  replace (is_empty p) with false by (by subst p).
  unfold scanChunk. rewrite Hss, scan_literal by done. cbn [andb].
  unfold match_chunk. rewrite matchChunk_literal by (done || lia).
  destruct (HasPrefix s p) eqn:E.
  - apply HasPrefix_spec in E as [t ->]. rewrite str_drop_app. cbn [is_empty negb orb].
    destruct t as [|d t]; cbn [is_empty].
    + rewrite str_app_nil_r, String.eqb_refl. by destruct (String.length p).
    + symmetry. apply String.eqb_neq. intros Hp. apply (f_equal String.length) in Hp.
      rewrite str_length_app in Hp. cbn in Hp. lia.
  - symmetry. apply String.eqb_neq. intros ->.
    pose proof (HasPrefix_app p "") as F. rewrite str_app_nil_r in F. congruence.
Qed.

(** Containment is transitive, and two containers of one path contain one
    another. *)
Lemma inside_spec a b : inside a b = true ↔ b = a ∨ ∃ t, b = a +:+ "/" +:+ t.
Proof.
  unfold inside. rewrite orb_true_iff, String.eqb_eq, HasPrefix_spec.
  by setoid_rewrite str_app_assoc.
Qed.

Lemma inside_trans a b c : inside a b = true → inside b c = true → inside a c = true.
Proof.
  rewrite !inside_spec. intros [->|[t ->]] [->|[u ->]]; eauto.
  right. exists (t +:+ "/" +:+ u). by rewrite !str_app_assoc.
Qed.

Lemma str_app_split a b x y :
  a +:+ x = b +:+ y → (∃ k, b = a +:+ k ∧ x = k +:+ y) ∨ (∃ k, a = b +:+ k ∧ y = k +:+ x).
Proof.
  revert b. induction a as [|c a IH]; intros b H; [left; by exists b|].
  destruct b as [|d b]; [right; by exists (String c a)|]. cbn in H. injection H as <- H.
  destruct (IH b H) as [(k & -> & E)|(k & -> & E)]; [left|right]; by exists k.
Qed.

Lemma inside_comparable a b c :
  inside a c = true → inside b c = true → inside a b = true ∨ inside b a = true.
Proof.
  assert (∀ k u v, "/" +:+ u = k +:+ v → k = "" ∨ ∃ k', k = "/" +:+ k') as Hk.
  { intros [|d k] u v; [by left|]. cbn. intros [= <- _]. right. by exists k. }
  rewrite !inside_spec. intros [->|[t ->]] [Hb|[u Hu]]; [subst; eauto..|].
  destruct (str_app_split _ _ _ _ Hu) as [(k & -> & E)|(k & -> & E)];
    apply Hk in E as [->|[k' ->]]; rewrite ?str_app_nil_r; eauto.
Qed.

End Path.
