(* ===== verification/GoUrl.v ===== *)
(** * Go's [net/url], as far as the program uses it

    Addresses are parsed ([Parse]), resolved against a base
    ([ResolveReference]) and written ([URL_String]); query parameters are
    encoded ([QueryEscape], [Encode]) and read back ([ParseQuery]).  The
    functions follow the package, with its seven places of an address that
    differ in what they escape.  A parsed address keeps the path twice, as
    the package does: unescaped, and as it was written if that is not the
    usual way to write it. *)
From S2P Require Import Prelude GoStrings GoPath.

Module Url.
Import Str Path.

Inductive encoding : Type :=
| encodePath | encodeHost | encodeZone | encodeUserPassword | encodeQueryComponent | encodeFragment.

(** ** Bytes *)
Definition among (chars : string) (c : ascii) : bool := has_byte c chars.
Definition alphanumeric (c : ascii) : bool :=
  byte_in 97 122 c || byte_in 65 90 c || byte_in 48 57 c.
Definition double_quote : ascii := ascii_of_N 34.
Definition percent : ascii := "%".

Definition in_host (mode : encoding) : bool :=
  match mode with encodeHost | encodeZone => true | _ => false end.

(** [shouldEscape] *)
Definition shouldEscape (c : ascii) (mode : encoding) : bool :=
  if alphanumeric c then false
  else if in_host mode && (among "!$&'()*+,;=:[]<>" c || ascii_eqb c double_quote) then false
  else if among "-_.~" c then false
  else if among "$&+,/:;=?@" c then
    match mode with
    | encodePath => ascii_eqb c "?"
    | encodeUserPassword => among "@/?:" c
    | encodeFragment => false
    | encodeHost | encodeZone | encodeQueryComponent => true
    end
  else match mode with encodeFragment => negb (among "!()*" c) | _ => true end.

Definition hexadecimal (c : ascii) : bool := byte_in 48 57 c || byte_in 97 102 c || byte_in 65 70 c.
Definition unhex (c : ascii) : Z :=
  if byte_in 48 57 c then (byte_of c - 48)%Z
  else if byte_in 97 102 c then (byte_of c - 87)%Z
  else (byte_of c - 55)%Z.
Definition upperhex (d : Z) : ascii := ascii_of_N (Z.to_N (if (d <? 10)%Z then 48 + d else 55 + d)%Z).
Definition of_hex (h l : ascii) : ascii := ascii_of_N (Z.to_N (unhex h * 16 + unhex l)%Z).

(** ** Escaping *)
Fixpoint escape (s : string) (mode : encoding) : string :=
  match s with
  | EmptyString => ""
  | String c s =>
      if shouldEscape c mode then
        if ascii_eqb c " " && match mode with encodeQueryComponent => true | _ => false end
        then String "+" (escape s mode)
        else String percent (String (upperhex (byte_of c / 16)%Z)
               (String (upperhex (byte_of c mod 16)%Z) (escape s mode)))
      else String c (escape s mode)
  end.

(** A byte that is not escaped may stand in the host only if it need not
    be; an escaped one only if it is not ASCII, or the percent sign of a
    zone. *)
Definition allowed_plain (c : ascii) (mode : encoding) : bool :=
  negb (in_host mode && (byte_of c <? 128)%Z && shouldEscape c mode).

Definition percent25 (h l : ascii) : bool := ascii_eqb h "2" && ascii_eqb l "5".

Definition allowed_escape (h l : ascii) (mode : encoding) : bool :=
  match mode with
  | encodeHost => percent25 h l || negb (unhex h <? 8)%Z
  | encodeZone => percent25 h l || ascii_eqb (of_hex h l) " " || negb (shouldEscape (of_hex h l) encodeHost)
  | _ => true
  end.

Definition EscapeError (text : string) : error := Errorf "invalid URL escape %q" [text].

(** [unescape]: the first bad byte decides about the error. *)
Fixpoint unescape (s : string) (mode : encoding) : result string :=
  match s with
  | EmptyString => Ok ""
  | String c rest =>
      if ascii_eqb c percent then
        match rest with
        | String h (String l rest') =>
            if hexadecimal h && hexadecimal l then
              if allowed_escape h l mode then
                t <-? unescape rest' mode ;; Ok (String (of_hex h l) t)
              else Err (EscapeError (String c (String h (String l ""))))
            else Err (EscapeError (str_take 3 s))
        | _ => Err (EscapeError (str_take 3 s))
        end
      else if ascii_eqb c "+" && match mode with encodeQueryComponent => true | _ => false end then
        t <-? unescape rest mode ;; Ok (String " " t)
      else if allowed_plain c mode then t <-? unescape rest mode ;; Ok (String c t)
      else Err (Errorf "invalid character %q in host name" [String c ""])
  end.

Definition QueryEscape (s : string) : string := escape s encodeQueryComponent.
Definition QueryUnescape (s : string) : result string := unescape s encodeQueryComponent.

(** ** Addresses *)
Record Userinfo : Type := mkUserinfo {
  ui_username : string;
  ui_password : option string;
}.

Record URL : Type := mkURL {
  u_Scheme : string;
  u_Opaque : string;
  u_User : option Userinfo;
  u_Host : string;
  u_Path : string;
  u_RawPath : string;
  u_OmitHost : bool;
  u_ForceQuery : bool;
  u_RawQuery : string;
  u_Fragment : string;
  u_RawFragment : string;
}.

(** [strings.Cut] at one byte. *)
Fixpoint Cut (s : string) (sep : ascii) : string * option string :=
  match s with
  | EmptyString => ("", None)
  | String c s =>
      if ascii_eqb c sep then ("", Some s)
      else let '(before, after) := Cut s sep in (String c before, after)
  end.

Definition ctl_byte (c : ascii) : bool := (byte_of c <? 32)%Z || (byte_of c =? 127)%Z.

(** [getScheme]; [first] is true at the start. *)
Fixpoint scheme_from (first : bool) (s : string) : option (string * string) :=
  match s with
  | EmptyString => None
  | String c rest =>
      if byte_in 97 122 c || byte_in 65 90 c || (negb first && (byte_in 48 57 c || among "+-." c))
      then option_map (λ r, (String c (fst r), snd r)) (scheme_from false rest)
      else if ascii_eqb c ":" && negb first then Some ("", rest) else None
  end.

Definition getScheme (s : string) : result (string * string) :=
  if HasPrefix s ":" then Err (Errorf "missing protocol scheme" [])
  else Ok (default ("", s) (scheme_from true s)).

Definition validOptionalPort (port : string) : bool :=
  match port with
  | EmptyString => true
  | String c digits => ascii_eqb c ":" && all_bytes (byte_in 48 57) digits
  end.

Definition userinfo_byte (c : ascii) : bool := alphanumeric c || among "-._:~!$&'()*+,;=%@" c.

(** [strings.Index] of a text. *)
Fixpoint Index (s sub : string) : option nat :=
  if HasPrefix s sub then Some 0
  else match s with EmptyString => None | String _ s => S <$> Index s sub end.

(** [parseHost] *)
Definition parseHost (host : string) : result string :=
  let bad_port colonPort := Err (Errorf "invalid port %q after host" [colonPort]) in
  if HasPrefix host "[" then
    match LastIndexByte host "]" with
    | None => Err (Errorf "missing ']' in host" [])
    | Some i =>
        let colonPort := str_drop (S i) host in
        if negb (validOptionalPort colonPort) then bad_port colonPort
        else match Index (str_take i host) "%25" with
             | Some zone =>
                 host1 <-? unescape (str_take zone host) encodeHost ;;
                 host2 <-? unescape (str_drop zone (str_take i host)) encodeZone ;;
                 host3 <-? unescape (str_drop i host) encodeHost ;;
                 Ok (host1 +:+ host2 +:+ host3)
             | None => unescape host encodeHost
             end
    end
  else match LastIndexByte host ":" with
       | Some i => if validOptionalPort (str_drop i host) then unescape host encodeHost
                   else bad_port (str_drop i host)
       | None => unescape host encodeHost
       end.

(** [parseAuthority] *)
Definition parseAuthority (authority : string) : result (option Userinfo * string) :=
  match LastIndexByte authority "@" with
  | None => host <-? parseHost authority ;; Ok (None, host)
  | Some i =>
      host <-? parseHost (str_drop (S i) authority) ;;
      let userinfo := str_take i authority in
      if negb (all_bytes userinfo_byte userinfo) then Err (Errorf "net/url: invalid userinfo" [])
      else match Cut userinfo ":" with
           | (name, None) =>
               name <-? unescape name encodeUserPassword ;; Ok (Some (mkUserinfo name None), host)
           | (name, Some password) =>
               name <-? unescape name encodeUserPassword ;;
               password <-? unescape password encodeUserPassword ;;
               Ok (Some (mkUserinfo name (Some password)), host)
           end
  end.

(** [setPath] and [setFragment]: the value, and how it was written if
    that is not the usual way. *)
Definition set_escaped (p : string) (mode : encoding) : result (string * string) :=
  path <-? unescape p mode ;;
  Ok (path, if String.eqb p (escape path mode) then "" else p).

(** [parse(rawURL, false)] *)
Definition parse_rest (scheme rest : string) (force : bool) (query : string) : result URL :=
  if negb (HasPrefix rest "/") && negb (is_empty scheme) then
    Ok (mkURL scheme rest None "" "" "" false force query "" "")
  else if negb (HasPrefix rest "/") && has_byte ":" (fst (Cut rest "/")) then
    Err (Errorf "first path segment in URL cannot contain colon" [])
  else
    let with_authority := (negb (is_empty scheme) || negb (HasPrefix rest "///")) && HasPrefix rest "//" in
    let '(authority, path) :=
      if with_authority then
        match Cut (str_drop 2 rest) "/" with
        | (authority, Some path) => (authority, "/" +:+ path)
        | (authority, None) => (authority, "")
        end
      else ("", rest) in
    parsed <-? (if with_authority then parseAuthority authority else Ok (None, "")) ;;
    split <-? set_escaped path encodePath ;;
    Ok (mkURL scheme "" (fst parsed) (snd parsed) (fst split) (snd split)
          (negb with_authority && negb (is_empty scheme)) force query "" "").

Definition parse (rawURL : string) : result URL :=
  if negb (all_bytes (λ c, negb (ctl_byte c)) rawURL) then
    Err (Errorf "net/url: invalid control character in URL" [])
  else if String.eqb rawURL "*" then Ok (mkURL "" "" None "" "*" "" false false "" "" "")
  else
    split <-? getScheme rawURL ;;
    let '(scheme, rest) := split in
    match Cut rest "?" with
    | (path, Some "") => parse_rest (ToLower scheme) path true ""
    | (path, query) => parse_rest (ToLower scheme) path false (default "" query)
    end.

(** [Parse]; the error of the package names the address. *)
Definition Parse (rawURL : string) : result URL :=
  let '(u, frag) := Cut rawURL "#" in
  match parse u with
  | Err e => Err (Wrapf "parse %q: %w" [u] e)
  | Ok url =>
      match default "" frag with
      | "" => Ok url
      | frag =>
          match set_escaped frag encodeFragment with
          | Err e => Err (Wrapf "parse %q: %w" [rawURL] e)
          | Ok (fragment, raw) =>
              Ok (mkURL (u_Scheme url) (u_Opaque url) (u_User url) (u_Host url) (u_Path url) (u_RawPath url)
                    (u_OmitHost url) (u_ForceQuery url) (u_RawQuery url) fragment raw)
          end
      end
  end.

(** ** Writing an address *)
Definition valid_byte (mode : encoding) (c : ascii) : bool :=
  among "!$&'()*+,;=:@[]%" c || negb (shouldEscape c mode).
Definition validEncoded (s : string) (mode : encoding) : bool := all_bytes (valid_byte mode) s.

(** [EscapedPath] and [EscapedFragment] *)
Definition escaped_as (value raw : string) (mode : encoding) : string :=
  if negb (is_empty raw) && validEncoded raw mode &&
     match unescape raw mode with Ok p => String.eqb p value | Err _ => false end
  then raw
  else match mode with
       | encodePath => if String.eqb value "*" then "*" else escape value mode
       | _ => escape value mode
       end.

Definition EscapedPath (u : URL) : string := escaped_as (u_Path u) (u_RawPath u) encodePath.
Definition EscapedFragment (u : URL) : string := escaped_as (u_Fragment u) (u_RawFragment u) encodeFragment.

Definition Userinfo_String (ui : Userinfo) : string :=
  escape (ui_username ui) encodeUserPassword +:+
  match ui_password ui with
  | Some password => ":" +:+ escape password encodeUserPassword
  | None => ""
  end.

Definition has_user (u : URL) : bool := match u_User u with Some _ => true | None => false end.

(** The part between the scheme and the path. *)
Definition authority_text (u : URL) : string :=
  if negb (is_empty (u_Scheme u)) || negb (is_empty (u_Host u)) || has_user u then
    if u_OmitHost u && is_empty (u_Host u) && negb (has_user u) then ""
    else (if negb (is_empty (u_Host u)) || negb (is_empty (u_Path u)) || has_user u then "//" else "") +:+
         match u_User u with Some ui => Userinfo_String ui +:+ "@" | None => "" end +:+
         escape (u_Host u) encodeHost
  else "".

(** [u.String()] *)
Definition URL_String (u : URL) : string :=
  let scheme := if is_empty (u_Scheme u) then "" else u_Scheme u +:+ ":" in
  (if negb (is_empty (u_Opaque u)) then scheme +:+ u_Opaque u
   else
     let start := scheme +:+ authority_text u in
     let path := EscapedPath u in
     let start := if negb (is_empty path) && negb (HasPrefix path "/") && negb (is_empty (u_Host u))
                  then start +:+ "/" else start in
     let start := if is_empty start && has_byte ":" (fst (Cut path "/")) then "./" else start in
     start +:+ path) +:+
  (if u_ForceQuery u || negb (is_empty (u_RawQuery u)) then "?" +:+ u_RawQuery u else "") +:+
  (if is_empty (u_Fragment u) then "" else "#" +:+ EscapedFragment u).

(** ** Resolving a reference *)

(** The loop of [resolvePath] over the elements: what was written after
    the first slash, and whether the next element is the first. *)
Fixpoint resolve_elems (l : list string) (dst : string) (first : bool) : string :=
  match l with
  | [] => dst
  | elem :: l =>
      if String.eqb elem "." then resolve_elems l dst false
      else if String.eqb elem ".." then
        match LastIndexByte dst "/" with
        | None => resolve_elems l "" true
        | Some i => resolve_elems l (str_take i dst) first
        end
      else resolve_elems l (dst +:+ (if first then "" else "/") +:+ elem) false
  end.

Definition resolvePath (base ref : string) : string :=
  let full :=
    if is_empty ref then base
    else if HasPrefix ref "/" then ref
    else str_take (match LastIndexByte base "/" with Some i => S i | None => 0 end) base +:+ ref in
  if is_empty full then ""
  else
    let elem := default "" (list.last (Split "/" full)) in
    let r := "/" +:+ resolve_elems (Split "/" full) "" true +:+
             (if String.eqb elem "." || String.eqb elem ".." then "/" else "") in
    if HasPrefix r "//" then str_drop 1 r else r.

(** [url.setPath(p)] with its error ignored: the path is left alone. *)
Definition with_path (u : URL) (p : string) : URL :=
  match set_escaped p encodePath with
  | Err _ => u
  | Ok (path, raw) =>
      mkURL (u_Scheme u) (u_Opaque u) (u_User u) (u_Host u) path raw (u_OmitHost u) (u_ForceQuery u)
        (u_RawQuery u) (u_Fragment u) (u_RawFragment u)
  end.

Definition with_scheme (u : URL) (scheme : string) : URL :=
  mkURL scheme (u_Opaque u) (u_User u) (u_Host u) (u_Path u) (u_RawPath u) (u_OmitHost u) (u_ForceQuery u)
    (u_RawQuery u) (u_Fragment u) (u_RawFragment u).
Definition with_opaque (u : URL) (opaque : string) : URL :=
  mkURL (u_Scheme u) opaque None "" "" (u_RawPath u) (u_OmitHost u) (u_ForceQuery u)
    (u_RawQuery u) (u_Fragment u) (u_RawFragment u).
Definition with_host (u : URL) (user : option Userinfo) (host : string) : URL :=
  mkURL (u_Scheme u) (u_Opaque u) user host (u_Path u) (u_RawPath u) (u_OmitHost u) (u_ForceQuery u)
    (u_RawQuery u) (u_Fragment u) (u_RawFragment u).
Definition with_query (u : URL) (query : string) : URL :=
  mkURL (u_Scheme u) (u_Opaque u) (u_User u) (u_Host u) (u_Path u) (u_RawPath u) (u_OmitHost u) (u_ForceQuery u)
    query (u_Fragment u) (u_RawFragment u).
Definition with_fragment (u : URL) (fragment raw : string) : URL :=
  mkURL (u_Scheme u) (u_Opaque u) (u_User u) (u_Host u) (u_Path u) (u_RawPath u) (u_OmitHost u) (u_ForceQuery u)
    (u_RawQuery u) fragment raw.

(** [u.ResolveReference(ref)] *)
Definition ResolveReference (u ref : URL) : URL :=
  let url := if is_empty (u_Scheme ref) then with_scheme ref (u_Scheme u) else ref in
  if negb (is_empty (u_Scheme ref)) || negb (is_empty (u_Host ref)) || has_user ref then
    with_path url (resolvePath (EscapedPath ref) "")
  else if negb (is_empty (u_Opaque ref)) then with_opaque url (u_Opaque url)
  else
    let bare := is_empty (u_Path ref) && negb (u_ForceQuery ref) && is_empty (u_RawQuery ref) in
    let url := if bare then with_query url (u_RawQuery u) else url in
    let url := if bare && is_empty (u_Fragment ref) then with_fragment url (u_Fragment u) (u_RawFragment u) else url in
    if is_empty (u_Path ref) && negb (is_empty (u_Opaque u)) then with_opaque url (u_Opaque u)
    else with_path (with_host url (u_User u) (u_Host u)) (resolvePath (EscapedPath u) (EscapedPath ref)).

(** ** Queries *)
(** [url.Values] is a map from keys to lists of values. *)
Definition values_get (v : gmap string (list string)) (key : string) : string :=
  match v !! key with Some (x :: _) => x | _ => "" end.
Definition values_all (v : gmap string (list string)) (key : string) : list string := default [] (v !! key).
Definition values_set (v : gmap string (list string)) (key value : string) : gmap string (list string) := <[key := [value]]> v.
Definition values_add (v : gmap string (list string)) (key value : string) : gmap string (list string) :=
  <[key := values_all v key ++ [value]]> v.

(** One piece of a query; one that cannot be read is left out, and the
    error is not looked at. *)
Definition query_piece (m : gmap string (list string)) (piece : string) : gmap string (list string) :=
  if has_byte ";" piece || is_empty piece then m
  else let '(key, value) := Cut piece "=" in
       match QueryUnescape key, QueryUnescape (default "" value) with
       | Ok key, Ok value => values_add m key value
       | _, _ => m
       end.

Definition ParseQuery (query : string) : gmap string (list string) := foldl query_piece ∅ (Split "&" query).

(** [u.Query()] *)
Definition Query (u : URL) : gmap string (list string) := ParseQuery (u_RawQuery u).

(** [v.Encode()] *)
Definition encode_key (v : gmap string (list string)) (key : string) : list string :=
  map (λ value, QueryEscape key +:+ "=" +:+ QueryEscape value) (values_all v key).

Definition Encode (v : gmap string (list string)) : string :=
  Join "&" (flat_map (encode_key v) (stable_sort str_lt (map fst (map_to_list v)))).

(** ** Hosts *)
(** [u.Hostname()] *)
Definition Hostname (u : URL) : string :=
  let host := match LastIndexByte (u_Host u) ":" with
              | Some i => if validOptionalPort (str_drop i (u_Host u)) then str_take i (u_Host u) else u_Host u
              | None => u_Host u
              end in
  if HasPrefix host "[" && HasSuffix host "]"
  then str_take (String.length host - 2) (str_drop 1 host) else host.

(** [net.JoinHostPort] *)
Definition JoinHostPort (host port : string) : string :=
  if has_byte ":" host then "[" +:+ host +:+ "]:" +:+ port else host +:+ ":" +:+ port.

(** ** Lemmas: escaping *)

(** Checks a property of one byte on all 256. *)
Ltac each_byte c := destruct c as [[] [] [] [] [] [] [] []]; vm_compute.

Lemma hex_back c :
  hexadecimal (upperhex (byte_of c / 16)) && hexadecimal (upperhex (byte_of c mod 16)) = true ∧
  of_hex (upperhex (byte_of c / 16)) (upperhex (byte_of c mod 16)) = c.
Proof. each_byte c; done. Qed.

(** A byte written as it is is not taken for an escape. *)
Lemma plain_back c mode : shouldEscape c mode = false → in_host mode = false →
  ascii_eqb c percent = false ∧
  ascii_eqb c "+" && match mode with encodeQueryComponent => true | _ => false end = false.
Proof. destruct mode; each_byte c; try done; discriminate. Qed.

(** What was escaped is read back. *)
Lemma unescape_escape s mode : in_host mode = false → unescape (escape s mode) mode = Ok s.
Proof.
  intros Hm. induction s as [|c s IH]; [done|]. cbn [escape].
  destruct (shouldEscape c mode) eqn:E.
  - destruct (ascii_eqb c " " && _) eqn:Es.
    + apply andb_true_iff in Es as [->%ascii_eqb_eq Eq]. destruct mode; try discriminate Eq.
      cbn [unescape]. rewrite IH. done.
    + cbn [unescape]. destruct (hex_back c) as [-> Ec].
      replace (allowed_escape _ _ mode) with true by (by destruct mode). rewrite IH. cbn [rbind].
      by rewrite Ec, ascii_eqb_refl.
  - destruct (plain_back c mode E Hm) as [E1 E2]. cbn [unescape]. rewrite E1, E2.
    unfold allowed_plain. rewrite Hm. cbn [negb andb]. by rewrite IH.
Qed.

Lemma unescape_app a b mode x :
  in_host mode = false → unescape a mode = Ok x → unescape (a +:+ b) mode = (y <-? unescape b mode ;; Ok (x +:+ y)).
Proof.
  intros Hm. revert x. remember (String.length a) as n eqn:En. revert a En.
  induction (lt_wf n) as [n _ IH]; intros a -> x. destruct a as [|c a]; cbn [unescape].
  { intros [= <-]. cbn. destruct (unescape b mode); reflexivity. }
  change (String c a +:+ b) with (String c (a +:+ b)). cbn [unescape].
  destruct (ascii_eqb c percent) eqn:Ep.
  - destruct a as [|h [|l a]]; try discriminate. change (String h (String l a) +:+ b) with (String h (String l (a +:+ b))). cbv beta iota.
    destruct (hexadecimal h && hexadecimal l); [|discriminate]. destruct (allowed_escape h l mode); [|discriminate].
    intros (y & Hy & [= <-])%rbind_ok. rewrite (IH (String.length a) ltac:(cbn; lia) a eq_refl y Hy).
    destruct (unescape b mode); reflexivity.
  - assert (∀ d, (t <-? unescape a mode ;; Ok (String d t)) = Ok x →
      (t <-? unescape (a +:+ b) mode ;; Ok (String d t)) = (y <-? unescape b mode ;; Ok (x +:+ y))) as Hstep.
    { intros d (y & Hy & [= <-])%rbind_ok. rewrite (IH (String.length a) ltac:(cbn; lia) a eq_refl y Hy).
      destruct (unescape b mode); reflexivity. }
    destruct (_ && _); [apply Hstep|]. destruct (allowed_plain c mode); [apply Hstep|discriminate].
Qed.
(** ** References to plain paths *)

(** A byte that stands for itself in an address. *)
Definition plain_byte (c : ascii) : bool := negb (among "%?#" c) && negb (ctl_byte c).
Definition query_free (c : ascii) : bool := negb (among "?#" c).
Definition dots (s : string) : bool := String.eqb s "." || String.eqb s "..".

(** A relative path of plain bytes without dot elements, which does not
    look like a scheme. *)
Record plain_reference (p : string) : Prop := {
  pr_ne : p ≠ "";
  pr_rel : HasPrefix p "/" = false;
  pr_bytes : all_bytes plain_byte p = true;
  pr_colon : has_byte ":" (fst (Cut p "/")) = false;
  pr_dots : Forall (λ s, dots s = false) (Split "/" p);
}.

Lemma Cut_none s c : has_byte c s = false → Cut s c = (s, None).
Proof.
  induction s as [|d s IH]; cbn; [done|]. intros [-> H]%orb_false_iff. by rewrite IH.
Qed.

Lemma Cut_more s c t x o : Cut s c = (x, o) → fst (Cut (s +:+ t) c) = match o with None => x +:+ fst (Cut t c) | Some _ => x end.
Proof.
  revert x. induction s as [|d s IH]; intros x; cbn [Cut].
  { intros [= <- <-]. done. }
  change (String d s +:+ t) with (String d (s +:+ t)). cbn [Cut].
  destruct (ascii_eqb d c); [by intros [= <- <-]|]. destruct (Cut s c) as [y o'] eqn:E. intros [= <- ->].
  specialize (IH y eq_refl). destruct (Cut (s +:+ t) c) as [z o2]. cbn [fst] in *. rewrite IH. by destruct o.
Qed.

Lemma bytes_without (f : ascii → bool) c s : all_bytes f s = true → f c = false → has_byte c s = false.
Proof.
  intros H Hc. rewrite has_byte_all. apply negb_false_iff. eapply all_bytes_mono; [|done].
  intros d Hd. apply negb_true_iff, ascii_eqb_neq. intros ->. congruence.
Qed.

Lemma scheme_colon s : ∀ first r, scheme_from first s = Some r → has_byte ":" (fst (Cut s "/")) = true.
Proof.
  induction s as [|c s IH]; intros first r; cbn [scheme_from Cut]; [discriminate|].
  destruct (ascii_eqb c "/") eqn:Es.
  { apply ascii_eqb_eq in Es as ->. destruct first; discriminate. }
  destruct (Cut s "/") as [before after] eqn:Ec. cbn [fst has_byte] in *.
  destruct (byte_in 97 122 c || _ || _).
  - destruct (scheme_from false s) eqn:E; [|discriminate]. intros _. rewrite (IH _ _ E). apply orb_true_r.
  - destruct (ascii_eqb c ":"); [done|discriminate].
Qed.

Lemma unescape_plain s mode :
  has_byte percent s = false → mode = encodePath → unescape s mode = Ok s.
Proof.
  intros H ->. induction s as [|c s IH]; [done|]. cbn [has_byte unescape] in *.
  apply orb_false_iff in H as [-> H]. rewrite andb_false_r. unfold allowed_plain. cbn [in_host andb negb].
  by rewrite IH.
Qed.

Lemma escape_query_free s : all_bytes query_free (escape s encodePath) = true.
Proof.
  induction s as [|c s IH]; [done|]. cbn [escape]. destruct (shouldEscape c encodePath) eqn:Es.
  - rewrite andb_false_r. cbn [all_bytes]. rewrite IH.
    assert (query_free (upperhex (byte_of c / 16)) && query_free (upperhex (byte_of c mod 16)) = true) as H.
    { each_byte c; done. }
    apply andb_true_iff in H as [-> ->]. done.
  - cbn [all_bytes]. rewrite IH, andb_true_r. revert Es. each_byte c; done.
Qed.

(** However a path is written, it is read as that path, and what is
    written contains no query or fragment. *)
Lemma escaped_as_back value raw :
  unescape (escaped_as value raw encodePath) encodePath = Ok value ∧
  all_bytes query_free (escaped_as value raw encodePath) = true ∧
  (escaped_as value raw encodePath = raw ∨ escaped_as value raw encodePath = value ∨
   escaped_as value raw encodePath = escape value encodePath).
Proof.
  unfold escaped_as. destruct (_ && _) eqn:E.
  - apply andb_true_iff in E as [[_ Hv]%andb_true_iff Hu].
    destruct (unescape raw encodePath) as [p|]; [|discriminate]. apply String.eqb_eq in Hu as ->.
    split; [done|]. split; [|auto]. eapply all_bytes_mono; [|exact Hv]. intros c. each_byte c; done.
  - destruct (String.eqb_spec value "*") as [->|_]; [auto|].
    split; [by apply unescape_escape|]. split; [|auto].
    apply escape_query_free.
Qed.

(** Escaping a path escapes its elements. *)
Lemma escape_no_slash s : has_byte slash s = false → has_byte slash (escape s encodePath) = false.
Proof.
  induction s as [|c s IH]; [done|]. cbn [has_byte escape]. intros [Hc Hs]%orb_false_iff.
  destruct (shouldEscape c encodePath); [rewrite andb_false_r|]; cbn [has_byte]; rewrite IH by done; [|by rewrite Hc].
  clear Hc. each_byte c; done.
Qed.

Lemma escape_app a b mode : escape (a +:+ b) mode = escape a mode +:+ escape b mode.
Proof.
  induction a as [|c a IH]; [done|]. change (String c a +:+ b) with (String c (a +:+ b)). cbn [escape].
  rewrite IH. destruct (shouldEscape c mode); [destruct (_ && _)|]; reflexivity.
Qed.

Lemma escape_Join l : escape (Join "/" l) encodePath = Join "/" (map (λ s, escape s encodePath) l).
Proof.
  induction l as [|x [|y l] IH]; [done..|].
  change (Join "/" (x :: y :: l)) with (x +:+ "/" +:+ Join "/" (y :: l)). rewrite !escape_app, IH. reflexivity.
Qed.

Lemma Split_escape p : Split "/" (escape p encodePath) = map (λ s, escape s encodePath) (Split "/" p).
Proof.
  rewrite <-(Join_Split p) at 1. rewrite escape_Join. apply Split_Join.
  - intros E%map_eq_nil. by apply Split_ne in E.
  - apply Forall_map. eapply Forall_impl; [apply Split_no_sep|]. intros s. apply escape_no_slash.
Qed.

Lemma dots_escape s : dots s = false → dots (escape s encodePath) = false.
Proof.
  unfold dots. intros [H1%String.eqb_neq H2%String.eqb_neq]%orb_false_iff.
  apply orb_false_iff. split; apply String.eqb_neq; intros E;
    pose proof (unescape_escape s encodePath eq_refl) as U; rewrite E in U; injection U as <-; done.
Qed.

(** Without dot elements a path is resolved to itself. *)
Lemma resolve_elems_plain l : ∀ dst, Forall (λ s, dots s = false) l → l ≠ [] →
  resolve_elems l dst false = dst +:+ "/" +:+ Join "/" l.
Proof.
  induction l as [|x l IH]; intros dst H Hne; [done|]. apply Forall_cons in H as [Hx Hl].
  apply orb_false_iff in Hx as [H1 H2]. cbn [resolve_elems]. rewrite H1, H2.
  destruct l as [|y l]; [done|]. rewrite IH by done.
  change (Join "/" (x :: y :: l)) with (x +:+ "/" +:+ Join "/" (y :: l)). by rewrite !str_app_assoc.
Qed.

Lemma resolve_plain E : E ≠ "" → HasPrefix E "/" = false → Forall (λ s, dots s = false) (Split "/" E) →
  resolvePath "/" E = "/" +:+ E.
Proof.
  intros Hne Hrel Hd. unfold resolvePath.
  replace (is_empty E) with false by (symmetry; by apply is_empty_false). rewrite Hrel.
  change (str_take _ "/" +:+ E) with ("/" +:+ E). change (is_empty ("/" +:+ E)) with false. cbv zeta.
  change (Split "/" ("/" +:+ E)) with ("" :: Split slash E). cbn [resolve_elems].
  change (String.eqb "" ".") with false. change (String.eqb "" "..") with false.
  cbv beta iota. rewrite resolve_elems_plain by (done || apply Split_ne). rewrite Join_Split.
  assert (String.eqb (default "" (list.last ("" :: Split slash E))) "." ||
          String.eqb (default "" (list.last ("" :: Split slash E))) ".." = false) as ->.
  { destruct (list.last ("" :: Split slash E)) as [x|] eqn:El; [|done]. cbn [default].
    assert (x ∈ "" :: Split slash E) as Hx by (apply list_elem_of_In; by apply last_Some_elem_of in El as ?%list_elem_of_In).
    apply elem_of_cons in Hx as [->|Hx]; [done|]. rewrite Forall_forall in Hd. by apply Hd. }
  cbn. by rewrite str_app_nil_r.
Qed.

Lemma parse_plain p : plain_reference p →
  ∃ raw, (raw = "" ∨ raw = p) ∧ Parse p = Ok (mkURL "" "" None "" p raw false false "" "" "").
Proof.
  intros [Hne Hrel Hb Hc _].
  assert (∀ c, plain_byte c = false → has_byte c p = false) as Hno by (intros c; by apply bytes_without).
  unfold Parse. rewrite Cut_none by (by apply Hno). unfold parse.
  rewrite (all_bytes_mono plain_byte (λ c, negb (ctl_byte c))) by (done || by intros c [_ H]%andb_true_iff).
  cbn [negb]. destruct (String.eqb_spec p "*") as [->|_]; [exists ""; auto|].
  unfold getScheme. destruct (HasPrefix p ":") eqn:Ep.
  { apply HasPrefix_spec in Ep as [t ->]. cbn in Hc. by destruct (Cut t "/"). }
  destruct (scheme_from true p) as [r|] eqn:Es.
  { apply scheme_colon in Es. congruence. }
  cbn [default rbind]. rewrite Cut_none by (by apply Hno). change (ToLower "") with "". cbn [default].
  unfold parse_rest. rewrite Hrel, Hc. cbn [negb is_empty andb orb].
  replace (HasPrefix p "//") with false.
  2:{ symmetry. apply not_true_is_false. intros [t ->]%HasPrefix_spec. discriminate Hrel. }
  rewrite andb_false_r. cbn [rbind]. unfold set_escaped. rewrite unescape_plain by (done || by apply Hno).
  cbn [rbind]. destruct (String.eqb p (escape p encodePath)); cbn [fst snd negb andb]; eauto.
Qed.

(** An address with nothing below its host. *)
Record rooted (u : URL) : Prop := {
  ro_scheme : u_Scheme u ≠ "";
  ro_opaque : u_Opaque u = "";
  ro_path : u_Path u = "/";
  ro_raw : u_RawPath u = "";
  ro_host : u_OmitHost u = false;
  ro_force : u_ForceQuery u = false;
  ro_query : u_RawQuery u = "";
  ro_fragment : u_Fragment u = "";
}.

(** [address] is the address of [p] below [base]: it is read as [p]
    there, with no query or fragment. *)
Definition names_path (base p address : string) : Prop :=
  ∃ r, address = base +:+ r ∧ unescape r encodePath = Ok p ∧ all_bytes query_free r = true.

Lemma escaped_reference p raw : plain_reference p → raw = "" ∨ raw = p →
  let E := escaped_as p raw encodePath in
  E ≠ "" ∧ HasPrefix E "/" = false ∧ Forall (λ s, dots s = false) (Split "/" E).
Proof.
  intros [Hne Hrel Hb Hc Hd] Hraw. cbv zeta.
  destruct (escaped_as_back p raw) as (Hback & _ & Hcases).
  assert (escaped_as p raw encodePath ≠ "") as Hne' by (intros E; rewrite E in Hback; injection Hback as <-; done).
  destruct Hcases as [E|[E|E]].
  - destruct Hraw as [->| ->]; [by rewrite E in Hne'|]. by rewrite E.
  - by rewrite E.
  - rewrite E in *. split; [done|]. split.
    + destruct p as [|c p]; [done|]. cbn [escape HasPrefix] in *. rewrite andb_true_r in Hrel.
      destruct (shouldEscape c encodePath); [by rewrite andb_false_r|]. by rewrite Hrel.
    + rewrite Split_escape. apply Forall_map. eapply Forall_impl; [exact Hd|]. intros s. apply dots_escape.
Qed.

Lemma String_slash u r : u_Scheme u ≠ "" → u_Opaque u = "" → u_ForceQuery u = false → u_RawQuery u = "" →
  u_Fragment u = "" → EscapedPath u = "/" +:+ r →
  URL_String u = (u_Scheme u +:+ ":" +:+ authority_text u +:+ "/") +:+ r.
Proof.
  intros Hs Ho Hf Hq Hfr HE. unfold URL_String. rewrite Ho, Hf, Hq, Hfr, HE. cbn [is_empty negb orb].
  change (HasPrefix ("/" +:+ r) "/") with true. change (has_byte ":" (fst (Cut ("/" +:+ r) "/"))) with false.
  rewrite !andb_false_r. cbn [negb andb]. destruct (is_empty (u_Scheme u)) eqn:E; [by apply is_empty_spec in E|].
  by rewrite ?andb_false_r, ?str_app_nil_r, !str_app_assoc.
Qed.

(** A plain path resolved against such an address is asked for under its
    own name. *)
Lemma reference_names base u p : Parse base = Ok u → rooted u → URL_String u = base → plain_reference p →
  ∃ rel, Parse p = Ok rel ∧ names_path base p (URL_String (ResolveReference u rel)).
Proof.
  intros _ [Hs Ho Hp Hr Hh Hf Hq Hfr] Hstr Hplain.
  destruct (parse_plain p Hplain) as (raw & Hraw & Hparse). eexists. split; [exact Hparse|].
  destruct (escaped_reference p raw Hplain Hraw) as (Hne & Hrel & Hd).
  destruct (escaped_as_back p raw) as (Hback & Hfree & _).
  set (E := escaped_as p raw encodePath) in *.
  assert (EscapedPath u = "/") as Eu by (unfold EscapedPath; by rewrite Hp, Hr).
  assert (unescape ("/" +:+ E) encodePath = Ok ("/" +:+ p)) as Hslash.
  { change ("/" +:+ E) with (String "/" E). cbn [unescape]. cbn. rewrite Hback. done. }
  set (raw' := if String.eqb ("/" +:+ E) (escape ("/" +:+ p) encodePath) then "" else "/" +:+ E).
  assert (ResolveReference u (mkURL "" "" None "" p raw false false "" "" "") =
    mkURL (u_Scheme u) "" (u_User u) (u_Host u) ("/" +:+ p) raw' false false "" "" "") as ->.
  { unfold ResolveReference. cbn [is_empty u_Scheme u_Host u_Opaque u_Path u_ForceQuery u_RawQuery u_Fragment u_User
      has_user negb orb with_scheme].
    replace (is_empty p) with false by (symmetry; apply is_empty_false; apply Hplain). cbn [andb].
    unfold EscapedPath at 2. cbn [u_Path u_RawPath]. fold E. rewrite Eu, resolve_plain by done.
    unfold with_path, set_escaped. rewrite Hslash. reflexivity. }
  assert (raw' = "" ∨ raw' = "/" +:+ E) as Hraw' by (unfold raw'; destruct (String.eqb _ _); auto).
  clearbody raw'. destruct (escaped_as_back ("/" +:+ p) raw') as (Hback' & Hfree' & Hcases).
  assert (∃ r, escaped_as ("/" +:+ p) raw' encodePath = "/" +:+ r) as [r Er].
  { destruct Hcases as [Ec|[Ec|Ec]]; rewrite Ec; [|by exists p|by exists (escape p encodePath)].
    destruct Hraw' as [Eq|Eq]; [|by exists E]. rewrite Ec, Eq in Hback'. discriminate. }
  assert (unescape r encodePath = Ok p ∧ all_bytes query_free r = true) as [Hr' Hq'].
  { rewrite Er in Hback', Hfree'. change ("/" +:+ r) with (String "/" r) in *. split; [|cbn [all_bytes] in Hfree'; by apply andb_true_iff in Hfree' as [_ ?]].
    cbn [unescape] in Hback'. cbn in Hback'. destruct (unescape r encodePath); [|discriminate].
    cbn in Hback'. by injection Hback' as ->. }
  exists r. split; [|done]. rewrite <-Hstr, (String_slash u "") by done.
  rewrite (String_slash (mkURL _ _ _ _ _ _ _ _ _ _ _) r) by done. rewrite str_app_nil_r.
  do 4 f_equal. unfold authority_text, has_user. cbn [u_Scheme u_Host u_User u_OmitHost u_Path]. by rewrite Hh, Hp.
Qed.

(** ** Lemmas: queries *)
Lemma Split_sep_single sep e : has_byte sep e = false → Split sep e = [e].
Proof.
  induction e as [|c e IH]; cbn; [done|]. intros [-> H]%orb_false_iff. by rewrite IH.
Qed.

Lemma Split_sep_app sep a b : has_byte sep a = false → Split sep (a +:+ String sep b) = a :: Split sep b.
Proof.
  induction a as [|c a IH]; cbn; [by rewrite ascii_eqb_refl|]. intros [-> H]%orb_false_iff. by rewrite IH.
Qed.

Lemma Split_sep_Join sep l : l ≠ [] → Forall (λ e, has_byte sep e = false) l → Split sep (Join (String sep "") l) = l.
Proof.
  induction l as [|x [|y l] IH]; [done| |]; intros _ [Hx Hl]%Forall_cons; [by apply Split_sep_single|].
  change (Join _ (x :: y :: l)) with (x +:+ String sep (Join (String sep "") (y :: l))).
  rewrite Split_sep_app, IH by done. done.
Qed.

Lemma escape_safe s : all_bytes (λ c, alphanumeric c || among "-_.~+%" c) (QueryEscape s) = true.
Proof.
  unfold QueryEscape. induction s as [|c s IH]; [done|]. cbn [escape].
  destruct (shouldEscape c encodeQueryComponent) eqn:E; [destruct (_ && _)|]; cbn [all_bytes]; rewrite IH; [done| |].
  - clear E. each_byte c; done.
  - rewrite andb_true_r. revert E. each_byte c; done.
Qed.

Lemma escape_without c s : among "&=;" c = true → has_byte c (QueryEscape s) = false.
Proof.
  intros Hc. eapply bytes_without; [apply escape_safe|]. revert Hc. each_byte c; done.
Qed.

Lemma Cut_app s c t : has_byte c s = false → Cut (s +:+ String c t) c = (s, Some t).
Proof.
  induction s as [|d s IH]; cbn; [by rewrite ascii_eqb_refl|]. intros [-> H]%orb_false_iff. by rewrite IH.
Qed.

Definition encode_pair (key value : string) : string := QueryEscape key +:+ "=" +:+ QueryEscape value.

Lemma pair_without c key value : c = "&"%char ∨ c = ";"%char → has_byte c (encode_pair key value) = false.
Proof.
  intros H. assert (among "&=;" c = true) as Hc by (by destruct H as [-> | ->]).
  unfold encode_pair. rewrite !has_byte_app, !escape_without by done. destruct H as [-> | ->]; reflexivity.
Qed.

Lemma query_pair m key value : query_piece m (encode_pair key value) = values_add m key value.
Proof.
  unfold query_piece. rewrite pair_without by auto. destruct (is_empty _) eqn:E.
  { apply is_empty_spec, str_app_eq_nil in E as [_ E]. discriminate. }
  cbn [orb]. unfold encode_pair. change ("=" +:+ QueryEscape value) with (String "=" (QueryEscape value)).
  rewrite Cut_app by (by apply escape_without). unfold QueryUnescape, QueryEscape. cbn [default]. unfold id.
  rewrite !unescape_escape by reflexivity. reflexivity.
Qed.

Lemma values_all_add m key value k :
  values_all (values_add m key value) k = values_all m k ++ (if decide (k = key) then [value] else []).
Proof.
  unfold values_add, values_all. destruct (decide (k = key)) as [->|Hk].
  - by rewrite lookup_insert_eq.
  - rewrite lookup_insert_ne by done. by rewrite app_nil_r.
Qed.

Lemma query_key v k0 m k :
  values_all (foldl query_piece m (encode_key v k0)) k =
  values_all m k ++ (if decide (k = k0) then values_all v k0 else []).
Proof.
  unfold encode_key. revert m. generalize (values_all v k0) as l. induction l as [|x l IH]; intros m; cbn [map foldl].
  { destruct (decide _); by rewrite app_nil_r. }
  fold (encode_pair k0 x). rewrite query_pair, IH, values_all_add, <-app_assoc. by destruct (decide _).
Qed.

Lemma query_keys v ks : ∀ m k, NoDup ks →
  values_all (foldl query_piece m (flat_map (encode_key v) ks)) k =
  values_all m k ++ (if decide (k ∈ ks) then values_all v k else []).
Proof.
  induction ks as [|k0 ks IH]; intros m k Hn; cbn [flat_map].
  { rewrite decide_False by apply not_elem_of_nil. cbn. by rewrite app_nil_r. }
  apply NoDup_cons in Hn as [H0 Hn]. rewrite foldl_app, IH, query_key, <-app_assoc by done. f_equal.
  destruct (decide (k = k0)) as [->|Hk].
  - rewrite (decide_False (P:=k0 ∈ ks)) by done. rewrite decide_True by left. by rewrite app_nil_r.
  - cbn [app]. apply decide_ext. rewrite elem_of_cons. naive_solver.
Qed.

(** What is encoded as a query is read back. *)
Lemma query_back v k : values_all (ParseQuery (Encode v)) k = values_all v k.
Proof.
  unfold ParseQuery, Encode. set (ks := stable_sort str_lt _).
  assert (NoDup ks ∧ ∀ k, k ∈ ks ↔ is_Some (v !! k)) as [Hn Hin].
  { unfold ks. split; [rewrite stable_sort_perm; apply NoDup_fst_map_to_list|]. intros k'.
    rewrite stable_sort_elem_of, list_elem_of_fmap. split.
    - intros ([k1 l] & -> & H). apply elem_of_map_to_list in H. by exists l.
    - intros [l H]. exists (k', l). by rewrite elem_of_map_to_list. }
  assert (values_all (foldl query_piece ∅ (flat_map (encode_key v) ks)) k = values_all v k) as H.
  { rewrite query_keys by done. change (values_all ∅ k) with (@nil string). cbn [app].
    destruct (decide (k ∈ ks)) as [|Hk]; [done|]. unfold values_all. rewrite Hin in Hk.
    destruct (v !! k); [by destruct Hk|done]. }
  destruct (flat_map (encode_key v) ks) as [|x l] eqn:E; [exact H|].
  change "&" with (String "&" ""). rewrite Split_sep_Join; [exact H|done|].
  rewrite <-E. apply Forall_forall. intros y Hy. apply list_elem_of_In, in_flat_map in Hy as (k1 & _ & Hy).
  unfold encode_key in Hy. apply in_map_iff in Hy as (z & <- & _). apply pair_without. auto.
Qed.

Lemma values_get_all v k : values_get v k = default "" (head (values_all v k)).
Proof. unfold values_get, values_all. by destruct (v !! k) as [[]|]. Qed.

(** ** Addresses of agents *)

(** A host name or IPv4 address, and a port. *)
Definition host_byte (c : ascii) : bool := alphanumeric c || among "-." c.
Record web_host (host port : string) : Prop := {
  wh_ne : host ≠ "";
  wh_host : all_bytes host_byte host = true;
  wh_port : all_bytes (byte_in 48 57) port = true;
}.

Definition host_port (host port : string) : string := host +:+ ":" +:+ port.

Lemma LastIndexByte_absent s c : has_byte c s = false → LastIndexByte s c = None.
Proof. induction s as [|d s IH]; cbn; [done|]. intros [-> H]%orb_false_iff. by rewrite IH. Qed.

Lemma LastIndexByte_sep a b c : has_byte c b = false → LastIndexByte (a +:+ String c b) c = Some (String.length a).
Proof.
  intros H. induction a as [|d a IH]; cbn.
  - by rewrite LastIndexByte_absent, ascii_eqb_refl.
  - by rewrite IH.
Qed.

Definition authority_byte (c : ascii) : bool := host_byte c || byte_in 48 57 c || ascii_eqb c ":".

Lemma host_port_bytes host port : web_host host port → all_bytes authority_byte (host_port host port) = true.
Proof.
  intros [_ Hh Hp]. unfold host_port. rewrite !all_bytes_app.
  rewrite (all_bytes_mono host_byte authority_byte host), (all_bytes_mono (byte_in 48 57) authority_byte port); try done.
  - intros c H. unfold authority_byte. by rewrite H, orb_true_r.
  - intros c H. unfold authority_byte. by rewrite H.
Qed.

Lemma unescape_host s : all_bytes authority_byte s = true → unescape s encodeHost = Ok s ∧ escape s encodeHost = s.
Proof.
  induction s as [|c s IH]; [done|]. cbn [all_bytes]. intros [Hc Hs]%andb_true_iff. destruct (IH Hs) as [H1 H2].
  assert (ascii_eqb c percent = false ∧ shouldEscape c encodeHost = false) as [E1 E2].
  { revert Hc. clear. each_byte c; intros H; try discriminate H; done. }
  cbn [unescape escape]. rewrite E1, E2, H1, H2. rewrite andb_false_r. unfold allowed_plain. rewrite E2, andb_false_r. done.
Qed.

Lemma parse_host_port host port : web_host host port → parseAuthority (host_port host port) = Ok (None, host_port host port).
Proof.
  intros H. pose proof (host_port_bytes host port H) as Hb. destruct H as [Hne Hh Hp].
  assert (∀ c, authority_byte c = false → has_byte c (host_port host port) = false) as Hno
    by (intros c; by apply bytes_without).
  unfold parseAuthority. rewrite LastIndexByte_absent by (by apply Hno). unfold parseHost.
  destruct (HasPrefix (host_port host port) "[") eqn:E.
  { apply HasPrefix_spec in E as [t E]. specialize (Hno "["%char eq_refl). rewrite E in Hno. discriminate. }
  assert (LastIndexByte (host_port host port) ":" = Some (String.length host)) as ->
    by (apply (LastIndexByte_sep host port ":"); by apply (bytes_without (byte_in 48 57))).
  assert (str_drop (String.length host) (host_port host port) = ":" +:+ port) as -> by apply str_drop_app.
  replace (validOptionalPort (":" +:+ port)) with true by (symmetry; exact Hp).
  by rewrite (proj1 (unescape_host _ Hb)).
Qed.

(** Such an address with a path. *)
Definition web_url (host port path : string) : string := "http://" +:+ host_port host port +:+ path.

Definition web (host port path : string) (force : bool) (query : string) : URL :=
  mkURL "http" "" None (host_port host port) path "" false force query "" "".

Lemma web_bytes (f : ascii → bool) host port path : web_host host port →
  (∀ c, authority_byte c = true → f c = true) → all_bytes f "http://" = true → all_bytes f path = true →
  all_bytes f (web_url host port path) = true.
Proof.
  intros H Hf H1 H2. unfold web_url. rewrite !all_bytes_app, H1, H2, andb_true_r. cbn [andb].
  eapply all_bytes_mono; [exact Hf|]. by apply host_port_bytes.
Qed.

Definition path_byte (c : ascii) : bool := alphanumeric c || among "-_./" c.

Lemma escape_path_plain s : all_bytes path_byte s = true → escape s encodePath = s ∧ unescape s encodePath = Ok s.
Proof.
  induction s as [|c s IH]; [done|]. cbn [all_bytes]. intros [Hc Hs]%andb_true_iff. destruct (IH Hs) as [H1 H2].
  assert (ascii_eqb c percent = false ∧ shouldEscape c encodePath = false) as [E1 E2].
  { revert Hc. clear. each_byte c; intros H; try discriminate H; done. }
  cbn [unescape escape]. rewrite E1, E2, H1, H2, andb_false_r. done.
Qed.

Lemma parse_web_path host port path (tail : option string) : web_host host port →
  path = "" ∨ HasPrefix path "/" = true → all_bytes path_byte path = true →
  all_bytes (λ c, negb (ctl_byte c) && negb (ascii_eqb c "#")) (default "" tail) = true → tail ≠ Some "" →
  Parse (web_url host port path +:+ match tail with Some q => "?" +:+ q | None => "" end) =
  Ok (web host port path false (default "" tail)).
Proof.
  intros Hw Hp Hb Hq Hne. set (rest := match tail with Some q => "?" +:+ q | None => "" end).
  assert (all_bytes (λ c, negb (ctl_byte c) && negb (ascii_eqb c "#")) (web_url host port path +:+ rest) = true) as Hall.
  { rewrite all_bytes_app. apply andb_true_iff. split; [|by unfold rest; destruct tail].
    apply web_bytes; [done| |done|].
    - intros c. each_byte c; intros H; try discriminate H; done.
    - eapply all_bytes_mono; [|exact Hb]. intros c. each_byte c; intros H; try discriminate H; done. }
  unfold Parse. rewrite Cut_none by (eapply bytes_without; [exact Hall|done]). unfold parse.
  rewrite (all_bytes_mono _ (λ c, negb (ctl_byte c)) _ (λ c H, proj1 (proj1 (andb_true_iff _ _) H)) Hall). cbn [negb].
  change (String.eqb (web_url host port path +:+ rest) "*") with false. cbv iota.
  assert (getScheme (web_url host port path +:+ rest) = Ok ("http", "//" +:+ (host_port host port +:+ path) +:+ rest)) as ->
    by reflexivity.
  cbn [rbind]. change (ToLower "http") with "http".
  assert (has_byte "?" ("//" +:+ host_port host port +:+ path) = false) as Hnq.
  { rewrite !has_byte_app. rewrite (bytes_without authority_byte "?" (host_port host port)) by (done || by apply host_port_bytes).
    rewrite (bytes_without path_byte "?" path) by done. done. }
  assert (Cut ("//" +:+ (host_port host port +:+ path) +:+ rest) "?" = ("//" +:+ host_port host port +:+ path, tail)) as ->.
  { unfold rest. destruct tail as [q|].
    - change ("?" +:+ q) with (String "?" q). rewrite <-str_app_assoc. by apply Cut_app.
    - rewrite str_app_nil_r. by apply Cut_none. }
  assert (parse_rest "http" ("//" +:+ host_port host port +:+ path) false (default "" tail) =
          Ok (web host port path false (default "" tail))) as Hrest.
  { unfold parse_rest. change (HasPrefix ("//" +:+ ?x) "/") with true. change (HasPrefix ("//" +:+ ?x) "//") with true.
    cbn [negb andb orb is_empty]. change (str_drop 2 ("//" +:+ ?x)) with x.
    assert (has_byte "/" (host_port host port) = false) as Hns
      by (eapply bytes_without; [by apply host_port_bytes|done]).
    destruct Hp as [->|[t ->]%HasPrefix_spec].
    - rewrite str_app_nil_r, Cut_none by done. rewrite parse_host_port by done. done.
    - change ("/" +:+ t) with (String "/" t). rewrite Cut_app by done. rewrite parse_host_port by done. cbn [rbind].
      unfold set_escaped. change (String "/" t) with ("/" +:+ t).
      destruct (escape_path_plain _ Hb) as [Ee Eu]. rewrite Eu. cbn [rbind]. rewrite Ee, String.eqb_refl. done. }
  destruct tail as [[|c q]|]; [done|rewrite Hrest; reflexivity..].
Qed.

Lemma web_String host port path query : web_host host port → path = "" ∨ HasPrefix path "/" = true →
  all_bytes path_byte path = true →
  URL_String (web host port path false query) =
  web_url host port path +:+ (if is_empty query then "" else "?" +:+ query).
Proof.
  intros Hw Hp Hb. unfold URL_String, EscapedPath, escaped_as, web.
  cbn [u_Scheme u_Opaque u_Host u_Path u_RawPath u_RawQuery u_ForceQuery u_Fragment is_empty negb andb orb].
  unfold authority_text, has_user. cbn [u_Scheme u_Host u_User u_OmitHost u_Path is_empty negb andb orb].
  assert (is_empty (host_port host port) = false) as Hne.
  { apply is_empty_false. intros [E _]%str_app_eq_nil. by destruct Hw. }
  rewrite Hne, (proj2 (unescape_host _ (host_port_bytes _ _ Hw))). cbn [negb orb].
  replace (if String.eqb path "*" then "*" else escape path encodePath) with path.
  2:{ rewrite (proj1 (escape_path_plain _ Hb)). destruct (String.eqb_spec path "*"); congruence. }
  assert (negb (is_empty path) && negb (HasPrefix path "/") = false ∧ has_byte ":" (fst (Cut path "/")) = false) as [-> ->].
  { destruct Hp as [->|[t ->]%HasPrefix_spec]; done. }
  rewrite andb_false_r. cbn [andb]. rewrite str_app_nil_r. unfold web_url. rewrite !str_app_assoc.
  destruct (is_empty query); reflexivity.
Qed.

(** The address of an agent is one with nothing below its host. *)
Lemma web_rooted host port : web_host host port →
  Parse (web_url host port "/") = Ok (web host port "/" false "") ∧ rooted (web host port "/" false "") ∧
  URL_String (web host port "/" false "") = web_url host port "/".
Proof.
  intros Hw. split; [|split; [by split|]].
  - pose proof (parse_web_path host port "/" None Hw) as H. cbn [default] in H. rewrite str_app_nil_r in H. apply H; auto.
  - rewrite web_String by (done || by right). cbn [is_empty]. by rewrite str_app_nil_r.
Qed.

Lemma web_Hostname host port path : web_host host port → Hostname (web host port path false "") = host.
Proof.
  intros [Hne Hh Hp]. unfold Hostname, web. cbn [u_Host].
  assert (LastIndexByte (host_port host port) ":" = Some (String.length host)) as ->
    by (apply (LastIndexByte_sep host port ":"); by apply (bytes_without (byte_in 48 57))).
  assert (str_drop (String.length host) (host_port host port) = ":" +:+ port) as -> by apply str_drop_app.
  replace (validOptionalPort (":" +:+ port)) with true by (symmetry; exact Hp).
  assert (str_take (String.length host) (host_port host port) = host) as -> by apply str_take_app.
  destruct (HasPrefix host "[") eqn:E; [|done]. apply HasPrefix_spec in E as [t ->]. discriminate.
Qed.

Lemma values_all_set m key value k :
  values_all (values_set m key value) k = if decide (k = key) then [value] else values_all m k.
Proof.
  unfold values_set, values_all. destruct (decide (k = key)) as [->|Hk]; [by rewrite lookup_insert_eq|].
  by rewrite lookup_insert_ne.
Qed.

Lemma values_all_adds key l k : ∀ m,
  values_all (foldl (λ m value, values_add m key value) m l) k =
  values_all m k ++ (if decide (k = key) then l else []).
Proof.
  induction l as [|x l IH]; intros m; cbn [foldl].
  - destruct (decide _); by rewrite app_nil_r.
  - rewrite IH, values_all_add, <-app_assoc. by destruct (decide _).
Qed.

End Url.
