(* ===== verification/GoTime.v ===== *)
(** * Go's [time], as far as the program uses it

    An instant is the number of nanoseconds since Go's zero time
    (January 1, year 1, UTC); a [Duration] is a signed 64-bit number of
    nanoseconds.  The calendar functions take the offset of the local
    zone, in seconds. *)
From Stdlib Require SpecFloat.
From S2P Require Import Prelude GoStrings.

Module Time.
Import Str.

Local Open Scope Z_scope.

Definition Nanosecond : Z := 1.
Definition Second : Z := 1000000000.
Definition Minute : Z := 60 * Second.
Definition Hour : Z := 60 * Minute.

(** [t.IsZero()], [t.After(u)], [t.Equal(u)] *)
Definition IsZero (t : Z) : bool := t =? 0.
Definition After (t u : Z) : bool := u <? t.
Definition Equal (t u : Z) : bool := t =? u.

(** [t.Sub(u)] saturates at the ends of [Duration]. *)
Definition Sub (t u : Z) : Z := Z.max int64_min (Z.min int64_max (t - u)).

(** ** Calendar *)
Definition wall_seconds (zone t : Z) : Z := t / Second + zone.
Definition clock_minute (zone t : Z) : Z := wall_seconds zone t mod 3600 / 60.
Definition clock_hour (zone t : Z) : Z := wall_seconds zone t mod 86400 / 3600.

(** Year, month and day of a day number counted from January 1, year 1,
    in the proleptic Gregorian calendar, by way of years that start in
    March. *)
Definition civil (day : Z) : Z * Z * Z :=
  let z := day + 306 in
  let era := z / 146097 in
  let doe := z mod 146097 in
  let yoe := (doe - doe / 1460 + doe / 36524 - doe / 146096) / 365 in
  let doy := doe - (365 * yoe + yoe / 4 - yoe / 100) in
  let mp := (5 * doy + 2) / 153 in
  let d := doy - (153 * mp + 2) / 5 + 1 in
  let m := if mp <? 10 then mp + 3 else mp - 9 in
  (yoe + era * 400 + (if m <=? 2 then 1 else 0), m, d).

Definition pad (width : nat) (z : Z) : string :=
  let s := FormatInt z in
  String.string_of_list_ascii (repeat "0"%char (width - String.length s)) +:+ s.

(** [t.Format("2006-01-02")] *)
Definition format_day (zone t : Z) : string :=
  let '(y, m, d) := civil (wall_seconds zone t / 86400) in
  pad 4 y +:+ "-" +:+ pad 2 m +:+ "-" +:+ pad 2 d.

(** [t.UTC().Format("20060102T150405.000000000Z")] *)
Definition format_stamp (t : Z) : string :=
  let '(y, m, d) := civil (wall_seconds 0 t / 86400) in
  let s := wall_seconds 0 t mod 86400 in
  pad 4 y +:+ pad 2 m +:+ pad 2 d +:+ "T" +:+
  pad 2 (s / 3600) +:+ pad 2 (s mod 3600 / 60) +:+ pad 2 (s mod 60) +:+ "." +:+
  pad 9 (t mod Second) +:+ "Z".

(** [t.UTC().Format(time.RFC3339Nano)]: the fraction of a second without
    trailing zeros. *)
Definition fraction (n : Z) : string :=
  if n =? 0 then EmptyString
  else "." +:+ TrimRight (fun c => ascii_eqb c "0") (pad 9 n).
Definition format_rfc3339nano (t : Z) : string :=
  let s := wall_seconds 0 t mod 86400 in
  format_day 0 t +:+ "T" +:+ pad 2 (s / 3600) +:+ ":" +:+ pad 2 (s mod 3600 / 60) +:+ ":" +:+
  pad 2 (s mod 60) +:+ fraction (t mod Second) +:+ "Z".

(** ** ParseDuration *)
Definition is_digit (c : ascii) : bool := byte_in 48 57 c.

(** [leadingInt]: [None] is the overflow error. *)
Fixpoint leadingInt (x : Z) (s : string) : option (Z * string) :=
  match s with
  | EmptyString => Some (x, s)
  | String c s' =>
      if is_digit c then
        if 2 ^ 63 / 10 <? x then None
        else let x' := x * 10 + (byte_of c - 48) in
             if 2 ^ 63 <? x' then None else leadingInt x' s'
      else Some (x, s)
  end.

(** [leadingFraction]: the digits kept, the power of ten they are
    scaled by, and the rest. *)
Fixpoint leadingFraction (x scale : Z) (overflow : bool) (s : string) : Z * Z * string :=
  match s with
  | EmptyString => (x, scale, s)
  | String c s' =>
      if is_digit c then
        if overflow then leadingFraction x scale true s'
        else if (2 ^ 63 - 1) / 10 <? x then leadingFraction x scale true s'
        else let y := x * 10 + (byte_of c - 48) in
             if 2 ^ 63 <? y then leadingFraction x scale true s'
             else leadingFraction y (scale * 10) false s'
      else (x, scale, s)
  end.

(** Conversions between integers and [float64]. *)
Definition float_of_Z (z : Z) : SpecFloat.spec_float :=
  SpecFloat.binary_normalize 53 1024 z 0 false.

Definition uint64_of_float (f : SpecFloat.spec_float) : Z :=
  match f with
  | SpecFloat.S754_finite _ m e => Z.shiftl (Z.pos m) e
  | _ => 0
  end.

(** [uint64(float64(f) * (float64(unit) / scale))] *)
Definition scaled_fraction (f unit scale : Z) : Z :=
  uint64_of_float
    (SpecFloat.SFmul 53 1024 (float_of_Z f)
       (SpecFloat.SFdiv 53 1024 (float_of_Z unit) (float_of_Z scale))).

Fixpoint span_unit (s : string) : string * string :=
  match s with
  | EmptyString => (EmptyString, EmptyString)
  | String c s' =>
      if ascii_eqb c "." || is_digit c then (EmptyString, s)
      else let '(u, r) := span_unit s' in (String c u, r)
  end.

Definition unit_of (u : string) : option Z :=
  if String.eqb u "ns" then Some 1
  else if String.eqb u "us" || String.eqb u (bytes [194; 181; 115]) ||
          String.eqb u (bytes [206; 188; 115]) then Some 1000
  else if String.eqb u "ms" then Some 1000000
  else if String.eqb u "s" then Some Second
  else if String.eqb u "m" then Some Minute
  else if String.eqb u "h" then Some Hour
  else None.

(** One number and its unit: the nanoseconds and the rest. *)
Definition duration_term (s : string) : option (Z * string) :=
  match s with
  | EmptyString => None
  | String c _ =>
      if negb (ascii_eqb c "." || is_digit c) then None
      else
        match leadingInt 0 s with
        | None => None
        | Some (v, s1) =>
            let pre := negb (String.length s =? String.length s1)%nat in
            let '(f, scale, s2, post) :=
              match s1 with
              | String "." t =>
                  let '(f, scale, t') := leadingFraction 0 1 false t in
                  (f, scale, t', negb (String.length t =? String.length t')%nat)
              | _ => (0, 1, s1, false)
              end in
            if negb pre && negb post then None
            else
              let '(u, s3) := span_unit s2 in
              match unit_of u with
              | None => None
              | Some unit =>
                  if 2 ^ 63 / unit <? v then None
                  else
                    let v' := v * unit + (if 0 <? f then scaled_fraction f unit scale else 0) in
                    if 2 ^ 63 <? v' then None else Some (v', s3)
              end
        end
  end.

Fixpoint duration_terms (fuel : nat) (d : Z) (s : string) : option Z :=
  match fuel with
  | O => None
  | S fuel' =>
      if is_empty s then Some d
      else match duration_term s with
           | None => None
           | Some (v, s') => if 2 ^ 63 <? d + v then None else duration_terms fuel' (d + v) s'
           end
  end.

(** [time.ParseDuration]; [None] is any of its errors.  Every term
    consumes at least one byte. *)
Definition ParseDuration (s : string) : option Z :=
  let '(neg, t) :=
    match s with
    | String c t => if ascii_eqb c "-" then (true, t)
                    else if ascii_eqb c "+" then (false, t) else (false, s)
    | EmptyString => (false, s)
    end in
  if String.eqb t "0" then Some 0
  else if is_empty t then None
  else match duration_terms (S (String.length t)) 0 t with
       | None => None
       | Some d => if neg then Some (- d) else if 2 ^ 63 - 1 <? d then None else Some d
       end.

(** ** Lemmas *)
Lemma Sub_int64 t u : in_int64 (Sub t u).
Proof. unfold in_int64, Sub, int64_min, int64_max. lia. Qed.

Lemma Sub_small t u : in_int64 (t - u) → Sub t u = t - u.
Proof. unfold in_int64, Sub, int64_min, int64_max. lia. Qed.

(** Saturation never moves a difference across a bound that a
    [Duration] can express. *)
Lemma Sub_le t u d : in_int64 d → (Sub t u ≤ d ↔ t - u ≤ d ∨ d = int64_max).
Proof. unfold in_int64, Sub, int64_min, int64_max. lia. Qed.

Lemma Sub_lt t u d : in_int64 d → (Sub t u < d ↔ t - u < d ∧ int64_min < d).
Proof. unfold in_int64, Sub, int64_min, int64_max. lia. Qed.

End Time.
