(* ===== verification/Flags.v ===== *)
(** * Go's [flag] package, as far as the commands use it

    String, boolean and duration flags of a [FlagSet] made with
    [flag.ExitOnError]: [Parse] takes flags from the front of the
    arguments until one is not a flag, and an argument it cannot use ends
    the process.  The theorem is that settings written as arguments come
    back as the values of the flags, the last one winning. *)
From S2P Require Import Prelude GoStrings GoTime.

Module Flags.
Import Str.

Inductive flag_value : Type :=
| StringValue (s : string)
| BoolValue (b : bool)
| DurationValue (d : Z).

(** A flag: its name and its default, which says what kind it is. *)
Record Flag : Type := mkFlag {
  fl_Name : string;
  fl_DefValue : flag_value;
}.

Abbreviation FlagSet := (list Flag).
Abbreviation values := (gmap string flag_value).

Definition lookup_flag (fs : FlagSet) (name : string) : option Flag :=
  find (λ f, String.eqb (fl_Name f) name) fs.

(** [strconv.ParseBool] *)
Definition ParseBool (s : string) : option bool :=
  if existsb (String.eqb s) ["1"; "t"; "T"; "true"; "TRUE"; "True"] then Some true
  else if existsb (String.eqb s) ["0"; "f"; "F"; "false"; "FALSE"; "False"] then Some false
  else None.

(** [Set] of the value of a flag. *)
Definition set_value (f : Flag) (s : string) : option flag_value :=
  match fl_DefValue f with
  | StringValue _ => Some (StringValue s)
  | BoolValue _ => option_map BoolValue (ParseBool s)
  | DurationValue _ => option_map DurationValue (Time.ParseDuration s)
  end.

Definition is_bool (f : Flag) : bool :=
  match fl_DefValue f with BoolValue _ => true | _ => false end.

(** The rest of a flag after its minus signs: its name and the value after
    the first equals sign; that sign is not the first byte. *)
Definition cut_value (s : string) : string * option string :=
  match s with
  | EmptyString => (EmptyString, None)
  | String c t =>
      match IndexByte t "=" with
      | Some i => (String c (str_take i t), Some (str_drop (S i) t))
      | None => (s, None)
      end
  end.

(** What [parseOne] makes of the arguments. *)
Inductive parsed_one : Type :=
| OneStop (rest : list string)
| OneFlag (name : string) (v : flag_value) (rest : list string)
| OneHelp
| OneError.

Definition dash : ascii := "-".

Definition parseOne (fs : FlagSet) (args : list string) : parsed_one :=
  match args with
  | [] => OneStop []
  | s :: rest =>
      match s with
      | String c (String c' t) =>
          if negb (ascii_eqb c dash) then OneStop args
          else if ascii_eqb c' dash && is_empty t then OneStop rest
          else
            let name := if ascii_eqb c' dash then t else String c' t in
            match first_byte name with
            | None => OneError
            | Some x =>
                if ascii_eqb x dash || ascii_eqb x "=" then OneError
                else
                  let '(name, value) := cut_value name in
                  match lookup_flag fs name with
                  | None => if String.eqb name "help" || String.eqb name "h" then OneHelp else OneError
                  | Some f =>
                      let set s rest :=
                        match set_value f s with Some v => OneFlag name v rest | None => OneError end in
                      if is_bool f then set (default "true" value) rest
                      else match value, rest with
                           | Some s, _ => set s rest
                           | None, s :: rest => set s rest
                           | None, [] => OneError
                           end
                  end
            end
      | _ => OneStop args
      end
  end.

(** [Parse]: the values and the arguments that are left, or the exit code
    of the process.  Each flag takes at least one argument, so the number
    of arguments is enough fuel. *)
Inductive parsed : Type :=
| Parsed (m : values) (rest : list string)
| ExitProcess (code : Z).

Fixpoint parse_from (fuel : nat) (fs : FlagSet) (m : values) (args : list string) : parsed :=
  match fuel with
  | 0 => Parsed m args
  | S fuel =>
      match parseOne fs args with
      | OneStop rest => Parsed m rest
      | OneFlag name v rest => parse_from fuel fs (<[name := v]> m) rest
      | OneHelp => ExitProcess 0
      | OneError => ExitProcess 2
      end
  end.

Definition defaults (fs : FlagSet) : values :=
  foldr (λ f m, <[fl_Name f := fl_DefValue f]> m) ∅ fs.

Definition Parse (fs : FlagSet) (args : list string) : parsed :=
  parse_from (S (length args)) fs (defaults fs) args.

(** The values of the flags as the program reads them. *)
Definition string_of (m : values) (name : string) : string :=
  match m !! name with Some (StringValue s) => s | _ => "" end.
Definition bool_of (m : values) (name : string) : bool :=
  match m !! name with Some (BoolValue b) => b | _ => false end.
Definition duration_of (m : values) (name : string) : Z :=
  match m !! name with Some (DurationValue d) => d | _ => 0%Z end.

(** ** Lemmas *)

(** Fuel: a flag takes an argument. *)
Lemma parseOne_shorter fs args name v rest :
  parseOne fs args = OneFlag name v rest → length rest < length args.
Proof.
  intros H. destruct args as [|[|c [|c' t]] args]; try done. cbn [parseOne] in H.
  destruct (negb _); [done|]. destruct (_ && _); [done|]. cbv zeta in H.
  destruct (first_byte _); [|done]. destruct (_ || _); [done|]. destruct (cut_value _) as [n o].
  destruct (lookup_flag fs n) as [f|]; [|by destruct (_ || _)].
  destruct (is_bool f); [destruct (set_value f _); [|done]; simplify_eq; cbn; lia|].
  destruct o as [s|]; [destruct (set_value f s); [|done]; simplify_eq; cbn; lia|].
  destruct args as [|s args]; [done|]. destruct (set_value f s); [|done]. simplify_eq. cbn. lia.
Qed.

(** With enough fuel the arguments are taken to the end: more makes no
    difference. *)
Lemma parse_fuel fs : ∀ n k m args, length args < n → length args < k → parse_from n fs m args = parse_from k fs m args.
Proof.
  induction n as [|n IH]; intros [|k] m args Hn Hk; [lia..|]. cbn [parse_from].
  destruct (parseOne fs args) as [|name v rest| |] eqn:E; try done. apply parseOne_shorter in E. apply IH; lia.
Qed.

Lemma parse_stop fs m args n : parseOne fs args = OneStop args → parse_from (S n) fs m args = Parsed m args.
Proof. intros H. cbn [parse_from]. by rewrite H. Qed.

(** ** Settings as arguments *)
Record setting : Type := mkSetting {
  st_flag : Flag;
  st_text : string;
  st_value : flag_value;
}.

(** A setting of the flags [fs]: the name is one of [fs] that can be
    written, the text means the value. *)
Record valid (fs : FlagSet) (s : setting) : Prop := {
  va_flag : lookup_flag fs (fl_Name (st_flag s)) = Some (st_flag s);
  va_plain : has_byte "=" (fl_Name (st_flag s)) = false;
  va_first x : first_byte (fl_Name (st_flag s)) = Some x → x ≠ dash;
  va_name : fl_Name (st_flag s) ≠ "";
  va_text : set_value (st_flag s) (st_text s) = Some (st_value s);
}.

(** "-name=text" *)
Definition render (s : setting) : string := "-" +:+ fl_Name (st_flag s) +:+ "=" +:+ st_text s.

Lemma IndexByte_first c s t : has_byte c s = false → IndexByte (s +:+ String c t) c = Some (String.length s).
Proof.
  induction s as [|d s IH]; cbn; [by rewrite ascii_eqb_refl|].
  intros [Hd Hs]%orb_false_iff. rewrite IH by done. unfold ascii_eqb in *. by rewrite Hd.
Qed.

Lemma cut_value_app name text : name ≠ "" → has_byte "=" name = false → cut_value (name +:+ "=" +:+ text) = (name, Some text).
Proof.
  destruct name as [|c t]; [done|]. intros _ H. cbn [has_byte] in H. apply orb_false_iff in H as [_ H].
  change (String c t +:+ "=" +:+ text) with (String c (t +:+ String "=" text)). cbn [cut_value].
  rewrite IndexByte_first by done. f_equal; [by rewrite str_take_app|]. f_equal.
  replace (S (String.length t)) with (String.length (t +:+ "=")) by (rewrite str_length_app; cbn; lia).
  replace (t +:+ String "=" text) with ((t +:+ "=") +:+ text) by (by rewrite str_app_assoc). apply str_drop_app.
Qed.

Lemma parseOne_render fs s rest :
  valid fs s → parseOne fs (render s :: rest) = OneFlag (fl_Name (st_flag s)) (st_value s) rest.
Proof.
  intros [Hl Hp Hf Hn Ht]. unfold render. set (name := fl_Name (st_flag s)) in *.
  destruct name as [|c t] eqn:En; [done|]. fold name.
  pose proof (Hf c eq_refl) as Hc. change ("-" +:+ String c t +:+ "=" +:+ st_text s)
    with (String "-" (String c (t +:+ "=" +:+ st_text s))).
  cbn [parseOne]. change (negb (ascii_eqb "-" dash)) with false. cbv match.
  assert (ascii_eqb c dash = false) as Ed by (by apply ascii_eqb_neq). rewrite Ed. cbn [andb first_byte].
  rewrite Ed. cbn [has_byte] in Hp. apply orb_false_iff in Hp as [Hp1 Hp2].
  assert (ascii_eqb c "=" = false) as Ee by exact Hp1. rewrite Ee. cbn [orb].
  change (String c (t +:+ "=" +:+ st_text s)) with (String c t +:+ "=" +:+ st_text s).
  rewrite cut_value_app; [|done|cbn; by rewrite Hp1, Hp2]. rewrite Hl. cbn [default].
  change (id (st_text s)) with (st_text s). rewrite Ht. by destruct (is_bool _).
Qed.

(** The values after some settings. *)
Definition apply_settings (m : values) (l : list setting) : values :=
  foldl (λ m s, <[fl_Name (st_flag s) := st_value s]> m) m l.

(** Settings written as arguments give their flags their values, in order,
    whatever follows: an argument that is no flag ends the flags and is
    left, with all that come after it. *)
Theorem parse_render fs l rest :
  Forall (valid fs) l → parseOne fs rest = OneStop rest →
  Parse fs (map render l ++ rest) = Parsed (apply_settings (defaults fs) l) rest.
Proof.
  intros Hl Hr. unfold Parse, apply_settings. generalize (defaults fs) as m.
  induction Hl as [|s l Hs Hl IH]; intros m; cbn [map app foldl].
  { by apply parse_stop. }
  cbn [parse_from length]. rewrite parseOne_render by done. apply IH.
Qed.

(** The last setting of a flag. *)
Definition last_set (l : list setting) (name : string) : option flag_value :=
  foldl (λ o s, if String.eqb (fl_Name (st_flag s)) name then Some (st_value s) else o) None l.

Lemma last_set_from l name : ∀ o,
  foldl (λ o s, if String.eqb (fl_Name (st_flag s)) name then Some (st_value s) else o) o l =
  match last_set l name with Some v => Some v | None => o end.
Proof.
  unfold last_set. induction l as [|s l IH]; intros o; cbn [foldl]; [done|].
  set (b := String.eqb _ _). rewrite (IH (if b then Some (st_value s) else o)), (IH (if b then Some (st_value s) else None)).
  destruct (foldl _ None l); [done|]. by destruct b.
Qed.

Lemma apply_settings_lookup l name : ∀ m,
  apply_settings m l !! name = match last_set l name with Some v => Some v | None => m !! name end.
Proof.
  unfold apply_settings. induction l as [|s l IH]; intros m; cbn [foldl]; [done|].
  rewrite IH. unfold last_set at 2. cbn [foldl]. rewrite last_set_from. destruct (last_set l name); [done|].
  destruct (String.eqb_spec (fl_Name (st_flag s)) name) as [->|]; [by rewrite lookup_insert_eq|by rewrite lookup_insert_ne].
Qed.

End Flags.
