(* ===== verification/Json.v ===== *)
(** * JSON text, as Go's [encoding/json] writes and reads it

    The bodies of the requests between the controller and the agents.
    [print] is [json.Marshal] of a value: compact, with the escapes of its
    HTML-safe mode; a byte that is not part of a valid UTF-8 encoding is
    written as U+FFFD.  [value] is the scanner and string decoder of
    [json.Decoder]: it takes the first value off a text and leaves the
    rest.  The theorem is that reading what was written gives the value
    back, up to bytes that are not UTF-8. *)
From S2P Require Import Prelude GoStrings.

Module Json.
Import Str.

(** A number is its literal. *)
Inductive json : Type :=
| JNull
| JBool (b : bool)
| JNum (lit : string)
| JStr (s : string)
| JArr (l : list json)
| JObj (l : list (string * json)).

(** ** Writing *)
Definition hex_digit (d : Z) : ascii :=
  match String.get (Z.to_nat d) "0123456789abcdef" with Some c => c | None => "0" end.

Definition quote_mark : ascii := ascii_of_N 34.
Definition backslash : ascii := ascii_of_N 92.
Definition quoted (s : string) : string := String quote_mark (s +:+ String quote_mark "").

(** "\" and one byte, "\u" and four. *)
Definition esc (c : ascii) : string := String backslash (String c "").
Definition esc_u (h1 h2 h3 h4 : ascii) : string :=
  String backslash (String "u" (String h1 (String h2 (String h3 (String h4 ""))))).

(** A byte below 128. *)
Definition escape_byte (c : ascii) : string :=
  let b := byte_of c in
  if (b =? 34)%Z || (b =? 92)%Z then esc c
  else if (b =? 8)%Z then esc "b"
  else if (b =? 12)%Z then esc "f"
  else if (b =? 10)%Z then esc "n"
  else if (b =? 13)%Z then esc "r"
  else if (b =? 9)%Z then esc "t"
  else if (b <? 32)%Z || (b =? 60)%Z || (b =? 62)%Z || (b =? 38)%Z then
    esc_u "0" "0" (hex_digit (b / 16)) (hex_digit (b mod 16))
  else String c "".

Definition invalid (r : Z) (n : nat) : bool := (r =? rune_error)%Z && Nat.eqb n 1.

(** The inside of a string; [skip] bytes are copied. *)
Fixpoint quote_from (skip : nat) (s : string) : string :=
  match s with
  | EmptyString => EmptyString
  | String c t =>
      match skip with
      | S k => String c (quote_from k t)
      | 0 =>
          if (byte_of c <? 128)%Z then escape_byte c +:+ quote_from 0 t
          else
            let '(r, n) := DecodeRune s in
            if invalid r n then esc_u "f" "f" "f" "d" +:+ quote_from 0 t
            else
              match t with
              | String _ (String _ t2) =>
                  if (r =? 8232)%Z || (r =? 8233)%Z
                  then esc_u "2" "0" "2" (hex_digit (r mod 16)) +:+ quote_from 0 t2
                  else String c (quote_from (n - 1) t)
              | _ => String c (quote_from (n - 1) t)
              end
      end
  end.

Definition quote (s : string) : string := quoted (quote_from 0 s).

Fixpoint print (j : json) : string :=
  match j with
  | JNull => "null"
  | JBool b => FormatBool b
  | JNum lit => lit
  | JStr s => quote s
  | JArr l => "[" +:+ Join "," (map print l) +:+ "]"
  | JObj l => "{" +:+ Join "," (map (λ kv, quote (fst kv) +:+ ":" +:+ print (snd kv)) l) +:+ "}"
  end.

(** ** Reading strings *)
Definition hex_value (c : ascii) : option Z :=
  if byte_in 48 57 c then Some (byte_of c - 48)%Z
  else if byte_in 97 102 c then Some (byte_of c - 87)%Z
  else if byte_in 65 70 c then Some (byte_of c - 55)%Z
  else None.

Definition hex4 (h1 h2 h3 h4 : ascii) : option Z :=
  match hex_value h1, hex_value h2, hex_value h3, hex_value h4 with
  | Some a, Some b, Some c, Some d => Some (((a * 16 + b) * 16 + c) * 16 + d)%Z
  | _, _, _, _ => None
  end.

(** [utf8.AppendRune] of a rune that is no surrogate. *)
Definition EncodeRune (r : Z) : string :=
  if (r <? 128)%Z then bytes [r]
  else if (r <? 2048)%Z then bytes [192 + r / 64; 128 + r mod 64]%Z
  else if (r <? 65536)%Z then bytes [224 + r / 4096; 128 + r / 64 mod 64; 128 + r mod 64]%Z
  else bytes [240 + r / 262144; 128 + r / 4096 mod 64; 128 + r / 64 mod 64; 128 + r mod 64]%Z.

Definition replacement : string := bytes [239; 191; 189]%Z.

Definition is_surrogate (r : Z) : bool := (55296 <=? r)%Z && (r <? 57344)%Z.

(** [utf16.DecodeRune] *)
Definition surrogate_pair (r1 r2 : Z) : option Z :=
  if (55296 <=? r1)%Z && (r1 <? 56320)%Z && (56320 <=? r2)%Z && (r2 <? 57344)%Z
  then Some ((r1 - 55296) * 1024 + (r2 - 56320) + 65536)%Z
  else None.

(** The byte a one-letter escape stands for. *)
Definition unescape (c : ascii) : option ascii :=
  let b := byte_of c in
  if (b =? 34)%Z || (b =? 92)%Z || (b =? 47)%Z then Some c
  else if (b =? 98)%Z then Some (ascii_of_N 8)
  else if (b =? 102)%Z then Some (ascii_of_N 12)
  else if (b =? 110)%Z then Some (ascii_of_N 10)
  else if (b =? 114)%Z then Some (ascii_of_N 13)
  else if (b =? 116)%Z then Some (ascii_of_N 9)
  else None.

Definition prepend (a : string) (o : option (string * string)) : option (string * string) :=
  match o with Some (x, r) => Some (a +:+ x, r) | None => None end.

(** The string up to its closing quote and what follows; [skip] bytes are
    taken as they are. *)
Fixpoint unquote_from (skip : nat) (s : string) : option (string * string) :=
  match s with
  | EmptyString => None
  | String c t =>
      match skip with
      | S k => prepend (String c "") (unquote_from k t)
      | 0 =>
          if ascii_eqb c quote_mark then Some (EmptyString, t)
          else if ascii_eqb c backslash then
            match t with
            | EmptyString => None
            | String e t1 =>
                match unescape e with
                | Some b => prepend (String b "") (unquote_from 0 t1)
                | None =>
                    if negb (ascii_eqb e "u") then None
                    else
                      match t1 with
                      | String h1 (String h2 (String h3 (String h4 t2))) =>
                          match hex4 h1 h2 h3 h4 with
                          | None => None
                          | Some r =>
                              if negb (is_surrogate r) then prepend (EncodeRune r) (unquote_from 0 t2)
                              else
                                match t2 with
                                | String a (String b (String g1 (String g2 (String g3 (String g4 t3))))) =>
                                    match (if ascii_eqb a backslash && ascii_eqb b "u"
                                           then hex4 g1 g2 g3 g4 else None) with
                                    | Some r2 =>
                                        match surrogate_pair r r2 with
                                        | Some r3 => prepend (EncodeRune r3) (unquote_from 0 t3)
                                        | None => prepend replacement (unquote_from 0 t2)
                                        end
                                    | None => prepend replacement (unquote_from 0 t2)
                                    end
                                | _ => prepend replacement (unquote_from 0 t2)
                                end
                          end
                      | _ => None
                      end
                end
            end
          else if (byte_of c <? 32)%Z then None
          else if (byte_of c <? 128)%Z then prepend (String c "") (unquote_from 0 t)
          else
            let '(r, n) := DecodeRune s in
            if invalid r n then prepend replacement (unquote_from 0 t)
            else prepend (String c "") (unquote_from (n - 1) t)
      end
  end.

(** ** Reading values *)
Definition is_space (c : ascii) : bool :=
  let b := byte_of c in (b =? 32)%Z || (b =? 9)%Z || (b =? 13)%Z || (b =? 10)%Z.
Definition skip_space (s : string) : string := TrimLeft is_space s.

Definition is_digit (c : ascii) : bool := byte_in 48 57 c.

Fixpoint span_digits (s : string) : string * string :=
  match s with
  | String c t => if is_digit c then let '(a, r) := span_digits t in (String c a, r) else (EmptyString, s)
  | EmptyString => (EmptyString, EmptyString)
  end.

(** An optional part of a number. *)
Definition fraction_part (s : string) : option (string * string) :=
  match s with
  | String c t =>
      if ascii_eqb c "." then
        let '(a, r) := span_digits t in if is_empty a then None else Some (String c a, r)
      else Some (EmptyString, s)
  | EmptyString => Some (EmptyString, s)
  end.

Definition exponent_part (s : string) : option (string * string) :=
  match s with
  | String c t =>
      if ascii_eqb c "e" || ascii_eqb c "E" then
        let '(sign, t) := match t with
                          | String d t' => if ascii_eqb d "+" || ascii_eqb d "-" then (String d "", t') else ("", t)
                          | EmptyString => ("", t)
                          end in
        let '(a, r) := span_digits t in if is_empty a then None else Some (String c (sign +:+ a), r)
      else Some (EmptyString, s)
  | EmptyString => Some (EmptyString, s)
  end.

Definition number (s : string) : option (string * string) :=
  let '(sign, t) := match s with
                    | String c t => if ascii_eqb c "-" then ("-", t) else ("", s)
                    | EmptyString => ("", s)
                    end in
  let int := match t with
             | String c u => if ascii_eqb c "0" then Some ("0", u)
                             else let '(a, r) := span_digits t in if is_empty a then None else Some (a, r)
             | EmptyString => None
             end in
  match int with
  | None => None
  | Some (a, r) =>
      match fraction_part r with
      | None => None
      | Some (f, r) =>
          match exponent_part r with
          | None => None
          | Some (e, r) => Some (sign +:+ a +:+ f +:+ e, r)
          end
      end
  end.

Definition literal (word : string) (j : json) (s : string) : option (json * string) :=
  if HasPrefix s word then Some (j, TrimPrefix s word) else None.

(** The elements of an array and the members of an object, up to the
    closing bracket; a text of [n] bytes has fewer than [n]. *)
Fixpoint elements (pv : string → option (json * string)) (fuel : nat) (s : string)
  : option (list json * string) :=
  match fuel with
  | 0 => None
  | S fuel =>
      match pv s with
      | None => None
      | Some (j, r) =>
          match skip_space r with
          | String c t =>
              if ascii_eqb c "]" then Some ([j], t)
              else if ascii_eqb c "," then
                match elements pv fuel t with Some (l, r) => Some (j :: l, r) | None => None end
              else None
          | EmptyString => None
          end
      end
  end.

Fixpoint members (pv : string → option (json * string)) (fuel : nat) (s : string)
  : option (list (string * json) * string) :=
  match fuel with
  | 0 => None
  | S fuel =>
      match skip_space s with
      | String q t =>
          if negb (ascii_eqb q quote_mark) then None
          else
            match unquote_from 0 t with
            | None => None
            | Some (k, r) =>
                match skip_space r with
                | String c t =>
                    if negb (ascii_eqb c ":") then None
                    else
                      match pv t with
                      | None => None
                      | Some (j, r) =>
                          match skip_space r with
                          | String c t =>
                              if ascii_eqb c "}" then Some ([(k, j)], t)
                              else if ascii_eqb c "," then
                                match members pv fuel t with Some (l, r) => Some ((k, j) :: l, r) | None => None end
                              else None
                          | EmptyString => None
                          end
                      end
                | EmptyString => None
                end
            end
      | EmptyString => None
      end
  end.

(** The first value of a text, nested less than [depth] deep. *)
Fixpoint value (depth : nat) (s : string) : option (json * string) :=
  match depth with
  | 0 => None
  | S depth =>
      match skip_space s with
      | EmptyString => None
      | String c t =>
          if ascii_eqb c "{" then
            match skip_space t with
            | String c' t' =>
                if ascii_eqb c' "}" then Some (JObj [], t')
                else match members (value depth) (String.length t) t with
                     | Some (l, r) => Some (JObj l, r) | None => None end
            | EmptyString => None
            end
          else if ascii_eqb c "[" then
            match skip_space t with
            | String c' t' =>
                if ascii_eqb c' "]" then Some (JArr [], t')
                else match elements (value depth) (String.length t) t with
                     | Some (l, r) => Some (JArr l, r) | None => None end
            | EmptyString => None
            end
          else if ascii_eqb c quote_mark then
            match unquote_from 0 t with Some (x, r) => Some (JStr x, r) | None => None end
          else if ascii_eqb c "t" then literal "true" (JBool true) (String c t)
          else if ascii_eqb c "f" then literal "false" (JBool false) (String c t)
          else if ascii_eqb c "n" then literal "null" JNull (String c t)
          else match number (String c t) with Some (lit, r) => Some (JNum lit, r) | None => None end
      end
  end.

(** [maxNestingDepth], and one for the value inside. *)
Definition max_depth : nat := Z.to_nat 10001.

(** The value [Decode] reads off a body. *)
Definition read (body : string) : option json := option_map fst (value max_depth body).

(** ** Lemmas: strings *)

(** What reading makes of bytes that are not UTF-8. *)
Fixpoint sanitize_from (skip : nat) (s : string) : string :=
  match s with
  | EmptyString => EmptyString
  | String c t =>
      match skip with
      | S k => String c (sanitize_from k t)
      | 0 =>
          let '(r, n) := DecodeRune s in
          if invalid r n then replacement +:+ sanitize_from 0 t else String c (sanitize_from (n - 1) t)
      end
  end.
Definition sanitize (s : string) : string := sanitize_from 0 s.

(** [utf8.ValidString] *)
Definition ValidString (s : string) : bool := String.eqb (sanitize s) s.

Lemma nth_byte_0 c s : nth_byte (String c s) 0 = byte_of c.
Proof. done. Qed.
Lemma nth_byte_S c s i : nth_byte (String c s) (S i) = nth_byte s i.
Proof. done. Qed.

(** The first rune of a string depends on its own bytes only. *)
Lemma DecodeRune_local s r n :
  DecodeRune s = (r, n) → s ≠ "" → invalid r n = false →
  ∃ a b, s = a +:+ b ∧ String.length a = n ∧ 1 ≤ n ∧ ∀ b', DecodeRune (a +:+ b') = (r, n).
Proof.
  intros H Hs Hi. destruct s as [|c0 s]; [done|]. unfold DecodeRune in H. cbv zeta in H.
  rewrite !nth_byte_S, nth_byte_0 in H.
  assert (∀ k a b, String c0 s = a +:+ b → String.length a = S k → n = S k → (∀ b', DecodeRune (a +:+ b') = (r, n)) →
    ∃ a b, String c0 s = a +:+ b ∧ String.length a = n ∧ 1 ≤ n ∧ ∀ b', DecodeRune (a +:+ b') = (r, n)) as Hex.
  { intros k a b E1 E2 -> E3. exists a, b. split_and!; [done|done|lia|done]. }
  destruct (byte_of c0 <? 128)%Z eqn:E0.
  { injection H as <- <-. apply (Hex 0 (String c0 "") s); try done. intros b'. by apply DecodeRune_ascii. }
  destruct ((194 <=? _)%Z && _) eqn:E1 in H.
  { destruct (cont _) eqn:Ec in H; [|injection H as <- <-; done]. injection H as <- <-.
    destruct s as [|c1 s]; [done|]. apply (Hex 1 (String c0 (String c1 "")) s); try done.
    intros b'. cbn [String.append]. unfold DecodeRune. cbv zeta. rewrite !nth_byte_S, !nth_byte_0 in *.
    by rewrite E0, E1, Ec. }
  destruct ((224 <=? _)%Z && _) eqn:E2 in H.
  { destruct (_ && _) eqn:Ec in H; [|injection H as <- <-; done]. injection H as <- <-.
    destruct s as [|c1 [|c2 s]]; [by rewrite andb_false_r in Ec..|].
    apply (Hex 2 (String c0 (String c1 (String c2 ""))) s); try done.
    intros b'. cbn [String.append]. unfold DecodeRune. cbv zeta. rewrite !nth_byte_S, !nth_byte_0 in *.
    by rewrite E0, E1, E2, Ec. }
  destruct ((240 <=? _)%Z && _) eqn:E3 in H; [|injection H as <- <-; done].
  destruct (_ && _) eqn:Ec in H; [|injection H as <- <-; done]. injection H as <- <-.
  destruct s as [|c1 [|c2 [|c3 s]]]; [by rewrite ?andb_false_r in Ec..|].
  apply (Hex 3 (String c0 (String c1 (String c2 (String c3 "")))) s); try done.
  intros b'. cbn [String.append]. unfold DecodeRune. cbv zeta. rewrite !nth_byte_S, !nth_byte_0 in *.
  by rewrite E0, E1, E2, E3, Ec.
Qed.

Lemma quote_copy a b : quote_from (String.length a) (a +:+ b) = a +:+ quote_from 0 b.
Proof. induction a as [|c a IH]; cbn; [done|]. by rewrite IH. Qed.

Lemma sanitize_copy a b : sanitize_from (String.length a) (a +:+ b) = a +:+ sanitize_from 0 b.
Proof. induction a as [|c a IH]; cbn [String.length String.append sanitize_from]; [done|]. by rewrite IH. Qed.

Lemma prepend_app a b o : prepend a (prepend b o) = prepend (a +:+ b) o.
Proof. destruct o as [[x r]|]; cbn; [by rewrite str_app_assoc|done]. Qed.

Lemma prepend_nil o : prepend "" o = o.
Proof. by destruct o as [[x r]|]. Qed.

Lemma unquote_copy a b : unquote_from (String.length a) (a +:+ b) = prepend a (unquote_from 0 b).
Proof.
  induction a as [|c a IH]; cbn [String.length String.append unquote_from]; [by rewrite prepend_nil|].
  by rewrite IH, prepend_app.
Qed.

(** Reading an escaped byte. *)
Lemma unquote_escape c x :
  (byte_of c <? 128)%Z = true → unquote_from 0 (escape_byte c +:+ x) = prepend (String c "") (unquote_from 0 x).
Proof. destruct c as [[] [] [] [] [] [] [] []]; intros H; try discriminate H; reflexivity. Qed.

Lemma unquote_invalid x :
  unquote_from 0 (esc_u "f" "f" "f" "d" +:+ x) = prepend replacement (unquote_from 0 x).
Proof. reflexivity. Qed.

Lemma byte_of_range c : (0 ≤ byte_of c < 256)%Z.
Proof. destruct c as [[] [] [] [] [] [] [] []]; vm_compute; split; congruence. Qed.

Lemma byte_of_inj c d : byte_of c = byte_of d → c = d.
Proof.
  unfold byte_of. intros H. rewrite <-(ascii_N_embedding c), <-(ascii_N_embedding d). f_equal. lia.
Qed.

(** The two line separators JSON escapes for the sake of JavaScript. *)
Lemma DecodeRune_separator c t r n :
  DecodeRune (String c t) = (r, n) → (r =? 8232)%Z || (r =? 8233)%Z = true →
  ∃ t2, t = bytes [128; r - 8232 + 168]%Z +:+ t2 ∧ c = "226"%char ∧ n = 3.
Proof.
  intros H Hr. assert (8232 ≤ r ≤ 8233)%Z as Hr' by lia. clear Hr. unfold DecodeRune in H. cbv zeta in H.
  rewrite !nth_byte_S, nth_byte_0 in H. pose proof (byte_of_range c) as H0.
  destruct (_ <? 128)%Z eqn:E0; [injection H as <- <-; lia|].
  destruct ((194 <=? _)%Z && _) eqn:E1 in H.
  { destruct (cont _) eqn:Ec in H; injection H as <- <-; unfold cont, rune_error in *; lia. }
  destruct ((224 <=? _)%Z && _) eqn:E2 in H.
  2:{ destruct ((240 <=? _)%Z && _) eqn:E3 in H; [|injection H as <- <-; unfold rune_error in *; lia].
      destruct (_ && _) eqn:Ec in H; [|injection H as <- <-; unfold rune_error in *; lia]. exfalso.
      injection H as <- <-. unfold cont in Ec. destruct (byte_of c =? 240)%Z eqn:E4; lia. }
  destruct (_ && _) eqn:Ec in H; [|injection H as <- <-; unfold rune_error in *; lia].
  injection H as E <-. destruct t as [|c1 [|c2 t2]]; [by rewrite andb_false_r in Ec..|].
  rewrite !nth_byte_S, !nth_byte_0 in *. unfold cont in Ec.
  assert (byte_of c1 ≤ 191 ∧ 128 ≤ byte_of c1)%Z as Hb1 by (destruct (byte_of c =? 224)%Z, (byte_of c =? 237)%Z; lia).
  assert (byte_of c = 226 ∧ byte_of c1 = 128 ∧ byte_of c2 = r - 8232 + 168)%Z as (B0 & B1 & B2) by lia.
  exists t2. split_and!; [|by apply byte_of_inj|done]. unfold bytes. cbn.
  f_equal; [by apply byte_of_inj|]. f_equal. apply byte_of_inj. rewrite B2.
  assert (r = 8232 ∨ r = 8233)%Z as [-> | ->] by lia; reflexivity.
Qed.

Lemma unquote_quote_from s rest :
  unquote_from 0 (quote_from 0 s +:+ String quote_mark rest) = Some (sanitize s, rest).
Proof.
  unfold sanitize. remember (String.length s) as len eqn:Hlen. revert s Hlen.
  induction len as [len IH] using lt_wf_ind. intros s ->. destruct s as [|c t]; [reflexivity|].
  assert (∀ a b, String c t = a +:+ b → 1 ≤ String.length a →
    unquote_from 0 (quote_from 0 b +:+ String quote_mark rest) = Some (sanitize_from 0 b, rest)) as IH'.
  { intros a b E Ha. apply (IH (String.length b)); [|done]. rewrite E, str_length_app. lia. }
  cbn [quote_from sanitize_from]. destruct (byte_of c <? 128)%Z eqn:Eb.
  { rewrite DecodeRune_ascii by done. rewrite str_app_assoc, unquote_escape, (IH' (String c "") t) by done.
    assert (invalid (byte_of c) 1 = false) as -> by (unfold invalid, rune_error; lia). reflexivity. }
  destruct (DecodeRune (String c t)) as [r n] eqn:Ed. destruct (invalid r n) eqn:Ei.
  { rewrite str_app_assoc, unquote_invalid, (IH' (String c "") t) by done. reflexivity. }
  destruct ((r =? 8232)%Z || (r =? 8233)%Z) eqn:Er.
  { destruct (DecodeRune_separator _ _ _ _ Ed Er) as (t2 & -> & -> & ->).
    assert (∀ b2, "226"%char = "226"%char → String.append (bytes [128; b2]%Z) t2 =
      String (ascii_of_N 128) (String (ascii_of_N (Z.to_N b2)) t2)) as Hb by done.
    rewrite Hb by done. rewrite str_app_assoc.
    rewrite Hb in IH' by done.
    specialize (IH' (String "226" (String (ascii_of_N 128) (String (ascii_of_N (Z.to_N (r - 8232 + 168))) ""))) t2 eq_refl).
    assert (r = 8232 ∨ r = 8233)%Z as [-> | ->] by lia.
    - transitivity (prepend (bytes [226; 128; 168]%Z) (unquote_from 0 (quote_from 0 t2 +:+ String quote_mark rest)));
        [reflexivity|rewrite IH' by (cbn; lia); reflexivity].
    - transitivity (prepend (bytes [226; 128; 169]%Z) (unquote_from 0 (quote_from 0 t2 +:+ String quote_mark rest)));
        [reflexivity|rewrite IH' by (cbn; lia); reflexivity]. }
  destruct (DecodeRune_local _ _ _ Ed) as (a & b & E & Hl & Hn & Hd); [done..|].
  assert (match t with
    | String _ (String _ t2) => String c (quote_from (n - 1) t)
    | _ => String c (quote_from (n - 1) t) end = String c (quote_from (n - 1) t)) as Hm by (by destruct t as [|? [|? ?]]).
  rewrite Hm. clear Hm. destruct a as [|c' a]; [cbn in Hl; lia|]. injection E as <- ->. cbn in Hl.
  replace (n - 1) with (String.length a) by lia. rewrite quote_copy, sanitize_copy.
  change (unquote_from 0 (String c (a +:+ quote_from 0 b) +:+ String quote_mark rest)) with
    (unquote_from 0 (String c ((a +:+ quote_from 0 b) +:+ String quote_mark rest))).
  rewrite str_app_assoc. cbn [unquote_from].
  assert (ascii_eqb c quote_mark = false ∧ ascii_eqb c backslash = false) as [-> ->]
    by (split; apply ascii_eqb_neq; intros ->; discriminate).
  replace (byte_of c <? 32)%Z with false by lia. rewrite Eb.
  specialize (Hd (quote_from 0 b +:+ String quote_mark rest)). cbn [String.append] in Hd. rewrite Hd, Ei.
  replace (n - 1) with (String.length a) by lia. rewrite unquote_copy, prepend_app, (IH' (String c a) b) by (done || cbn; lia).
  reflexivity.
Qed.

(** ** Lemmas: numbers *)
Lemma digits_from_app base u v : ∀ a,
  digits_from base a (u +:+ v) = match digits_from base a u with Some b => digits_from base b v | None => None end.
Proof.
  induction u as [|c u IH]; intros a; cbn [String.append digits_from]; [done|].
  destruct (digit_of base c); [apply IH|done].
Qed.

Lemma pretty_char (x : N) : (x < 10)%N →
  is_digit (pretty_N_char x) = true ∧ digit_of 10 (pretty_N_char x) = Some (Z.of_N x) ∧
  (ascii_eqb (pretty_N_char x) "0" = false ∨ x = 0%N).
Proof.
  intros H. assert (x = 0 ∨ x = 1 ∨ x = 2 ∨ x = 3 ∨ x = 4 ∨ x = 5 ∨ x = 6 ∨ x = 7 ∨ x = 8 ∨ x = 9)%N as Hx by lia.
  destruct_or! Hx; subst x; vm_compute; auto.
Qed.

(** Decimal digits: not none, no leading zero unless alone, and the value. *)
Lemma pretty_N_go_digits (x : N) : ∀ s,
  ∃ d, pretty_N_go x s = d +:+ s ∧ all_bytes is_digit d = true ∧ digits_from 10 0 d = Some (Z.of_N x) ∧
    (x = 0%N → d = "") ∧ ((0 < x)%N → ∃ c e, d = String c e ∧ ascii_eqb c "0" = false).
Proof.
  induction (N.lt_wf_0 x) as [x _ IH]; intros s.
  assert (x = 0 ∨ 0 < x)%N as [->|Hx] by lia; [exists ""; split_and!; try done; lia|].
  rewrite pretty_N_go_step by done.
  destruct (IH (x / 10)%N (N.div_lt x 10 Hx eq_refl) (String (pretty_N_char (x mod 10)) s)) as (d & -> & Hd & Hv & Hd0 & Hne).
  assert (x mod 10 < 10)%N as Hm by (by apply N.mod_lt). destruct (pretty_char _ Hm) as (Hc & Hdc & Hz).
  exists (d +:+ String (pretty_N_char (x mod 10)) ""). split; [by rewrite str_app_assoc|].
  split; [by rewrite all_bytes_app, Hd; cbn; rewrite Hc|]. split.
  - rewrite digits_from_app, Hv. cbn [digits_from]. rewrite Hdc. f_equal. rewrite (N.div_mod x 10) at 3 by done. lia.
  - split; [lia|]. intros _. destruct (decide (x < 10)%N) as [Hs|Hs].
    + rewrite Hd0 by (by apply N.div_small). destruct Hz as [Hz|Hz]; [|rewrite N.mod_small in Hz by done; lia]. eauto.
    + destruct Hne as (c & e & -> & Hce); [apply N.div_str_pos; lia|]. eexists c, _. split; [reflexivity|done].
Qed.

Lemma pretty_N_digits (x : N) : ∃ c d, pretty x = String c d ∧ all_bytes is_digit (String c d) = true ∧
  digits_from 10 0 (String c d) = Some (Z.of_N x) ∧ (ascii_eqb c "0" = true → d = "").
Proof.
  unfold pretty, pretty_N. case_decide as H; [subst; by exists "0"%char, ""|].
  destruct (pretty_N_go_digits x "") as (d & -> & Hd & Hv & _ & Hne). destruct Hne as (c & e & -> & Hc); [lia|].
  exists c, e. rewrite str_app_nil_r. split_and!; try done. congruence.
Qed.

(** The text of an integer: a sign, digits. *)
Lemma FormatInt_digits z : ∃ c d, FormatInt z = (if (z <? 0)%Z then "-" else "") +:+ String c d ∧
  all_bytes is_digit (String c d) = true ∧ digits_from 10 0 (String c d) = Some (Z.abs z) ∧
  (ascii_eqb c "0" = true → d = "").
Proof.
  unfold FormatInt. destruct z as [|p|p].
  - by exists "0"%char, "".
  - destruct (pretty_N_digits (Npos p)) as (c & d & E & H). exists c, d. split; [exact E|exact H].
  - destruct (pretty_N_digits (Npos p)) as (c & d & E & H). exists c, d. split; [|exact H].
    change ("-" +:+ pretty (Npos p) = "-" +:+ String c d). by rewrite E.
Qed.

Lemma digit_not c x : is_digit c = true → is_digit x = false → ascii_eqb c x = false.
Proof. intros Hc Hx. apply ascii_eqb_neq. intros ->. congruence. Qed.

(** Reading back an integer in range. *)
Lemma ParseInt64_FormatInt z : in_int64 z → ParseInt64 (FormatInt z) = Some z.
Proof.
  intros Hz. unfold in_int64, int64_min, int64_max in Hz. destruct (FormatInt_digits z) as (c & d & -> & Hd & Hv & _).
  cbn [all_bytes] in Hd. apply andb_true_iff in Hd as [Hc _]. unfold ParseInt64.
  destruct (z <? 0)%Z eqn:Es; cbn [String.append].
  - rewrite ascii_eqb_refl. cbn [is_empty]. rewrite Hv. replace (_ <=? _)%Z with true by lia. f_equal. lia.
  - rewrite (digit_not c "-"), (digit_not c "+") by done. cbn [is_empty]. rewrite Hv.
    replace (_ <? _)%Z with true by lia. f_equal. lia.
Qed.

Lemma ParseUint_FormatInt z bits : (0 ≤ z < 2 ^ bits)%Z → ParseUint 10 bits (FormatInt z) = Some z.
Proof.
  intros Hz. destruct (FormatInt_digits z) as (c & d & -> & _ & Hv & _). replace (z <? 0)%Z with false by lia.
  unfold ParseUint. cbn [String.append is_empty]. rewrite Hv. replace (_ <? _)%Z with true by lia. f_equal. lia.
Qed.

(** A text that does not go on with a number. *)
Definition no_number (rest : string) : Prop :=
  match rest with
  | EmptyString => True
  | String c _ => is_digit c = false ∧ ascii_eqb c "." = false ∧ ascii_eqb c "e" = false ∧ ascii_eqb c "E" = false
  end.

Lemma span_digits_app d rest :
  all_bytes is_digit d = true → no_number rest → span_digits (d +:+ rest) = (d, rest).
Proof.
  intros Hd Hr. induction d as [|c d IH]; cbn [String.append span_digits].
  - destruct rest as [|x rest]; [done|]. cbn. destruct Hr as (-> & _). done.
  - cbn [all_bytes] in Hd. apply andb_true_iff in Hd as [-> Hd]. by rewrite IH.
Qed.

Lemma number_FormatInt z rest : no_number rest → number (FormatInt z +:+ rest) = Some (FormatInt z, rest).
Proof.
  intros Hr. destruct (FormatInt_digits z) as (c & d & -> & Hd & _ & Hz). unfold number.
  assert (fraction_part rest = Some ("", rest) ∧ exponent_part rest = Some ("", rest)) as [Hf He].
  { destruct rest as [|x rest]; [done|]. destruct Hr as (_ & Hdot & H1 & H2). cbn. by rewrite Hdot, H1, H2. }
  assert (match String c (d +:+ rest) with
      | EmptyString => None
      | String c u => if ascii_eqb c "0" then Some ("0", u)
                      else let '(a, r) := span_digits (String c (d +:+ rest)) in if is_empty a then None else Some (a, r)
      end = Some (String c d, rest)) as Hint.
  { destruct (ascii_eqb c "0") eqn:E0.
    - rewrite (Hz eq_refl). apply ascii_eqb_eq in E0 as ->. done.
    - change (String c (d +:+ rest)) with (String c d +:+ rest). by rewrite span_digits_app. }
  cbn [all_bytes] in Hd. apply andb_true_iff in Hd as [Hc _].
  destruct (z <? 0)%Z; cbn [String.append].
  - rewrite ascii_eqb_refl. rewrite Hint, Hf, He. by rewrite !str_app_nil_r.
  - rewrite (digit_not c "-") by done. rewrite Hint, Hf, He. by rewrite !str_app_nil_r.
Qed.

(** ** Reading what was written *)
Fixpoint clean (j : json) : json :=
  match j with
  | JStr s => JStr (sanitize s)
  | JArr l => JArr (map clean l)
  | JObj l => JObj (map (λ kv, (sanitize (fst kv), clean (snd kv))) l)
  | j => j
  end.

(** A value nested less than [n] deep whose numbers are integers. *)
Inductive printable : nat → json → Prop :=
| printable_null n : printable (S n) JNull
| printable_bool n b : printable (S n) (JBool b)
| printable_num n z : printable (S n) (JNum (FormatInt z))
| printable_str n s : printable (S n) (JStr s)
| printable_arr n l : Forall (printable n) l → printable (S n) (JArr l)
| printable_obj n l : Forall (λ kv, printable n (snd kv)) l → printable (S n) (JObj l).

Lemma skip_space_none c s : is_space c = false → skip_space (String c s) = String c s.
Proof. intros H. unfold skip_space. cbn. by rewrite H. Qed.

Lemma digit_visible c : is_digit c = true →
  is_space c = false ∧ ascii_eqb c "]" = false ∧ ascii_eqb c "}" = false ∧ ascii_eqb c "{" = false ∧
  ascii_eqb c "[" = false ∧ ascii_eqb c quote_mark = false ∧ ascii_eqb c "t" = false ∧
  ascii_eqb c "f" = false ∧ ascii_eqb c "n" = false.
Proof.
  intros H. assert (48 ≤ byte_of c ≤ 57)%Z as Hb by (unfold is_digit, byte_in in H; lia).
  split; [unfold is_space; lia|]. repeat split; by apply digit_not.
Qed.

(** The first byte of a value. *)
Lemma print_first n j : printable n j →
  ∃ c s, print j = String c s ∧ is_space c = false ∧ ascii_eqb c "]" = false ∧ ascii_eqb c "}" = false.
Proof.
  intros H. inversion H as [|? []|? z| | |]; subst; try by eexists _, _.
  destruct (FormatInt_digits z) as (c & d & E & Hd & _). cbn [print]. rewrite E.
  cbn [all_bytes] in Hd. apply andb_true_iff in Hd as [(? & ? & ? & _)%digit_visible _].
  destruct (z <? 0)%Z; [by eexists _, _|]. by exists c, d.
Qed.

Lemma value_number n z rest : no_number rest →
  value (S n) (FormatInt z +:+ rest) = Some (JNum (FormatInt z), rest).
Proof.
  intros Hr. pose proof (number_FormatInt z rest Hr) as Hn.
  destruct (FormatInt_digits z) as (c & d & E & Hd & _). cbn [all_bytes] in Hd.
  apply andb_true_iff in Hd as [(? & ? & ? & ? & ? & ? & ? & ? & ?)%digit_visible _].
  rewrite E in *. destruct (z <? 0)%Z; cbn [String.append] in *.
  - cbn [value]. rewrite skip_space_none by done. cbn -[number] in *. by rewrite Hn.
  - cbn [value]. rewrite skip_space_none by done. repeat match goal with H : _ = false |- _ => rewrite H end.
    by rewrite Hn.
Qed.

Section nested.
Context (pv : string → option (json * string)) (n : nat).
Hypothesis pv_print : ∀ j rest, printable n j → no_number rest → pv (print j +:+ rest) = Some (clean j, rest).

Lemma elements_print l : ∀ fuel rest, Forall (printable n) l → l ≠ [] → length l ≤ fuel →
  elements pv fuel (Join "," (map print l) +:+ String "]" rest) = Some (map clean l, rest).
Proof.
  induction l as [|j l IH]; intros [|fuel] rest Hl Hne Hf; [done|done|cbn in Hf; lia|].
  apply Forall_cons in Hl as [Hj Hl]. cbn [elements map]. destruct l as [|j' l].
  - cbn [map Join]. by rewrite pv_print by done.
  - change (Join "," (print j :: map print (j' :: l))) with (print j +:+ "," +:+ Join "," (map print (j' :: l))).
    rewrite !str_app_assoc, pv_print by done. cbn in Hf. change ("," +:+ ?x) with (String "," x).
    rewrite skip_space_none by done. change (ascii_eqb "," "]") with false. change (ascii_eqb "," ",") with true.
    cbv beta iota. by rewrite IH by (done || cbn; lia).
Qed.

Lemma unquote_quote s rest : ∃ t, quote s +:+ rest = String quote_mark t ∧ unquote_from 0 t = Some (sanitize s, rest).
Proof.
  eexists. split; [reflexivity|]. change (String quote_mark "" +:+ rest) with (String quote_mark rest).
  rewrite str_app_assoc. apply unquote_quote_from.
Qed.

Definition print_member (kv : string * json) : string := quote (fst kv) +:+ ":" +:+ print (snd kv).

Lemma members_print l : ∀ fuel rest, Forall (λ kv, printable n (snd kv)) l → l ≠ [] → length l ≤ fuel →
  members pv fuel (Join "," (map print_member l) +:+ String "}" rest) =
  Some (map (λ kv, (sanitize (fst kv), clean (snd kv))) l, rest).
Proof.
  induction l as [|[k j] l IH]; intros [|fuel] rest Hl Hne Hf; [done|done|cbn in Hf; lia|].
  apply Forall_cons in Hl as [Hj Hl]. cbn [fst snd] in Hj. cbn [members map]. 
  assert (∀ x, (quote k +:+ ":" +:+ print j) +:+ x = quote k +:+ String ":" (print j +:+ x)) as Hsh
    by (intros x; by rewrite !str_app_assoc).
  destruct l as [|kv' l].
  - cbn [map Join]. unfold print_member. cbn [fst snd]. rewrite Hsh.
    destruct (unquote_quote k (String ":" (print j +:+ String "}" rest))) as (t & -> & Hu).
    rewrite skip_space_none by done. cbn [negb]. rewrite ascii_eqb_refl, Hu. rewrite skip_space_none by done.
    cbn [negb]. rewrite ascii_eqb_refl. by rewrite pv_print by done.
  - change (Join "," (print_member (k, j) :: map print_member (kv' :: l)))
      with (print_member (k, j) +:+ "," +:+ Join "," (map print_member (kv' :: l))).
    unfold print_member at 1. cbn [fst snd]. rewrite str_app_assoc, Hsh.
    destruct (unquote_quote k (String ":" (print j +:+ ("," +:+ Join "," (map print_member (kv' :: l))) +:+ String "}" rest)))
      as (t & -> & Hu).
    rewrite skip_space_none by done. cbn [negb]. rewrite ascii_eqb_refl, Hu. rewrite skip_space_none by done.
    cbn [negb]. rewrite ascii_eqb_refl, !str_app_assoc, pv_print by done. cbn in Hf.
    change ("," +:+ ?x) with (String "," x). rewrite skip_space_none by done.
    change (ascii_eqb "," "}") with false. change (ascii_eqb "," ",") with true.
    cbv beta iota. by rewrite IH by (done || cbn; lia).
Qed.
End nested.

Lemma Join_length sep l : Forall (λ s, s ≠ "") l → length l ≤ String.length (Join sep l).
Proof.
  induction 1 as [|x l Hx Hl IH]; [done|]. assert (1 ≤ String.length x) as H1.
  { destruct x; [done|]. cbn. lia. }
  destruct l as [|y l]; [cbn; lia|].
  change (Join sep (x :: y :: l)) with (x +:+ sep +:+ Join sep (y :: l)). rewrite !str_length_app. cbn [length] in *. lia.
Qed.

Lemma Join_first sep x l c s : x = String c s → ∃ t, Join sep (x :: l) = String c t.
Proof. intros ->. destruct l; by eexists. Qed.

(** What was written is read back, up to bytes that are not UTF-8, and
    whatever follows it is left, as long as that does not go on with a
    number. *)
Theorem value_print n : ∀ j rest,
  printable n j → no_number rest → value n (print j +:+ rest) = Some (clean j, rest).
Proof.
  induction n as [|n IH]; intros j rest Hj Hr; inversion Hj as [|? b|? z|? s|? l Hl|? l Hl]; subst.
  - done.
  - by destruct b.
  - by apply value_number.
  - cbn [print]. destruct (unquote_quote s rest) as (t & -> & Hu). cbn [value]. rewrite skip_space_none by done.
    by cbn -[unquote_from]; rewrite Hu.
  - cbn [print]. change ("[" +:+ ?x) with (String "[" x). cbn [String.append value].
    rewrite skip_space_none by done. change (ascii_eqb "[" "{") with false. change (ascii_eqb "[" "[") with true. cbv beta iota.
    rewrite str_app_assoc. change ("]" +:+ rest) with (String "]" rest). destruct l as [|j l]; [done|].
    pose proof (Forall_inv Hl) as Hj1. destruct (print_first n j Hj1) as (c & s & Ep & Hs & Hc & _).
    destruct (Join_first "," (print j) (map print l) c s Ep) as [t Et].
    assert (length (j :: l) ≤ String.length (Join "," (map print (j :: l)) +:+ String "]" rest)) as Hf.
    { rewrite str_length_app. transitivity (String.length (Join "," (map print (j :: l)))); [|lia].
      rewrite <-(length_map print). apply Join_length, List.Forall_map. eapply Forall_impl; [exact Hl|].
      intros x Hx. destruct (print_first n x Hx) as (? & ? & -> & _). done. }
    pose proof (elements_print (value n) n IH (j :: l) _ rest Hl ltac:(done) Hf) as He.
    cbn [map] in He |- *. rewrite Et in He |- *. cbn [String.append] in He |- *.
    rewrite skip_space_none by done. rewrite Hc, He. done.
  - change (print (JObj l)) with (String "{" (Join "," (map print_member l) +:+ "}")). cbn [String.append value].
    rewrite skip_space_none by done. change (ascii_eqb "{" "{") with true. cbv beta iota.
    rewrite str_app_assoc. change ("}" +:+ rest) with (String "}" rest). destruct l as [|kv l]; [done|].
    destruct (Join_first "," (print_member kv) (map print_member l) quote_mark (str_drop 1 (print_member kv)) eq_refl) as [t Et].
    assert (length (kv :: l) ≤ String.length (Join "," (map print_member (kv :: l)) +:+ String "}" rest)) as Hf.
    { rewrite str_length_app. transitivity (String.length (Join "," (map print_member (kv :: l)))); [|lia].
      rewrite <-(length_map print_member). apply Join_length, List.Forall_map. eapply Forall_impl; [exact Hl|].
      intros x _. discriminate. }
    pose proof (members_print (value n) n IH (kv :: l) _ rest Hl ltac:(done) Hf) as He.
    cbn [map] in He |- *. rewrite Et in He |- *. cbn [String.append] in He |- *.
    rewrite skip_space_none by done. change (ascii_eqb quote_mark "}") with false. cbv beta iota. rewrite He. done.
Qed.

(** The body of a request that is one value. *)
Lemma read_print j : printable max_depth j → read (print j) = Some (clean j).
Proof.
  intros H. unfold read. rewrite <-(str_app_nil_r (print j)). by rewrite value_print.
Qed.

Lemma printable_mono n m j : printable n j → n ≤ m → printable m j.
Proof.
  revert n j. induction m as [|m IH]; intros n j H Hle; inversion H as [|? b|? z|? s|? l Hl|? l Hl]; subst; try lia;
    constructor; (eapply Forall_impl; [exact Hl|]); intros x Hx; eapply IH; (exact Hx || lia).
Qed.

End Json.
