(* ===== verification/Rfc3339.v ===== *)
(** * Times on the wire: RFC 3339

    A [time.Time] is written into JSON as RFC 3339 with the fraction of a
    second it has, and read by the strict parser of the package time.  The
    times the program sends are in UTC ([Time.format_rfc3339nano]).  The
    calendar is shown to be invertible, and what is written is read back
    as the same instant. *)
From S2P Require Import Prelude GoStrings GoPath GoTime Json.

Module Rfc3339.
Import Str Json.

Local Open Scope Z_scope.

(** ** The calendar *)
Definition leap (y : Z) : bool := (y mod 4 =? 0) && (negb (y mod 100 =? 0) || (y mod 400 =? 0)).

(** [daysIn] *)
Definition daysIn (m y : Z) : Z :=
  if m =? 2 then (if leap y then 29 else 28)
  else if (m =? 4) || (m =? 6) || (m =? 9) || (m =? 11) then 30 else 31.

(** The number of a day, counted from January 1, year 1. *)
Definition day_number (y m d : Z) : Z :=
  let y' := if m <=? 2 then y - 1 else y in
  let era := y' / 400 in
  let yoe := y' mod 400 in
  let mp := if 2 <? m then m - 3 else m + 9 in
  let doy := (153 * mp + 2) / 5 + d - 1 in
  era * 146097 + (yoe * 365 + yoe / 4 - yoe / 100 + doy) - 306.

(** ** Reading *)
Definition sub (i n : nat) (s : string) : string := str_take n (str_drop i s).

(** [parseUint]: digits only, in a range. *)
Definition parseUint (s : string) (min max : Z) : option Z :=
  match digits_from 10 0 s with
  | Some x => if (x <? min) || (max <? x) then None else Some x
  | None => None
  end.

Definition byte_at (s : string) (i : nat) (c : ascii) : bool :=
  match str_drop i s with String d _ => ascii_eqb d c | EmptyString => false end.

(** [parseNanoseconds] of the digits after the point: at most nine count. *)
Definition nanoseconds (digits : string) : Z :=
  let used := str_take 9 digits in
  default 0 (digits_from 10 0 used) * 10 ^ (9 - Z.of_nat (String.length used)).

(** The fraction of a second, and what follows. *)
Definition read_fraction (s : string) : Z * string :=
  match s with
  | String c (String d _ as rest) =>
      if ascii_eqb c "." && is_digit d
      then let '(digits, after) := span_digits rest in (nanoseconds digits, after)
      else (0, s)
  | _ => (0, s)
  end.

(** The offset of the zone, in seconds. *)
Definition read_zone (s : string) : option Z :=
  if String.eqb s "Z" then Some 0
  else if negb (String.length s =? 6)%nat then None
  else
    hr ← parseUint (sub 1 2 s) 0 23;
    mm ← parseUint (sub 4 2 s) 0 59;
    if (byte_at s 0 "-" || byte_at s 0 "+") && byte_at s 3 ":"
    then Some (if byte_at s 0 "-" then - ((hr * 60 + mm) * 60) else (hr * 60 + mm) * 60)
    else None.

(** [parseStrictRFC3339] *)
Definition ParseRFC3339 (s : string) : option Z :=
  if (String.length s <? 19)%nat then None
  else
    year ← parseUint (sub 0 4 s) 0 9999;
    month ← parseUint (sub 5 2 s) 1 12;
    day ← parseUint (sub 8 2 s) 1 (daysIn month year);
    hour ← parseUint (sub 11 2 s) 0 23;
    min ← parseUint (sub 14 2 s) 0 59;
    sec ← parseUint (sub 17 2 s) 0 59;
    if byte_at s 4 "-" && byte_at s 7 "-" && byte_at s 10 "T" && byte_at s 13 ":" && byte_at s 16 ":" then
      let '(nsec, rest) := read_fraction (str_drop 19 s) in
      zone ← read_zone rest;
      Some ((day_number year month day * 86400 + hour * 3600 + min * 60 + sec - zone) * Time.Second + nsec)
    else None.

(** ** Lemmas: the calendar *)

(** The year within an era of 400 years and the day within a year that
    starts in March; only a year that ends in a leap day has 366 days. *)
Lemma year_of_era doe : 0 ≤ doe < 146097 →
  let yoe := (doe - doe / 1460 + doe / 36524 - doe / 146096) / 365 in
  let doy := doe - (365 * yoe + yoe / 4 - yoe / 100) in
  0 ≤ yoe < 400 ∧ 0 ≤ doy ≤ 365 ∧ (doy = 365 → leap (yoe + 1) = true).
Proof.
  intros H. cbv zeta.
  set (c := doe / 36524). set (q := doe / 1460). set (l := doe / 146096).
  pose proof (Z.div_mod doe 36524 ltac:(lia)) as Hc. pose proof (Z.mod_pos_bound doe 36524 ltac:(lia)).
  pose proof (Z.div_mod doe 1460 ltac:(lia)) as Hq. pose proof (Z.mod_pos_bound doe 1460 ltac:(lia)).
  pose proof (Z.div_mod doe 146096 ltac:(lia)) as Hl. pose proof (Z.mod_pos_bound doe 146096 ltac:(lia)).
  fold c in Hc. fold q in Hq. fold l in Hl.
  set (yoe := (doe - q + c - l) / 365).
  pose proof (Z.div_mod (doe - q + c - l) 365 ltac:(lia)) as Hy. fold yoe in Hy.
  pose proof (Z.mod_pos_bound (doe - q + c - l) 365 ltac:(lia)).
  clearbody yoe. clearbody c q l. assert (0 ≤ yoe < 400) as Hyoe by lia.
  pose proof (Z.div_mod yoe 4 ltac:(lia)). pose proof (Z.mod_pos_bound yoe 4 ltac:(lia)).
  pose proof (Z.div_mod yoe 100 ltac:(lia)). pose proof (Z.mod_pos_bound yoe 100 ltac:(lia)).
  split; [done|]. split; [lia|]. intros E. unfold leap.
  pose proof (Z.div_mod (yoe + 1) 4 ltac:(lia)). pose proof (Z.mod_pos_bound (yoe + 1) 4 ltac:(lia)).
  pose proof (Z.div_mod (yoe + 1) 100 ltac:(lia)). pose proof (Z.mod_pos_bound (yoe + 1) 100 ltac:(lia)).
  pose proof (Z.div_mod (yoe + 1) 400 ltac:(lia)). pose proof (Z.mod_pos_bound (yoe + 1) 400 ltac:(lia)).
  assert ((yoe + 1) mod 4 = 0) as -> by lia.
  destruct (decide ((yoe + 1) mod 100 = 0)) as [Hz|Hn]; [|by replace ((yoe + 1) mod 100 =? 0) with false by lia]. rewrite Hz.
  assert (yoe = 99 ∨ yoe = 199 ∨ yoe = 299 ∨ yoe = 399) as Hcase by lia.
  assert (yoe = 399) as -> by (destruct_or! Hcase; subst yoe; lia). done.
Qed.

Lemma leap_era y era : leap (y + era * 400) = leap y.
Proof.
  unfold leap. replace (y + era * 400) with (y + (era * 100) * 4) at 1 by lia. rewrite Z_mod_plus_full.
  replace (y + era * 400) with (y + (era * 4) * 100) at 1 by lia. by rewrite !Z_mod_plus_full.
Qed.

(** Decides the comparisons of constants in the goal. *)
Ltac tests :=
  repeat match goal with
  | |- context [?a =? ?b] => let v := eval vm_compute in (a =? b) in change (a =? b) with v
  | |- context [?a <=? ?b] => let v := eval vm_compute in (a <=? b) in change (a <=? b) with v
  end; cbn [orb].

(** Every day has one date, and it is a valid one. *)
Lemma civil_back day y m d : Time.civil day = (y, m, d) →
  day_number y m d = day ∧ 1 ≤ m ≤ 12 ∧ 1 ≤ d ≤ daysIn m y.
Proof.
  unfold Time.civil. set (z := day + 306). set (era := z / 146097). set (doe := z mod 146097).
  assert (0 ≤ doe < 146097) as Hdoe by (apply Z.mod_pos_bound; lia).
  assert (z = 146097 * era + doe) as Hz by (apply Z.div_mod; lia).
  destruct (year_of_era doe Hdoe) as (Hyoe & Hdoy & Hleap).
  set (yoe := (doe - doe / 1460 + doe / 36524 - doe / 146096) / 365) in *.
  set (doy := doe - (365 * yoe + yoe / 4 - yoe / 100)) in *.
  assert (doe = yoe * 365 + yoe / 4 - yoe / 100 + doy) as Edoe by (unfold doy; lia).
  clearbody doy yoe era doe.
  set (mp := (5 * doy + 2) / 153).
  assert (5 * doy + 2 = 153 * mp + (5 * doy + 2) mod 153) as Hmp by (apply Z.div_mod; lia).
  pose proof (Z.mod_pos_bound (5 * doy + 2) 153 ltac:(lia)) as Hmm.
  assert (0 ≤ mp ≤ 11) as Hmp11 by lia.
  assert (153 * mp + 2 = 5 * ((153 * mp + 2) / 5) + (153 * mp + 2) mod 5) as Hq by (apply Z.div_mod; lia).
  pose proof (Z.mod_pos_bound (153 * mp + 2) 5 ltac:(lia)) as Hqm.
  set (k := (153 * mp + 2) / 5) in *. clearbody mp. intros [= <- <- <-].
  assert (1 ≤ (if mp <? 10 then mp + 3 else mp - 9) ≤ 12) as Hm by (destruct (Z.ltb_spec mp 10); lia).
  assert (∀ e, (yoe + era * 400 + e - e) / 400 = era ∧ (yoe + era * 400 + e - e) mod 400 = yoe) as Hera.
  { intros e. replace (yoe + era * 400 + e - e) with (yoe + era * 400) by lia.
    rewrite Z_div_plus_full, Z_mod_plus_full, Z.div_small, Z.mod_small by lia. lia. }
  split; [|split; [done|]].
  - unfold day_number. destruct (Z.ltb_spec mp 10).
    + replace (mp + 3 <=? 2) with false by lia. replace (2 <? mp + 3) with true by lia.
      specialize (Hera 0). rewrite Z.sub_0_r in Hera. destruct Hera as [-> ->].
      replace (mp + 3 - 3) with mp by lia. fold k. lia.
    + replace (mp - 9 <=? 2) with true by lia. replace (2 <? mp - 9) with false by lia.
      destruct (Hera 1) as [-> ->]. replace (mp - 9 + 9) with mp by lia. fold k. lia.
  - clearbody k. split; [lia|]. unfold daysIn. destruct (Z.ltb_spec mp 10).
    + assert (mp = 0 ∨ mp = 1 ∨ mp = 2 ∨ mp = 3 ∨ mp = 4 ∨ mp = 5 ∨ mp = 6 ∨ mp = 7 ∨ mp = 8 ∨ mp = 9) as Hc by lia.
      destruct_or! Hc; subst mp; tests; lia.
    + assert (mp = 10 ∨ mp = 11) as [->| ->] by lia; tests; [lia|].
      replace (yoe + era * 400 + 1) with ((yoe + 1) + era * 400) by lia. rewrite leap_era.
      destruct (leap (yoe + 1)) eqn:El; [lia|]. assert (doy ≠ 365) by (intros E; apply Hleap in E; congruence). lia.
Qed.

(** The first and last day the program can send: the years 1 to 9999. *)
Definition last_instant : Z := 3652059 * 86400 * Time.Second.

Lemma civil_year day y m d : 0 ≤ day < 3652059 → Time.civil day = (y, m, d) → 0 ≤ y ≤ 9999.
Proof.
  intros Hday. unfold Time.civil. set (z := day + 306). set (era := z / 146097). set (doe := z mod 146097).
  assert (0 ≤ doe < 146097) as Hdoe by (apply Z.mod_pos_bound; lia).
  assert (z = 146097 * era + doe) as Hz by (apply Z.div_mod; lia).
  destruct (year_of_era doe Hdoe) as (Hyoe & Hdoy & _).
  set (yoe := (doe - doe / 1460 + doe / 36524 - doe / 146096) / 365) in *.
  set (doy := doe - (365 * yoe + yoe / 4 - yoe / 100)) in *.
  assert (doe = yoe * 365 + yoe / 4 - yoe / 100 + doy) as Edoe by (unfold doy; lia).
  clearbody doy yoe era doe.
  set (mp := (5 * doy + 2) / 153).
  assert (5 * doy + 2 = 153 * mp + (5 * doy + 2) mod 153) as Hmp by (apply Z.div_mod; lia).
  pose proof (Z.mod_pos_bound (5 * doy + 2) 153 ltac:(lia)) as Hmm. clearbody mp.
  assert (0 ≤ era ≤ 24) as Hera by lia. intros [= <- E1 E2]. clear E1 E2.
  destruct (Z.leb_spec (if mp <? 10 then mp + 3 else mp - 9) 2) as [Hm|]; [|lia].
  destruct (Z.ltb_spec mp 10); [lia|]. split; [lia|].
  assert (era < 24 ∨ era = 24) as [?| ->] by lia; [lia|].
  assert (yoe ≠ 399); [|lia]. intros ->. change (399 / 4) with 99 in Edoe. change (399 / 100) with 3 in Edoe. lia.
Qed.

(** ** Lemmas: digits *)
Lemma digit_range c x : digit_of 10 c = Some x → 0 ≤ x ≤ 9.
Proof. unfold digit_of. intros H. destruct (_ && _ && _) eqn:E; [|done]. injection H as <-. lia. Qed.

Lemma digits_bound s : ∀ a v, digits_from 10 a s = Some v →
  a * 10 ^ Z.of_nat (String.length s) ≤ v < (a + 1) * 10 ^ Z.of_nat (String.length s).
Proof.
  induction s as [|c s IH]; intros a v; cbn [digits_from String.length].
  - intros [= <-]. lia.
  - destruct (digit_of 10 c) as [x|] eqn:E; [|done]. intros H%IH. apply digit_range in E.
    rewrite Nat2Z.inj_succ, Z.pow_succ_r by lia. nia.
Qed.

Lemma FormatInt_length z w : (1 ≤ w)%nat → 0 ≤ z < 10 ^ Z.of_nat w → (String.length (FormatInt z) ≤ w)%nat.
Proof.
  intros Hw Hz. destruct (FormatInt_digits z) as (c & d & -> & Hd & Hv & Hc). replace (z <? 0) with false by lia.
  cbn [String.append]. destruct (ascii_eqb c "0") eqn:E; [by rewrite Hc by done|].
  cbn [digits_from] in Hv. destruct (digit_of 10 c) as [x|] eqn:Ex; [|done].
  assert (1 ≤ x) as Hx.
  { revert Ex E. unfold digit_of. clear. destruct c as [[] [] [] [] [] [] [] []]; vm_compute; intros; simplify_eq; done. }
  apply digits_bound in Hv. rewrite Z.abs_eq in Hv by lia. cbn [String.length].
  destruct (decide (S (String.length d) ≤ w)%nat); [done|exfalso].
  assert (10 ^ Z.of_nat w ≤ 10 ^ Z.of_nat (String.length d)) by (apply Z.pow_le_mono_r; lia). nia.
Qed.

Definition zeros (n : nat) : string := String.string_of_list_ascii (repeat "0"%char n).

Lemma digits_zeros n : ∀ a, digits_from 10 a (zeros n) = Some (a * 10 ^ Z.of_nat n).
Proof.
  induction n as [|n IH]; intros a; [cbn; f_equal; lia|]. unfold zeros in *. cbn [repeat String.string_of_list_ascii digits_from].
  change (digit_of 10 "0") with (Some 0). cbv iota beta. rewrite IH. f_equal. rewrite Nat2Z.inj_succ, Z.pow_succ_r by lia. lia.
Qed.

Lemma zeros_digits n : all_bytes is_digit (zeros n) = true ∧ String.length (zeros n) = n.
Proof. unfold zeros. induction n as [|n [IH1 IH2]]; [done|]. cbn. rewrite IH1, IH2. done. Qed.

(** A number padded to its width. *)
Lemma pad_digits w z : (1 ≤ w)%nat → 0 ≤ z < 10 ^ Z.of_nat w →
  String.length (Time.pad w z) = w ∧ digits_from 10 0 (Time.pad w z) = Some z ∧ all_bytes is_digit (Time.pad w z) = true.
Proof.
  intros Hw Hz. pose proof (FormatInt_length z w Hw Hz) as Hl.
  unfold Time.pad. fold (zeros (w - String.length (FormatInt z))).
  destruct (zeros_digits (w - String.length (FormatInt z))) as [H1 H2].
  rewrite str_length_app, H2, digits_from_app, digits_zeros, all_bytes_app, H1. split; [lia|].
  destruct (FormatInt_digits z) as (c & d & E & Hd & Hv & _). replace (z <? 0) with false in E by lia.
  cbn [String.append] in E. rewrite E. rewrite Z.mul_0_l, Hv, Hd. split; [|done]. f_equal. lia.
Qed.

(** Without its trailing zeros. *)
Lemma trim_zeros s : ∃ k, s = TrimRight (λ c, ascii_eqb c "0") s +:+ zeros k.
Proof.
  induction s as [|c s [k IH]]; [by exists 0%nat|]. cbn [TrimRight].
  destruct (TrimRight _ s) as [|x t] eqn:E; cbn [String.append] in IH.
  - destruct (ascii_eqb c "0") eqn:Ec.
    + apply ascii_eqb_eq in Ec as ->. exists (S k). by rewrite IH at 1.
    + exists k. by rewrite IH at 1.
  - exists k. change (String c (String x t) +:+ zeros k) with (String c (String x t +:+ zeros k)). by f_equal.
Qed.

(** ** Reading back *)
Lemma parse_pad w z lo hi : (1 ≤ w)%nat → 0 ≤ z < 10 ^ Z.of_nat w → lo ≤ z ≤ hi →
  parseUint (Time.pad w z) lo hi = Some z.
Proof.
  intros Hw Hz Hr. destruct (pad_digits w z Hw Hz) as (_ & Hv & _). unfold parseUint. rewrite Hv.
  replace (z <? lo) with false by lia. by replace (hi <? z) with false by lia.
Qed.

Lemma fraction_back n : 0 ≤ n < Time.Second → read_fraction (Time.fraction n +:+ "Z") = (n, "Z").
Proof.
  intros Hn. unfold Time.fraction. destruct (Z.eqb_spec n 0) as [->|Hne]; [done|].
  destruct (pad_digits 9 n ltac:(lia) Hn) as (Hl & Hv & Hd). destruct (trim_zeros (Time.pad 9 n)) as [k Ek].
  set (u := TrimRight _ (Time.pad 9 n)) in *.
  rewrite Ek in Hl, Hv, Hd. rewrite str_length_app in Hl. rewrite (proj2 (zeros_digits k)) in Hl.
  rewrite digits_from_app in Hv. rewrite all_bytes_app in Hd. apply andb_true_iff in Hd as [Hd _].
  destruct (digits_from 10 0 u) as [v|] eqn:Eu; [|done]. rewrite digits_zeros in Hv. injection Hv as Hv.
  destruct u as [|c u'] eqn:E; [cbn in Eu; injection Eu as <-; lia|].
  change (("." +:+ String c u') +:+ "Z") with (String "." (String c (u' +:+ "Z"))). unfold read_fraction.
  pose proof Hd as Hd'. cbn [all_bytes] in Hd'. apply andb_true_iff in Hd' as [-> _]. cbn [ascii_eqb andb].
  change (String c (u' +:+ "Z")) with (String c u' +:+ "Z"). rewrite span_digits_app; [|done|done].
  change (Ascii.eqb "." ".") with true. cbn [andb]. f_equal.
  unfold nanoseconds. rewrite str_take_ge by lia. rewrite Eu. cbn [default]. unfold id. rewrite <-Hv. f_equal. f_equal. lia.
Qed.

(** The fixed part of the text, by its numbers. *)
Definition stamp (year month day hour min sec rest : string) : string :=
  year +:+ "-" +:+ month +:+ "-" +:+ day +:+ "T" +:+ hour +:+ ":" +:+ min +:+ ":" +:+ sec +:+ rest.

Lemma parse_stamp year month day hour min sec rest y m d h mi s :
  String.length year = 4%nat → Forall (λ x, String.length x = 2%nat) [month; day; hour; min; sec] →
  parseUint year 0 9999 = Some y → parseUint month 1 12 = Some m → parseUint day 1 (daysIn m y) = Some d →
  parseUint hour 0 23 = Some h → parseUint min 0 59 = Some mi → parseUint sec 0 59 = Some s →
  ParseRFC3339 (stamp year month day hour min sec rest) =
  (zone ← read_zone (snd (read_fraction rest));
   Some ((day_number y m d * 86400 + h * 3600 + mi * 60 + s - zone) * Time.Second + fst (read_fraction rest))).
Proof.
  intros Hy Hall P1 P2 P3 P4 P5 P6.
  repeat (apply Forall_cons in Hall as [? Hall]).
  repeat match goal with
  | H : String.length ?x = _ |- _ => is_var x; destruct x as [|? x]; [discriminate H|]; cbn [String.length] in H; apply eq_add_S in H
  | H : String.length ?x = 0%nat |- _ => apply str_length_nil in H; subst x
  end.
  unfold ParseRFC3339, stamp. cbn -[parseUint daysIn day_number read_fraction read_zone Time.Second Z.mul Z.add].
  rewrite P1, P2. cbn [mbind option_bind]. rewrite P3. cbn [mbind option_bind]. rewrite P4, P5, P6. cbn [mbind option_bind].
  by destruct (read_fraction rest).
Qed.

(** What is written is read back as the same instant. *)
Lemma rfc3339_back t : 0 ≤ t < last_instant → ParseRFC3339 (Time.format_rfc3339nano t) = Some t.
Proof.
  intros Ht. unfold Time.format_rfc3339nano, Time.format_day, Time.wall_seconds. rewrite Z.add_0_r.
  set (w := t / Time.Second). assert (t = Time.Second * w + t mod Time.Second) as Et by (by apply Z.div_mod).
  pose proof (Z.mod_pos_bound t Time.Second ltac:(done)) as Hn.
  set (n := t mod Time.Second) in *. set (day := w / 86400). set (s := w mod 86400).
  assert (w = 86400 * day + s) as Ew by (by apply Z.div_mod).
  assert (0 ≤ s < 86400) as Hs by (apply Z.mod_pos_bound; lia). clearbody n day s w.
  assert (0 ≤ day < 3652059) as Hday by (unfold last_instant, Time.Second in *; lia).
  destruct (Time.civil day) as [[y m] d] eqn:Ec. pose proof (civil_year _ _ _ _ Hday Ec) as Hy.
  destruct (civil_back _ _ _ _ Ec) as (Eday & Hm & Hd).
  assert (d < 100) as Hd2 by (unfold daysIn in Hd; repeat case_match; lia).
  pose proof (Z.div_mod s 3600 ltac:(lia)) as E1. pose proof (Z.mod_pos_bound s 3600 ltac:(lia)).
  pose proof (Z.div_mod (s mod 3600) 60 ltac:(lia)) as E2. pose proof (Z.mod_pos_bound (s mod 3600) 60 ltac:(lia)).
  assert (s mod 60 = s mod 3600 mod 60) as E3.
  { rewrite E1 at 1. rewrite Z.add_comm, Z.mul_comm. replace (s / 3600 * 3600) with (s / 3600 * 60 * 60) by lia.
    by rewrite Z_mod_plus_full. }
  set (h := s / 3600) in *. set (mi := s mod 3600 / 60) in *. set (sec := s mod 60) in *.
  clearbody h mi sec.
  assert (0 ≤ h ≤ 23 ∧ 0 ≤ mi ≤ 59 ∧ 0 ≤ sec ≤ 59) as (Hh & Hmi & Hsec) by lia.
  transitivity (ParseRFC3339 (stamp (Time.pad 4 y) (Time.pad 2 m) (Time.pad 2 d) (Time.pad 2 h) (Time.pad 2 mi)
    (Time.pad 2 sec) (Time.fraction n +:+ "Z"))).
  { unfold stamp. by rewrite !str_app_assoc. }
  erewrite (parse_stamp _ _ _ _ _ _ _ y m d h mi sec).
  - rewrite fraction_back by done. cbn [fst snd]. change (read_zone "Z") with (Some 0). cbn [mbind option_bind].
    f_equal. unfold Time.Second in *. lia.
  - apply (pad_digits 4 y); lia.
  - repeat constructor; apply (pad_digits 2); lia.
  - apply parse_pad; lia.
  - apply parse_pad; lia.
  - apply parse_pad; lia.
  - apply parse_pad; lia.
  - apply parse_pad; lia.
  - apply parse_pad; lia.
Qed.

End Rfc3339.
