(* ===== verification/Effects.v ===== *)
(** * Programs that call their environment

    The controller talks to the Kubernetes API and to the node agents,
    the agents talk to the file system and to rclone.  None of these is
    part of the program, and each may answer anything, fail, or change
    between two calls.  A procedure of the program is therefore a tree
    of calls ([prog]): at a call it stops with the operation and goes on
    with whatever the environment answers.

    [exec p tr a] says that [p] can issue exactly the calls of [tr],
    with the answers recorded there, and return [a]; a property proved
    of every [tr] holds against every environment, errors and
    interleaved changes included.  [run] executes a program against a
    concrete environment; its trace is one of the [exec] traces. *)
From S2P Require Import Prelude.

Record sig : Type := Sig { op : Type; ans : op → Type }.

Section prog.
Context {S : sig}.

Inductive prog (A : Type) : Type :=
| Ret (a : A)
| Vis (o : op S) (k : ans S o → prog A).

Record event : Type := Ev { ev_op : op S; ev_ans : ans S ev_op }.

End prog.
Arguments prog S A : clear implicits.
Arguments event S : clear implicits.
Arguments Ret {S A} a.
Arguments Vis {S A} o k.
Arguments Ev {S} ev_op ev_ans.

Fixpoint pbind {S A B} (p : prog S A) (f : A → prog S B) : prog S B :=
  match p with
  | Ret a => f a
  | Vis o k => Vis o (λ r, pbind (k r) f)
  end.

(** One call. *)
Definition call {S : sig} (o : op S) : prog S (ans S o) := Vis o Ret.

Notation "x <- p ;; k" := (pbind p (fun x => k))
  (at level 60, p at next level, right associativity) : go_scope.
Notation "p ;;; k" := (pbind p (fun _ => k))
  (at level 60, right associativity) : go_scope.

(** Go's [if err != nil { return err }] after a call. *)
Definition try_bind {S A B} (p : prog S (result A)) (f : A → prog S (result B))
  : prog S (result B) :=
  pbind p (λ x, match x with Ok a => f a | Err e => Ret (Err e) end).

Notation "x <-! p ;; k" := (try_bind p (fun x => k))
  (at level 60, p at next level, right associativity) : go_scope.

(** The same in a procedure that also returns the state [s] it keeps. *)
Definition try_keep {S A B St} (s : St) (p : prog S (result A)) (f : A → prog S (St * result B))
  : prog S (St * result B) :=
  pbind p (λ x, match x with Ok a => f a | Err e => Ret (s, Err e) end).

Notation "x <-[ s ] p ;; k" := (try_keep s p (fun x => k))
  (at level 60, s at level 200, p at next level, right associativity) : go_scope.

(** A [for] loop whose body may return early with an error. *)
Fixpoint try_each {S A} (l : list A) (body : A → prog S (result unit))
  : prog S (result unit) :=
  match l with
  | [] => Ret (Ok tt)
  | x :: l' => try_bind (body x) (λ _, try_each l' body)
  end.

(** A [for] loop that threads a state. *)
Fixpoint fold_prog {S A St} (l : list A) (body : St → A → prog S St) (s : St) : prog S St :=
  match l with
  | [] => Ret s
  | x :: l' => pbind (body s x) (fold_prog l' body)
  end.

(** ** Semantics *)
Fixpoint exec {S A} (p : prog S A) (tr : list (event S)) (a : A) : Prop :=
  match p with
  | Ret b => tr = [] ∧ a = b
  | Vis o k => ∃ r tr', tr = Ev o r :: tr' ∧ exec (k r) tr' a
  end.

(** Weakest precondition: whatever the environment answers, [p] started
    after the calls of [tr] returns a value and a history that satisfy
    [Q]. *)
Fixpoint wp {S A} (p : prog S A) (tr : list (event S))
    (Q : A → list (event S) → Prop) : Prop :=
  match p with
  | Ret a => Q a tr
  | Vis o k => ∀ r, wp (k r) (tr ++ [Ev o r]) Q
  end.

(** Execution in an environment with state [W]. *)
Fixpoint run {S A W} (h : ∀ o : op S, W → ans S o * W) (p : prog S A) (w : W)
  : A * W * list (event S) :=
  match p with
  | Ret a => (a, w, [])
  | Vis o k =>
      let '(r, w1) := h o w in
      let '(a, w2, tr) := run h (k r) w1 in
      (a, w2, Ev o r :: tr)
  end.

(** ** Lemmas *)
Lemma wp_mono {S A} (p : prog S A) tr (Q R : A → list (event S) → Prop) :
  (∀ a tr', Q a tr' → R a tr') → wp p tr Q → wp p tr R.
Proof.
  intros HQR. revert tr. induction p as [a|o k IH]; simpl; intros tr; [apply HQR|].
  intros H r. by apply IH.
Qed.

Lemma wp_bind {S A B} (p : prog S A) (f : A → prog S B) tr Q :
  wp (pbind p f) tr Q ↔ wp p tr (λ a tr', wp (f a) tr' Q).
Proof.
  revert tr. induction p as [a|o k IH]; simpl; intros tr; [done|].
  split; intros H r; by apply IH.
Qed.

Lemma wp_try {S A B} (p : prog S (result A)) (f : A → prog S (result B)) tr Q :
  wp (try_bind p f) tr Q ↔
  wp p tr (λ x tr', match x with Ok a => wp (f a) tr' Q | Err e => Q (Err e) tr' end).
Proof.
  unfold try_bind. rewrite wp_bind. split; apply wp_mono; by intros [].
Qed.

Lemma wp_call {S : sig} (o : op S) tr Q : wp (call o) tr Q ↔ ∀ r, Q r (tr ++ [Ev o r]).
Proof. done. Qed.

(** [wp] is about all executions. *)
Lemma wp_exec {S A} (p : prog S A) tr0 Q :
  wp p tr0 Q ↔ ∀ tr a, exec p tr a → Q a (tr0 ++ tr).
Proof.
  revert tr0. induction p as [a|o k IH]; simpl; intros tr0.
  - split; [intros H tr b [-> ->]; by rewrite app_nil_r|].
    intros H. specialize (H [] a). rewrite app_nil_r in H. auto.
  - split.
    + intros H tr b (r & tr' & -> & Hex). rewrite cons_middle, app_assoc.
      by eapply IH.
    + intros H r. apply IH. intros tr a Hex. rewrite <-app_assoc. apply H. eauto.
Qed.

Lemma exec_wp {S A} (p : prog S A) tr a Q : exec p tr a → wp p [] Q → Q a tr.
Proof. intros Hex Hwp. by eapply (proj1 (wp_exec p [] Q)) in Hwp. Qed.

Lemma exec_bind {S A B} (p : prog S A) (f : A → prog S B) tr b :
  exec (pbind p f) tr b ↔
  ∃ a tr1 tr2, tr = tr1 ++ tr2 ∧ exec p tr1 a ∧ exec (f a) tr2 b.
Proof.
  revert tr. induction p as [a|o k IH]; simpl; intros tr.
  - split; [intros H; by exists a, [], tr|]. by intros (? & ? & tr2 & -> & [-> ->] & H).
  - split.
    + intros (r & tr' & -> & (a & tr1 & tr2 & -> & H1 & H2)%IH).
      exists a, (Ev o r :: tr1), tr2. eauto 10.
    + intros (a & tr1 & tr2 & -> & (r & tr' & -> & H1) & H2).
      exists r, (tr' ++ tr2). split; [done|]. apply IH. eauto 10.
Qed.

Lemma exec_try {S A B} (p : prog S (result A)) (f : A → prog S (result B)) tr b :
  exec (try_bind p f) tr b ↔
  (∃ a tr1 tr2, tr = tr1 ++ tr2 ∧ exec p tr1 (Ok a) ∧ exec (f a) tr2 b) ∨
  (∃ e, exec p tr (Err e) ∧ b = Err e).
Proof.
  unfold try_bind. rewrite exec_bind. split.
  - intros ([a|e] & tr1 & tr2 & -> & H1 & H2); [left; eauto 10|].
    destruct H2 as [-> ->]. right. rewrite app_nil_r. eauto.
  - intros [(a & tr1 & tr2 & -> & H1 & H2)|(e & H1 & ->)]; [eauto 10|].
    exists (Err e), tr, []. rewrite app_nil_r. by repeat split.
Qed.

Lemma exec_keep {S A B St} (s : St) (p : prog S (result A)) (f : A → prog S (St * result B)) tr b :
  exec (try_keep s p f) tr b ↔
  (∃ a tr1 tr2, tr = tr1 ++ tr2 ∧ exec p tr1 (Ok a) ∧ exec (f a) tr2 b) ∨
  (∃ e, exec p tr (Err e) ∧ b = (s, Err e)).
Proof.
  unfold try_keep. rewrite exec_bind. split.
  - intros ([a|e] & tr1 & tr2 & -> & H1 & H2); [left; eauto 10|].
    destruct H2 as [-> ->]. right. rewrite app_nil_r. eauto.
  - intros [(a & tr1 & tr2 & -> & H1 & H2)|(e & H1 & ->)]; [eauto 10|].
    exists (Err e), tr, []. rewrite app_nil_r. by repeat split.
Qed.

Lemma exec_call {S : sig} (o : op S) tr r : exec (call o) tr r ↔ tr = [Ev o r].
Proof.
  simpl. split; [by intros (? & ? & -> & -> & ->)|]. intros ->. eauto.
Qed.

(** The trace of a concrete run is a trace of the program. *)
Lemma run_exec {S A W} (h : ∀ o : op S, W → ans S o * W) (p : prog S A) w a w' tr :
  run h p w = (a, w', tr) → exec p tr a.
Proof.
  revert w w' tr. induction p as [b|o k IH]; simpl; intros w w' tr.
  - intros [= -> -> <-]. done.
  - destruct (h o w) as [r w1] eqn:E, (run h (k r) w1) as [[b w2] tr2] eqn:E2.
    intros [= -> -> <-]. eauto.
Qed.

Lemma run_self {S A W} (h : ∀ o : op S, W → ans S o * W) (p : prog S A) w :
  exec p (snd (run h p w)) (fst (fst (run h p w))).
Proof. destruct (run h p w) as [[a w'] tr] eqn:E. by eapply run_exec. Qed.

(** A loop invariant for [try_each]: [I] holds before each element and
    the loop ends with it, or some body returned an error. *)
Lemma wp_try_each {S A} (l : list A) (body : A → prog S (result unit)) tr
    (I : list A → list (event S) → Prop) Q :
  I l tr →
  (∀ tr', I [] tr' → Q (Ok tt) tr') →
  (∀ x l' tr', I (x :: l') tr' →
     wp (body x) tr' (λ r tr2, match r with Ok _ => I l' tr2 | Err e => Q (Err e) tr2 end)) →
  wp (try_each l body) tr Q.
Proof.
  intros HI H0 Hstep. revert tr HI. induction l as [|x l IH]; simpl; intros tr HI; [auto|].
  apply wp_try. eapply wp_mono; [|by apply Hstep].
  intros [[]|e] tr' H; [by apply IH|done].
Qed.

(** A property of traces closed under concatenation holds of a loop if it
    holds of every round. *)
Lemma exec_try_each_ind {S A} (P : list (event S) → Prop) (l : list A) body tr r :
  P [] → (∀ t1 t2, P t1 → P t2 → P (t1 ++ t2)) →
  (∀ x t r', x ∈ l → exec (body x) t r' → P t) →
  exec (try_each l body) tr r → P tr.
Proof.
  intros H0 Happ Hbody. revert tr. induction l as [|x l IH]; simpl; intros tr Hex.
  { by destruct Hex as [-> _]. }
  apply exec_try in Hex as [(a & t1 & t2 & -> & H1 & H2)|(e & H1 & _)].
  - apply Happ; [by eapply Hbody; [left|]|]. apply IH; [|done].
    intros y t r' Hy. eapply Hbody. by right.
  - eapply Hbody; [left|done].
Qed.

(** A loop that ends without an error ran every round to its end. *)
Lemma exec_try_each_ok {S A} (l : list A) (body : A → prog S (result unit)) tr :
  exec (try_each l body) tr (Ok tt) ↔
  ∃ trs, tr = concat trs ∧ Forall2 (λ x t, exec (body x) t (Ok tt)) l trs.
Proof.
  revert tr. induction l as [|x l IH]; simpl; intros tr.
  - split; [intros [-> _]; exists []; by repeat constructor|].
    intros (trs & -> & H). apply Forall2_nil_inv_l in H as ->. done.
  - rewrite exec_try. split.
    + intros [(a & t1 & t2 & -> & H1 & (trs & -> & H2)%IH)|(e & H1 & E)]; [|done].
      destruct a. exists (t1 :: trs). split; [done|]. by constructor.
    + intros (trs & -> & (t1 & trs' & H1 & H2 & ->)%Forall2_cons_inv_l). left.
      exists tt, t1, (concat trs'). split; [done|]. split; [done|]. apply IH. eauto.
Qed.

(** ** Calls a program may issue *)

(** Every call of [p] satisfies [P], in every environment. *)
Definition calls_only {S A} (P : op S → Prop) (p : prog S A) : Prop :=
  ∀ tr a, exec p tr a → Forall (λ e, P (ev_op e)) tr.

Lemma calls_only_ret {S A} (P : op S → Prop) (a : A) : calls_only P (Ret a).
Proof. intros tr b [-> _]. constructor. Qed.

Lemma calls_only_call {S : sig} (P : op S → Prop) o : P o → calls_only P (call o).
Proof. intros H tr r ->%exec_call. by repeat constructor. Qed.

Lemma calls_only_bind {S A B} (P : op S → Prop) (p : prog S A) (f : A → prog S B) :
  calls_only P p → (∀ a, calls_only P (f a)) → calls_only P (pbind p f).
Proof.
  intros Hp Hf tr b (a & tr1 & tr2 & -> & H1 & H2)%exec_bind.
  apply Forall_app; split; [by eapply Hp | by eapply Hf].
Qed.

(** The same, with what the first part can return. *)
Lemma calls_only_bind_exec {S A B} (P : op S → Prop) (p : prog S A) (f : A → prog S B) :
  calls_only P p → (∀ a tr, exec p tr a → calls_only P (f a)) → calls_only P (pbind p f).
Proof.
  intros Hp Hf tr b (a & tr1 & tr2 & -> & H1 & H2)%exec_bind.
  apply Forall_app; split; [by eapply Hp | by eapply Hf].
Qed.

Lemma calls_only_try {S A B} (P : op S → Prop) (p : prog S (result A))
    (f : A → prog S (result B)) :
  calls_only P p → (∀ a, calls_only P (f a)) → calls_only P (try_bind p f).
Proof.
  intros Hp Hf. apply calls_only_bind; [done|]. intros [a|e]; [done|apply calls_only_ret].
Qed.

Lemma calls_only_keep {S A B St} (P : op S → Prop) (s : St) (p : prog S (result A))
    (f : A → prog S (St * result B)) :
  calls_only P p → (∀ a, calls_only P (f a)) → calls_only P (try_keep s p f).
Proof.
  intros Hp Hf. apply calls_only_bind; [done|]. intros [a|e]; [done|apply calls_only_ret].
Qed.

Lemma calls_only_try_each {S A} (P : op S → Prop) (l : list A) body :
  (∀ x, x ∈ l → calls_only P (body x)) → calls_only (S:=S) P (try_each l body).
Proof.
  induction l as [|x l IH]; simpl; intros H; [apply calls_only_ret|].
  apply calls_only_try; [apply H; left|]. intros _. apply IH. intros y Hy. apply H. by right.
Qed.

Lemma calls_only_mono {S A} (P Q : op S → Prop) (p : prog S A) :
  (∀ o, P o → Q o) → calls_only P p → calls_only Q p.
Proof. intros HPQ H tr a Hex. eapply Forall_impl; [by eapply H|]. simpl; auto. Qed.

Lemma calls_only_fold {S A St} (P : op S → Prop) (l : list A) (body : St → A → prog S St) :
  (∀ x st, x ∈ l → calls_only P (body st x)) → ∀ st, calls_only P (fold_prog l body st).
Proof.
  induction l as [|x l IH]; intros H st; cbn [fold_prog]; [apply calls_only_ret|].
  apply calls_only_bind; [apply H; left|]. intros st'. apply IH. intros y s Hy. apply H. by right.
Qed.

#[export] Hint Resolve calls_only_ret calls_only_call : sv.

(** Takes the calls of a program apart down to single calls, which [leaf]
    is to solve. *)
Ltac walk_calls leaf :=
  repeat first
  [ progress intros
  | apply calls_only_try
  | apply calls_only_keep
  | apply calls_only_bind
  | apply calls_only_fold
  | apply calls_only_try_each
  | match goal with
    | |- calls_only _ (call _) => leaf
    | |- calls_only _ (Ret _) => apply calls_only_ret
    | |- calls_only _ (if ?b then _ else _) => destruct b
    | |- calls_only _ (match ?x with _ => _ end) => destruct x
    end ].

(** A single call of which the property is [True]. *)
Ltac trivial_call :=
  idtac; lazymatch goal with |- @calls_only _ _ ?P (@call ?S ?o) => exact (@calls_only_call S P o I) end.

(** Takes the calls of a program apart along its structure. *)
Ltac calls :=
  repeat (progress cbn beta iota) ;
  repeat lazymatch goal with
  | |- calls_only _ (Ret _) => apply calls_only_ret
  | |- calls_only _ (pbind _ _) => apply calls_only_bind; [|intros ?]
  | |- calls_only _ (try_bind _ _) => apply calls_only_try; [|intros ?]
  | |- calls_only _ (try_keep _ _ _) => apply calls_only_keep; [|intros ?]
  | |- calls_only _ (try_each _ _) => apply calls_only_try_each; intros ? _
  | |- calls_only _ (match ?x with _ => _ end) => destruct x
  end.

(** Takes an execution apart along the structure of its program. *)
Ltac exec_step H :=
  lazymatch type of H with
  | exec (try_bind _ _) _ _ =>
      let a := fresh "a" in let tr1 := fresh "tr" in let tr2 := fresh "tr" in
      let H1 := fresh H in let e := fresh "e" in let E := fresh "E" in
      apply exec_try in H as [(a & tr1 & tr2 & -> & H1 & H)|(e & H & E)];
      [|simplify_eq]
  | exec (try_keep _ _ _) _ _ =>
      let a := fresh "a" in let tr1 := fresh "tr" in let tr2 := fresh "tr" in
      let H1 := fresh H in let e := fresh "e" in let E := fresh "E" in
      apply exec_keep in H as [(a & tr1 & tr2 & -> & H1 & H)|(e & H & E)];
      [|simplify_eq]
  | exec (pbind _ _) _ _ =>
      let a := fresh "a" in let tr1 := fresh "tr" in let tr2 := fresh "tr" in
      let H1 := fresh H in
      apply exec_bind in H as (a & tr1 & tr2 & -> & H1 & H)
  | @exec _ _ (@call ?S ?o) _ _ => apply (@exec_call S o) in H; subst
  | exec (Ret _) _ _ =>
      let E1 := fresh "E" in let E2 := fresh "E" in
      destruct H as [E1 E2]; simplify_eq
  end.

Ltac exec_inv :=
  repeat match goal with
  | H : exec (try_bind _ _) _ _ |- _ => exec_step H
  | H : exec (try_keep _ _ _) _ _ |- _ => exec_step H
  | H : exec (pbind _ _) _ _ |- _ => exec_step H
  | H : @exec _ _ (@call _ _) _ _ |- _ => exec_step H
  | H : exec (Ret _) _ _ |- _ => exec_step H
  end.
