(* ===== verification/Api.v ===== *)
(** * The API types of [internal/api/v1alpha1/types.go]

    Go strings with named constants stay strings; a [*time.Time] is an
    optional instant; a [time.Duration] and an [int64] are [Z]. *)
From S2P Require Import Prelude.

Module Api.

Definition Group : string := "storage.shipstuff.io".
Definition Version : string := "v1alpha1".
Definition DriverName : string := "simple-volume.shipstuff.io".
Definition DriverVersion : string := "0.3.0".

Inductive VolumePhase : Type :=
| VolumePhasePending
| VolumePhaseReady
| VolumePhasePromotionPending
| VolumePhasePromotionBlocked
| VolumePhaseDegraded.

Inductive ReplicaRole : Type :=
| ReplicaRoleActive
| ReplicaRoleReplica
| ReplicaRoleStale.

Inductive SyncMethod : Type :=
| SyncMethodRsync
| SyncMethodRclone.

Inductive SyncMode : Type :=
| SyncModeWatch
| SyncModeCron.

Record ReplicaSpec : Type := mkReplicaSpec {
  rs_Method : option SyncMethod;
  rs_Excludes : list string;
  rs_ReplicaCount : Z;
}.

Record SyncSpec : Type := mkSyncSpec {
  ss_Mode : option SyncMode;
  ss_IncludePaths : list string;
  ss_ExcludePaths : list string;
  ss_PruneExcluded : bool;
  ss_Debounce : Z;
  ss_FullResyncSchedule : string;
}.

Record PromotionSpec : Type := mkPromotionSpec {
  ps_Automatic : bool;
  ps_MaxStaleness : Z;
  ps_NotReadyGracePeriod : Z;
  ps_ActiveAgentHeartbeatTimeout : Z;
  ps_PromotionDeadline : Z;
}.

Record AccessSpec : Type := mkAccessSpec {
  as_TokenSecretName : string;
  as_TokenSecretKey : string;
}.

Record WorkloadRef : Type := mkWorkloadRef {
  wr_APIVersion : string;
  wr_Kind : string;
  wr_Name : string;
}.

Record NodeConstraint : Type := mkNodeConstraint {
  nc_NodeNames : list string;
  nc_NodeSelector : gmap string string;
  nc_StoragePool : string;
  nc_AllowDemoOnly : bool;
}.

Record SimpleVolumeSpec : Type := mkSimpleVolumeSpec {
  spec_StoragePool : string;
  spec_SizeBytes : Z;
  spec_Replica : ReplicaSpec;
  spec_Sync : SyncSpec;
  spec_Promotion : PromotionSpec;
  spec_Access : AccessSpec;
  spec_WorkloadRef : option WorkloadRef;
  spec_Constraints : option NodeConstraint;
}.

Record ReplicaStatus : Type := mkReplicaStatus {
  rst_Node : string;
  rst_Role : option ReplicaRole;
  rst_Healthy : bool;
  rst_LastSuccessfulSync : option Z;
  rst_LastObservedGeneration : string;
  rst_BytesSynced : Z;
  rst_SyncDuration : string;
  rst_Error : string;
}.

Record Condition : Type := mkCondition {
  cond_Type : string;
  cond_Status : string;
  cond_Reason : string;
  cond_Message : string;
  cond_LastTransitionTime : Z;
}.

Record SimpleVolumeStatus : Type := mkSimpleVolumeStatus {
  st_Phase : option VolumePhase;
  st_ActiveNode : string;
  st_ObservedGeneration : string;
  st_Replicas : list ReplicaStatus;
  st_Conditions : list Condition;
}.

(** Go's zero values. *)
Definition zero_SyncSpec : SyncSpec := mkSyncSpec None [] [] false 0 "".
Definition zero_PromotionSpec : PromotionSpec := mkPromotionSpec false 0 0 0 0.
Definition zero_AccessSpec : AccessSpec := mkAccessSpec "" "".

End Api.
