(* ===== verification/Promotion.v ===== *)
(** * Promotion policy: [internal/controller/promotion.go]

    [SelectPromotionTarget] picks the replica a SimpleVolume is promoted
    to.  The theorems say when it promotes, that the target is an
    eligible and freshest replica, and what each refusal means. *)
From S2P Require Import Prelude GoStrings GoTime Api.

Module Promotion.
Import Api.

Local Open Scope Z_scope.

Inductive promotion_error : Type :=
| ErrAutoPromotionDisabled
| ErrGracePeriodActive
| ErrNoFreshReplica.

Record PromotionInput : Type := mkPromotionInput {
  in_Spec : SimpleVolumeSpec;
  in_Status : SimpleVolumeStatus;
  in_Now : Z;
  in_ActiveUnavailableSince : option Z;
}.

Record PromotionDecision : Type := mkPromotionDecision {
  pd_Promote : bool;
  pd_TargetNode : string;
  pd_Reason : string;
}.

(** A decision is returned together with its error, as in the code. *)
Definition refuse (reason : string) (e : promotion_error)
  : PromotionDecision * option promotion_error :=
  (mkPromotionDecision false "" reason, Some e).

(** The two [continue] guards of the candidate loop. *)
Definition candidate (maxStaleness now : Z) (active : string) (r : ReplicaStatus) : bool :=
  negb (String.eqb (rst_Node r) "") && negb (String.eqb (rst_Node r) active) &&
  rst_Healthy r &&
  match rst_LastSuccessfulSync r with
  | None => false
  | Some t => negb ((0 <? maxStaleness) && (maxStaleness <? Time.Sub now t))
  end.

(** The comparison handed to [sort.SliceStable].  It dereferences both
    pointers; the candidate loop has dropped the replicas without one. *)
Definition last_sync (r : ReplicaStatus) : Z := default 0 (rst_LastSuccessfulSync r).

Definition fresher (a b : ReplicaStatus) : bool := Time.After (last_sync a) (last_sync b).

Definition SelectPromotionTarget (i : PromotionInput)
  : PromotionDecision * option promotion_error :=
  let promotion := spec_Promotion (in_Spec i) in
  if negb (ps_Automatic promotion) then refuse "AutomaticDisabled" ErrAutoPromotionDisabled
  else match in_ActiveUnavailableSince i with
  | None => refuse "ActiveStillAvailable" ErrGracePeriodActive
  | Some since =>
      let grace := ps_NotReadyGracePeriod promotion in
      if (0 <? grace) && (Time.Sub (in_Now i) since <? grace) then
        refuse "GracePeriodActive" ErrGracePeriodActive
      else
        let candidates :=
          List.filter (candidate (ps_MaxStaleness promotion) (in_Now i) (st_ActiveNode (in_Status i)))
                      (st_Replicas (in_Status i)) in
        match stable_sort fresher candidates with
        | [] => refuse "NoFreshReplica" ErrNoFreshReplica
        | best :: _ =>
            (mkPromotionDecision true (rst_Node best) "FreshReplicaAvailable", None)
        end
  end.

(** ** Specification *)

(** A replica that may be promoted: another node than the active one,
    healthy, synced, and within the staleness bound when there is one. *)
Definition eligible (i : PromotionInput) (r : ReplicaStatus) (t : Z) : Prop :=
  r ∈ st_Replicas (in_Status i) ∧ rst_Node r ≠ "" ∧
  rst_Node r ≠ st_ActiveNode (in_Status i) ∧ rst_Healthy r = true ∧
  rst_LastSuccessfulSync r = Some t ∧
  (0 < ps_MaxStaleness (spec_Promotion (in_Spec i)) →
   Time.Sub (in_Now i) t ≤ ps_MaxStaleness (spec_Promotion (in_Spec i))).

(** The active node has been away for the whole grace period. *)
Definition grace_elapsed (i : PromotionInput) : Prop :=
  ∃ since, in_ActiveUnavailableSince i = Some since ∧
  (0 < ps_NotReadyGracePeriod (spec_Promotion (in_Spec i)) →
   ps_NotReadyGracePeriod (spec_Promotion (in_Spec i)) ≤ Time.Sub (in_Now i) since).

(** ** Lemmas *)
#[export] Instance fresher_order : LessOrder fresher.
Proof. unfold fresher, Time.After. split; intros *; rewrite ?Z.ltb_lt, ?Z.ltb_ge; lia. Qed.

Lemma candidate_spec i r :
  r ∈ List.filter (candidate (ps_MaxStaleness (spec_Promotion (in_Spec i))) (in_Now i)
                     (st_ActiveNode (in_Status i))) (st_Replicas (in_Status i)) ↔
  ∃ t, eligible i r t.
Proof.
  rewrite list_elem_of_In, filter_In, <-list_elem_of_In. unfold candidate, eligible.
  rewrite !andb_true_iff, !negb_true_iff, !String.eqb_neq.
  destruct (rst_LastSuccessfulSync r) as [t|];
    [|split; [by intros (_ & _ & ?)|by intros (? & _ & _ & _ & _ & ? & _)]].
  rewrite negb_true_iff, andb_false_iff, !Z.ltb_ge. split.
  - intros (? & [[? ?] ?] & ?). exists t. repeat split; auto; lia.
  - intros (? & ? & ? & ? & ? & [= <-] & Hs). repeat split; auto. lia.
Qed.

(** The guards before the candidate loop. *)
Lemma grace_guard i since :
  in_ActiveUnavailableSince i = Some since →
  ((0 <? ps_NotReadyGracePeriod (spec_Promotion (in_Spec i))) &&
   (Time.Sub (in_Now i) since <? ps_NotReadyGracePeriod (spec_Promotion (in_Spec i)))) = false ↔
  grace_elapsed i.
Proof.
  intros Hs. unfold grace_elapsed. rewrite Hs, andb_false_iff, !Z.ltb_ge.
  split; [intros ?; exists since; split; [done|lia]|]. intros (? & [= <-] & ?). lia.
Qed.

(** ** Theorems *)

(** C39: [SelectPromotionTarget] promotes exactly when automatic
    promotion is on, the active node has been unavailable for the whole
    grace period and some replica is eligible; the target is then an
    eligible replica, no eligible replica has synced later, and no error
    is returned. *)
Theorem promotion_target_correct (i : PromotionInput) :
  let '(d, err) := SelectPromotionTarget i in
  if pd_Promote d then
    err = None ∧ ps_Automatic (spec_Promotion (in_Spec i)) = true ∧ grace_elapsed i ∧
    ∃ r t, eligible i r t ∧ pd_TargetNode d = rst_Node r ∧
           ∀ r' t', eligible i r' t' → t' ≤ t
  else
    pd_TargetNode d = "" ∧
    match err with
    | None => False
    | Some ErrAutoPromotionDisabled => ps_Automatic (spec_Promotion (in_Spec i)) = false
    | Some ErrGracePeriodActive => ¬ grace_elapsed i
    | Some ErrNoFreshReplica => grace_elapsed i ∧ ∀ r t, ¬ eligible i r t
    end.
Proof.
  unfold SelectPromotionTarget.
  destruct (ps_Automatic _) eqn:Eauto; simpl; [|done].
  destruct (in_ActiveUnavailableSince i) as [since|] eqn:Esince; simpl;
    [|by split; [|intros (? & ? & _); congruence]].
  destruct (_ && _) eqn:Egrace; simpl.
  { split; [done|]. rewrite <-(grace_guard i since Esince). congruence. }
  apply (grace_guard i since Esince) in Egrace.
  destruct (stable_sort _ _) as [|best rest] eqn:Esort; simpl.
  - split; [done|]. split; [done|]. intros r t Hr.
    apply stable_sort_nil in Esort.
    assert (r ∈ @nil ReplicaStatus) as []%elem_of_nil. rewrite <-Esort. apply candidate_spec. eauto.
  - destruct (stable_sort_head _ _ _ _ Esort) as [Hin Hmin].
    apply candidate_spec in Hin as [t Ht]. split_and!; [done..|].
    exists best, t. split_and!; [done..|]. intros r' t' Hr'.
    destruct (Hmin r') as [->|Hle]; [apply candidate_spec; eauto| |].
    + destruct Ht as (_&_&_&_&E1&_), Hr' as (_&_&_&_&E2&_). rewrite E1 in E2. by simplify_eq.
    + destruct Ht as (_&_&_&_&E1&_), Hr' as (_&_&_&_&E2&_).
      unfold fresher, Time.After, last_sync in Hle. rewrite E1, E2 in Hle. simpl in Hle. lia.
Qed.

End Promotion.
