(* ===== verification/Provision.v ===== *)
(** * Initial placement: [internal/controller/provision.go] and the
    request wrapper of [internal/csi/controller.go]

    [SelectInitialPlacement] chooses the active node and the replica
    nodes of a new volume among the reporting agents. *)
From S2P Require Import Prelude GoStrings Api.

Module Provision.
Import Api.

Local Open Scope Z_scope.

Record AgentStatus : Type := mkAgentStatus {
  ag_Node : string;
  ag_Pool : string;
  ag_Healthy : bool;
  ag_FreeBytes : Z;
  ag_PoolLabels : gmap string string;
}.

Record ProvisionRequest : Type := mkProvisionRequest {
  pr_Namespace : string;
  pr_Name : string;
  pr_StoragePool : string;
  pr_SizeBytes : Z;
  pr_ReplicaCount : Z;
}.

Record ProvisionDecision : Type := mkProvisionDecision {
  dec_VolumeHandle : string;
  dec_ActiveNode : string;
  dec_ReplicaNodes : list string;
}.

Definition ErrNoEligibleAgents : error :=
  Errorf "no healthy agents are eligible for the requested pool" [].

(** The three [continue] guards of the selection loop. *)
Definition agent_eligible (req : ProvisionRequest) (a : AgentStatus) : bool :=
  ag_Healthy a && negb (String.eqb (ag_Node a) "") &&
  negb (negb (String.eqb (pr_StoragePool req) "") &&
        negb (String.eqb (ag_Pool a) (pr_StoragePool req))) &&
  negb ((0 <? pr_SizeBytes req) && (0 <? ag_FreeBytes a) && (ag_FreeBytes a <? pr_SizeBytes req)).

(** Most free space first, then by node name. *)
Definition key_before (a b : Z * string) : bool :=
  if fst a =? fst b then str_lt (snd a) (snd b) else fst b <? fst a.

Definition placement_key (a : AgentStatus) : Z * string := (ag_FreeBytes a, ag_Node a).

Definition placed_before (a b : AgentStatus) : bool :=
  key_before (placement_key a) (placement_key b).

Definition SelectInitialPlacement (req : ProvisionRequest) (agents : list AgentStatus)
  : result ProvisionDecision :=
  match stable_sort placed_before (List.filter (agent_eligible req) agents) with
  | [] => Err ErrNoEligibleAgents
  | (first :: _) as eligible =>
      let replicaCount :=
        if (pr_ReplicaCount req <=? 0) || (Z.of_nat (length eligible) <? pr_ReplicaCount req)
        then Z.of_nat (length eligible) else pr_ReplicaCount req in
      Ok (mkProvisionDecision
            (pr_Namespace req +:+ "/" +:+ pr_Name req)
            (ag_Node first)
            (ag_Node <$> take (Z.to_nat replicaCount) eligible))
  end.

Definition NewVolumeSpecFromProvision (req : ProvisionRequest) : SimpleVolumeSpec :=
  mkSimpleVolumeSpec (pr_StoragePool req) (pr_SizeBytes req)
    (mkReplicaSpec (Some SyncMethodRsync) [] (pr_ReplicaCount req))
    zero_SyncSpec zero_PromotionSpec zero_AccessSpec None None.

(** ** [csi.CreateVolume] *)
Record CreateVolumeRequest : Type := mkCreateVolumeRequest {
  cv_Name : string;
  cv_Namespace : string;
  cv_StoragePool : string;
  cv_CapacityBytes : Z;
  cv_ReplicaCount : Z;
}.

Record CreateVolumeResponse : Type := mkCreateVolumeResponse {
  cvr_VolumeHandle : string;
  cvr_CapacityBytes : Z;
  cvr_ActiveNode : string;
  cvr_ReplicaNodes : list string;
}.

Definition CreateVolume (req : CreateVolumeRequest) (agents : list AgentStatus)
  : result CreateVolumeResponse :=
  if String.eqb (cv_Name req) "" || String.eqb (cv_Namespace req) "" then
    Err (Errorf "namespace and name are required" [])
  else
    decision <-? SelectInitialPlacement
      (mkProvisionRequest (cv_Namespace req) (cv_Name req) (cv_StoragePool req)
         (cv_CapacityBytes req) (cv_ReplicaCount req)) agents ;;
    Ok (mkCreateVolumeResponse (dec_VolumeHandle decision) (cv_CapacityBytes req)
          (dec_ActiveNode decision) (dec_ReplicaNodes decision)).

(** ** Specification *)

(** An agent that can hold the volume.  An agent that reports no free
    space (zero or less) is not held to the size. *)
Definition can_hold (req : ProvisionRequest) (a : AgentStatus) : Prop :=
  ag_Healthy a = true ∧ ag_Node a ≠ "" ∧
  (pr_StoragePool req = "" ∨ ag_Pool a = pr_StoragePool req) ∧
  (0 < pr_SizeBytes req → 0 < ag_FreeBytes a → pr_SizeBytes req ≤ ag_FreeBytes a).

(** The number of replicas asked for, all the eligible ones by default. *)
Definition wanted (req : ProvisionRequest) (n : nat) : nat :=
  if 0 <? pr_ReplicaCount req then Nat.min (Z.to_nat (pr_ReplicaCount req)) n else n.

(** ** Lemmas *)
#[export] Instance key_before_order : LessOrder key_before.
Proof.
  unfold key_before. split.
  - intros [x m] [y n]; simpl. destruct (Z.eqb_spec x y), (Z.eqb_spec y x);
      rewrite ?Z.ltb_lt, ?Z.ltb_ge; try lia. apply str_lt_asym.
  - intros [x m] [y n] [z k]; simpl.
    destruct (Z.eqb_spec y x), (Z.eqb_spec z y), (Z.eqb_spec z x);
      rewrite ?Z.ltb_lt, ?Z.ltb_ge; try lia. apply less_ge_trans.
Qed.

#[export] Instance placed_before_order : LessOrder placed_before.
Proof. unfold placed_before. split; intros *; [apply less_asym | apply less_ge_trans]. Qed.

Lemma key_before_total a b : key_before a b = false → key_before b a = false → a = b.
Proof.
  destruct a as [x m], b as [y n]. unfold key_before; simpl.
  destruct (Z.eqb_spec x y), (Z.eqb_spec y x); rewrite ?Z.ltb_ge; try lia.
  intros. subst. f_equal. by apply str_lt_total.
Qed.

Lemma agent_eligible_spec req a : agent_eligible req a = true ↔ can_hold req a.
Proof.
  unfold agent_eligible, can_hold.
  rewrite !andb_true_iff, !negb_true_iff, !andb_false_iff, !negb_false_iff,
    String.eqb_neq, !String.eqb_eq, !Z.ltb_ge.
  intuition lia.
Qed.

Lemma eligible_elem_of req agents a :
  a ∈ List.filter (agent_eligible req) agents ↔ a ∈ agents ∧ can_hold req a.
Proof. by rewrite list_elem_of_In, filter_In, <-list_elem_of_In, agent_eligible_spec. Qed.

(** A placement as a function of the sorted keys alone. *)
Lemma placement_by_keys req agents :
  SelectInitialPlacement req agents =
  match snd <$> stable_sort key_before
                  (placement_key <$> List.filter (agent_eligible req) agents) with
  | [] => Err ErrNoEligibleAgents
  | (n :: _) as nodes =>
      Ok (mkProvisionDecision (pr_Namespace req +:+ "/" +:+ pr_Name req) n
            (take (wanted req (length nodes)) nodes))
  end.
Proof.
  unfold SelectInitialPlacement.
  rewrite <-(stable_sort_map placement_key), <-list_fmap_compose.
  change (λ a b, key_before (placement_key a) (placement_key b)) with placed_before.
  destruct (stable_sort placed_before _) as [|a l]; [done|].
  rewrite fmap_take. csimpl. unfold wanted. rewrite length_fmap. do 3 f_equal.
  destruct (Z.leb_spec (pr_ReplicaCount req) 0); simpl;
    destruct (Z.ltb_spec 0 (pr_ReplicaCount req)); try lia.
  destruct (Z.ltb_spec (Z.of_nat (S (length l))) (pr_ReplicaCount req)); lia.
Qed.

(** Sorted agents, split after the first [k]. *)
Lemma sorted_split req agents k l :
  stable_sort placed_before (List.filter (agent_eligible req) agents) = l →
  take k l ++ drop k l ≡ₚ List.filter (agent_eligible req) agents ∧
  Forall (λ a, a ∈ agents ∧ can_hold req a) (take k l) ∧
  ∀ a b, a ∈ take k l → b ∈ drop k l → ag_FreeBytes b ≤ ag_FreeBytes a.
Proof.
  intros <-. set (l := stable_sort _ _). rewrite take_drop.
  pose proof (stable_sort_perm placed_before (List.filter (agent_eligible req) agents)) as P.
  split; [done|]. split.
  - apply Forall_take, Forall_forall. intros x. unfold l. rewrite P. apply eligible_elem_of.
  - intros x y Hx Hy.
    pose proof (stable_sort_sorted placed_before (List.filter (agent_eligible req) agents)) as Hs.
    fold l in Hs. rewrite <-(take_drop k l) in Hs.
    pose proof (StronglySorted_app_1_elem_of _ _ _ _ _ Hs Hx Hy) as Hle.
    unfold placed_before, key_before, placement_key in Hle; simpl in Hle.
    destruct (Z.eqb_spec (ag_FreeBytes y) (ag_FreeBytes x)); lia.
Qed.

Lemma filter_perm {A} (f : A → bool) l l' : l ≡ₚ l' → List.filter f l ≡ₚ List.filter f l'.
Proof. induction 1; simpl; repeat case_match; eauto using perm_swap, perm_trans. Qed.

(** ** Theorems *)

(** C38: a placement succeeds exactly when some agent can hold the
    volume.  It returns as many replicas as were asked for (all the
    eligible ones when none or too many were), each on an agent that can
    hold the volume, the active node first; an agent that can hold the
    volume and was passed over never has more free space than one that
    was chosen. *)
Theorem initial_placement_correct (req : ProvisionRequest) (agents : list AgentStatus) :
  match SelectInitialPlacement req agents with
  | Err _ => ∀ a, a ∈ agents → ¬ can_hold req a
  | Ok d =>
      let n := length (List.filter (agent_eligible req) agents) in
      dec_VolumeHandle d = pr_Namespace req +:+ "/" +:+ pr_Name req ∧
      head (dec_ReplicaNodes d) = Some (dec_ActiveNode d) ∧
      length (dec_ReplicaNodes d) = wanted req n ∧ (0 < wanted req n)%nat ∧
      ∃ chosen rest, chosen ++ rest ≡ₚ List.filter (agent_eligible req) agents ∧
        dec_ReplicaNodes d = ag_Node <$> chosen ∧
        Forall (λ a, a ∈ agents ∧ can_hold req a) chosen ∧
        ∀ a b, a ∈ chosen → b ∈ rest → ag_FreeBytes b ≤ ag_FreeBytes a
  end.
Proof.
  rewrite placement_by_keys, <-(stable_sort_map placement_key), <-list_fmap_compose.
  change (λ a b, key_before (placement_key a) (placement_key b)) with placed_before.
  pose proof (stable_sort_perm placed_before (List.filter (agent_eligible req) agents)) as P.
  destruct (stable_sort placed_before _) as [|a l] eqn:Es; cbn -[take wanted].
  - intros a Ha Hc. apply Permutation_nil_l in P.
    assert (a ∈ @nil AgentStatus) as []%elem_of_nil. rewrite P. by apply eligible_elem_of.
  - rewrite length_fmap. rewrite <-(Permutation_length P).
    assert (0 < wanted req (length (a :: l)) ≤ length (a :: l))%nat as Hpos.
    { unfold wanted. simpl. destruct (Z.ltb_spec 0 (pr_ReplicaCount req)); lia. }
    simpl length in *. split; [done|]. split.
    { destruct (wanted req _); [lia|done]. }
    split. { rewrite length_take. csimpl. rewrite length_fmap. lia. }
    split; [lia|].
    exists (take (wanted req (S (length l))) (a :: l)), (drop (wanted req (S (length l))) (a :: l)).
    destruct (sorted_split req agents (wanted req (S (length l))) _ Es) as (H1 & H2 & H3).
    split_and!; [done| |done..]. by rewrite fmap_take.
Qed.

(** the decision does not depend on the order in which the agents
    are reported. *)
Theorem initial_placement_order_independent req agents agents' :
  agents ≡ₚ agents' → SelectInitialPlacement req agents = SelectInitialPlacement req agents'.
Proof.
  intros P. rewrite !placement_by_keys.
  by rewrite (stable_sort_unique key_before _ _ (λ a b _ _, key_before_total a b)
                (fmap_Permutation placement_key _ _ (filter_perm (agent_eligible req) _ _ P))).
Qed.

(** Witness of C3: two agents reported in either order. *)
Definition agent_a : AgentStatus := mkAgentStatus "a" "default" true 10 ∅.
Definition agent_b : AgentStatus := mkAgentStatus "b" "default" true 20 ∅.

Lemma initial_placement_order_independent_witness :
  SelectInitialPlacement (mkProvisionRequest "ns" "v" "default" 5 1) [agent_a; agent_b] =
  SelectInitialPlacement (mkProvisionRequest "ns" "v" "default" 5 1) [agent_b; agent_a].
Proof. apply initial_placement_order_independent. constructor. Defined.

End Provision.
