(* ===== verification/Labels.v ===== *)
(** * Node labels of a volume: [internal/controller/labels.go]

    The per-volume label keys: a sanitised, truncated identifier between
    the fixed prefix and a suffix.  Theorems: every key has a legal name
    part of legal length, distinct claims with short names get distinct
    keys, and longer names can collide. *)
From S2P Require Import Prelude GoStrings.

Module Labels.
Import Str.

Definition LabelPrefix : string := "simple-volume.shipstuff.io".

(** The bytes outside the class of [labelUnsafe]. *)
Definition label_safe (c : ascii) : bool :=
  byte_in 97 122 c || byte_in 48 57 c || byte_in 65 90 c ||
  ascii_eqb c "_" || ascii_eqb c "." || ascii_eqb c "-".

(** [labelUnsafe.ReplaceAllString(id, "-")]: every maximal run of unsafe
    bytes becomes one dash. *)
Fixpoint replace_unsafe (inrun : bool) (s : string) : string :=
  match s with
  | EmptyString => EmptyString
  | String c s' =>
      if label_safe c then String c (replace_unsafe false s')
      else if inrun then replace_unsafe true s'
      else String "-" (replace_unsafe true s')
  end.

Definition dot_of_slash (c : ascii) : ascii := if ascii_eqb c "/" then "."%char else c.

Definition VolumeLabelID (namespace name : string) : string :=
  let id := if is_empty namespace then name else namespace +:+ "." +:+ name in
  let id := ToLower id in
  let id := map_bytes dot_of_slash id in
  let id := replace_unsafe false id in
  let id := Trim is_dash_dot id in
  if is_empty id then "volume"
  else if (45 <? String.length id)%nat then Trim is_dash_dot (str_take 45 id) else id.

Definition HealthyLabel (namespace name : string) : string :=
  LabelPrefix +:+ "/" +:+ VolumeLabelID namespace name +:+ "-healthy".

Definition RoleLabel (namespace name : string) : string :=
  LabelPrefix +:+ "/" +:+ VolumeLabelID namespace name +:+ "-role".

Definition CandidateLabel (namespace name : string) : string :=
  LabelPrefix +:+ "/" +:+ VolumeLabelID namespace name +:+ "-candidate".

Definition PoolLabel (pool : string) : string :=
  LabelPrefix +:+ "/" +:+ "pool-" +:+ VolumeLabelID "" pool.

(** ** Specification *)

(** A lower-case letter, digit, underscore, dot or dash. *)
Definition id_byte (c : ascii) : bool := label_safe c && negb (byte_in 65 90 c).

(** What a label identifier promises: not empty, at most 45 bytes, safe
    lower-case bytes only, no dash or dot at either end. *)
Definition label_id_ok (s : string) : Prop :=
  s ≠ "" ∧ String.length s ≤ 45 ∧ all_bytes id_byte s = true ∧
  (∀ c, first_byte s = Some c → is_dash_dot c = false) ∧
  (∀ c, last_byte s = Some c → is_dash_dot c = false).

(** The name part of a Kubernetes label key has at most 63 bytes. *)
Definition name_part_ok (s : string) : Prop :=
  s ≠ "" ∧ String.length s ≤ 63 ∧ all_bytes label_safe s = true ∧
  (∀ c, first_byte s = Some c → is_dash_dot c = false) ∧
  (∀ c, last_byte s = Some c → is_dash_dot c = false).

(** Names as Kubernetes admits them: lower-case letters, digits, dashes
    and (for a claim) dots, alphanumeric at both ends. *)
Definition dns_byte (c : ascii) : bool :=
  byte_in 97 122 c || byte_in 48 57 c || ascii_eqb c "-".
Definition dns_name (s : string) : Prop :=
  s ≠ "" ∧ all_bytes (λ c, dns_byte c || ascii_eqb c ".") s = true ∧
  (∀ c, first_byte s = Some c → is_dash_dot c = false) ∧
  (∀ c, last_byte s = Some c → is_dash_dot c = false).
Definition dns_label (s : string) : Prop := dns_name s ∧ all_bytes dns_byte s = true.

(** ** Lemmas *)
Lemma lower_from_no_upper k s : all_bytes (λ c, negb (byte_in 65 90 c)) (lower_from k s) = true.
Proof.
  revert k. induction s as [|c s IH]; intros [|k]; cbn -[HasPrefix bytes lower_byte]; [done..| |auto].
  destruct (HasPrefix _ _); [by cbn; rewrite IH|].
  destruct (HasPrefix _ _); [by cbn; rewrite IH|].
  cbn. rewrite IH, andb_true_r. clear. by byte_cases c.
Qed.

Lemma dot_of_slash_no_upper s :
  all_bytes (λ c, negb (byte_in 65 90 c)) s = true →
  all_bytes (λ c, negb (byte_in 65 90 c)) (map_bytes dot_of_slash s) = true.
Proof.
  induction s as [|c s IH]; cbn -[byte_in]; [done|]. rewrite !andb_true_iff.
  intros [Hc Hs]. split; [|auto]. revert Hc. clear. by byte_cases c.
Qed.

Lemma replace_unsafe_id b s :
  all_bytes (λ c, negb (byte_in 65 90 c)) s = true →
  all_bytes id_byte (replace_unsafe b s) = true.
Proof.
  revert b. induction s as [|c s IH]; intros b; cbn -[byte_in label_safe]; [done|].
  rewrite andb_true_iff. intros [Hc Hs]. destruct (label_safe c) eqn:E.
  - cbn -[byte_in label_safe]. unfold id_byte at 1. by rewrite E, Hc, IH.
  - destruct b; [auto|]. cbn -[byte_in label_safe]. by rewrite IH.
Qed.

Lemma label_id_valid ns name : label_id_ok (VolumeLabelID ns name).
Proof.
  unfold VolumeLabelID. set (raw := if is_empty ns then _ else _).
  set (id := Trim is_dash_dot (replace_unsafe false _)).
  assert (all_bytes id_byte id = true) as Hall.
  { apply all_bytes_Trim, replace_unsafe_id, dot_of_slash_no_upper, lower_from_no_upper. }
  destruct (is_empty id) eqn:E; [by repeat split; [..|intros ? [= <-]|intros ? [= <-]]; cbn; try lia|].
  apply is_empty_false in E.
  assert (∀ c, first_byte id = Some c → is_dash_dot c = false) as Hf by apply Trim_first.
  destruct (Nat.ltb_spec 45 (String.length id)) as [Hlen|Hlen].
  - destruct (first_byte_Some id E) as [c Hc]. split_and!.
    + eapply Trim_nonempty; [|by apply Hf]. by apply (first_byte_take 44).
    + etransitivity; [apply length_Trim|]. rewrite str_length_take. lia.
    + by apply all_bytes_Trim, all_bytes_take.
    + apply Trim_first.
    + apply Trim_last.
  - split_and!; [done|lia|done..|]. apply Trim_last.
Qed.

Lemma id_byte_safe s : all_bytes id_byte s = true → all_bytes label_safe s = true.
Proof. apply all_bytes_mono. intros c. unfold id_byte. by rewrite andb_true_iff; intros []. Qed.

(** A legal identifier followed by a legal suffix is a legal name part. *)
Lemma name_part_suffix s suffix :
  label_id_ok s → suffix ≠ "" → String.length suffix ≤ 18 →
  all_bytes label_safe suffix = true →
  (∀ c, last_byte suffix = Some c → is_dash_dot c = false) →
  name_part_ok (s +:+ suffix).
Proof.
  intros (Hne & Hlen & Hall & Hf & Hl) Hs1 Hs2 Hs3 Hs4. split_and!.
  - intros E. by apply str_app_eq_nil in E as [-> _].
  - rewrite str_length_app. lia.
  - by rewrite all_bytes_app, (id_byte_safe _ Hall).
  - intros c. destruct s; [done|]. apply Hf.
  - intros c. rewrite last_byte_app by done. apply Hs4.
Qed.

(** On names Kubernetes admits, sanitising changes nothing. *)
Lemma sanitize_dns s :
  all_bytes (λ c, dns_byte c || ascii_eqb c ".") s = true →
  replace_unsafe false (map_bytes dot_of_slash (ToLower s)) = s.
Proof.
  unfold ToLower. induction s as [|c s IH]; [done|].
  cbn -[HasPrefix bytes lower_byte dns_byte]. rewrite andb_true_iff. intros [Hc Hs].
  specialize (IH Hs).
  destruct (HasPrefix _ (bytes [226; 132; 170]%Z)) eqn:E1.
  { apply HasPrefix_spec in E1 as [t [= -> _]]. by vm_compute in Hc. }
  destruct (HasPrefix _ (bytes [196; 176]%Z)) eqn:E2.
  { apply HasPrefix_spec in E2 as [t [= -> _]]. by vm_compute in Hc. }
  cbn -[lower_byte label_safe]. rewrite IH.
  assert (dot_of_slash (lower_byte c) = c ∧ label_safe c = true) as [-> ->]; [|done].
  revert Hc. clear. by byte_cases c.
Qed.

Lemma VolumeLabelID_dns ns name :
  dns_label ns → dns_name name → String.length ns + String.length name < 45 →
  VolumeLabelID ns name = ns +:+ "." +:+ name.
Proof.
  intros [(Hne & _ & Hf & _) Hns] (Hne' & Hall & _ & Hl) Hlen. unfold VolumeLabelID.
  rewrite (proj2 (is_empty_false ns) Hne), sanitize_dns.
  - rewrite Trim_id.
    + destruct ns; [done|]. cbn -[Nat.ltb]. rewrite str_length_app. cbn -[Nat.ltb].
      by rewrite (proj2 (Nat.ltb_ge _ _)) by (cbn in Hlen; lia).
    + destruct ns; [done|]. intros c Hc. by apply Hf.
    + intros c. rewrite !last_byte_app; [by apply Hl|done|by destruct name].
  - rewrite !all_bytes_app, Hall, andb_true_r.
    eapply all_bytes_mono; [|done]. by intros c ->.
Qed.

(** The first dot of [ns ++ "." ++ name] ends the namespace. *)
Lemma dotted_inj ns ns' name name' :
  all_bytes dns_byte ns = true → all_bytes dns_byte ns' = true →
  ns +:+ "." +:+ name = ns' +:+ "." +:+ name' → ns = ns' ∧ name = name'.
Proof.
  revert ns'. induction ns as [|c ns IH]; intros [|c' ns']; cbn -[dns_byte]; try done.
  - by intros _ _ [= ->].
  - rewrite andb_true_iff. intros _ [Hc _] [= <- _]. by vm_compute in Hc.
  - rewrite andb_true_iff. intros [Hc _] _ [= -> _]. by vm_compute in Hc.
  - rewrite !andb_true_iff. intros [_ H] [_ H'] [= -> E].
    destruct (IH _ H H' E) as [-> ->]. done.
Qed.

(** ** Theorems *)

(** every label key the controller writes is the fixed prefix, a
    slash and a name part within the limits Kubernetes sets: not empty,
    at most 63 bytes, letters, digits, underscores, dots and dashes only,
    and no dash or dot at either end. *)
Theorem label_keys_valid ns name pool :
  (∃ part, RoleLabel ns name = LabelPrefix +:+ "/" +:+ part ∧ name_part_ok part) ∧
  (∃ part, CandidateLabel ns name = LabelPrefix +:+ "/" +:+ part ∧ name_part_ok part) ∧
  (∃ part, HealthyLabel ns name = LabelPrefix +:+ "/" +:+ part ∧ name_part_ok part) ∧
  (∃ part, PoolLabel pool = LabelPrefix +:+ "/" +:+ part ∧ name_part_ok part).
Proof.
  pose proof (label_id_valid ns name) as H. split_and!; eexists; (split; [reflexivity|]).
  1-3: apply name_part_suffix; [done|done|cbn; lia|done|by intros ? [= <-]].
  destruct (label_id_valid "" pool) as (Hne & Hlen & Hall & Hf & Hl). split_and!.
  - done.
  - cbn. lia.
  - rewrite all_bytes_app. by rewrite (id_byte_safe _ Hall).
  - by intros ? [= <-].
  - intros c. rewrite last_byte_app by done. apply Hl.
Qed.

(** two claims whose namespace and name together stay below 45 bytes
    share an active-role label only if they are the same claim. *)
Theorem role_label_injective ns ns' name name' :
  dns_label ns → dns_name name → dns_label ns' → dns_name name' →
  String.length ns + String.length name < 45 →
  String.length ns' + String.length name' < 45 →
  RoleLabel ns name = RoleLabel ns' name' → ns = ns' ∧ name = name'.
Proof.
  intros H1 H2 H3 H4 L1 L2 E. unfold RoleLabel in E.
  apply str_app_inj_l, str_app_inj_l, str_app_inj_r in E.
  rewrite !VolumeLabelID_dns in E by done.
  destruct H1 as [_ H1], H3 as [_ H3]. by apply dotted_inj in E.
Qed.

Lemma role_label_injective_witness :
  "games" = "games" ∧ "windrose-data" = "windrose-data".
Proof.
  apply (role_label_injective "games" "games" "windrose-data" "windrose-data");
    repeat split; try done; try (by intros ? [= <-]); cbn; lia.
Defined.

(** longer names collide.  The identifier is cut after 45 bytes, so
    two claims of one namespace that differ only in their last byte get
    the same active-role label, and with it the same set of nodes. *)
Theorem role_label_collision :
  let a := "palworld-dedicated-server-savegames-world-0001" in
  let b := "palworld-dedicated-server-savegames-world-0002" in
  dns_label "games" ∧ dns_name a ∧ dns_name b ∧ a ≠ b ∧
  RoleLabel "games" a = RoleLabel "games" b.
Proof. by repeat split; try (by intros ? [= <-]). Qed.

End Labels.
