(* ===== verification/AgentTypes.v ===== *)
(** * The request and status types of the agent's HTTP interface

    The structs of [internal/agent/replication.go] and
    [internal/agent/watch_manager.go] that travel between the controller
    and the agents.  Pointers are options, [time.Time] is an instant. *)
From S2P Require Import Prelude.

Inductive EventOp : Type :=
| EventOpUpsert
| EventOpDelete
| EventOpOther (name : string).

Record FileEvent : Type := mkFileEvent {
  ev_Path : string;
  ev_Op : EventOp;
}.

Record SourceRef : Type := mkSourceRef {
  src_WebDAVURL : string;
  src_User : string;
  src_Password : string;
}.

Record OwnershipPolicy : Type := mkOwnershipPolicy {
  own_UID : option Z;
  own_GID : option Z;
  own_FileMode : option Z;
  own_DirMode : option Z;
}.

Record EventBatch : Type := mkEventBatch {
  eb_Namespace : string;
  eb_Volume : string;
  eb_Generation : string;
  eb_Source : SourceRef;
  eb_SourceBasePath : string;
  eb_Ownership : OwnershipPolicy;
  eb_DeletesAuthoritative : bool;
  eb_Events : list FileEvent;
}.

Record FullSyncRequest : Type := mkFullSyncRequest {
  fs_Namespace : string;
  fs_Volume : string;
  fs_Source : SourceRef;
  fs_SourceBasePath : string;
  fs_IncludePaths : list string;
  fs_ExcludePaths : list string;
  fs_PruneExcluded : bool;
  fs_RequiredPaths : list string;
  fs_Ownership : OwnershipPolicy;
  fs_BackupExisting : bool;
}.

Record ShadowPrepareRequest : Type := mkShadowPrepareRequest {
  sp_Namespace : string;
  sp_Volume : string;
  sp_IncludePaths : list string;
  sp_ExcludePaths : list string;
  sp_PruneExcluded : bool;
  sp_RequiredPaths : list string;
}.

Record ShadowPrepareResponse : Type := mkShadowPrepareResponse {
  spr_Namespace : string;
  spr_Volume : string;
  spr_SourceBasePath : string;
  spr_Generation : string;
  spr_OK : bool;
}.

Record TargetRef : Type := mkTargetRef {
  tgt_URL : string;
  tgt_Token : string;
}.

Record WatchStartRequest : Type := mkWatchStartRequest {
  ws_Namespace : string;
  ws_Volume : string;
  ws_Source : SourceRef;
  ws_Targets : list TargetRef;
  ws_IncludePaths : list string;
  ws_ExcludePaths : list string;
  ws_Ownership : OwnershipPolicy;
  ws_Debounce : string;
  ws_ConsistencyMode : string;
  ws_ConfirmedReplicas : option Z;
}.

Record WatchStopRequest : Type := mkWatchStopRequest {
  wx_Namespace : string;
  wx_Volume : string;
}.

Record TargetStatus : Type := mkTargetStatus {
  ts_URL : string;
  ts_LastSuccessfulSync : option Z;
  ts_LastObservedGeneration : string;
  ts_LastError : string;
  ts_DeliveredBatchCount : Z;
  ts_DeliveredEventCount : Z;
  ts_DeliveryFailureCount : Z;
}.

Record WatchStatus : Type := mkWatchStatus {
  wst_Namespace : string;
  wst_Volume : string;
  wst_Source : SourceRef;
  wst_Targets : list TargetRef;
  wst_TargetStatuses : list TargetStatus;
  wst_IncludePaths : list string;
  wst_ExcludePaths : list string;
  wst_Ownership : OwnershipPolicy;
  wst_ConsistencyMode : string;
  wst_ConfirmedReplicas : Z;
  wst_Running : bool;
  wst_StartedAt : Z;
  wst_StoppedAt : option Z;
  wst_LastBatchAt : option Z;
  wst_LastBatchEventCount : Z;
  wst_LastBatchGeneration : string;
  wst_LastDeliveryError : string;
  wst_LastWatchError : string;
  wst_DeliveredBatchCount : Z;
  wst_DeliveredEventCount : Z;
  wst_DeliveryFailureCount : Z;
}.

Record PathFilter : Type := mkPathFilter {
  pf_IncludePaths : list string;
  pf_ExcludePaths : list string;
  pf_PruneExcluded : bool;
}.

Definition empty_ownership : OwnershipPolicy := mkOwnershipPolicy None None None None.

(** [OwnershipPolicy.Empty] *)
Definition Ownership_Empty (p : OwnershipPolicy) : bool :=
  match own_UID p, own_GID p, own_FileMode p, own_DirMode p with
  | None, None, None, None => true
  | _, _, _, _ => false
  end.

Definition ConsistencyModeLive : string := "live".
Definition ConsistencyModeShadow : string := "shadow".

Definition EventOp_eqb (a b : EventOp) : bool :=
  match a, b with
  | EventOpUpsert, EventOpUpsert | EventOpDelete, EventOpDelete => true
  | EventOpOther x, EventOpOther y => String.eqb x y
  | _, _ => false
  end.
