(* ===== verification/Wire.v ===== *)
(** * The messages between controller and agents as JSON

    The JSON form of the request types of [internal/agent/replication.go]
    and [internal/agent/watch_manager.go], as their field tags say, and how
    [encoding/json] fills a value from JSON: fields by exact name, else by
    name without regard to case; unknown members are ignored; a repeated
    one is read over the first; [null] leaves a value alone and empties a
    slice or pointer.  A message type is an instance of [Wire], and an
    instance of [WireLaws] proves for one message type that filling a value
    from its JSON gives the message back; [message_decodes] takes that
    through the text.  The theorem on all messages is in WireStatus. *)
From S2P Require Import Prelude GoStrings Json AgentTypes.

Module Wire.
Import Str Json.

(** ** Filling values *)
Definition dec_string (j : json) (old : string) : option string :=
  match j with JNull => Some old | JStr s => Some s | _ => None end.

Definition dec_bool (j : json) (old : bool) : option bool :=
  match j with JNull => Some old | JBool b => Some b | _ => None end.

(** An [int] or [int64]. *)
Definition dec_int (j : json) (old : Z) : option Z :=
  match j with JNull => Some old | JNum lit => ParseInt64 lit | _ => None end.

Definition dec_uint32 (j : json) (old : Z) : option Z :=
  match j with JNull => Some old | JNum lit => ParseUint 10 32 lit | _ => None end.

(** A pointer: a fresh value unless it points to one already. *)
Definition dec_ptr {A} (zero : A) (dec : json → A → option A) (j : json) (old : option A) : option (option A) :=
  match j with JNull => Some None | j => option_map Some (dec j (default zero old)) end.

(** A slice: elements are read over those at the same place.  (A member
    that is repeated more than twice can uncover elements of an earlier,
    longer array; this is left out.) *)
Fixpoint dec_items {A} (zero : A) (dec : json → A → option A) (l : list json) (old : list A) : option (list A) :=
  match l with
  | [] => Some []
  | j :: l =>
      match dec j (default zero (head old)) with
      | None => None
      | Some a => option_map (cons a) (dec_items zero dec l (tail old))
      end
  end.

Definition dec_list {A} (zero : A) (dec : json → A → option A) (j : json) (old : list A) : option (list A) :=
  match j with JNull => Some [] | JArr l => dec_items zero dec l old | _ => None end.

(** Names without regard to case.  Two runes outside ASCII are variants of
    ASCII letters: U+212A of "k" and U+017F of "s". *)
Fixpoint fold_from (skip : nat) (s : string) : string :=
  match s with
  | EmptyString => EmptyString
  | String c t =>
      match skip with
      | S k => fold_from k t
      | 0 => if HasPrefix s (bytes [226; 132; 170]%Z) then String "k" (fold_from 2 t)
             else if HasPrefix s (bytes [197; 191]%Z) then String "s" (fold_from 1 t)
             else String (lower_byte c) (fold_from 0 t)
      end
  end.
Definition foldName (s : string) : string := fold_from 0 s.

(** The fields of a struct [A]: names and how each is filled. *)
Definition fields (A : Type) : Type := list (string * (json → A → option A)).

Definition find_field {A} (fs : fields A) (name : string) : option (json → A → option A) :=
  match find (λ f, String.eqb (fst f) name) fs with
  | Some f => Some (snd f)
  | None => option_map snd (find (λ f, String.eqb (foldName (fst f)) (foldName name)) fs)
  end.

Fixpoint dec_members {A} (fs : fields A) (l : list (string * json)) (acc : A) : option A :=
  match l with
  | [] => Some acc
  | (k, j) :: l =>
      match find_field fs k with
      | None => dec_members fs l acc
      | Some set => match set j acc with Some acc => dec_members fs l acc | None => None end
      end
  end.

Definition dec_struct {A} (fs : fields A) (j : json) (old : A) : option A :=
  match j with JNull => Some old | JObj l => dec_members fs l old | _ => None end.

(** ** Writing values *)
Definition enc_int (z : Z) : json := JNum (FormatInt z).
Definition enc_strings (l : list string) : json := JArr (map JStr l).

(** A member that is left out if it is [empty]. *)
Definition member (name : string) (j : json) : list (string * json) := [(name, j)].
Definition omitempty (empty : bool) (name : string) (j : json) : list (string * json) :=
  if empty then [] else [(name, j)].
Definition is_nil {A} (l : list A) : bool := match l with [] => true | _ => false end.
Definition omit_ptr {A} (name : string) (o : option A) (enc : A → json) : list (string * json) :=
  match o with Some a => [(name, enc a)] | None => [] end.

(** ** Messages *)
Class Wire (A : Type) := {
  wire_zero : A;
  to_json : A → json;
  of_json : json → A → option A;
}.

(** [json.Marshal] and [json.NewDecoder(body).Decode(&v)] *)
Definition Marshal {A} `{Wire A} (a : A) : string := print (to_json a).

Definition Decode {A} `{Wire A} (body : string) : result A :=
  match read body with
  | None => Err (Errorf "invalid JSON" [])
  | Some j => match of_json j wire_zero with
              | Some a => Ok a
              | None => Err (Errorf "json: cannot unmarshal" [])
              end
  end.

(** A message that travels unchanged, and that it does. *)
Class WireLaws (A : Type) `{Wire A} := {
  wire_ok : A → bool;
  wire_printable a : printable 6 (to_json a);
  wire_back a : wire_ok a = true → of_json (clean (to_json a)) wire_zero = Some a;
}.

(** ** Events *)
Definition op_text (o : EventOp) : string :=
  match o with EventOpUpsert => "upsert" | EventOpDelete => "delete" | EventOpOther name => name end.
Definition op_of (s : string) : EventOp :=
  if String.eqb s "upsert" then EventOpUpsert
  else if String.eqb s "delete" then EventOpDelete else EventOpOther s.

Definition FileEvent_fields : fields FileEvent :=
  [("path", λ j e, option_map (λ s, mkFileEvent s (ev_Op e)) (dec_string j (ev_Path e)));
   ("op", λ j e, option_map (λ s, mkFileEvent (ev_Path e) (op_of s)) (dec_string j (op_text (ev_Op e))))].

Definition FileEvent_json (e : FileEvent) : json :=
  JObj (member "path" (JStr (ev_Path e)) ++ member "op" (JStr (op_text (ev_Op e)))).

Definition zero_event : FileEvent := mkFileEvent "" (EventOpOther "").

(** ** Sources, owners and targets *)
Definition SourceRef_fields : fields SourceRef :=
  [("webdavUrl", λ j s, option_map (λ x, mkSourceRef x (src_User s) (src_Password s)) (dec_string j (src_WebDAVURL s)));
   ("user", λ j s, option_map (λ x, mkSourceRef (src_WebDAVURL s) x (src_Password s)) (dec_string j (src_User s)));
   ("password", λ j s, option_map (λ x, mkSourceRef (src_WebDAVURL s) (src_User s) x) (dec_string j (src_Password s)))].

Definition SourceRef_json (s : SourceRef) : json :=
  JObj (member "webdavUrl" (JStr (src_WebDAVURL s)) ++
        omitempty (is_empty (src_User s)) "user" (JStr (src_User s)) ++
        omitempty (is_empty (src_Password s)) "password" (JStr (src_Password s))).

Definition zero_source : SourceRef := mkSourceRef "" "" "".

Definition OwnershipPolicy_fields : fields OwnershipPolicy :=
  [("uid", λ j p, option_map (λ x, mkOwnershipPolicy x (own_GID p) (own_FileMode p) (own_DirMode p))
      (dec_ptr 0%Z dec_int j (own_UID p)));
   ("gid", λ j p, option_map (λ x, mkOwnershipPolicy (own_UID p) x (own_FileMode p) (own_DirMode p))
      (dec_ptr 0%Z dec_int j (own_GID p)));
   ("fileMode", λ j p, option_map (λ x, mkOwnershipPolicy (own_UID p) (own_GID p) x (own_DirMode p))
      (dec_ptr 0%Z dec_uint32 j (own_FileMode p)));
   ("dirMode", λ j p, option_map (λ x, mkOwnershipPolicy (own_UID p) (own_GID p) (own_FileMode p) x)
      (dec_ptr 0%Z dec_uint32 j (own_DirMode p)))].

Definition OwnershipPolicy_json (p : OwnershipPolicy) : json :=
  JObj (omit_ptr "uid" (own_UID p) enc_int ++ omit_ptr "gid" (own_GID p) enc_int ++
        omit_ptr "fileMode" (own_FileMode p) enc_int ++ omit_ptr "dirMode" (own_DirMode p) enc_int).

Definition TargetRef_fields : fields TargetRef :=
  [("url", λ j t, option_map (λ x, mkTargetRef x (tgt_Token t)) (dec_string j (tgt_URL t)));
   ("token", λ j t, option_map (λ x, mkTargetRef (tgt_URL t) x) (dec_string j (tgt_Token t)))].

Definition TargetRef_json (t : TargetRef) : json :=
  JObj (member "url" (JStr (tgt_URL t)) ++ omitempty (is_empty (tgt_Token t)) "token" (JStr (tgt_Token t))).

Definition zero_target : TargetRef := mkTargetRef "" "".

(** ** The requests.  An empty slice is written as one; a nil slice is
    written as [null], which reads the same. *)
Definition EventBatch_fields : fields EventBatch :=
  let upd b ns v g s base o d es :=
    mkEventBatch (default (eb_Namespace b) ns) (default (eb_Volume b) v) (default (eb_Generation b) g)
      (default (eb_Source b) s) (default (eb_SourceBasePath b) base) (default (eb_Ownership b) o)
      (default (eb_DeletesAuthoritative b) d) (default (eb_Events b) es) in
  [("namespace", λ j b, option_map (λ x, upd b (Some x) None None None None None None None) (dec_string j (eb_Namespace b)));
   ("volume", λ j b, option_map (λ x, upd b None (Some x) None None None None None None) (dec_string j (eb_Volume b)));
   ("generation", λ j b, option_map (λ x, upd b None None (Some x) None None None None None) (dec_string j (eb_Generation b)));
   ("source", λ j b, option_map (λ x, upd b None None None (Some x) None None None None)
      (dec_struct SourceRef_fields j (eb_Source b)));
   ("sourceBasePath", λ j b, option_map (λ x, upd b None None None None (Some x) None None None)
      (dec_string j (eb_SourceBasePath b)));
   ("ownership", λ j b, option_map (λ x, upd b None None None None None (Some x) None None)
      (dec_struct OwnershipPolicy_fields j (eb_Ownership b)));
   ("deletesAuthoritative", λ j b, option_map (λ x, upd b None None None None None None (Some x) None)
      (dec_bool j (eb_DeletesAuthoritative b)));
   ("events", λ j b, option_map (λ x, upd b None None None None None None None (Some x))
      (dec_list zero_event (dec_struct FileEvent_fields) j (eb_Events b)))].

Definition EventBatch_json (b : EventBatch) : json :=
  JObj (omitempty (is_empty (eb_Namespace b)) "namespace" (JStr (eb_Namespace b)) ++
        member "volume" (JStr (eb_Volume b)) ++
        omitempty (is_empty (eb_Generation b)) "generation" (JStr (eb_Generation b)) ++
        member "source" (SourceRef_json (eb_Source b)) ++
        omitempty (is_empty (eb_SourceBasePath b)) "sourceBasePath" (JStr (eb_SourceBasePath b)) ++
        member "ownership" (OwnershipPolicy_json (eb_Ownership b)) ++
        omitempty (negb (eb_DeletesAuthoritative b)) "deletesAuthoritative" (JBool (eb_DeletesAuthoritative b)) ++
        member "events" (JArr (map FileEvent_json (eb_Events b)))).

#[export] Instance EventBatch_wire : Wire EventBatch := {
  wire_zero := mkEventBatch "" "" "" zero_source "" empty_ownership false [];
  to_json := EventBatch_json;
  of_json := dec_struct EventBatch_fields;
}.

Definition FullSyncRequest_fields : fields FullSyncRequest :=
  let upd r ns v s base i e p q o b :=
    mkFullSyncRequest (default (fs_Namespace r) ns) (default (fs_Volume r) v) (default (fs_Source r) s)
      (default (fs_SourceBasePath r) base) (default (fs_IncludePaths r) i) (default (fs_ExcludePaths r) e)
      (default (fs_PruneExcluded r) p) (default (fs_RequiredPaths r) q) (default (fs_Ownership r) o)
      (default (fs_BackupExisting r) b) in
  [("namespace", λ j r, option_map (λ x, upd r (Some x) None None None None None None None None None) (dec_string j (fs_Namespace r)));
   ("volume", λ j r, option_map (λ x, upd r None (Some x) None None None None None None None None) (dec_string j (fs_Volume r)));
   ("source", λ j r, option_map (λ x, upd r None None (Some x) None None None None None None None)
      (dec_struct SourceRef_fields j (fs_Source r)));
   ("sourceBasePath", λ j r, option_map (λ x, upd r None None None (Some x) None None None None None None)
      (dec_string j (fs_SourceBasePath r)));
   ("includePaths", λ j r, option_map (λ x, upd r None None None None (Some x) None None None None None)
      (dec_list "" dec_string j (fs_IncludePaths r)));
   ("excludePaths", λ j r, option_map (λ x, upd r None None None None None (Some x) None None None None)
      (dec_list "" dec_string j (fs_ExcludePaths r)));
   ("pruneExcluded", λ j r, option_map (λ x, upd r None None None None None None (Some x) None None None)
      (dec_bool j (fs_PruneExcluded r)));
   ("requiredPaths", λ j r, option_map (λ x, upd r None None None None None None None (Some x) None None)
      (dec_list "" dec_string j (fs_RequiredPaths r)));
   ("ownership", λ j r, option_map (λ x, upd r None None None None None None None None (Some x) None)
      (dec_struct OwnershipPolicy_fields j (fs_Ownership r)));
   ("backupExisting", λ j r, option_map (λ x, upd r None None None None None None None None None (Some x))
      (dec_bool j (fs_BackupExisting r)))].

Definition FullSyncRequest_json (r : FullSyncRequest) : json :=
  JObj (omitempty (is_empty (fs_Namespace r)) "namespace" (JStr (fs_Namespace r)) ++
        member "volume" (JStr (fs_Volume r)) ++
        member "source" (SourceRef_json (fs_Source r)) ++
        omitempty (is_empty (fs_SourceBasePath r)) "sourceBasePath" (JStr (fs_SourceBasePath r)) ++
        omitempty (is_nil (fs_IncludePaths r)) "includePaths" (enc_strings (fs_IncludePaths r)) ++
        omitempty (is_nil (fs_ExcludePaths r)) "excludePaths" (enc_strings (fs_ExcludePaths r)) ++
        omitempty (negb (fs_PruneExcluded r)) "pruneExcluded" (JBool (fs_PruneExcluded r)) ++
        omitempty (is_nil (fs_RequiredPaths r)) "requiredPaths" (enc_strings (fs_RequiredPaths r)) ++
        member "ownership" (OwnershipPolicy_json (fs_Ownership r)) ++
        omitempty (negb (fs_BackupExisting r)) "backupExisting" (JBool (fs_BackupExisting r))).

#[export] Instance FullSyncRequest_wire : Wire FullSyncRequest := {
  wire_zero := mkFullSyncRequest "" "" zero_source "" [] [] false [] empty_ownership false;
  to_json := FullSyncRequest_json;
  of_json := dec_struct FullSyncRequest_fields;
}.

Definition ShadowPrepareRequest_fields : fields ShadowPrepareRequest :=
  let upd r ns v i e p q :=
    mkShadowPrepareRequest (default (sp_Namespace r) ns) (default (sp_Volume r) v) (default (sp_IncludePaths r) i)
      (default (sp_ExcludePaths r) e) (default (sp_PruneExcluded r) p) (default (sp_RequiredPaths r) q) in
  [("namespace", λ j r, option_map (λ x, upd r (Some x) None None None None None) (dec_string j (sp_Namespace r)));
   ("volume", λ j r, option_map (λ x, upd r None (Some x) None None None None) (dec_string j (sp_Volume r)));
   ("includePaths", λ j r, option_map (λ x, upd r None None (Some x) None None None) (dec_list "" dec_string j (sp_IncludePaths r)));
   ("excludePaths", λ j r, option_map (λ x, upd r None None None (Some x) None None) (dec_list "" dec_string j (sp_ExcludePaths r)));
   ("pruneExcluded", λ j r, option_map (λ x, upd r None None None None (Some x) None) (dec_bool j (sp_PruneExcluded r)));
   ("requiredPaths", λ j r, option_map (λ x, upd r None None None None None (Some x)) (dec_list "" dec_string j (sp_RequiredPaths r)))].

Definition ShadowPrepareRequest_json (r : ShadowPrepareRequest) : json :=
  JObj (omitempty (is_empty (sp_Namespace r)) "namespace" (JStr (sp_Namespace r)) ++
        member "volume" (JStr (sp_Volume r)) ++
        omitempty (is_nil (sp_IncludePaths r)) "includePaths" (enc_strings (sp_IncludePaths r)) ++
        omitempty (is_nil (sp_ExcludePaths r)) "excludePaths" (enc_strings (sp_ExcludePaths r)) ++
        omitempty (negb (sp_PruneExcluded r)) "pruneExcluded" (JBool (sp_PruneExcluded r)) ++
        omitempty (is_nil (sp_RequiredPaths r)) "requiredPaths" (enc_strings (sp_RequiredPaths r))).

#[export] Instance ShadowPrepareRequest_wire : Wire ShadowPrepareRequest := {
  wire_zero := mkShadowPrepareRequest "" "" [] [] false [];
  to_json := ShadowPrepareRequest_json;
  of_json := dec_struct ShadowPrepareRequest_fields;
}.

Definition ShadowPrepareResponse_fields : fields ShadowPrepareResponse :=
  let upd r ns v s g o :=
    mkShadowPrepareResponse (default (spr_Namespace r) ns) (default (spr_Volume r) v) (default (spr_SourceBasePath r) s)
      (default (spr_Generation r) g) (default (spr_OK r) o) in
  [("namespace", λ j r, option_map (λ x, upd r (Some x) None None None None) (dec_string j (spr_Namespace r)));
   ("volume", λ j r, option_map (λ x, upd r None (Some x) None None None) (dec_string j (spr_Volume r)));
   ("sourceBasePath", λ j r, option_map (λ x, upd r None None (Some x) None None) (dec_string j (spr_SourceBasePath r)));
   ("generation", λ j r, option_map (λ x, upd r None None None (Some x) None) (dec_string j (spr_Generation r)));
   ("ok", λ j r, option_map (λ x, upd r None None None None (Some x)) (dec_bool j (spr_OK r)))].

Definition ShadowPrepareResponse_json (r : ShadowPrepareResponse) : json :=
  JObj (omitempty (is_empty (spr_Namespace r)) "namespace" (JStr (spr_Namespace r)) ++
        member "volume" (JStr (spr_Volume r)) ++ member "sourceBasePath" (JStr (spr_SourceBasePath r)) ++
        member "generation" (JStr (spr_Generation r)) ++ member "ok" (JBool (spr_OK r))).

#[export] Instance ShadowPrepareResponse_wire : Wire ShadowPrepareResponse := {
  wire_zero := mkShadowPrepareResponse "" "" "" "" false;
  to_json := ShadowPrepareResponse_json;
  of_json := dec_struct ShadowPrepareResponse_fields;
}.

Definition WatchStartRequest_fields : fields WatchStartRequest :=
  let upd r ns v s t i e o d m c :=
    mkWatchStartRequest (default (ws_Namespace r) ns) (default (ws_Volume r) v) (default (ws_Source r) s)
      (default (ws_Targets r) t) (default (ws_IncludePaths r) i) (default (ws_ExcludePaths r) e)
      (default (ws_Ownership r) o) (default (ws_Debounce r) d) (default (ws_ConsistencyMode r) m)
      (default (ws_ConfirmedReplicas r) c) in
  [("namespace", λ j r, option_map (λ x, upd r (Some x) None None None None None None None None None) (dec_string j (ws_Namespace r)));
   ("volume", λ j r, option_map (λ x, upd r None (Some x) None None None None None None None None) (dec_string j (ws_Volume r)));
   ("source", λ j r, option_map (λ x, upd r None None (Some x) None None None None None None None)
      (dec_struct SourceRef_fields j (ws_Source r)));
   ("targets", λ j r, option_map (λ x, upd r None None None (Some x) None None None None None None)
      (dec_list zero_target (dec_struct TargetRef_fields) j (ws_Targets r)));
   ("includePaths", λ j r, option_map (λ x, upd r None None None None (Some x) None None None None None)
      (dec_list "" dec_string j (ws_IncludePaths r)));
   ("excludePaths", λ j r, option_map (λ x, upd r None None None None None (Some x) None None None None)
      (dec_list "" dec_string j (ws_ExcludePaths r)));
   ("ownership", λ j r, option_map (λ x, upd r None None None None None None (Some x) None None None)
      (dec_struct OwnershipPolicy_fields j (ws_Ownership r)));
   ("debounce", λ j r, option_map (λ x, upd r None None None None None None None (Some x) None None)
      (dec_string j (ws_Debounce r)));
   ("consistencyMode", λ j r, option_map (λ x, upd r None None None None None None None None (Some x) None)
      (dec_string j (ws_ConsistencyMode r)));
   ("confirmedReplicas", λ j r, option_map (λ x, upd r None None None None None None None None None (Some x))
      (dec_ptr 0%Z dec_int j (ws_ConfirmedReplicas r)))].

Definition WatchStartRequest_json (r : WatchStartRequest) : json :=
  JObj (omitempty (is_empty (ws_Namespace r)) "namespace" (JStr (ws_Namespace r)) ++
        member "volume" (JStr (ws_Volume r)) ++
        member "source" (SourceRef_json (ws_Source r)) ++
        member "targets" (JArr (map TargetRef_json (ws_Targets r))) ++
        omitempty (is_nil (ws_IncludePaths r)) "includePaths" (enc_strings (ws_IncludePaths r)) ++
        omitempty (is_nil (ws_ExcludePaths r)) "excludePaths" (enc_strings (ws_ExcludePaths r)) ++
        member "ownership" (OwnershipPolicy_json (ws_Ownership r)) ++
        omitempty (is_empty (ws_Debounce r)) "debounce" (JStr (ws_Debounce r)) ++
        omitempty (is_empty (ws_ConsistencyMode r)) "consistencyMode" (JStr (ws_ConsistencyMode r)) ++
        omit_ptr "confirmedReplicas" (ws_ConfirmedReplicas r) enc_int).

#[export] Instance WatchStartRequest_wire : Wire WatchStartRequest := {
  wire_zero := mkWatchStartRequest "" "" zero_source [] [] [] empty_ownership "" "" None;
  to_json := WatchStartRequest_json;
  of_json := dec_struct WatchStartRequest_fields;
}.

Definition WatchStopRequest_fields : fields WatchStopRequest :=
  [("namespace", λ j r, option_map (λ x, mkWatchStopRequest x (wx_Volume r)) (dec_string j (wx_Namespace r)));
   ("volume", λ j r, option_map (λ x, mkWatchStopRequest (wx_Namespace r) x) (dec_string j (wx_Volume r)))].

Definition WatchStopRequest_json (r : WatchStopRequest) : json :=
  JObj (omitempty (is_empty (wx_Namespace r)) "namespace" (JStr (wx_Namespace r)) ++
        member "volume" (JStr (wx_Volume r))).

#[export] Instance WatchStopRequest_wire : Wire WatchStopRequest := {
  wire_zero := mkWatchStopRequest "" "";
  to_json := WatchStopRequest_json;
  of_json := dec_struct WatchStopRequest_fields;
}.

(** ** Lemmas: reading members *)
Definition clean_member (kv : string * json) : string * json := (sanitize (fst kv), clean (snd kv)).

Lemma dec_members_one {A} (fs : fields A) name j set acc acc' rest :
  sanitize name = name → find_field fs name = Some set → set (clean j) acc = Some acc' →
  dec_members fs (map clean_member (member name j ++ rest)) acc = dec_members fs (map clean_member rest) acc'.
Proof.
  intros Hn Hf Hs. cbn [member app map dec_members clean_member fst snd]. by rewrite Hn, Hf, Hs.
Qed.

Lemma dec_members_omit {A} (fs : fields A) (empty : bool) name j set acc acc' rest :
  sanitize name = name → find_field fs name = Some set → set (clean j) acc = Some acc' →
  (empty = true → acc' = acc) →
  dec_members fs (map clean_member (omitempty empty name j ++ rest)) acc = dec_members fs (map clean_member rest) acc'.
Proof.
  intros Hn Hf Hs He. destruct empty; [by rewrite (He eq_refl)|]. by eapply (dec_members_one _ _ _ set).
Qed.

Lemma dec_members_ptr {A B} (fs : fields A) name (o : option B) enc set acc acc' rest :
  sanitize name = name → find_field fs name = Some set →
  match o with Some b => set (clean (enc b)) acc = Some acc' | None => acc' = acc end →
  dec_members fs (map clean_member (omit_ptr name o enc ++ rest)) acc = dec_members fs (map clean_member rest) acc'.
Proof.
  intros Hn Hf Hs. destruct o as [b|]; [|by rewrite Hs]. by eapply (dec_members_one _ _ _ set).
Qed.

Lemma dec_obj {A} (fs : fields A) l acc : dec_struct fs (clean (JObj l)) acc = dec_members fs (map clean_member l) acc.
Proof. done. Qed.

Lemma valid_sanitize s : ValidString s = true → sanitize s = s.
Proof. apply String.eqb_eq. Qed.

(** ** Lemmas: the parts of messages *)
Definition ok_strings (l : list string) : bool := forallb ValidString l.
Definition ok_int (z : Z) : bool := (int64_min <=? z)%Z && (z <=? int64_max)%Z.
Definition ok_uint32 (z : Z) : bool := (0 <=? z)%Z && (z <? 2 ^ 32)%Z.
Definition ok_opt (f : Z → bool) (o : option Z) : bool := match o with Some z => f z | None => true end.

Lemma dec_items_map {A B} (zero : A) dec (enc : B → json) (f : B → A) l :
  (∀ b, b ∈ l → dec (clean (enc b)) zero = Some (f b)) →
  dec_items zero dec (map clean (map enc l)) [] = Some (map f l).
Proof.
  induction l as [|b l IH]; intros H; [done|]. cbn [map dec_items head default tail].
  change (default zero (head ([] : list A))) with zero. rewrite H by left. cbn [tail].
  rewrite IH by (intros x Hx; apply H; by right). done.
Qed.

Lemma back_strings l : ok_strings l = true → dec_list "" dec_string (clean (enc_strings l)) [] = Some l.
Proof.
  intros H. unfold ok_strings in H. rewrite forallb_forall in H.
  transitivity (Some (map id l)); [|by rewrite map_id].
  apply (dec_items_map "" dec_string JStr id). intros s Hs. cbn. rewrite valid_sanitize; [done|].
  by apply H, list_elem_of_In.
Qed.

Lemma back_int z : ok_int z = true → dec_int (clean (enc_int z)) 0%Z = Some z.
Proof. intros H. apply ParseInt64_FormatInt. unfold in_int64, ok_int in *. lia. Qed.

Lemma back_uint32 z : ok_uint32 z = true → dec_uint32 (clean (enc_int z)) 0%Z = Some z.
Proof. intros H. apply (ParseUint_FormatInt z 32). unfold ok_uint32 in *. lia. Qed.

(** Reads one member after the other. *)
Ltac read_member :=
  etransitivity;
  [first [ eapply dec_members_one; [reflexivity|reflexivity|]
         | eapply dec_members_omit; [reflexivity|reflexivity| |]
         | eapply dec_members_ptr; [reflexivity|reflexivity|] ]
  |].

(** Closes the side conditions of a member: what it reads to, and that
    leaving it out makes no difference. *)
Ltac member_done :=
  match goal with
  | |- _ = true → _ = _ => intros ?E;
      first [ apply is_empty_spec in E; subst; reflexivity
            | apply negb_true_iff in E; subst; reflexivity
            | match goal with E : is_nil ?l = true |- _ => destruct l; [reflexivity|discriminate E] end ]
  | |- _ = Some _ =>
      cbn -[clean dec_struct dec_list SourceRef_fields OwnershipPolicy_fields FileEvent_fields TargetRef_fields
            SourceRef_json OwnershipPolicy_json FileEvent_json TargetRef_json ParseInt64 ParseUint FormatInt sanitize];
      try change (clean (JStr ?s)) with (JStr (sanitize s)); try change (clean (JBool ?b)) with (JBool b);
      cbn [dec_string dec_bool];
      repeat match goal with H : ValidString ?s = true |- context [sanitize ?s] => rewrite (valid_sanitize s H) end;
      try reflexivity
  end.

Ltac split_ok H := repeat (apply andb_true_iff in H as [H ?]).

Definition ok_source (s : SourceRef) : bool :=
  ValidString (src_WebDAVURL s) && ValidString (src_User s) && ValidString (src_Password s).

Lemma back_source s : ok_source s = true →
  dec_struct SourceRef_fields (clean (SourceRef_json s)) zero_source = Some s.
Proof.
  destruct s as [u usr pw]. unfold ok_source, SourceRef_json. cbn [src_WebDAVURL src_User src_Password]. intros H.
  split_ok H. rewrite dec_obj. rewrite <-(app_nil_r (_ ++ _)), <- !app_assoc.
  read_member; [member_done|]. do 2 (read_member; [member_done|member_done|]). reflexivity.
Qed.

Definition ok_ownership (p : OwnershipPolicy) : bool :=
  ok_opt ok_int (own_UID p) && ok_opt ok_int (own_GID p) &&
  ok_opt ok_uint32 (own_FileMode p) && ok_opt ok_uint32 (own_DirMode p).

Lemma back_ptr (ok : Z → bool) dec o : (∀ z, ok z = true → dec (clean (enc_int z)) 0%Z = Some z) →
  ok_opt ok o = true →
  match o with Some z => dec_ptr 0%Z dec (clean (enc_int z)) None = Some (Some z) | None => True end.
Proof. intros H Ho. destruct o as [z|]; [|done]. cbn in *. by rewrite (H z Ho). Qed.

Lemma back_ownership p : ok_ownership p = true →
  dec_struct OwnershipPolicy_fields (clean (OwnershipPolicy_json p)) empty_ownership = Some p.
Proof.
  destruct p as [u g f d]. unfold ok_ownership, OwnershipPolicy_json. cbn [own_UID own_GID own_FileMode own_DirMode].
  intros H. split_ok H. rewrite dec_obj. rewrite <-(app_nil_r (_ ++ _)), <- !app_assoc.
  pose proof (back_ptr ok_int dec_int u back_int H) as Hu. pose proof (back_ptr ok_int dec_int g back_int ltac:(done)) as Hg.
  pose proof (back_ptr ok_uint32 dec_uint32 f back_uint32 ltac:(done)) as Hf.
  pose proof (back_ptr ok_uint32 dec_uint32 d back_uint32 ltac:(done)) as Hd. clear H.
  read_member; [instantiate (1 := mkOwnershipPolicy u None None None); destruct u; [by cbn -[clean dec_ptr]; rewrite Hu|done]|].
  read_member; [instantiate (1 := mkOwnershipPolicy u g None None); destruct g; [by cbn -[clean dec_ptr]; rewrite Hg|done]|].
  read_member; [instantiate (1 := mkOwnershipPolicy u g f None); destruct f; [by cbn -[clean dec_ptr]; rewrite Hf|done]|].
  read_member; [instantiate (1 := mkOwnershipPolicy u g f d); destruct d; [by cbn -[clean dec_ptr]; rewrite Hd|done]|].
  reflexivity.
Qed.

Definition ok_target (t : TargetRef) : bool := ValidString (tgt_URL t) && ValidString (tgt_Token t).

Lemma back_target t : ok_target t = true →
  dec_struct TargetRef_fields (clean (TargetRef_json t)) zero_target = Some t.
Proof.
  destruct t as [u k]. unfold ok_target, TargetRef_json. cbn [tgt_URL tgt_Token]. intros H. split_ok H.
  rewrite dec_obj. rewrite <-(app_nil_r (_ ++ _)), <- !app_assoc.
  read_member; [member_done|]. read_member; [member_done|member_done|]. reflexivity.
Qed.

(** An operation is one of the two, or another text. *)
Definition ok_op (o : EventOp) : bool :=
  match o with
  | EventOpOther n => ValidString n && negb (String.eqb n "upsert") && negb (String.eqb n "delete")
  | _ => true
  end.
Definition ok_event (e : FileEvent) : bool := ValidString (ev_Path e) && ok_op (ev_Op e).

Lemma back_op o : ok_op o = true → op_of (sanitize (op_text o)) = o.
Proof.
  destruct o as [| |n]; try done. cbn. intros H. split_ok H. rewrite valid_sanitize by done. unfold op_of.
  apply negb_true_iff in H0 as ->. match goal with H : negb _ = true |- _ => by apply negb_true_iff in H as -> end.
Qed.

Lemma back_event e : ok_event e = true →
  dec_struct FileEvent_fields (clean (FileEvent_json e)) zero_event = Some e.
Proof.
  destruct e as [p o]. unfold ok_event, FileEvent_json. cbn [ev_Path ev_Op]. intros H. split_ok H.
  rewrite dec_obj. rewrite <-(app_nil_r (_ ++ _)), <- !app_assoc.
  read_member; [member_done|]. read_member; [|reflexivity].
  change (clean (JStr (op_text o))) with (JStr (sanitize (op_text o))).
  change (Some (mkFileEvent p (op_of (sanitize (op_text o)))) = Some (mkFileEvent p o)). by rewrite back_op.
Qed.

Lemma back_events l : forallb ok_event l = true →
  dec_list zero_event (dec_struct FileEvent_fields) (clean (JArr (map FileEvent_json l))) [] = Some l.
Proof.
  intros H. rewrite forallb_forall in H. transitivity (Some (map id l)); [|by rewrite map_id].
  apply (dec_items_map zero_event _ FileEvent_json id). intros e He. by apply back_event, H, list_elem_of_In.
Qed.

Lemma back_targets l : forallb ok_target l = true →
  dec_list zero_target (dec_struct TargetRef_fields) (clean (JArr (map TargetRef_json l))) [] = Some l.
Proof.
  intros H. rewrite forallb_forall in H. transitivity (Some (map id l)); [|by rewrite map_id].
  apply (dec_items_map zero_target _ TargetRef_json id). intros e He. by apply back_target, H, list_elem_of_In.
Qed.

(** ** Lemmas: messages can be written *)
Lemma printable_one n name j rest :
  printable n j → Forall (λ kv, printable n (snd kv)) rest → Forall (λ kv, printable n (snd kv)) (member name j ++ rest).
Proof. intros. by constructor. Qed.
Lemma printable_omit n (b : bool) name j rest :
  printable n j → Forall (λ kv, printable n (snd kv)) rest → Forall (λ kv, printable n (snd kv)) (omitempty b name j ++ rest).
Proof. intros. destruct b; [done|]. by constructor. Qed.
Lemma printable_ptr {B} n name (o : option B) enc rest :
  (∀ b, printable n (enc b)) → Forall (λ kv, printable n (snd kv)) rest →
  Forall (λ kv, printable n (snd kv)) (omit_ptr name o enc ++ rest).
Proof. intros H1 H2. destruct o; [constructor; [apply H1|done]|done]. Qed.

Lemma printable_strings n l : printable (S (S n)) (enc_strings l).
Proof. constructor. apply List.Forall_map, Forall_forall. constructor. Qed.

Lemma printable_items {B} n (enc : B → json) l : (∀ b, printable n (enc b)) → printable (S n) (JArr (map enc l)).
Proof. intros H. constructor. apply List.Forall_map, Forall_forall. auto. Qed.

Ltac write_members :=
  constructor; rewrite <-(app_nil_r (_ ++ _)), <- !app_assoc;
  repeat first [ apply printable_one | apply printable_omit | apply printable_ptr; [intros ?|] | constructor ].

Lemma printable_source n s : printable (S (S n)) (SourceRef_json s).
Proof. unfold SourceRef_json. write_members. Qed.
Lemma printable_ownership n p : printable (S (S n)) (OwnershipPolicy_json p).
Proof. unfold OwnershipPolicy_json. write_members. Qed.
Lemma printable_target n t : printable (S (S n)) (TargetRef_json t).
Proof. unfold TargetRef_json. write_members. Qed.
Lemma printable_event n e : printable (S (S n)) (FileEvent_json e).
Proof. unfold FileEvent_json. write_members. Qed.

(** ** The laws of the messages *)
Ltac write_message :=
  constructor; rewrite <-(app_nil_r (_ ++ _)), <- !app_assoc;
  repeat first [ apply printable_one | apply printable_omit | apply printable_ptr; [intros ?|]
               | apply printable_source | apply printable_ownership | apply printable_strings
               | apply printable_items; intros ?; first [apply printable_event | apply printable_target]
               | constructor ].

(** Reads a nested value with the lemma for its type. *)
Ltac nested :=
  cbn -[clean dec_struct dec_list dec_ptr SourceRef_fields OwnershipPolicy_fields FileEvent_fields TargetRef_fields
        SourceRef_json OwnershipPolicy_json FileEvent_json TargetRef_json enc_strings enc_int map];
  first [ rewrite back_source by done | rewrite back_ownership by done | rewrite back_strings by done
        | rewrite back_events by done | rewrite back_targets by done ]; reflexivity.

(** Reads all members. *)
Ltac read_message :=
  rewrite dec_obj; rewrite <-(app_nil_r (_ ++ _)), <- !app_assoc;
  repeat (etransitivity;
    [first [ eapply dec_members_one; [reflexivity|reflexivity|first [nested | member_done]]
           | eapply dec_members_omit; [reflexivity|reflexivity|first [nested | member_done]|member_done] ]
    |]).

Definition ok_batch (b : EventBatch) : bool :=
  ValidString (eb_Namespace b) && ValidString (eb_Volume b) && ValidString (eb_Generation b) &&
  ok_source (eb_Source b) && ValidString (eb_SourceBasePath b) && ok_ownership (eb_Ownership b) &&
  forallb ok_event (eb_Events b).

Lemma back_batch b : ok_batch b = true → of_json (clean (to_json b)) wire_zero = Some b.
Proof.
  destruct b as [ns v g s base o d es]. unfold ok_batch.
  cbn [of_json to_json wire_zero EventBatch_wire]. unfold EventBatch_json.
  cbn [eb_Namespace eb_Volume eb_Generation eb_Source eb_SourceBasePath eb_Ownership eb_DeletesAuthoritative eb_Events].
  intros H. split_ok H. read_message. reflexivity.
Qed.


Lemma write_batch (r : EventBatch) : printable 6 (to_json r).
Proof. unfold to_json, EventBatch_wire, EventBatch_json. write_message. Qed.

#[export] Instance EventBatch_laws : WireLaws EventBatch :=
  {| wire_ok := ok_batch; wire_printable := write_batch; wire_back := back_batch |}.

Definition ok_full (r : FullSyncRequest) : bool :=
  ValidString (fs_Namespace r) && ValidString (fs_Volume r) && ok_source (fs_Source r) &&
  ValidString (fs_SourceBasePath r) && ok_strings (fs_IncludePaths r) && ok_strings (fs_ExcludePaths r) &&
  ok_strings (fs_RequiredPaths r) && ok_ownership (fs_Ownership r).

Lemma back_full r : ok_full r = true → of_json (clean (to_json r)) wire_zero = Some r.
Proof.
  destruct r as [ns v s base i e p q o b]. unfold ok_full.
  cbn [of_json to_json wire_zero FullSyncRequest_wire]. unfold FullSyncRequest_json.
  cbn [fs_Namespace fs_Volume fs_Source fs_SourceBasePath fs_IncludePaths fs_ExcludePaths fs_PruneExcluded fs_RequiredPaths fs_Ownership fs_BackupExisting].
  intros H. split_ok H. read_message. reflexivity.
Qed.

Lemma write_full (r : FullSyncRequest) : printable 6 (to_json r).
Proof. unfold to_json, FullSyncRequest_wire, FullSyncRequest_json. write_message. Qed.

#[export] Instance FullSyncRequest_laws : WireLaws FullSyncRequest :=
  {| wire_ok := ok_full; wire_printable := write_full; wire_back := back_full |}.

Definition ok_shadow (r : ShadowPrepareRequest) : bool :=
  ValidString (sp_Namespace r) && ValidString (sp_Volume r) && ok_strings (sp_IncludePaths r) &&
  ok_strings (sp_ExcludePaths r) && ok_strings (sp_RequiredPaths r).

Lemma back_shadow r : ok_shadow r = true → of_json (clean (to_json r)) wire_zero = Some r.
Proof.
  destruct r as [ns v i e p q]. unfold ok_shadow.
  cbn [of_json to_json wire_zero ShadowPrepareRequest_wire]. unfold ShadowPrepareRequest_json.
  cbn [sp_Namespace sp_Volume sp_IncludePaths sp_ExcludePaths sp_PruneExcluded sp_RequiredPaths].
  intros H. split_ok H. read_message. reflexivity.
Qed.

Lemma write_shadow (r : ShadowPrepareRequest) : printable 6 (to_json r).
Proof. unfold to_json, ShadowPrepareRequest_wire, ShadowPrepareRequest_json. write_message. Qed.

#[export] Instance ShadowPrepareRequest_laws : WireLaws ShadowPrepareRequest :=
  {| wire_ok := ok_shadow; wire_printable := write_shadow; wire_back := back_shadow |}.

Definition ok_prepared (r : ShadowPrepareResponse) : bool :=
  ValidString (spr_Namespace r) && ValidString (spr_Volume r) && ValidString (spr_SourceBasePath r) &&
  ValidString (spr_Generation r).

Lemma back_prepared r : ok_prepared r = true → of_json (clean (to_json r)) wire_zero = Some r.
Proof.
  destruct r as [ns v s g o]. unfold ok_prepared.
  cbn [of_json to_json wire_zero ShadowPrepareResponse_wire]. unfold ShadowPrepareResponse_json.
  cbn [spr_Namespace spr_Volume spr_SourceBasePath spr_Generation spr_OK].
  intros H. split_ok H. read_message. reflexivity.
Qed.

Lemma write_prepared (r : ShadowPrepareResponse) : printable 6 (to_json r).
Proof. unfold to_json, ShadowPrepareResponse_wire, ShadowPrepareResponse_json. write_message. Qed.

#[export] Instance ShadowPrepareResponse_laws : WireLaws ShadowPrepareResponse :=
  {| wire_ok := ok_prepared; wire_printable := write_prepared; wire_back := back_prepared |}.

Definition ok_start (r : WatchStartRequest) : bool :=
  ValidString (ws_Namespace r) && ValidString (ws_Volume r) && ok_source (ws_Source r) &&
  forallb ok_target (ws_Targets r) && ok_strings (ws_IncludePaths r) && ok_strings (ws_ExcludePaths r) &&
  ok_ownership (ws_Ownership r) && ValidString (ws_Debounce r) && ValidString (ws_ConsistencyMode r) &&
  ok_opt ok_int (ws_ConfirmedReplicas r).

Lemma back_start r : ok_start r = true → of_json (clean (to_json r)) wire_zero = Some r.
Proof.
  destruct r as [ns v s t i e o d m c]. unfold ok_start.
  cbn [of_json to_json wire_zero WatchStartRequest_wire]. unfold WatchStartRequest_json.
  cbn [ws_Namespace ws_Volume ws_Source ws_Targets ws_IncludePaths ws_ExcludePaths ws_Ownership ws_Debounce ws_ConsistencyMode ws_ConfirmedReplicas].
  intros H. split_ok H. read_message.
  etransitivity; [eapply dec_members_ptr; [reflexivity|reflexivity|]|].
  { pose proof (back_ptr ok_int dec_int c back_int ltac:(done)) as Hc.
    instantiate (1 := mkWatchStartRequest ns v s t i e o d m c).
    destruct c; [by cbn -[clean dec_ptr]; rewrite Hc|done]. }
  reflexivity.
Qed.

Lemma write_start (r : WatchStartRequest) : printable 6 (to_json r).
Proof. unfold to_json, WatchStartRequest_wire, WatchStartRequest_json. write_message. Qed.

#[export] Instance WatchStartRequest_laws : WireLaws WatchStartRequest :=
  {| wire_ok := ok_start; wire_printable := write_start; wire_back := back_start |}.

Definition ok_stop (r : WatchStopRequest) : bool :=
  ValidString (wx_Namespace r) && ValidString (wx_Volume r).

Lemma back_stop r : ok_stop r = true → of_json (clean (to_json r)) wire_zero = Some r.
Proof.
  destruct r as [ns v]. unfold ok_stop.
  cbn [of_json to_json wire_zero WatchStopRequest_wire]. unfold WatchStopRequest_json.
  cbn [wx_Namespace wx_Volume].
  intros H. split_ok H. read_message. reflexivity.
Qed.

Lemma write_stop (r : WatchStopRequest) : printable 6 (to_json r).
Proof. unfold to_json, WatchStopRequest_wire, WatchStopRequest_json. write_message. Qed.

#[export] Instance WatchStopRequest_laws : WireLaws WatchStopRequest :=
  {| wire_ok := ok_stop; wire_printable := write_stop; wire_back := back_stop |}.

(** What the laws give. *)
Lemma message_decodes {A} `{WireLaws A} (a : A) : wire_ok a = true → Decode (Marshal a) = Ok a.
Proof.
  intros Ha. unfold Decode, Marshal. rewrite read_print; [by rewrite wire_back|].
  eapply printable_mono; [apply wire_printable|]. unfold max_depth. lia.
Qed.

(** ** Examples *)
Definition ex_message : EventBatch :=
  mkEventBatch "games" "pv-1" "" (mkSourceRef "http://10.0.0.1:8081/" "" "") "" (mkOwnershipPolicy (Some 1000%Z) None None None)
    true [mkFileEvent "a<b>.sav" EventOpUpsert; mkFileEvent (bytes [195; 169]%Z) EventOpDelete].

(** A file name that is not valid UTF-8 does not survive: the byte 255
    arrives as U+FFFD, so another path is replicated. *)
Lemma invalid_name_changed :
  Decode (Marshal (mkEventBatch "" "v" "" zero_source "" empty_ownership false
                     [mkFileEvent (bytes [97; 255]%Z) EventOpDelete])) =
  Ok (mkEventBatch "" "v" "" zero_source "" empty_ownership false
        [mkFileEvent (bytes [97; 239; 191; 189]%Z) EventOpDelete]).
Proof. vm_compute. reflexivity. Qed.

End Wire.
