(* ===== verification/WireStatus.v ===== *)
(** * The status of a watch as JSON

    The controller asks the agent of the active node for the status of its
    watch and takes from it how fresh each replica is.  This file gives the
    JSON form of [WatchStatus] and [TargetStatus]
    ([internal/agent/watch_manager.go]), with times in RFC 3339, and shows
    that the controller reads the status the agent wrote, to the
    nanosecond.  A time counts nanoseconds from Go's zero time, the start
    of the year 1, from which decoding starts. *)
From S2P Require Import Prelude GoStrings GoTime Json Rfc3339 AgentTypes Wire.

Module WireStatus.
Import Str Json Wire.

(** ** Times.  A time is written as RFC 3339 and read by the strict parser;
    [null] leaves a time alone. *)
Definition enc_time (t : Z) : json := JStr (Time.format_rfc3339nano t).
Definition dec_time (j : json) (old : Z) : option Z :=
  match j with JNull => Some old | JStr s => Rfc3339.ParseRFC3339 s | _ => None end.

(** ** The status of one target *)
Definition TargetStatus_fields : fields TargetStatus :=
  [("url", λ j '(mkTargetStatus u l g e b n f),
     option_map (λ x, mkTargetStatus x l g e b n f) (dec_string j u));
   ("lastSuccessfulSync", λ j '(mkTargetStatus u l g e b n f),
     option_map (λ x, mkTargetStatus u x g e b n f) (dec_ptr 0%Z dec_time j l));
   ("lastObservedGeneration", λ j '(mkTargetStatus u l g e b n f),
     option_map (λ x, mkTargetStatus u l x e b n f) (dec_string j g));
   ("lastError", λ j '(mkTargetStatus u l g e b n f),
     option_map (λ x, mkTargetStatus u l g x b n f) (dec_string j e));
   ("deliveredBatchCount", λ j '(mkTargetStatus u l g e b n f),
     option_map (λ x, mkTargetStatus u l g e x n f) (dec_int j b));
   ("deliveredEventCount", λ j '(mkTargetStatus u l g e b n f),
     option_map (λ x, mkTargetStatus u l g e b x f) (dec_int j n));
   ("deliveryFailureCount", λ j '(mkTargetStatus u l g e b n f),
     option_map (λ x, mkTargetStatus u l g e b n x) (dec_int j f))].

Definition TargetStatus_json (t : TargetStatus) : json :=
  JObj (member "url" (JStr (ts_URL t)) ++
        omit_ptr "lastSuccessfulSync" (ts_LastSuccessfulSync t) enc_time ++
        omitempty (is_empty (ts_LastObservedGeneration t)) "lastObservedGeneration" (JStr (ts_LastObservedGeneration t)) ++
        omitempty (is_empty (ts_LastError t)) "lastError" (JStr (ts_LastError t)) ++
        omitempty (ts_DeliveredBatchCount t =? 0)%Z "deliveredBatchCount" (enc_int (ts_DeliveredBatchCount t)) ++
        omitempty (ts_DeliveredEventCount t =? 0)%Z "deliveredEventCount" (enc_int (ts_DeliveredEventCount t)) ++
        omitempty (ts_DeliveryFailureCount t =? 0)%Z "deliveryFailureCount" (enc_int (ts_DeliveryFailureCount t))).

Definition zero_target_status : TargetStatus := mkTargetStatus "" None "" "" 0 0 0.

(** ** The status of a watch *)
Definition WatchStatus_fields : fields WatchStatus :=
  [("namespace", λ j '(mkWatchStatus ns v s ts st i e o m c r sa so lb n g de we db dn df),
     option_map (λ x, mkWatchStatus x v s ts st i e o m c r sa so lb n g de we db dn df) (dec_string j ns));
   ("volume", λ j '(mkWatchStatus ns v s ts st i e o m c r sa so lb n g de we db dn df),
     option_map (λ x, mkWatchStatus ns x s ts st i e o m c r sa so lb n g de we db dn df) (dec_string j v));
   ("source", λ j '(mkWatchStatus ns v s ts st i e o m c r sa so lb n g de we db dn df),
     option_map (λ x, mkWatchStatus ns v x ts st i e o m c r sa so lb n g de we db dn df) (dec_struct SourceRef_fields j s));
   ("targets", λ j '(mkWatchStatus ns v s ts st i e o m c r sa so lb n g de we db dn df),
     option_map (λ x, mkWatchStatus ns v s x st i e o m c r sa so lb n g de we db dn df) (dec_list zero_target (dec_struct TargetRef_fields) j ts));
   ("targetStatuses", λ j '(mkWatchStatus ns v s ts st i e o m c r sa so lb n g de we db dn df),
     option_map (λ x, mkWatchStatus ns v s ts x i e o m c r sa so lb n g de we db dn df) (dec_list zero_target_status (dec_struct TargetStatus_fields) j st));
   ("includePaths", λ j '(mkWatchStatus ns v s ts st i e o m c r sa so lb n g de we db dn df),
     option_map (λ x, mkWatchStatus ns v s ts st x e o m c r sa so lb n g de we db dn df) (dec_list "" dec_string j i));
   ("excludePaths", λ j '(mkWatchStatus ns v s ts st i e o m c r sa so lb n g de we db dn df),
     option_map (λ x, mkWatchStatus ns v s ts st i x o m c r sa so lb n g de we db dn df) (dec_list "" dec_string j e));
   ("ownership", λ j '(mkWatchStatus ns v s ts st i e o m c r sa so lb n g de we db dn df),
     option_map (λ x, mkWatchStatus ns v s ts st i e x m c r sa so lb n g de we db dn df) (dec_struct OwnershipPolicy_fields j o));
   ("consistencyMode", λ j '(mkWatchStatus ns v s ts st i e o m c r sa so lb n g de we db dn df),
     option_map (λ x, mkWatchStatus ns v s ts st i e o x c r sa so lb n g de we db dn df) (dec_string j m));
   ("confirmedReplicas", λ j '(mkWatchStatus ns v s ts st i e o m c r sa so lb n g de we db dn df),
     option_map (λ x, mkWatchStatus ns v s ts st i e o m x r sa so lb n g de we db dn df) (dec_int j c));
   ("running", λ j '(mkWatchStatus ns v s ts st i e o m c r sa so lb n g de we db dn df),
     option_map (λ x, mkWatchStatus ns v s ts st i e o m c x sa so lb n g de we db dn df) (dec_bool j r));
   ("startedAt", λ j '(mkWatchStatus ns v s ts st i e o m c r sa so lb n g de we db dn df),
     option_map (λ x, mkWatchStatus ns v s ts st i e o m c r x so lb n g de we db dn df) (dec_time j sa));
   ("stoppedAt", λ j '(mkWatchStatus ns v s ts st i e o m c r sa so lb n g de we db dn df),
     option_map (λ x, mkWatchStatus ns v s ts st i e o m c r sa x lb n g de we db dn df) (dec_ptr 0%Z dec_time j so));
   ("lastBatchAt", λ j '(mkWatchStatus ns v s ts st i e o m c r sa so lb n g de we db dn df),
     option_map (λ x, mkWatchStatus ns v s ts st i e o m c r sa so x n g de we db dn df) (dec_ptr 0%Z dec_time j lb));
   ("lastBatchEventCount", λ j '(mkWatchStatus ns v s ts st i e o m c r sa so lb n g de we db dn df),
     option_map (λ x, mkWatchStatus ns v s ts st i e o m c r sa so lb x g de we db dn df) (dec_int j n));
   ("lastBatchGeneration", λ j '(mkWatchStatus ns v s ts st i e o m c r sa so lb n g de we db dn df),
     option_map (λ x, mkWatchStatus ns v s ts st i e o m c r sa so lb n x de we db dn df) (dec_string j g));
   ("lastDeliveryError", λ j '(mkWatchStatus ns v s ts st i e o m c r sa so lb n g de we db dn df),
     option_map (λ x, mkWatchStatus ns v s ts st i e o m c r sa so lb n g x we db dn df) (dec_string j de));
   ("lastWatchError", λ j '(mkWatchStatus ns v s ts st i e o m c r sa so lb n g de we db dn df),
     option_map (λ x, mkWatchStatus ns v s ts st i e o m c r sa so lb n g de x db dn df) (dec_string j we));
   ("deliveredBatchCount", λ j '(mkWatchStatus ns v s ts st i e o m c r sa so lb n g de we db dn df),
     option_map (λ x, mkWatchStatus ns v s ts st i e o m c r sa so lb n g de we x dn df) (dec_int j db));
   ("deliveredEventCount", λ j '(mkWatchStatus ns v s ts st i e o m c r sa so lb n g de we db dn df),
     option_map (λ x, mkWatchStatus ns v s ts st i e o m c r sa so lb n g de we db x df) (dec_int j dn));
   ("deliveryFailureCount", λ j '(mkWatchStatus ns v s ts st i e o m c r sa so lb n g de we db dn df),
     option_map (λ x, mkWatchStatus ns v s ts st i e o m c r sa so lb n g de we db dn x) (dec_int j df))].

Definition WatchStatus_json (w : WatchStatus) : json :=
  JObj (omitempty (is_empty (wst_Namespace w)) "namespace" (JStr (wst_Namespace w)) ++
        member "volume" (JStr (wst_Volume w)) ++
        member "source" (SourceRef_json (wst_Source w)) ++
        member "targets" (JArr (map TargetRef_json (wst_Targets w))) ++
        omitempty (is_nil (wst_TargetStatuses w)) "targetStatuses" (JArr (map TargetStatus_json (wst_TargetStatuses w))) ++
        omitempty (is_nil (wst_IncludePaths w)) "includePaths" (enc_strings (wst_IncludePaths w)) ++
        omitempty (is_nil (wst_ExcludePaths w)) "excludePaths" (enc_strings (wst_ExcludePaths w)) ++
        member "ownership" (OwnershipPolicy_json (wst_Ownership w)) ++
        omitempty (is_empty (wst_ConsistencyMode w)) "consistencyMode" (JStr (wst_ConsistencyMode w)) ++
        omitempty (wst_ConfirmedReplicas w =? 0)%Z "confirmedReplicas" (enc_int (wst_ConfirmedReplicas w)) ++
        member "running" (JBool (wst_Running w)) ++
        member "startedAt" (enc_time (wst_StartedAt w)) ++
        omit_ptr "stoppedAt" (wst_StoppedAt w) enc_time ++
        omit_ptr "lastBatchAt" (wst_LastBatchAt w) enc_time ++
        omitempty (wst_LastBatchEventCount w =? 0)%Z "lastBatchEventCount" (enc_int (wst_LastBatchEventCount w)) ++
        omitempty (is_empty (wst_LastBatchGeneration w)) "lastBatchGeneration" (JStr (wst_LastBatchGeneration w)) ++
        omitempty (is_empty (wst_LastDeliveryError w)) "lastDeliveryError" (JStr (wst_LastDeliveryError w)) ++
        omitempty (is_empty (wst_LastWatchError w)) "lastWatchError" (JStr (wst_LastWatchError w)) ++
        omitempty (wst_DeliveredBatchCount w =? 0)%Z "deliveredBatchCount" (enc_int (wst_DeliveredBatchCount w)) ++
        omitempty (wst_DeliveredEventCount w =? 0)%Z "deliveredEventCount" (enc_int (wst_DeliveredEventCount w)) ++
        omitempty (wst_DeliveryFailureCount w =? 0)%Z "deliveryFailureCount" (enc_int (wst_DeliveryFailureCount w))).

#[export] Instance WatchStatus_wire : Wire WatchStatus := {
  wire_zero := mkWatchStatus "" "" zero_source [] [] [] [] empty_ownership "" 0 false 0 None None 0 "" "" "" 0 0 0;
  to_json := WatchStatus_json;
  of_json := dec_struct WatchStatus_fields;
}.

(** ** Lemmas: the parts *)
Definition ascii_byte (c : ascii) : bool := (byte_of c <? 128)%Z.

Lemma ascii_valid s : all_bytes ascii_byte s = true → ValidString s = true.
Proof.
  intros H. apply String.eqb_eq. unfold sanitize. induction s as [|c s IH]; [done|].
  cbn [all_bytes] in H. apply andb_true_iff in H as [Hc H]. cbn [sanitize_from].
  rewrite DecodeRune_ascii by (unfold ascii_byte in Hc; lia).
  assert (invalid (byte_of c) 1 = false) as ->.
  { unfold invalid, rune_error. unfold ascii_byte in Hc. replace (byte_of c =? 65533)%Z with false by lia. done. }
  cbn [Nat.sub]. by rewrite IH.
Qed.

Lemma pad_ascii w z : all_bytes ascii_byte (Time.pad w z) = true.
Proof.
  assert (∀ s, all_bytes is_digit s = true → all_bytes ascii_byte s = true) as Hd.
  { intros s. apply all_bytes_mono. intros c. unfold is_digit, byte_in, ascii_byte. lia. }
  unfold Time.pad. fold (Rfc3339.zeros (w - String.length (FormatInt z))). rewrite all_bytes_app, (Hd _ (proj1 (Rfc3339.zeros_digits _))). cbn [andb].
  destruct (FormatInt_digits z) as (c & d & -> & H & _). rewrite all_bytes_app, (Hd _ H). by destruct (z <? 0)%Z.
Qed.

Lemma time_valid t : ValidString (Time.format_rfc3339nano t) = true.
Proof.
  apply ascii_valid. unfold Time.format_rfc3339nano, Time.format_day, Time.fraction.
  destruct (Time.civil _) as [[y m] d]. rewrite !all_bytes_app, !pad_ascii. cbn [andb].
  destruct (t mod Time.Second =? 0)%Z; [done|]. by rewrite all_bytes_app, all_bytes_TrimRight by apply pad_ascii.
Qed.

(** The times the program can send. *)
Definition ok_time (t : Z) : bool := (0 <=? t)%Z && (t <? Rfc3339.last_instant)%Z.

Lemma back_time t old : ok_time t = true → dec_time (clean (enc_time t)) old = Some t.
Proof.
  intros H. change (clean (enc_time t)) with (JStr (sanitize (Time.format_rfc3339nano t))).
  rewrite valid_sanitize by apply time_valid. apply Rfc3339.rfc3339_back. unfold ok_time in H. lia.
Qed.

Lemma back_string s old : ValidString s = true → dec_string (clean (JStr s)) old = Some s.
Proof. intros H. change (clean (JStr s)) with (JStr (sanitize s)). by rewrite valid_sanitize. Qed.

(** A pointer is written as what it points to, or left out; reading
    [null] would leave it out too. *)
Definition enc_opt (o : option Z) : json := match o with Some t => enc_time t | None => JNull end.
Definition is_none {A} (o : option A) : bool := match o with Some _ => false | None => true end.

Lemma omit_ptr_opt name o : omit_ptr name o enc_time = omitempty (is_none o) name (enc_opt o).
Proof. by destruct o. Qed.

Lemma back_opt o : ok_opt ok_time o = true → dec_ptr 0%Z dec_time (clean (enc_opt o)) None = Some o.
Proof.
  destruct o as [t|]; [|done]. intros H. unfold dec_ptr. change (clean (enc_opt (Some t))) with (clean (enc_time t)).
  pose proof (back_time t 0 H) as E. change (clean (enc_time t)) with (JStr (sanitize (Time.format_rfc3339nano t))) in *.
  cbv iota beta. change (default 0%Z None) with 0%Z. by rewrite E.
Qed.

(** Reads the members one after the other. *)
Ltac read_value :=
  cbn -[clean dec_struct dec_list dec_ptr dec_string dec_int dec_time SourceRef_fields OwnershipPolicy_fields
        TargetRef_fields TargetStatus_fields SourceRef_json OwnershipPolicy_json TargetRef_json TargetStatus_json
        enc_strings enc_int enc_time enc_opt map];
  first [ rewrite back_string by done | rewrite back_int by done | rewrite back_opt by done | rewrite back_time by done
        | rewrite back_source by done | rewrite back_ownership by done | rewrite back_strings by done
        | rewrite back_targets by done | idtac ]; reflexivity.

Ltac omitted :=
  intros ?E;
  first [ apply is_empty_spec in E; subst; reflexivity
        | apply Z.eqb_eq in E; subst; reflexivity
        | match goal with E : is_nil ?l = true |- _ => destruct l; [reflexivity|discriminate E] end
        | match goal with E : is_none ?o = true |- _ => destruct o; [discriminate E|reflexivity] end ].

Ltac read_status :=
  rewrite dec_obj; rewrite <-(app_nil_r (_ ++ _)), <- !app_assoc;
  repeat (etransitivity;
    [first [ eapply dec_members_one; [reflexivity|reflexivity|read_value]
           | eapply dec_members_omit; [reflexivity|reflexivity|read_value|omitted] ]
    |]);
  reflexivity.

Definition ok_target_status (t : TargetStatus) : bool :=
  ValidString (ts_URL t) && ok_opt ok_time (ts_LastSuccessfulSync t) && ValidString (ts_LastObservedGeneration t) &&
  ValidString (ts_LastError t) && ok_int (ts_DeliveredBatchCount t) && ok_int (ts_DeliveredEventCount t) &&
  ok_int (ts_DeliveryFailureCount t).

Lemma back_target_status t : ok_target_status t = true →
  dec_struct TargetStatus_fields (clean (TargetStatus_json t)) zero_target_status = Some t.
Proof.
  destruct t as [u l g e b n f]. unfold ok_target_status, TargetStatus_json, zero_target_status.
  cbn [ts_URL ts_LastSuccessfulSync ts_LastObservedGeneration ts_LastError ts_DeliveredBatchCount ts_DeliveredEventCount
       ts_DeliveryFailureCount].
  intros H. split_ok H. rewrite !omit_ptr_opt. read_status.
Qed.

Lemma back_target_statuses l : forallb ok_target_status l = true →
  dec_list zero_target_status (dec_struct TargetStatus_fields) (clean (JArr (map TargetStatus_json l))) [] = Some l.
Proof.
  intros H. rewrite forallb_forall in H. transitivity (Some (map id l)); [|by rewrite map_id].
  apply (dec_items_map zero_target_status _ TargetStatus_json id). intros e He.
  by apply back_target_status, H, list_elem_of_In.
Qed.

(** ** The laws *)
Definition ok_status (w : WatchStatus) : bool :=
  ValidString (wst_Namespace w) && ValidString (wst_Volume w) && ok_source (wst_Source w) &&
  forallb ok_target (wst_Targets w) && forallb ok_target_status (wst_TargetStatuses w) &&
  ok_strings (wst_IncludePaths w) && ok_strings (wst_ExcludePaths w) && ok_ownership (wst_Ownership w) &&
  ValidString (wst_ConsistencyMode w) && ok_int (wst_ConfirmedReplicas w) && ok_time (wst_StartedAt w) &&
  ok_opt ok_time (wst_StoppedAt w) && ok_opt ok_time (wst_LastBatchAt w) && ok_int (wst_LastBatchEventCount w) &&
  ValidString (wst_LastBatchGeneration w) && ValidString (wst_LastDeliveryError w) && ValidString (wst_LastWatchError w) &&
  ok_int (wst_DeliveredBatchCount w) && ok_int (wst_DeliveredEventCount w) && ok_int (wst_DeliveryFailureCount w).

Ltac read_value ::=
  cbn -[clean dec_struct dec_list dec_ptr dec_string dec_int dec_time SourceRef_fields OwnershipPolicy_fields
        TargetRef_fields TargetStatus_fields SourceRef_json OwnershipPolicy_json TargetRef_json TargetStatus_json
        enc_strings enc_int enc_time enc_opt map];
  first [ rewrite back_string by done | rewrite back_int by done | rewrite back_opt by done | rewrite back_time by done
        | rewrite back_source by done | rewrite back_ownership by done | rewrite back_strings by done
        | rewrite back_targets by done | rewrite back_target_statuses by done | idtac ]; reflexivity.

Lemma back_status w : ok_status w = true → of_json (clean (to_json w)) wire_zero = Some w.
Proof.
  destruct w as [ns v s ts st i e o m c r sa so lb n g de we db dn df]. unfold ok_status.
  cbn [of_json to_json wire_zero WatchStatus_wire]. unfold WatchStatus_json.
  cbn [wst_Namespace wst_Volume wst_Source wst_Targets wst_TargetStatuses wst_IncludePaths wst_ExcludePaths wst_Ownership
       wst_ConsistencyMode wst_ConfirmedReplicas wst_Running wst_StartedAt wst_StoppedAt wst_LastBatchAt
       wst_LastBatchEventCount wst_LastBatchGeneration wst_LastDeliveryError wst_LastWatchError wst_DeliveredBatchCount
       wst_DeliveredEventCount wst_DeliveryFailureCount].
  intros H. split_ok H. rewrite !omit_ptr_opt. read_status.
Qed.

Lemma write_status w : printable 6 (to_json w).
Proof.
  assert (∀ n t, printable (S (S n)) (TargetStatus_json t)) as Ht by (intros n t; unfold TargetStatus_json; write_members).
  unfold to_json, WatchStatus_wire, WatchStatus_json.
  constructor; rewrite <-(app_nil_r (_ ++ _)), <- !app_assoc.
  repeat first [ apply printable_one | apply printable_omit | apply printable_ptr; [intros ?|]
               | apply printable_source | apply printable_ownership | apply printable_strings
               | apply printable_items; intros ?; first [apply printable_target | apply Ht]
               | constructor ].
Qed.

#[export] Instance WatchStatus_laws : WireLaws WatchStatus :=
  {| wire_ok := ok_status; wire_printable := write_status; wire_back := back_status |}.

(** ** Theorem *)

(** C24: Messages arrive as they were sent.  For the batches, the requests
    for full syncs, shadows and watches, the answer to a request for a
    shadow and the status of a watch: the text that is written for a message
    decodes to that message, provided its texts are valid UTF-8, its
    numbers fit their types and its times lie in the years 1 to 9999. *)
Theorem message_roundtrip :
  (∀ b, ok_batch b = true → @Decode _ EventBatch_wire (print (EventBatch_json b)) = Ok b) ∧
  (∀ r, ok_full r = true → @Decode _ FullSyncRequest_wire (print (FullSyncRequest_json r)) = Ok r) ∧
  (∀ r, ok_shadow r = true → @Decode _ ShadowPrepareRequest_wire (print (ShadowPrepareRequest_json r)) = Ok r) ∧
  (∀ r, ok_prepared r = true → @Decode _ ShadowPrepareResponse_wire (print (ShadowPrepareResponse_json r)) = Ok r) ∧
  (∀ r, ok_start r = true → @Decode _ WatchStartRequest_wire (print (WatchStartRequest_json r)) = Ok r) ∧
  (∀ r, ok_stop r = true → @Decode _ WatchStopRequest_wire (print (WatchStopRequest_json r)) = Ok r) ∧
  (∀ w, ok_status w = true → @Decode _ WatchStatus_wire (print (WatchStatus_json w)) = Ok w).
Proof.
  split_and!; [exact (message_decodes (A:=EventBatch))|exact (message_decodes (A:=FullSyncRequest))
    |exact (message_decodes (A:=ShadowPrepareRequest))|exact (message_decodes (A:=ShadowPrepareResponse))
    |exact (message_decodes (A:=WatchStartRequest))|exact (message_decodes (A:=WatchStopRequest))
    |exact (message_decodes (A:=WatchStatus))].
Qed.

Definition ex_status : WatchStatus :=
  mkWatchStatus "games" "pv-1" (mkSourceRef "http://10.0.0.1:8081" "" "") [mkTargetRef "http://10.0.0.2:8080" "token"]
    [mkTargetStatus "http://10.0.0.2:8080" (Some 1700000000123456789%Z) "g" "" 1 2 0] [] [] empty_ownership "live" 1 true
    1700000000000000000 None (Some 1700000000123000000%Z) 2 "g" "" "" 1 2 0.

Lemma message_roundtrip_witness :
  ok_batch ex_message = true ∧ @Decode _ EventBatch_wire (print (EventBatch_json ex_message)) = Ok ex_message ∧
  ok_status ex_status = true ∧ @Decode _ WatchStatus_wire (print (WatchStatus_json ex_status)) = Ok ex_status.
Proof.
  assert (ok_batch ex_message = true) as H1 by (vm_compute; reflexivity).
  assert (ok_status ex_status = true) as H2 by (vm_compute; reflexivity).
  destruct message_roundtrip as (H & _ & _ & _ & _ & _ & H'). exact (conj H1 (conj (H _ H1) (conj H2 (H' _ H2)))).
Defined.

End WireStatus.
