(* ===== verification/AgentEnv.v ===== *)
(** * What a node agent calls: the file system, inotify, rclone, HTTP, the clock

    The signature of the agent's programs (see Effects.v).  Each
    operation is one call of the Go code; its answer is whatever the
    operating system, the rclone process or the peer returns. *)
From S2P Require Import Prelude Effects AgentTypes.

(** [agent.CommandSpec] *)
Record CommandSpec : Type := mkCommandSpec {
  cmd_Name : string;
  cmd_Args : list string;
}.

(** [os.FileInfo]: mode bits as in [os.FileMode], a 32-bit word; the owner
    is what [Sys()] holds on Linux. *)
Record FileInfo : Type := mkFileInfo {
  fi_Size : Z;
  fi_Mode : Z;
  fi_ModTime : Z;
  fi_Uid : Z;
  fi_Gid : Z;
}.

Definition ModeDir : Z := 2 ^ 31.
Definition ModeSymlink : Z := 2 ^ 27.
Definition info_IsDir (i : FileInfo) : bool := negb (Z.land (fi_Mode i) ModeDir =? 0)%Z.
Definition info_IsSymlink (i : FileInfo) : bool := negb (Z.land (fi_Mode i) ModeSymlink =? 0)%Z.
(** [FileMode.Perm] *)
Definition Perm (mode : Z) : Z := Z.land mode 511.
(** [FileMode.IsRegular]: none of the bits of [ModeType] (directory,
    symbolic link, named pipe, socket, device, character device,
    irregular) is set. *)
Definition ModeType : Z :=
  2 ^ 31 + 2 ^ 27 + 2 ^ 26 + 2 ^ 25 + 2 ^ 24 + 2 ^ 21 + 2 ^ 19.
Definition mode_IsRegular (mode : Z) : bool := (Z.land mode ModeType =? 0)%Z.

(** [f.Readdirnames(1)] on an open directory. *)
Inductive readdir1 : Type :=
| RdName
| RdEOF
| RdErr (e : error).

(** A HEAD request: an address the HTTP package refuses, a request that
    failed, or a status code. *)
Inductive head_answer : Type :=
| HeadInvalid (e : error)
| HeadFailed
| HeadStatus (code : Z).

(** What [filepath.WalkDir] hands to its callback: the path, the error of
    reading it, and the answers of [d.IsDir()] and [d.Info()].  A walk is
    one call whose answer lists the entries in the order of the callbacks;
    a callback that returns [SkipDir] drops the entries below its path. *)
Record walk_entry : Type := mkWalkEntry {
  we_Path : string;
  we_Err : option error;
  we_IsDir : bool;
  we_Info : result FileInfo;
}.

(** A POST request: it could not be built, it failed, or it was answered
    with a status code, the status line and the head of the body. *)
Inductive post_answer : Type :=
| PostInvalid (e : error)
| PostFailed (e : error)
| PostStatus (code : Z) (status body : string).

(** [fsnotify.Event]: the path and the bits of its operation. *)
Record fs_event : Type := mkFsEvent {
  fe_Name : string;
  fe_Create : bool;
  fe_Remove : bool;
  fe_Rename : bool;
}.

(** The case a [select] of the watch loop takes: the context was
    cancelled, a value arrived on one of the watcher's channels, the
    debounce timer fired, or the rescan ticker ticked. *)
Inductive watch_signal : Type :=
| CtxDone (e : error)
| WatcherError (e : option error)
| WatcherEvent (e : fs_event)
| TimerFired
| RescanTick.

(** The updates of a watch's status under the lock of the watch manager;
    [watch] is the address of the watch. *)
Inductive manager_update : Type :=
| DeliverySuccess (key : string) (watch : nat) (target : TargetRef) (batch : EventBatch) (now : Z)
| DeliveryError (key : string) (watch : nat) (target : TargetRef) (e : error)
| UnconfirmedDelivery (key : string) (watch : nat) (batch : EventBatch) (got want : Z)
| WatchStopped (key : string) (watch : nat) (e : option error) (now : Z).

(** The fields of [tar.Header] the program reads or writes. *)
Inductive tar_type : Type := TypeReg | TypeDir | TypeSymlink | TypeOther (flag : ascii).
Record tar_header : Type := mkTarHeader {
  th_Name : string;
  th_Typeflag : tar_type;
  th_Linkname : string;
  th_Size : Z;
  th_Mode : Z;
  th_Uid : Z;
  th_Gid : Z;
  th_ModTime : Z;
}.

(** A tar archive that is read: its entries, each with the pieces its
    successive reads return and the error that ends them, and the error
    that ends the archive if it is not the end of the stream. *)
Record tar_entry : Type := mkTarEntry {
  te_Header : tar_header;
  te_Pieces : list string;
  te_Err : option error;
}.

Record tar_stream : Type := mkTarStream {
  ta_Entries : list tar_entry;
  ta_Err : option error;
}.

(** A GET request for an archive: it could not be built, it failed, or it
    was answered with a status code, the status line, and a body, of which
    an error message shows the head. *)
Inductive get_answer : Type :=
| GetInvalid (e : error)
| GetFailed (e : error)
| GetStatus (code : Z) (status head : string) (body : tar_stream).

(** [unix.Fadvise] and [unix.SyncFileRange]: done, not supported for this
    file ([EINVAL] or [ENOSYS]), or failed. *)
Inductive advice : Type :=
| AdviceDone
| AdviceUnsupported
| AdviceFailed (e : error).

Inductive agent_op : Type :=
| OsMkdirAll (path : string) (perm : Z)
| OsStat (path : string)
| OsLstat (path : string)
| OsReadDir (path : string)
| OsOpenDir (path : string)
| OsReaddirnames1 (path : string)
| OsWriteFile (path content : string) (perm : Z)
| OsRename (from to : string)
| OsRemove (path : string)
| OsRemoveAll (path : string)
| OsChown (path : string) (uid gid : Z)
| OsLchown (path : string) (uid gid : Z)
| OsChmod (path : string) (mode : Z)
| RunCommand (spec : CommandSpec)
| HttpHead (url user password : string)
| OsWriteJSON (path : string) (fields : list (string * string)) (perm : Z)
| OsWalkDir (path : string)
| OsReadlink (path : string)
| OsSymlink (target link : string)
| OsCreate (path : string) (perm : Z)
| OsOpen (path : string)
| OsRead (path : string)
| OsWrite (path data : string)
| OsClose (path : string)
| OsChtimes (path : string) (t : Z)
| OsFadvise (path : string) (offset length : Z)
| OsSyncRange (path : string) (offset length : Z)
| OsFdatasync (path : string)
| TarWriteHeader (h : tar_header)
| TarWrite (data : string)
| InotifyInit
| InotifyAdd (path : string)
| WatchSelect
| TimerReset (d : Z)
| SinkBatch (batch : EventBatch)
| HttpPost (url token : string) (batch : EventBatch)
| HttpGet (url authorization : string)
| Manager (u : manager_update)
| BindMount (source target : string)
| Unmount (target : string)
| StartProcess (spec : CommandSpec)
| WaitProcess (spec : CommandSpec)
| TimeNow.

(** The answer of [OsRead] is what successive reads of an open file return:
    the pieces, and the error that ends them if it is not the end of the
    file. *)
Definition agent_ans (o : agent_op) : Type :=
  match o with
  | OsStat _ | OsLstat _ => result FileInfo
  | OsReadDir _ => result (list string)
  | OsReaddirnames1 _ => readdir1
  | RunCommand _ => string * option error
  | HttpHead _ _ _ => head_answer
  | OsWalkDir _ => list walk_entry
  | OsReadlink _ => result string
  | OsRead _ => list string * option error
  | OsFadvise _ _ _ | OsSyncRange _ _ _ => advice
  | WatchSelect => watch_signal
  | TimerReset _ | Manager _ => unit
  | HttpPost _ _ _ => post_answer
  | HttpGet _ _ => get_answer
  | TimeNow => Z
  | _ => result unit
  end.

Definition agent_sig : sig := Sig agent_op agent_ans.

Abbreviation os_call o := (@call agent_sig o).

(** The operations that can change a file or directory below the path
    they name; a command writes wherever its arguments say. *)
Definition mutates (o : agent_op) : list string :=
  match o with
  | OsMkdirAll p _ | OsWriteFile p _ _ | OsWriteJSON p _ _ | OsRemove p | OsRemoveAll p
  | OsChown p _ _ | OsLchown p _ _ | OsChmod p _
  | OsSymlink _ p | OsCreate p _ | OsWrite p _ | OsChtimes p _ => [p]
  | OsRename from to => [from; to]
  | _ => []
  end.

(** Reading a trace: the operations issued, the paths mutated, and
    whether an operation was issued and answered in a given way. *)
Definition ops (tr : list (event agent_sig)) : list agent_op := map ev_op tr.
Definition mutated (tr : list (event agent_sig)) : list string :=
  flat_map (λ e, mutates (ev_op (S:=agent_sig) e)) tr.
Definition did (o : agent_op) (r : agent_ans o) (tr : list (event agent_sig)) : Prop :=
  Ev (S:=agent_sig) o r ∈ tr.

Lemma ops_app tr1 tr2 : ops (tr1 ++ tr2) = ops tr1 ++ ops tr2.
Proof. apply map_app. Qed.

Lemma mutated_app tr1 tr2 : mutated (tr1 ++ tr2) = mutated tr1 ++ mutated tr2.
Proof. apply flat_map_app. Qed.

Lemma did_app o r tr1 tr2 : did o r (tr1 ++ tr2) ↔ did o r tr1 ∨ did o r tr2.
Proof. apply elem_of_app. Qed.

Lemma did_here o r tr : did o r (Ev (S:=agent_sig) o r :: tr).
Proof. left. Qed.

Lemma did_later o r e tr : did o r tr → did o r (e :: tr).
Proof. by right. Qed.

#[export] Hint Resolve did_here did_later : sv.

(** Closes goals about a trace given event by event. *)
Ltac op_cases :=
  repeat match goal with
  | H : _ ∈ [] |- _ => by apply elem_of_nil in H
  | H : _ ∈ _ :: _ |- _ => apply elem_of_cons in H as [H|H]; simplify_eq/=
  end.
Ltac trace_solve :=
  repeat first
  [ progress intros
  | progress simplify_eq
  | progress cbn -[did] in *
  | progress op_cases
  | match goal with
    | |- _ ∧ _ => split
    | |- Forall _ [] => constructor
    | |- Forall _ (_ :: _) => constructor
    end ];
  eauto 10 with sv; try done.

(** A single call of an agent is of the kind asked for. *)
Ltac one_call :=
  lazymatch goal with |- calls_only ?P (@call _ ?o) => by apply (calls_only_call (S:=agent_sig) P o) end.
