(* ===== verification/AgentMem.v ===== *)
(** * A concrete environment for the agent's programs

    An in-memory file system with a fixed table of HTTP answers and a
    rclone that always succeeds, enough to run the programs of the agent
    on examples.  Nothing is proved about it: it only shows that the
    behaviour the theorems speak of can be produced. *)
From S2P Require Import Prelude GoStrings GoPath Effects AgentEnv.

Module Mem.
Import Str Path.

Record world : Type := mkWorld {
  w_files : gmap string FileInfo;
  w_http : gmap string Z;
  w_now : Z;
}.

Definition dir_info : FileInfo := mkFileInfo 0 (ModeDir + 493) 0 0 0.
Definition file_info : FileInfo := mkFileInfo 1 420 0 0 0.

(** The names directly below [p]. *)
Definition children (w : world) (p : string) : list string :=
  omap (λ kv, let k := fst kv in
              if HasPrefix k (p +:+ "/")
              then let r := TrimPrefix k (p +:+ "/") in
                   if has_byte slash r then None else Some r
              else None)
       (map_to_list (w_files w)).

Definition set_files (w : world) (m : gmap string FileInfo) : world :=
  mkWorld m (w_http w) (w_now w).

(** The table with the entries for which [f] gives a new name moved
    there. *)
Definition rename_files (from to : string) (m : gmap string FileInfo) : gmap string FileInfo :=
  list_to_map (map (λ kv, let k := fst kv in
     (if inside from k then to +:+ str_drop (String.length from) k else k, snd kv))
     (map_to_list m)).

Definition handler (o : op agent_sig) (w : world) : ans agent_sig o * world :=
  match o return agent_ans o * world with
  | OsMkdirAll p _ => (Ok tt, set_files w (<[p := dir_info]> (w_files w)))
  | OsStat p | OsLstat p =>
      (match w_files w !! p with Some i => Ok i | None => Err (NotExist p) end, w)
  | OsReadDir p => (Ok (children w p), w)
  | OsOpenDir p =>
      (match w_files w !! p with Some _ => Ok tt | None => Err (NotExist p) end, w)
  | OsReaddirnames1 p => (match children w p with [] => RdEOF | _ => RdName end, w)
  | OsWriteFile p _ _ => (Ok tt, set_files w (<[p := file_info]> (w_files w)))
  | OsRename from to => (Ok tt, set_files w (rename_files from to (w_files w)))
  | OsRemove p => (Ok tt, set_files w (delete p (w_files w)))
  | OsRemoveAll p =>
      (Ok tt, set_files w (filter (λ kv, inside p kv.1 = false) (w_files w)))
  | OsChown _ _ _ | OsLchown _ _ _ | OsChmod _ _ => (Ok tt, w)
  | RunCommand _ => (("", None), w)
  | HttpHead url _ _ => (HeadStatus (default 404%Z (w_http w !! url)), w)
  | OsWriteJSON p _ _ => (Ok tt, set_files w (<[p := file_info]> (w_files w)))
  | OsWalkDir p =>
      (map (λ kv, mkWalkEntry (fst kv) None (info_IsDir (snd kv)) (Ok (snd kv)))
         (filter (λ kv, inside p (fst kv) = true) (map_to_list (w_files w))), w)
  | OsReadlink p => (Err (NotExist p), w)
  | OsSymlink _ p | OsCreate p _ => (Ok tt, set_files w (<[p := file_info]> (w_files w)))
  | OsOpen p =>
      (match w_files w !! p with Some _ => Ok tt | None => Err (NotExist p) end, w)
  | OsRead _ => (([], None), w)
  | OsWrite _ _ | OsClose _ | OsChtimes _ _ | OsFdatasync _ => (Ok tt, w)
  | OsFadvise _ _ _ | OsSyncRange _ _ _ => (AdviceDone, w)
  | TarWriteHeader _ | TarWrite _ => (Ok tt, w)
  | InotifyInit | InotifyAdd _ | SinkBatch _ | BindMount _ _ | Unmount _
  | StartProcess _ | WaitProcess _ => (Ok tt, w)
  | WatchSelect => (CtxDone Canceled, w)
  | TimerReset _ | Manager _ => (tt, w)
  | HttpPost _ _ _ => (PostStatus 200 "200 OK" "", w)
  | HttpGet _ _ => (GetStatus 404 "404 Not Found" "" (mkTarStream [] None), w)
  | TimeNow => (w_now w, w)
  end.

Definition run_on {A} (p : prog agent_sig A) (w : world) : A * world * list (event agent_sig) :=
  run handler p w.

End Mem.
