(* ===== verification/Agent.v ===== *)
(** * Storage pools and volume paths: [internal/agent/agent.go]

    Where a volume, its shadow copy and its backups live inside a pool,
    the initialisation of a pool, the backup of a stale volume and the
    token check of the agent's endpoints. *)
From S2P Require Import Prelude GoStrings GoPath GoTime Json Effects AgentEnv AgentMem.

Module Agent.
Import Str Path.

Definition PoolMarkerFile : string := ".simple-volume-pool".

Definition ErrPathOutsidePool : error := Errorf "volume path escapes storage pool" [].

(** [fmt.Errorf("%w: ...", ErrNonEmptyPool, ...)] *)
Definition ErrNonEmptyPool (path : string) (entries : nat) : error :=
  Errorf "storage pool is non-empty and not initialized: %s has %d entries and no %s marker"
    [path; FormatInt (Z.of_nat entries); PoolMarkerFile].

Record Pool : Type := mkPool {
  pool_Name : string;
  pool_Path : string;
}.

Record VolumePath : Type := mkVolumePath {
  vp_Pool : Pool;
  vp_Namespace : string;
  vp_Name : string;
  vp_Generation : string;
}.

Definition shadowRootDir : string := ".simple-volume-shadows".
Definition shadowCurrentDir : string := "current".
Definition shadowDataDir : string := "data".
Definition backupRootDir : string := ".simple-volume-backups".

Definition Pool_Clean (p : Pool) : Pool := mkPool (pool_Name p) (Clean (pool_Path p)).

(** The test on a cleaned pool path all the resolvers share. *)
Definition bad_pool_path (path : string) : bool :=
  String.eqb path "." || String.eqb path "/" || String.eqb path "".

(** ** [safeSegment] *)
Definition safe_rune (r : Z) : ascii :=
  if ((97 <=? r) && (r <=? 122) || (65 <=? r) && (r <=? 90) || (48 <=? r) && (r <=? 57) ||
      (r =? 45) || (r =? 95) || (r =? 46))%Z
  then ascii_of_N (Z.to_N r) else "-"%char.

Definition safeSegment (s : string) : string :=
  let s := TrimSpace s in
  let s := ReplaceAll s ".." "" in
  let s := MapRunes safe_rune s in
  let s := Trim is_dash_dot s in
  if is_empty s then "default" else s.

(** ** Paths *)
Definition ResolveVolumePath (v : VolumePath) : result string :=
  let pool := Pool_Clean (vp_Pool v) in
  if bad_pool_path (pool_Path pool) then
    Err (Errorf "invalid pool path %q" [pool_Path (vp_Pool v)])
  else
    let rel := join [safeSegment (vp_Namespace v); safeSegment (vp_Name v)] in
    let full := Clean (join [pool_Path pool; rel]) in
    if negb (String.eqb full (pool_Path pool)) &&
       negb (HasPrefix full (pool_Path pool +:+ "/"))
    then Err ErrPathOutsidePool else Ok full.

Definition ShadowSourceBasePath (namespace volume : string) : string :=
  join [shadowRootDir; safeSegment namespace; safeSegment volume; shadowCurrentDir; shadowDataDir].

Definition resolvePoolRelativePath (pool : Pool) (rel : string) : result string :=
  let cleanPool := Pool_Clean pool in
  if bad_pool_path (pool_Path cleanPool) then Err (Errorf "invalid pool path %q" [pool_Path pool])
  else
    let rel := Trim is_slash (ToSlashes rel) in
    if is_empty rel then Err (Errorf "relative path is required" [])
    else
      let full := Clean (join [pool_Path cleanPool; rel]) in
      if negb (String.eqb full (pool_Path cleanPool)) &&
         negb (HasPrefix full (pool_Path cleanPool +:+ "/"))
      then Err ErrPathOutsidePool else Ok full.

Definition ResolveShadowPath (pool : Pool) (namespace volume : string) : result string :=
  resolvePoolRelativePath pool (ShadowSourceBasePath namespace volume).

(** ** Operations on the file system *)
Definition EnsureVolumePath (v : VolumePath) (perm : Z) : prog agent_sig (result string) :=
  match ResolveVolumePath v with
  | Err e => Ret (Err e)
  | Ok path => _ <-! os_call (OsMkdirAll path perm) ;; Ret (Ok path)
  end.

Definition EnsureShadowPath (pool : Pool) (namespace volume : string)
  : prog agent_sig (result string) :=
  match ResolveShadowPath pool namespace volume with
  | Err e => Ret (Err e)
  | Ok path => _ <-! os_call (OsMkdirAll path 493) ;; Ret (Ok path)
  end.

(** Modes: 0o755 is 493 and 0o644 is 420. *)
Definition EnsurePool (pool : Pool) (allowNonEmpty : bool) : prog agent_sig (result unit) :=
  let clean := Pool_Clean pool in
  if is_empty (pool_Name clean) then Ret (Err (Errorf "pool name is required" []))
  else if bad_pool_path (pool_Path clean) then
    Ret (Err (Errorf "invalid pool path %q" [pool_Path pool]))
  else
    _ <-! os_call (OsMkdirAll (pool_Path clean) 493) ;;
    let marker := join [pool_Path clean; PoolMarkerFile] in
    st <- os_call (OsStat marker) ;;
    match st with
    | Ok _ => Ret (Ok tt)
    | Err e =>
        if negb (IsNotExist e) then Ret (Err e)
        else
          entries <-! os_call (OsReadDir (pool_Path clean)) ;;
          if (0 <? length entries)%nat && negb allowNonEmpty then
            Ret (Err (ErrNonEmptyPool (pool_Path clean) (length entries)))
          else
            let content := "name=" +:+ pool_Name clean +:+ String "010" "path=" +:+
                           pool_Path clean +:+ String "010" "" in
            os_call (OsWriteFile marker content 420)
    end.

Definition IsEmptyDir (path : string) : prog agent_sig (result bool) :=
  _ <-! os_call (OsOpenDir path) ;;
  r <- os_call (OsReaddirnames1 path) ;;
  Ret (match r with
       | RdEOF => Ok true
       | RdName => Ok false
       | RdErr e => Err e
       end).

(** Returns the backup path, or the empty string when there was nothing
    to back up. *)
Definition BackupVolumePath (v : VolumePath) (now : Z) : prog agent_sig (result string) :=
  match ResolveVolumePath v with
  | Err e => Ret (Err e)
  | Ok path =>
      st <- os_call (OsStat path) ;;
      match st with
      | Err e => if IsNotExist e then Ret (Ok "") else Ret (Err e)
      | Ok _ =>
          empty <-! IsEmptyDir path ;;
          if empty : bool then Ret (Ok "")
          else
            let pool := Pool_Clean (vp_Pool v) in
            let backupRoot := join [pool_Path pool; backupRootDir;
                                    safeSegment (vp_Namespace v); safeSegment (vp_Name v)] in
            _ <-! os_call (OsMkdirAll backupRoot 493) ;;
            let backupPath := join [backupRoot; Time.format_stamp now] in
            _ <-! os_call (OsRename path backupPath) ;;
            Ret (Ok backupPath)
      end
  end.

(** ** Synchronisation commands and authorization *)
Record SyncRequest : Type := mkSyncRequest {
  sr_Method : string;
  sr_SourceURL : string;
  sr_TargetPath : string;
  sr_Excludes : list string;
  sr_Delete : bool;
}.

Definition exclude_args (excludes : list string) : list string :=
  e ← excludes; ["--exclude"; e].

Definition BuildSyncCommand (req : SyncRequest) : result (string * list string) :=
  if String.eqb (sr_Method req) "" || String.eqb (sr_Method req) "rsync" then
    Ok ("rsync", ["-a"] ++ (if sr_Delete req then ["--delete"] else []) ++
                 exclude_args (sr_Excludes req) ++ [sr_SourceURL req; sr_TargetPath req])
  else if String.eqb (sr_Method req) "rclone" then
    Ok ("rclone", ["sync"; sr_SourceURL req; sr_TargetPath req] ++ exclude_args (sr_Excludes req))
  else Err (Errorf "unsupported sync method %q" [sr_Method req]).

(** [TokenAuthorizer.Authorize] on the request's Authorization header. *)
Definition Authorize (token header : string) : bool :=
  if is_empty token then false else String.eqb header ("Bearer " +:+ token).

(** ** Specification *)

(** A pool path the resolvers accept: it has at least one element. *)
Definition pool_ok (pool : Pool) : Prop := elems (pool_Path pool) ≠ [].

(** The directory of a volume, of its shadow data and of its backups,
    relative to the pool. *)
Definition volume_elems (ns name : string) : list string := [safeSegment ns; safeSegment name].
Definition shadow_elems (ns name : string) : list string :=
  [shadowRootDir; safeSegment ns; safeSegment name; shadowCurrentDir; shadowDataDir].
Definition backup_elems (ns name : string) : list string :=
  [backupRootDir; safeSegment ns; safeSegment name].

Definition below (pool : Pool) (l : list string) : string :=
  Clean (pool_Path pool) +:+ "/" +:+ Join "/" l.

(** Names Kubernetes admits for namespaces and volumes: alphanumeric at
    both ends, lower-case letters, digits, dashes and single dots. *)
Definition k8s_name (s : string) : Prop :=
  s ≠ "" ∧ all_bytes (λ c, byte_in 97 122 c || byte_in 48 57 c || is_dash_dot c) s = true ∧
  (∀ c, first_byte s = Some c → is_dash_dot c = false) ∧
  (∀ c, last_byte s = Some c → is_dash_dot c = false) ∧
  Contains s ".." = false.

(** ** Lemmas: [safeSegment] *)
Definition segment_byte (c : ascii) : bool :=
  byte_in 97 122 c || byte_in 65 90 c || byte_in 48 57 c || ascii_eqb c "-" ||
  ascii_eqb c "_" || ascii_eqb c ".".

Lemma safe_rune_segment r : segment_byte (safe_rune r) = true.
Proof.
  destruct (decide (0 ≤ r < 128)%Z) as [Hr|Hr].
  - assert (forallb (λ n, segment_byte (safe_rune (Z.of_nat n))) (List.seq 0 128) = true) as H by done.
    rewrite forallb_forall in H. rewrite <-(Z2Nat.id r) by lia. apply H, in_seq. lia.
  - unfold safe_rune. destruct (_ || _) eqn:E; [lia|done].
Qed.

Lemma map_runes_all f p k s :
  (∀ r, p (f r) = true) → all_bytes p (map_runes_from f k s) = true.
Proof.
  intros Hf. revert k. induction s as [|c s IH]; intros [|k]; cbn -[DecodeRune]; [done..| |auto].
  destruct (DecodeRune _) as [r n]. cbn. by rewrite Hf, IH.
Qed.

Lemma safeSegment_bytes s : all_bytes segment_byte (safeSegment s) = true.
Proof.
  unfold safeSegment. destruct (is_empty _); [done|].
  apply all_bytes_Trim, map_runes_all, safe_rune_segment.
Qed.

Lemma safeSegment_first s c : first_byte (safeSegment s) = Some c → is_dash_dot c = false.
Proof.
  unfold safeSegment. destruct (is_empty _); [by intros [= <-]|]. apply Trim_first.
Qed.

Lemma safeSegment_ne s : safeSegment s ≠ "".
Proof. unfold safeSegment. destruct (is_empty _) eqn:E; [done|]. by apply is_empty_false. Qed.

Lemma segment_no_slash s : all_bytes segment_byte s = true → has_byte slash s = false.
Proof.
  induction s as [|c s IH]; cbn -[segment_byte]; [done|]. rewrite andb_true_iff.
  intros [Hc Hs]. rewrite IH, orb_false_r by done. revert Hc. clear. by byte_cases c.
Qed.

Lemma safeSegment_good s : good_elem (safeSegment s).
Proof.
  split_and!; [apply safeSegment_ne| | |apply segment_no_slash, safeSegment_bytes];
    intros E; pose proof (safeSegment_first s "."%char) as H; rewrite E in H; by specialize (H eq_refl).
Qed.

#[export] Hint Resolve safeSegment_good : sv.

(** A segment never equals a name that starts with a dot: neither the
    shadow and backup directories nor the marker file. *)
Lemma safeSegment_not_dot s t : safeSegment s ≠ String "." t.
Proof.
  intros E. pose proof (safeSegment_first s "."%char) as H. rewrite E in H. by specialize (H eq_refl).
Qed.

(** On Kubernetes names the segment is the name itself. *)
Definition plain_byte (c : ascii) : bool :=
  byte_in 97 122 c || byte_in 48 57 c || is_dash_dot c.

(** No visible ASCII character starts the encoding of a space. *)
Lemma space_width_ink c s : byte_in 33 126 c = true → space_width (String c s) = 0.
Proof.
  intros Hc. unfold space_width.
  assert (forallb (λ e, match e with String d _ => negb (byte_in 33 126 d) | "" => false end)
            space_encodings = true) as H by done.
  induction space_encodings as [|e l IH]; [done|]. cbn -[byte_in] in *.
  apply andb_true_iff in H as [He Hl]. destruct e as [|d e]; [done|]. cbn [HasPrefix].
  destruct (ascii_eqb c d) eqn:E; [|by apply IH].
  apply ascii_eqb_eq in E as ->. by rewrite Hc in He.
Qed.

Lemma space_width_plain c s : plain_byte c = true → space_width (String c s) = 0.
Proof. intros H. apply space_width_ink. revert H. by byte_cases c. Qed.

Lemma trim_space_left_plain s : all_bytes plain_byte s = true → trim_space_left 0 s = s.
Proof.
  destruct s as [|c s]; [done|]. cbn -[plain_byte space_width]. rewrite andb_true_iff.
  intros [Hc _]. by rewrite space_width_plain.
Qed.

Lemma TrimSpace_plain s : all_bytes plain_byte s = true → TrimSpace s = s.
Proof.
  intros H. unfold TrimSpace. rewrite trim_space_left_plain by done.
  induction s as [|c s IH]; [done|]. cbn [trim_space_right].
  rewrite trim_space_left_plain by done. cbn -[plain_byte] in *.
  apply andb_true_iff in H as [_ H]. by rewrite IH.
Qed.

Lemma ReplaceAll_absent s old new : Contains s old = false → ReplaceAll s old new = s.
Proof.
  unfold ReplaceAll. induction s as [|c s IH]; [done|]. cbn -[HasPrefix].
  rewrite orb_false_iff. intros [-> H]. by rewrite IH.
Qed.

Lemma MapRunes_plain s : all_bytes plain_byte s = true → MapRunes safe_rune s = s.
Proof.
  unfold MapRunes. induction s as [|c s IH]; [done|]. cbn -[plain_byte DecodeRune].
  rewrite andb_true_iff. intros [Hc Hs].
  assert ((byte_of c <? 128)%Z = true ∧ safe_rune (byte_of c) = c) as [H1 H2].
  { revert Hc. clear. by byte_cases c. }
  rewrite DecodeRune_ascii by done. change (1 - 1) with 0. by rewrite H2, IH.
Qed.

Lemma safeSegment_k8s s : k8s_name s → safeSegment s = s.
Proof.
  intros (Hne & Hall & Hf & Hl & Hdd). unfold safeSegment.
  rewrite TrimSpace_plain, ReplaceAll_absent, MapRunes_plain, Trim_id by done.
  by rewrite (proj2 (is_empty_false s) Hne).
Qed.

(** ** Lemmas: paths *)
Lemma bad_pool_path_spec p : bad_pool_path (Clean p) = true ↔ elems p = [].
Proof.
  unfold bad_pool_path. rewrite !orb_true_iff, !String.eqb_eq. split.
  - intros [[E|E]|E]; by rewrite <-(elems_Clean p), E.
  - intros E. unfold Clean. rewrite E. destruct (IsAbs p); auto.
Qed.

Lemma bad_pool_path_ok pool : pool_ok pool → bad_pool_path (Clean (pool_Path pool)) = false.
Proof.
  intros H. apply not_true_is_false. by rewrite bad_pool_path_spec.
Qed.

Lemma Clean_ne p : Clean p ≠ "".
Proof.
  intros E. pose proof (elems_Clean p) as H. pose proof (IsAbs_Clean p) as HA.
  rewrite E in H, HA. cbn in H. unfold Clean in E. rewrite <-HA, <-H in E. done.
Qed.

(** Joining names to a pool. *)
Lemma join_below pool l :
  pool_ok pool → Forall good_elem l → l ≠ [] →
  join [Clean (pool_Path pool); Join "/" l] = below pool l ∧ Clean (below pool l) = below pool l.
Proof.
  intros Hp Hl Hne.
  assert (join [Clean (pool_Path pool); Join "/" l] = below pool l) as E.
  { rewrite join_good; [by rewrite Clean_idemp|by rewrite elems_Clean|done..]. }
  split; [done|]. rewrite <-E. unfold join.
  rewrite filter_cons_True by apply is_empty_false, Clean_ne.
  destruct (filter _ _); apply Clean_idemp.
Qed.

Lemma inside_below pool l : inside (Clean (pool_Path pool)) (below pool l) = true.
Proof. apply inside_app. Qed.

Lemma inside_guard root full :
  negb (String.eqb full root) && negb (HasPrefix full (root +:+ "/")) = negb (inside root full).
Proof. unfold inside. by rewrite negb_orb. Qed.

Lemma ResolveVolumePath_below v :
  pool_ok (vp_Pool v) →
  ResolveVolumePath v = Ok (below (vp_Pool v) (volume_elems (vp_Namespace v) (vp_Name v))).
Proof.
  intros Hp. unfold ResolveVolumePath. cbn [Pool_Clean pool_Path pool_Name].
  rewrite bad_pool_path_ok by done.
  rewrite (join_goods [safeSegment (vp_Namespace v); safeSegment (vp_Name v)]); [|good_elems|done].
  destruct (join_below (vp_Pool v) (volume_elems (vp_Namespace v) (vp_Name v))) as [E1 E2];
    [done|good_elems|done|].
  unfold volume_elems in E1 at 1. rewrite E1, E2, inside_guard, inside_below. done.
Qed.

Lemma ShadowSourceBasePath_elems ns name :
  ShadowSourceBasePath ns name = Join "/" (shadow_elems ns name).
Proof. apply join_goods; [unfold shadow_elems; good_elems|done]. Qed.

Lemma ToSlashes_segment s : all_bytes segment_byte s = true → ToSlashes s = s.
Proof.
  unfold ToSlashes. induction s as [|c s IH]; cbn -[segment_byte]; [done|].
  rewrite andb_true_iff. intros [Hc Hs]. rewrite IH by done. f_equal. revert Hc. clear. by byte_cases c.
Qed.

Lemma ToSlashes_app a b : ToSlashes (a +:+ b) = ToSlashes a +:+ ToSlashes b.
Proof. unfold ToSlashes. induction a; cbn; [done|]. by rewrite IHa. Qed.

Lemma shadow_rel_fixed ns name :
  Trim is_slash (ToSlashes (Join "/" (shadow_elems ns name))) = Join "/" (shadow_elems ns name).
Proof.
  cbn [Join shadow_elems]. rewrite !ToSlashes_app, !(ToSlashes_segment (safeSegment _))
    by apply safeSegment_bytes. apply Trim_id; [by intros ? [= <-]|].
  intros c. rewrite !last_byte_app; [by intros [= <-]|..]; try done; by intros [? ?]%str_app_eq_nil.
Qed.

Lemma ResolveShadowPath_below pool ns name :
  pool_ok pool → ResolveShadowPath pool ns name = Ok (below pool (shadow_elems ns name)).
Proof.
  intros Hp. unfold ResolveShadowPath, resolvePoolRelativePath.
  cbn [Pool_Clean pool_Path pool_Name].
  rewrite bad_pool_path_ok, ShadowSourceBasePath_elems, shadow_rel_fixed by done.
  assert (Forall good_elem (shadow_elems ns name)) as Hg by (unfold shadow_elems; good_elems).
  rewrite (proj2 (is_empty_false _)) by (by apply Join_ne).
  destruct (join_below pool (shadow_elems ns name)) as [E1 E2]; [done..|].
  by rewrite E1, E2, inside_guard, inside_below.
Qed.

Lemma below_inj pool l m :
  l ≠ [] → m ≠ [] → Forall good_elem l → Forall good_elem m → below pool l = below pool m → l = m.
Proof.
  intros Hl Hm Hgl Hgm E. unfold below in E. apply str_app_inj_l, str_app_inj_l in E.
  apply (f_equal (Split slash)) in E.
  rewrite !Split_Join in E; try done; (eapply Forall_impl; [done|]); by intros ? (_ & _ & _ & ?).
Qed.

(** A path below [l] in the pool extends its elements. *)
Lemma below_inside pool l m :
  l ≠ [] → m ≠ [] → Forall good_elem l → Forall good_elem m →
  inside (below pool l) (below pool m) = true → l `prefix_of` m.
Proof.
  intros Hl Hm Hgl Hgm. unfold inside. rewrite orb_true_iff, String.eqb_eq, HasPrefix_spec.
  intros [E|[t E]].
  - apply below_inj in E; [|done..]. by rewrite E.
  - unfold below in E. rewrite !str_app_assoc in E. apply str_app_inj_l, str_app_inj_l in E.
    apply (f_equal (Split slash)) in E.
    rewrite Split_app, !Split_Join in E; try done;
      [by exists (Split slash t)|eapply Forall_impl; [done|]; by intros ? (_ & _ & _ & ?)..].
Qed.

Lemma join_ne l : (∃ s, s ∈ l ∧ s ≠ "") → join l ≠ "".
Proof.
  intros (s & Hs & Hne). unfold join.
  destruct (filter _ l) eqn:E; [|apply Clean_ne].
  assert (s ∈ @nil string) as []%elem_of_nil. rewrite <-E.
  apply list_elem_of_filter. by rewrite is_empty_false.
Qed.

(** Backups live below their own directory of the pool. *)
Definition backup_root (v : VolumePath) : string :=
  join [Clean (pool_Path (vp_Pool v)); backupRootDir; safeSegment (vp_Namespace v);
        safeSegment (vp_Name v)].

Lemma backup_root_below v :
  pool_ok (vp_Pool v) →
  backup_root v = below (vp_Pool v) (backup_elems (vp_Namespace v) (vp_Name v)).
Proof.
  intros Hp. unfold backup_root.
  destruct (join_below (vp_Pool v) (backup_elems (vp_Namespace v) (vp_Name v))) as [E _];
    [done|unfold backup_elems; good_elems|done|]. rewrite <-E. unfold join.
  rewrite !filter_cons_True; try (apply is_empty_false); try apply Clean_ne; try done;
    try apply safeSegment_ne.
Qed.

(** The name of a backup is a plain name. *)
Lemma pad_no_slash w z : has_byte slash (Time.pad w z) = false.
Proof.
  unfold Time.pad. rewrite has_byte_app.
  assert (∀ n, has_byte slash (String.string_of_list_ascii (repeat "0"%char n)) = false) as ->
    by (intros n; induction n as [|n IH]; [done|exact IH]).
  destruct (Json.FormatInt_digits z) as (c & d & -> & H & _). rewrite has_byte_app.
  assert (has_byte slash (String c d) = false) as ->; [|by destruct (z <? 0)%Z].
  rewrite has_byte_all. apply negb_false_iff. revert H. apply all_bytes_mono.
  intros x Hx. destruct (ascii_eqb x slash) eqn:E; [|done]. by apply ascii_eqb_eq in E as ->.
Qed.

Lemma stamp_good now : good_elem (Time.format_stamp now).
Proof.
  unfold Time.format_stamp. destruct (Time.civil _) as [[y m] d].
  unfold good_elem. rewrite !has_byte_app, !pad_no_slash.
  split_and!; [intros E; apply (f_equal (has_byte "T")) in E; rewrite !has_byte_app in E; cbn in E; by rewrite !orb_true_r in E..|done].
Qed.

(** What making a backup changes. *)
Lemma backup_changes v now path tr res :
  ResolveVolumePath v = Ok path → exec (BackupVolumePath v now) tr res →
  let b := join [backup_root v; Time.format_stamp now] in
  (∀ p, p ∈ mutated tr → p = path ∨ p = backup_root v ∨ p = b) ∧
  (∀ p, res = Ok p → p ≠ "" → p = b ∧ OsRename path b ∈ ops tr).
Proof.
  intros Hpath Hex b. unfold BackupVolumePath, IsEmptyDir in Hex. rewrite Hpath in Hex.
  change (join [join [pool_Path (Pool_Clean (vp_Pool v)); _; _; _]; Time.format_stamp now]) with b in Hex.
  change (join [pool_Path (Pool_Clean (vp_Pool v)); _; _; _]) with (backup_root v) in Hex.
  clearbody b. generalize dependent (backup_root v). intros root Hex.
  exec_inv. destruct a as [info|e]; [|destruct (IsNotExist e); exec_inv; (split; [by intros ? ?%elem_of_nil|by intros p [= <-]])].
  exec_inv; try (split; [intros p Hp; cbn in Hp; op_cases; auto|intros p E Hn; by simplify_eq]).
  destruct a1; simplify_eq; exec_inv; (split; [intros p Hp; cbn in Hp; op_cases; auto|intros p E Hn; simplify_eq]); try done.
  split; [done|]. cbn. set_solver.
Qed.

Lemma backup_path_below pool ns name now :
  pool_ok pool →
  join [below pool (backup_elems ns name); Time.format_stamp now] = below pool (backup_elems ns name ++ [Time.format_stamp now]).
Proof.
  intros Hp. assert (Forall good_elem (backup_elems ns name)) as Hg by (unfold backup_elems; good_elems).
  destruct (join_below pool _ Hp Hg) as [_ Hc]; [done|].
  change (Time.format_stamp now) with (Join "/" [Time.format_stamp now]) at 1.
  rewrite join_good, Hc; [| |by repeat constructor; apply stamp_good|done].
  - unfold below. rewrite Join_app by done. by rewrite !str_app_assoc.
  - destruct (elems_app_good (Clean (pool_Path pool)) (backup_elems ns name)) as [_ H]; [apply Clean_ne|done..|].
    unfold below. rewrite H. by intros [_ ?]%app_nil.
Qed.

(** Directories of different kinds do not meet. *)
Definition separate (p q : string) : Prop := inside p q = false ∧ inside q p = false.

Lemma below_separate pool l m :
  l ≠ [] → m ≠ [] → Forall good_elem l → Forall good_elem m → ¬ l `prefix_of` m → ¬ m `prefix_of` l →
  separate (below pool l) (below pool m).
Proof. intros. split; apply not_true_is_false; intros Hi; apply below_inside in Hi; done. Qed.

(** ** Theorems *)

(** a volume resolves, whatever its namespace and name are, to a
    cleaned path exactly two names below the pool; the only error is an
    unusable pool path, and the escape check never fires. *)
Theorem resolve_volume_path_confined (v : VolumePath) :
  match ResolveVolumePath v with
  | Err e => elems (pool_Path (vp_Pool v)) = [] ∧
             e = Errorf "invalid pool path %q" [pool_Path (vp_Pool v)]
  | Ok p => ∃ a b, good_elem a ∧ good_elem b ∧
             p = Clean (pool_Path (vp_Pool v)) +:+ "/" +:+ a +:+ "/" +:+ b ∧
             inside (Clean (pool_Path (vp_Pool v))) p = true ∧ Clean p = p
  end.
Proof.
  destruct (decide (elems (pool_Path (vp_Pool v)) = [])) as [E|E].
  - unfold ResolveVolumePath. cbn [Pool_Clean pool_Path].
    by rewrite (proj2 (bad_pool_path_spec _) E).
  - rewrite ResolveVolumePath_below by done.
    exists (safeSegment (vp_Namespace v)), (safeSegment (vp_Name v)).
    split_and!; [apply safeSegment_good..|done|apply inside_below|].
    apply join_below; [done|unfold volume_elems; good_elems|done].
Qed.

(** C36: Inside one pool the directory of a volume, the shadow data of any
    volume and what the backup of any volume makes never contain one
    another, and neither do the directories of two different volumes:
    making a backup changes, apart from the volume it moves away, only
    paths that are apart from all volumes and shadows, and moves the volume
    to such a path. *)
Theorem volume_trees_disjoint (pool : Pool) ns name gen ns' name' gen' p p' q now tr res :
  pool_ok pool →
  ResolveVolumePath (mkVolumePath pool ns name gen) = Ok p →
  ResolveVolumePath (mkVolumePath pool ns' name' gen') = Ok p' →
  ResolveShadowPath pool ns name = Ok q →
  exec (BackupVolumePath (mkVolumePath pool ns' name' gen') now) tr res →
  separate p q ∧ separate p' q ∧ (inside p p' = true → p = p') ∧
  (∀ b, b ∈ mutated tr → b = p' ∨ (separate p b ∧ separate q b)) ∧
  (∀ b, res = Ok b → b ≠ "" → OsRename p' b ∈ ops tr ∧ separate p b ∧ separate q b).
Proof.
  intros Hp H1 H2 H3 Hex.
  assert (Forall good_elem (volume_elems ns name)) by (unfold volume_elems; good_elems).
  assert (Forall good_elem (volume_elems ns' name')) by (unfold volume_elems; good_elems).
  assert (Forall good_elem (shadow_elems ns name)) by (unfold shadow_elems; good_elems).
  assert (Forall good_elem (backup_elems ns' name')) as Hg by (unfold backup_elems; good_elems).
  assert (Forall good_elem (backup_elems ns' name' ++ [Time.format_stamp now])) as Hst
    by (apply Forall_app; split; [done|]; repeat constructor; apply stamp_good).
  destruct (backup_changes _ _ _ _ _ H2 Hex) as [Hm Hr]. rewrite backup_root_below in Hm, Hr by done.
  cbn [vp_Pool vp_Namespace vp_Name] in *. rewrite backup_path_below in Hm, Hr by done.
  rewrite !ResolveVolumePath_below in H1, H2 by done. rewrite ResolveShadowPath_below in H3 by done. simplify_eq.
  pose proof (safeSegment_not_dot ns) as Hd. pose proof (safeSegment_not_dot ns') as Hd'.
  assert (∀ l, Forall good_elem (backup_elems ns' name' ++ l) →
    separate (below pool (volume_elems ns name)) (below pool (backup_elems ns' name' ++ l)) ∧
    separate (below pool (shadow_elems ns name)) (below pool (backup_elems ns' name' ++ l))) as Hb.
  { intros l Hl. split; apply below_separate; try done; intros [k Hk]; injection Hk; try done; by intros; eapply Hd. }
  split_and!.
  - apply below_separate; try done; intros [k Hk]; injection Hk; try done; by intros; eapply Hd.
  - apply below_separate; try done; intros [k Hk]; injection Hk; try done; by intros; eapply Hd'.
  - intros Hi. apply below_inside in Hi as [k Hk]; try done. injection Hk. intros. unfold volume_elems. congruence.
  - intros b [->|[->| ->]]%Hm; [by left|right..].
    + specialize (Hb []). rewrite app_nil_r in Hb. by apply Hb.
    + exact (Hb _ Hst).
  - intros b E Hne. destruct (Hr b E Hne) as [-> Ho]. split; [done|]. exact (Hb _ Hst).
Qed.

Lemma volume_trees_disjoint_witness :
  let pool := mkPool "p" "/data" in
  let w := Mem.mkWorld {["/data/ns/v" := Mem.dir_info; "/data/ns/v/save" := Mem.file_info]} ∅ 0 in
  let r := Mem.run_on (BackupVolumePath (mkVolumePath pool "ns" "v" "") 0) w in
  ∃ b, fst (fst r) = Ok b ∧ b ≠ "" ∧ OsRename "/data/ns/v" b ∈ ops (snd r) ∧ separate "/data/ns/v" b.
Proof.
  intros pool w r. eexists. split; [vm_compute; reflexivity|]. split; [discriminate|].
  destruct (volume_trees_disjoint pool "ns" "v" "" "ns" "v" "" "/data/ns/v" "/data/ns/v"
    "/data/.simple-volume-shadows/ns/v/current/data" 0 (snd r) (fst (fst r))) as (_ & _ & _ & _ & H).
  - done.
  - vm_compute; reflexivity.
  - vm_compute; reflexivity.
  - vm_compute; reflexivity.
  - apply run_self.
  - match goal with |- OsRename _ ?b ∈ _ ∧ _ => destruct (H b) as (H1 & H2 & _) end; [vm_compute; reflexivity|discriminate|].
    by split.
Defined.

(** two volumes with names Kubernetes admits share a directory only
    if they are the same volume. *)
Theorem volume_path_injective (pool : Pool) ns name gen ns' name' gen' p :
  pool_ok pool → k8s_name ns → k8s_name name → k8s_name ns' → k8s_name name' →
  ResolveVolumePath (mkVolumePath pool ns name gen) = Ok p →
  ResolveVolumePath (mkVolumePath pool ns' name' gen') = Ok p → ns = ns' ∧ name = name'.
Proof.
  intros Hp H1 H2 H3 H4. rewrite !ResolveVolumePath_below by done. cbn [vp_Pool vp_Namespace vp_Name].
  intros [= <-] [= E]. apply below_inj in E; [|done|done|unfold volume_elems; good_elems..].
  unfold volume_elems in E. rewrite !safeSegment_k8s in E by done. by simplify_eq.
Qed.

Lemma volume_path_injective_witness : "games" = "games" ∧ "pvc-1234" = "pvc-1234".
Proof.
  apply (volume_path_injective (mkPool "default" "/data") "games" "pvc-1234" "" "games" "pvc-1234" ""
           "/data/games/pvc-1234"); try done; try (by repeat split; try (by intros ? [= <-])).
Defined.

(** [EnsurePool] touches nothing but the pool directory and its
    marker; it writes the marker only after the marker was found missing
    and the pool was listed empty or adopting a non-empty pool was
    allowed; and it succeeds only if the marker exists or was written. *)
Theorem ensure_pool_adoption (pool : Pool) (allowNonEmpty : bool) tr res :
  exec (EnsurePool pool allowNonEmpty) tr res →
  let root := Clean (pool_Path pool) in
  let marker := join [root; PoolMarkerFile] in
  Forall (λ p, p = root ∨ p = marker) (mutated tr) ∧
  (∀ content perm, OsWriteFile marker content perm ∈ ops tr →
     (∃ e, did (OsStat marker) (Err e) tr ∧ IsNotExist e = true) ∧
     (∃ entries, did (OsReadDir root) (Ok entries) tr ∧ (entries = [] ∨ allowNonEmpty = true))) ∧
  (res = Ok tt →
     (∃ info, did (OsStat marker) (Ok info) tr) ∨
     ∃ content, did (OsWriteFile marker content 420) (Ok tt) tr).
Proof.
  intros Hex. cbn zeta. unfold EnsurePool in Hex. cbn [Pool_Clean pool_Path pool_Name] in Hex.
  set (root := Clean (pool_Path pool)) in *. set (marker := join [root; PoolMarkerFile]) in *.
  destruct (is_empty _); [exec_inv; trace_solve|].
  destruct (bad_pool_path root); [exec_inv; trace_solve|].
  exec_inv; [|trace_solve].
  destruct a0 as [info|e]; [exec_inv; trace_solve|].
  destruct (IsNotExist e) eqn:Ee; cbn [negb] in Hex; [|exec_inv; trace_solve].
  exec_inv; [|trace_solve].
  destruct (_ && _) eqn:Eadopt; [exec_inv; trace_solve|].
  assert (a0 = [] ∨ allowNonEmpty = true) as Hadopt.
  { apply andb_false_iff in Eadopt as [?|?]; [left; destruct a0; [done|discriminate]|right].
    by apply negb_false_iff. }
  exec_inv. split_and!; [trace_solve..|]. intros ->. right. eexists. trace_solve.
Qed.

Lemma ensure_pool_adoption_witness :
  ∃ tr, OsWriteFile "/data/.simple-volume-pool" ("name=p" +:+ String "010" "path=/data" +:+ String "010" "") 420
          ∈ ops tr ∧
        Forall (λ p, p = "/data" ∨ p = "/data/.simple-volume-pool") (mutated tr).
Proof.
  set (r := Mem.run_on (EnsurePool (mkPool "p" "/data/") false) (Mem.mkWorld ∅ ∅ 0)).
  exists (snd r). split; [vm_compute; by repeat (left || right)|].
  apply (ensure_pool_adoption (mkPool "p" "/data/") false (snd r) (fst (fst r))).
  by apply (run_exec Mem.handler _ (Mem.mkWorld ∅ ∅ 0) _ (snd (fst r))).
Defined.

(** backing up a volume moves it and deletes nothing.  The only
    changes are the backup directory and one rename of the volume to a
    time-stamped name below it, made only after the volume was seen to
    hold an entry; an empty or absent volume is left alone. *)
Theorem backup_moves_volume (v : VolumePath) (now : Z) path tr res :
  ResolveVolumePath v = Ok path →
  exec (BackupVolumePath v now) tr res →
  let backupPath := join [backup_root v; Time.format_stamp now] in
  Forall (λ o, mutates o = [] ∨ o = OsMkdirAll (backup_root v) 493 ∨ o = OsRename path backupPath)
    (ops tr) ∧
  (mutated tr ≠ [] → did (OsReaddirnames1 path) RdName tr) ∧
  (res = Ok "" → mutated tr = []) ∧
  (∀ p, res = Ok p → p ≠ "" → p = backupPath ∧ did (OsRename path backupPath) (Ok tt) tr).
Proof.
  intros Hpath Hex. unfold BackupVolumePath, IsEmptyDir in Hex. rewrite Hpath in Hex.
  cbn zeta. set (backupPath := join [backup_root v; _]).
  change (join [join [pool_Path (Pool_Clean (vp_Pool v)); _; _; _]; Time.format_stamp now])
    with backupPath in Hex.
  change (join [pool_Path (Pool_Clean (vp_Pool v)); _; _; _]) with (backup_root v) in Hex.
  assert (backupPath ≠ "") as Hne 
    by (apply join_ne; eexists; split; [left|]; apply join_ne; eexists; split; [left|apply Clean_ne]).
  clearbody backupPath. generalize dependent (backup_root v). intros root Hex.
  exec_inv. destruct a as [info|e]; [|destruct (IsNotExist e); exec_inv; trace_solve].
  exec_inv; [|by destruct a0; trace_solve|trace_solve].
  destruct a1; simplify_eq; exec_inv; trace_solve; destruct a1; auto with sv.
Qed.

Lemma backup_moves_volume_witness :
  ∃ tr backupPath, mutated tr ≠ [] ∧ did (OsRename "/data/ns/v" backupPath) (Ok tt) tr.
Proof.
  set (v := mkVolumePath (mkPool "p" "/data") "ns" "v" "").
  set (w := Mem.mkWorld {["/data/ns/v" := Mem.dir_info; "/data/ns/v/save" := Mem.file_info]} ∅ 0).
  set (r := Mem.run_on (BackupVolumePath v 0) w).
  exists (snd r), (join [backup_root v; Time.format_stamp 0]). split; [by vm_compute|].
  apply (backup_moves_volume v 0 "/data/ns/v" (snd r) (fst (fst r)))
    with (p := "/data/.simple-volume-backups/ns/v/00010101T000000.000000000Z"); [done| |done..].
  by apply (run_exec Mem.handler _ w _ (snd (fst r))).
Defined.

End Agent.
