(* ===== verification/Kube.v ===== *)
(** * The Kubernetes objects and calls the controller uses

    Records with the fields of the API objects that the controller reads
    or writes.  Resource quantities belong to the Kubernetes libraries:
    they are a type [Q] with the operations of [QuantityOps], and what
    the controller relies on is [QuantityLaws].  The signature
    [ctl_sig] lists the calls of the controller: the Kubernetes API, the
    node agents, the clock, the configuration a pod finds in its cluster,
    the [select] of the controller's loop (the error of the context, or
    [None] for a tick), the critical sections on the state its
    goroutines share under a mutex, and the start of a goroutine. *)
From S2P Require Import Prelude Effects AgentTypes.

(** ** [resource.Quantity] *)
Class QuantityOps (Q : Type) := {
  q_zero : Q;
  q_add : Q → Q → Q;
  q_sub : Q → Q → Q;
  q_cmp : Q → Q → Z;
  q_is_zero : Q → bool;
}.

(** Quantities have at most nano precision: [q_val] counts billionths. *)
Class QuantityLaws (Q : Type) `{QuantityOps Q} := {
  q_val : Q → Z;
  q_val_zero : q_val q_zero = 0%Z;
  q_val_add a b : q_val (q_add a b) = (q_val a + q_val b)%Z;
  q_val_sub a b : q_val (q_sub a b) = (q_val a - q_val b)%Z;
  q_cmp_lt a b : (q_cmp a b < 0 ↔ q_val a < q_val b)%Z;
  q_is_zero_val a : q_is_zero a = true ↔ q_val a = 0%Z;
}.

(** Whole numbers of billionths satisfy the laws. *)
#[export] Instance Z_quantity : QuantityOps Z := {
  q_zero := 0%Z; q_add := Z.add; q_sub := Z.sub;
  q_cmp := λ a b, Z.sgn (a - b); q_is_zero := Z.eqb 0%Z;
}.
#[export] Instance Z_quantity_laws : QuantityLaws Z.
Proof.
  refine {| q_val := λ z, z |}; simpl; try done.
  - intros a b. pose proof (Z.sgn_spec (a - b)). lia.
  - intros a. change (Z.eqb 0 a = true ↔ a = 0%Z). rewrite Z.eqb_eq. split; congruence.
Defined.

Section objects.
Context {Q : Type}.

Record PodVolume : Type := mkPodVolume {
  vol_Name : string;
  vol_ClaimName : option string;
}.

Record SecurityContext : Type := mkSecurityContext {
  sc_RunAsUser : option Z;
  sc_RunAsGroup : option Z;
  sc_FSGroup : option Z;
}.

Record Container : Type := mkContainer {
  ctr_VolumeMounts : list string;
  ctr_SecurityContext : option SecurityContext;
  ctr_Requests : gmap string Q;
}.

Record Pod : Type := mkPod {
  pod_Namespace : string;
  pod_Name : string;
  pod_CreationTimestamp : Z;
  pod_NodeName : string;
  pod_Volumes : list PodVolume;
  pod_InitContainers : list Container;
  pod_Containers : list Container;
  pod_SecurityContext : option SecurityContext;
  pod_Phase : string;
  pod_PodIP : string;
  pod_Conditions : list (string * string);
}.

Record Node : Type := mkNode {
  node_Name : string;
  node_Labels : gmap string string;
  node_Unschedulable : bool;
  node_Conditions : list (string * string);
  node_Allocatable : gmap string Q;
}.

End objects.
Arguments Container Q : clear implicits.
Arguments Pod Q : clear implicits.
Arguments Node Q : clear implicits.

Record PersistentVolumeClaim : Type := mkPVC {
  pvc_Namespace : string;
  pvc_Name : string;
  pvc_Annotations : gmap string string;
  pvc_StorageClassName : option string;
  pvc_VolumeName : string;
}.

Record PersistentVolume : Type := mkPV {
  pv_Name : string;
  pv_Annotations : gmap string string;
}.

(** Deployments, replica sets, daemon sets and stateful sets: the
    replica count, the volumes of the pod template and, for stateful
    sets, the names of the claim templates. *)
Record Workload : Type := mkWorkload {
  wl_Name : string;
  wl_Replicas : option Z;
  wl_TemplateVolumes : list PodVolume;
  wl_ClaimTemplates : list string;
}.

Inductive workload_kind : Type := Deployments | StatefulSets | ReplicaSets | DaemonSets.

Definition PodRunning : string := "Running".
Definition PodSucceeded : string := "Succeeded".
Definition PodFailed : string := "Failed".
Definition ResourceCPU : string := "cpu".
Definition ResourceMemory : string := "memory".

(** [failover.ReplicaFreshness] *)
Record ReplicaFreshness : Type := mkFreshness {
  fr_LastSuccessfulSync : Z;
  fr_Healthy : bool;
}.

(** ** Requests to the node agents and their answers *)
Inductive agent_request : Type :=
| PostWatchStart (r : WatchStartRequest)
| PostWatchStop (r : WatchStopRequest)
| PostFullSync (r : FullSyncRequest)
| PostShadowPrepare (r : ShadowPrepareRequest)
| GetWatchStatus (namespace volume : string).

(** The body of a response, as far as it decodes. *)
Inductive response_body : Type :=
| BodyShadow (r : ShadowPrepareResponse)
| BodyStatus (r : WatchStatus)
| BodyText (s : string).

Record http_response : Type := mkHttpResponse {
  hr_StatusCode : Z;
  hr_Status : string;
  hr_Body : response_body;
}.

(** ** What the replication controller wants of a volume *)
Record DesiredTarget : Type := mkDesiredTarget {
  dt_Node : string;
  dt_Ref : TargetRef;
}.

Record DesiredReplication : Type := mkDesiredReplication {
  dr_Namespace : string;
  dr_ClaimName : string;
  dr_Volume : string;
  dr_ActiveNode : string;
  dr_SourceURL : string;
  dr_Targets : list DesiredTarget;
  dr_IncludePaths : list string;
  dr_ExcludePaths : list string;
  dr_PruneExcluded : bool;
  dr_RequiredPaths : list string;
  dr_Ownership : OwnershipPolicy;
  dr_Debounce : string;
  dr_FullSync : bool;
  dr_FullSchedule : string;
  dr_ConsistencyMode : string;
  dr_ConfirmedReplicas : Z;
}.

(** The three closures the controller passes to [runFullSync], with the
    variables they capture. *)
Inductive sync_kind : Type :=
| SyncStartup (epoch : Z) (signature : string)
| SyncManual (epoch : Z)
| SyncScheduled (scheduleKey today : string).

(** The arguments of one [go c.runFullSync(...)]. *)
Record sync_job : Type := mkSyncJob {
  job_syncKey : string;
  job_desired : DesiredReplication;
  job_token : string;
  job_kind : sync_kind;
}.

(** A JSON merge patch of labels: [None] removes the key. *)
Abbreviation label_patch := (gmap string (option string)).

Inductive ctl_op : Type :=
| ListPVCs
| ListPods (namespace selector : string)
| ListNodes
| ListWorkloads (kind : workload_kind) (namespace : string)
| GetPV (name : string)
| UpdatePV (pv : PersistentVolume)
| GetPVC (namespace name : string)
| UpdatePVC (pvc : PersistentVolumeClaim)
| PatchNode (name : string) (patch : label_patch)
| DeletePod (namespace name : string)
| GetSecretKey (namespace name key : string)
| HttpDo (url authorization : string) (request : agent_request)
| TimeNow
| FreshnessOf (key : string)
| DemotedOf (key : string)
| RecordDemoted (key node : string)
| RecordFreshness (key node : string) (lastSuccessfulSync : Z) (healthy : bool)
| ClearDemoted (key node : string)
| BackupNeeded (key node : string)
| NoteActiveNode (key activeNode : string)
| IsCurrentActiveEpoch (key activeNode : string) (epoch : Z)
| CompletedSync (syncKey : string)
| SetCompletedSync (syncKey : string)
| StartedWatch (key : string)
| SetStartedWatch (key signature : string)
| TryStartSync (volumeKey syncKey : string)
| EndSync (syncKey : string)
| LastScheduledOn (scheduleKey : string)
| SetLastScheduledOn (scheduleKey today : string)
| GoRunFullSync (job : sync_job)
| InClusterConfig
| NewForConfig
| RunSelect.

Definition ctl_ans (Q : Type) (o : ctl_op) : Type :=
  match o with
  | ListPVCs => result (list PersistentVolumeClaim)
  | ListPods _ _ => result (list (Pod Q))
  | ListNodes => result (list (Node Q))
  | ListWorkloads _ _ => result (list Workload)
  | GetPV _ => result PersistentVolume
  | GetPVC _ _ => result PersistentVolumeClaim
  | GetSecretKey _ _ _ => result string
  | HttpDo _ _ _ => result http_response
  | TimeNow => Z
  | FreshnessOf _ => gmap string ReplicaFreshness
  | DemotedOf _ => gmap string bool
  | BackupNeeded _ _ | IsCurrentActiveEpoch _ _ _ | CompletedSync _ | TryStartSync _ _ => bool
  | NoteActiveNode _ _ => Z
  | StartedWatch _ | LastScheduledOn _ => string
  | RecordDemoted _ _ | RecordFreshness _ _ _ _ | ClearDemoted _ _ | SetCompletedSync _
  | SetStartedWatch _ _ | EndSync _ | SetLastScheduledOn _ _ | GoRunFullSync _ => unit
  | UpdatePV _ | UpdatePVC _ | PatchNode _ _ | DeletePod _ _
  | InClusterConfig | NewForConfig => result unit
  | RunSelect => option error
  end.

Definition ctl_sig (Q : Type) : sig := Sig ctl_op (ctl_ans Q).
Abbreviation ctl_call Q o := (@call (ctl_sig Q) o).

(** Reading a trace of the controller. *)
Definition cops {Q} (tr : list (event (ctl_sig Q))) : list ctl_op := map ev_op tr.
Definition cdid {Q} (o : ctl_op) (r : ctl_ans Q o) (tr : list (event (ctl_sig Q))) : Prop :=
  Ev (S:=ctl_sig Q) o r ∈ tr.

Lemma cops_app {Q} (tr1 tr2 : list (event (ctl_sig Q))) : cops (tr1 ++ tr2) = cops tr1 ++ cops tr2.
Proof. apply map_app. Qed.

Lemma cdid_app {Q} o r (tr1 tr2 : list (event (ctl_sig Q))) :
  cdid o r (tr1 ++ tr2) ↔ cdid o r tr1 ∨ cdid o r tr2.
Proof. apply elem_of_app. Qed.

Lemma cdid_here {Q} o r (tr : list (event (ctl_sig Q))) : cdid o r (Ev (S:=ctl_sig Q) o r :: tr).
Proof. left. Qed.

Lemma cdid_later {Q} o r e (tr : list (event (ctl_sig Q))) : cdid o r tr → cdid o r (e :: tr).
Proof. by right. Qed.

Lemma cops_cons {Q} (o : ctl_op) (r : ctl_ans Q o) tr :
  cops (Ev (S:=ctl_sig Q) o r :: tr) = o :: cops tr.
Proof. done. Qed.

#[export] Hint Resolve cdid_here cdid_later : sv.
