(* ===== verification/Filter.v ===== *)
(** * Event paths, path filters and event batches

    [internal/agent/replication.go]: the normalisation of the paths that
    travel in events, the include/exclude filters of a volume, the
    coalescing of a batch of events, and the containment check of the
    paths an archive or an event names. *)
From S2P Require Import Prelude GoStrings GoPath AgentTypes.

Module Filter.
Import Str Path.

(** [NormalizeEventPath] *)
Definition NormalizeEventPath (p0 : string) : result string :=
  let p1 := TrimSpace (ToSlashes p0) in
  let p := TrimPrefix p1 "/" in
  let clean := Clean p in
  if String.eqb clean "." || String.eqb clean "" then Err (Errorf "empty event path" [])
  else if HasPrefix clean "../" || String.eqb clean ".." then
    Err (Errorf "event path escapes volume: %q" [p])
  else Ok clean.

(** [matchesPath] *)
Definition matchesPath (pattern0 p : string) : bool :=
  let pattern := Trim is_slash (ToSlashes pattern0) in
  if String.eqb pattern "" then false
  else if HasSuffix pattern "/**" then
    let prefix := TrimSuffix pattern "/**" in
    String.eqb p prefix || HasPrefix p (prefix +:+ "/")
  else if HasSuffix pattern "/" then
    HasPrefix p (TrimSuffix pattern "/" +:+ "/")
  else if Match pattern p then true
  else String.eqb p pattern || HasPrefix p (pattern +:+ "/").

(** [filterStaticPrefix]: [cut] is the first wildcard, or the length. *)
Definition filterStaticPrefix (pattern0 : string) : string :=
  let pattern := Trim is_slash (ToSlashes pattern0) in
  if String.eqb pattern "" then ""
  else
    let cut := foldl (λ cut marker,
                 match IndexByte pattern marker with
                 | Some idx => if Nat.ltb idx cut then idx else cut
                 | None => cut
                 end) (String.length pattern) ["*"; "?"; "["]%char in
    let prefix := TrimSuffix (str_take cut pattern) "/" in
    let prefix :=
      match LastIndexByte prefix slash with
      | Some i => if Nat.ltb cut (String.length pattern) then str_take i prefix else prefix
      | None => prefix
      end in
    Trim is_slash prefix.

(** [isPathAncestor] *)
Definition isPathAncestor (candidate0 descendant0 : string) : bool :=
  let candidate := Trim is_slash candidate0 in
  let descendant := Trim is_slash descendant0 in
  if String.eqb candidate "" then true
  else String.eqb candidate descendant || HasPrefix descendant (candidate +:+ "/").

(** [normalizeFilterPattern] *)
Definition normalizeFilterPattern (pattern0 : string) : string :=
  let pattern := Trim is_slash (ToSlashes pattern0) in
  if String.eqb pattern "" then "/**"
  else if HasSuffix pattern "/**" then "/" +:+ pattern
  else if HasSuffix pattern "/" then "/" +:+ TrimSuffix pattern "/" +:+ "/**"
  else "/" +:+ pattern.

(** [PathFilter.ShouldReplicate] *)
Definition ShouldReplicate (f : PathFilter) (p : string) : bool :=
  match NormalizeEventPath p with
  | Err _ => false
  | Ok clean =>
      if existsb (λ exclude, matchesPath exclude clean) (pf_ExcludePaths f) then false
      else if Nat.eqb (length (pf_IncludePaths f)) 0 then true
      else existsb (λ include, matchesPath include clean) (pf_IncludePaths f)
  end.

(** [PathFilter.ShouldTraverse] *)
Definition ShouldTraverse (f : PathFilter) (p : string) : bool :=
  match NormalizeEventPath p with
  | Err _ => false
  | Ok clean =>
      if existsb (λ exclude, matchesPath exclude clean) (pf_ExcludePaths f) then false
      else if Nat.eqb (length (pf_IncludePaths f)) 0 then true
      else existsb (λ include,
             matchesPath include clean ||
             (let root := filterStaticPrefix include in
              negb (String.eqb root "") && isPathAncestor clean root))
           (pf_IncludePaths f)
  end.

(** [ensurePathInside] *)
Definition ensurePathInside (root target : string) : result unit :=
  rel <-? Rel root target ;;
  if String.eqb rel ".." || HasPrefix rel "../" then
    Err (Errorf "archive entry escapes volume: %s" [target])
  else Ok tt.

(** ** Coalescing

    The three locals of [CoalesceEvents].  [None] is a run-time panic:
    an index outside the slice [order]. *)
Record coalescing : Type := mkCoalescing {
  byPath : gmap string FileEvent;
  order : list string;
  position : gmap string nat;
}.

(** [for i := idx; i < len(order); i++ { position[order[i]] = i }] *)
Fixpoint renumber (i : nat) (l : list string) (pos : gmap string nat) : gmap string nat :=
  match l with
  | [] => pos
  | p :: l' => renumber (S i) l' (<[p := i]> pos)
  end.

(** The event with its empty operation replaced. *)
Definition event_op (op : EventOp) : EventOp :=
  if EventOp_eqb op (EventOpOther "") then EventOpUpsert else op.

Definition coalesce_step (f : PathFilter) (st : coalescing) (event : FileEvent)
  : option coalescing :=
  match NormalizeEventPath (ev_Path event) with
  | Err _ => Some st
  | Ok clean =>
      if negb (ShouldReplicate f clean) then Some st
      else
        let op := event_op (ev_Op event) in
        moved ← match position st !! clean with
                | Some idx =>
                    if Nat.leb (S idx) (length (order st)) then
                      let order' := take idx (order st) ++ drop (S idx) (order st) in
                      Some (order', renumber idx (drop idx order') (position st))
                    else None
                | None => Some (order st, position st)
                end;
        let '(order', position') := moved in
        Some (mkCoalescing (<[clean := mkFileEvent clean op]> (byPath st))
                           (order' ++ [clean])
                           (<[clean := length order']> position'))
  end.

(** [byPath[p]] of a missing key is the zero event. *)
Definition zero_event : FileEvent := mkFileEvent "" (EventOpOther "").

Fixpoint coalesce_from (f : PathFilter) (st : coalescing) (events : list FileEvent)
  : option coalescing :=
  match events with
  | [] => Some st
  | e :: l => st' ← coalesce_step f st e; coalesce_from f st' l
  end.

(** [CoalesceEvents] *)
Definition CoalesceEvents (events : list FileEvent) (f : PathFilter) : option (list FileEvent) :=
  st ← coalesce_from f (mkCoalescing ∅ [] ∅) events;
  Some (map (λ p, default zero_event (byPath st !! p)) (order st)).

(** ** Specification of coalescing

    The events that pass the filter, normalised, and of several events
    for one path only the last. *)
Definition admitted (f : PathFilter) (event : FileEvent) : option FileEvent :=
  match NormalizeEventPath (ev_Path event) with
  | Ok clean =>
      if ShouldReplicate f clean then Some (mkFileEvent clean (event_op (ev_Op event))) else None
  | Err _ => None
  end.

Fixpoint keep_last (l : list FileEvent) : list FileEvent :=
  match l with
  | [] => []
  | e :: l' => if existsb (λ e', String.eqb (ev_Path e') (ev_Path e)) l'
               then keep_last l' else e :: keep_last l'
  end.

(** ** Lemmas: coalescing *)
Definition drop_path (p : string) (l : list FileEvent) : list FileEvent :=
  filter (λ e, ev_Path e ≠ p) l.

(** The list the final loop builds. *)
Definition emitted (st : coalescing) : list FileEvent :=
  map (λ p, default zero_event (byPath st !! p)) (order st).

Record coalescing_inv (st : coalescing) : Prop := {
  ci_nodup : NoDup (order st);
  ci_position p i : position st !! p = Some i ↔ order st !! i = Some p;
  ci_byPath p : p ∈ order st → ∃ op, byPath st !! p = Some (mkFileEvent p op);
}.

Lemma renumber_lookup l : ∀ i pos p, NoDup l →
  renumber i l pos !! p =
  match list_find (λ q, q = p) l with
  | Some (k, _) => Some (i + k)
  | None => pos !! p
  end.
Proof.
  induction l as [|q l IH]; simpl; intros i pos p Hnd; [done|].
  apply NoDup_cons in Hnd as [Hq Hnd]. rewrite IH by done. destruct (decide (q = p)) as [->|Hne].
  - assert (list_find (λ q, q = p) l = None) as ->.
    { apply list_find_None, Forall_forall. intros x Hx ->. done. }
    by rewrite lookup_insert_eq, Nat.add_0_r.
  - rewrite lookup_insert_ne by done.
    destruct (list_find (λ q, q = p) l) as [[k x]|]; simpl; [f_equal; lia|done].
Qed.

(** The positions after an element is cut out of the slice. *)
Lemma cut_position (a b : list string) (pos : gmap string nat) p q i :
  NoDup (a ++ p :: b) → (∀ q i, pos !! q = Some i ↔ (a ++ p :: b) !! i = Some q) → q ≠ p →
  renumber (length a) b pos !! q = Some i ↔ (a ++ b) !! i = Some q.
Proof.
  intros Hnd Hpos Hq.
  assert (NoDup (a ++ b) ∧ NoDup b) as [Hnd' Hb].
  { rewrite <-Permutation_middle in Hnd. apply NoDup_cons in Hnd as [_ Hnd].
    split; [done|]. by apply NoDup_app in Hnd as (_ & _ & ?). }
  rewrite renumber_lookup by done.
  destruct (list_find (λ x, x = q) b) as [[k x]|] eqn:E.
  - apply list_find_Some in E as (Hk & -> & _).
    assert ((a ++ b) !! (length a + k) = Some q) as Hk'
      by (rewrite lookup_app_r by lia; by replace (length a + k - length a) with k by lia).
    split; [by intros [= <-]|]. intros Hi. f_equal. exact (NoDup_lookup _ _ _ _ Hnd' Hk' Hi).
  - apply list_find_None in E. rewrite Forall_forall in E.
    assert (∀ j, b !! j ≠ Some q) as Hnb.
    { intros j Hj%list_elem_of_lookup_2. by apply (E q). }
    rewrite Hpos, !lookup_app_Some. split; (intros [?|[? H]]; [by left|]; exfalso).
    + destruct (i - length a); simplify_eq/=. by eapply Hnb.
    + by eapply Hnb.
Qed.

(** Looking up the events of paths other than [p]. *)
Lemma emitted_others (by_path : gmap string FileEvent) p ev l :
  p ∉ l → (∀ q, q ∈ l → ∃ op, by_path !! q = Some (mkFileEvent q op)) →
  map (λ q, default zero_event (<[p := ev]> by_path !! q)) l =
  map (λ q, default zero_event (by_path !! q)) l ∧
  drop_path p (map (λ q, default zero_event (by_path !! q)) l) =
  map (λ q, default zero_event (by_path !! q)) l.
Proof.
  induction l as [|q l IH]; intros Hp Hby; [done|].
  apply not_elem_of_cons in Hp as [Hpq Hp].
  destruct IH as [IH1 IH2]; [done|intros; apply Hby; by right|].
  destruct (Hby q) as [op Hop]; [left|]. simpl.
  rewrite lookup_insert_ne, Hop, IH1 by done. split; [done|].
  unfold drop_path in *. rewrite filter_cons_True by done. by rewrite IH2.
Qed.

(** Appending a path that is no longer in the slice. *)
Lemma coalesce_append st p op o' pos' :
  coalescing_inv st → NoDup o' → p ∉ o' → (∀ q, q ∈ o' → q ∈ order st) →
  (∀ q i, q ≠ p → pos' !! q = Some i ↔ o' !! i = Some q) →
  let st' := mkCoalescing (<[p := mkFileEvent p op]> (byPath st)) (o' ++ [p])
                          (<[p := length o']> pos') in
  coalescing_inv st' ∧
  emitted st' = map (λ q, default zero_event (byPath st !! q)) o' ++ [mkFileEvent p op].
Proof.
  intros [Hnd Hpos Hby] Hnd' Hp Hsub Hpos' st'. split; [split; simpl|].
  - apply NoDup_app. split; [done|]. split; [|apply NoDup_singleton].
    by intros q Hq ->%list_elem_of_singleton.
  - intros q i. rewrite lookup_app_Some, list_lookup_singleton_Some.
    destruct (decide (q = p)) as [->|Hq].
    + rewrite lookup_insert_eq. split; [intros [= <-]; right; split; [lia|]; split; [lia|done]|].
      intros [H%list_elem_of_lookup_2|(? & ? & _)]; [done|f_equal; lia].
    + rewrite lookup_insert_ne, Hpos' by done. naive_solver.
  - intros q [Hq|Hq%list_elem_of_singleton]%elem_of_app.
    + rewrite lookup_insert_ne by (by intros ->). auto.
    + subst q. rewrite lookup_insert_eq. eauto.
  - unfold emitted, st'. simpl. rewrite map_app. simpl. rewrite lookup_insert_eq. simpl. f_equal.
    apply emitted_others; auto.
Qed.

(** What one admitted event does to the emitted list. *)
Lemma coalesce_step_admitted f st e e' :
  coalescing_inv st → admitted f e = Some e' →
  ∃ st', coalesce_step f st e = Some st' ∧ coalescing_inv st' ∧
         emitted st' = drop_path (ev_Path e') (emitted st) ++ [e'].
Proof.
  intros Hinv Ha. pose proof Hinv as [Hnd Hpos Hby].
  unfold admitted in Ha. unfold coalesce_step.
  destruct (NormalizeEventPath (ev_Path e)) as [p|] eqn:Ep; [|done].
  destruct (ShouldReplicate f p); [|done]. injection Ha as <-. cbn [negb].
  destruct (position st !! p) as [idx|] eqn:Eidx.
  - apply Hpos in Eidx. pose proof (lookup_lt_Some _ _ _ Eidx) as Hlt.
    rewrite (proj2 (Nat.leb_le _ _)) by lia. cbn.
    rewrite drop_app_length' by (rewrite length_take; lia).
    assert (Hl : order st = take idx (order st) ++ p :: drop (S idx) (order st))
      by (by rewrite take_drop_middle).
    assert (idx = length (take idx (order st))) as Hlen by (rewrite length_take; lia).
    revert Hl Hlen. generalize (take idx (order st)) as a, (drop (S idx) (order st)) as b.
    intros a b Hl ->. rewrite Hl in Hnd.
    assert (NoDup (a ++ b) ∧ p ∉ a ++ b) as [Hnd' Hp].
    { rewrite <-Permutation_middle in Hnd. by apply NoDup_cons in Hnd as [? ?]. }
    eexists. split; [done|].
    edestruct (coalesce_append st p (event_op (ev_Op e)) (a ++ b)) as [H1 H2];
      [done..|rewrite Hl; clear; set_solver| |].
    { intros q i Hq. eapply cut_position; [done| |done]. intros ??. by rewrite Hpos, Hl. }
    split; [exact H1|]. rewrite H2. cbn [ev_Path]. f_equal.
    unfold emitted. rewrite Hl, !map_app. unfold drop_path. rewrite filter_app. cbn [map].
    destruct (Hby p) as [op Hop]; [rewrite Hl; clear; set_solver|]. rewrite Hop. cbn [default].
    rewrite filter_cons_False by (simpl; tauto).
    f_equal; symmetry; apply (emitted_others _ p zero_event);
      first [ intros q Hq; apply Hby; rewrite Hl; clear -Hq; set_solver
            | clear -Hp; set_solver ].
  - assert (p ∉ order st) as Hp.
    { intros [i Hi]%list_elem_of_lookup_1. apply Hpos in Hi. congruence. }
    eexists. split; [done|].
    edestruct (coalesce_append st p (event_op (ev_Op e)) (order st)) as [H1 H2];
      [done..|naive_solver|].
    split; [exact H1|]. rewrite H2. cbn [ev_Path]. f_equal. symmetry.
    by apply (emitted_others _ p zero_event).
Qed.

Lemma coalesce_step_refused f st e : admitted f e = None → coalesce_step f st e = Some st.
Proof.
  unfold admitted, coalesce_step. destruct (NormalizeEventPath _); [|done].
  by destruct (ShouldReplicate f a).
Qed.

(** The reference, one event at a time. *)
Lemma keep_last_snoc l e :
  keep_last (l ++ [e]) = drop_path (ev_Path e) (keep_last l) ++ [e].
Proof.
  induction l as [|x l IH]; [done|]. cbn [app keep_last].
  rewrite existsb_app. cbn [existsb]. rewrite orb_false_r, IH.
  destruct (existsb _ l) eqn:E; [done|]. cbn [orb]. unfold drop_path.
  destruct (String.eqb_spec (ev_Path e) (ev_Path x)) as [Hx|Hx].
  - by rewrite filter_cons_False by (simpl; congruence).
  - by rewrite filter_cons_True by (simpl; congruence).
Qed.

Lemma coalesce_from_spec f events : ∀ st,
  coalescing_inv st →
  ∃ st', coalesce_from f st events = Some st' ∧ coalescing_inv st' ∧
    ∀ l, emitted st = keep_last l → emitted st' = keep_last (l ++ omap (admitted f) events).
Proof.
  induction events as [|e events IH]; intros st Hinv.
  - exists st. split; [done|]. split; [done|]. intros l. by rewrite app_nil_r.
  - cbn [coalesce_from omap list_omap]. destruct (admitted f e) as [e'|] eqn:Ea.
    + destruct (coalesce_step_admitted f st e e') as (st1 & -> & Hinv1 & E1); [done..|].
      destruct (IH st1 Hinv1) as (st2 & E2 & Hinv2 & H2). exists st2. split; [done|].
      split; [done|]. intros l Hl. rewrite cons_middle, app_assoc. apply H2.
      by rewrite E1, Hl, keep_last_snoc.
    + rewrite coalesce_step_refused by done. by apply IH.
Qed.

(** ** Lemmas: containment *)
Lemma strip_common_spec b t :
  let '(b', t') := strip_common b t in
  (∃ c, b = c ++ b' ∧ t = c ++ t') ∧ (b `prefix_of` t ↔ b' = []).
Proof.
  revert t. induction b as [|x b IH]; intros [|y t]; simpl.
  - split; [by exists []|]. split; [done|]. intros _. by exists [].
  - split; [by exists []|]. split; [done|]. intros _. by exists (y :: t).
  - split; [by exists []|]. split; [|done]. by intros [k Hk].
  - destruct (String.eqb_spec x y) as [->|Hne].
    + specialize (IH t). destruct (strip_common b t) as [b' t'].
      destruct IH as [(c & -> & ->) IH]. split; [by exists (y :: c)|]. rewrite <-IH.
      split; [apply prefix_cons_inv_2 | apply prefix_cons].
    + split; [by exists []|]. split; [|done]. intros H%prefix_cons_inv_1. done.
Qed.

Lemma elems_abs_good p : IsAbs p = true → Forall good_elem (elems p).
Proof.
  intros Hp. pose proof (elems_form p) as (n & gs & E & Hgs & Hn).
  rewrite (Hn Hp) in E. by rewrite E.
Qed.

Lemma Join_dotdot_head l : String.eqb (Join "/" (".." :: l)) ".." || HasPrefix (Join "/" (".." :: l)) "../" = true.
Proof. destruct l; reflexivity. Qed.

(** A relative path of names does not climb. *)
Lemma Join_good_head gs :
  Forall good_elem gs → String.eqb (Join "/" gs) ".." || HasPrefix (Join "/" gs) "../" = false.
Proof.
  destruct gs as [|g gs]; [done|]. intros [(H1 & H2 & H3 & H4) _]%Forall_cons.
  assert (∀ s, HasPrefix (g +:+ s) "../" = false) as Hp.
  { intros s. apply not_true_is_false. intros [t E]%HasPrefix_spec.
    destruct g as [|c [|c' [|c'' g]]]; cbn in E; simplify_eq; done. }
  apply orb_false_iff. split.
  - apply String.eqb_neq. destruct gs; [done|]. cbn. intros E.
    apply (f_equal (λ s, has_byte slash s)) in E. revert E.
    rewrite !has_byte_app. cbn. by rewrite orb_true_r.
  - destruct gs; [|apply Hp]. cbn [Join]. rewrite <-(str_app_nil_r g). apply Hp.
Qed.

Lemma ensurePathInside_abs root target :
  IsAbs root = true → IsAbs target = true →
  is_ok (ensurePathInside root target) = bool_decide (elems root `prefix_of` elems target).
Proof.
  intros Hr Ht. unfold ensurePathInside, Rel, rel_base_elems, rel_targ_elems.
  rewrite Hr, Ht. destruct (String.eqb_spec (Clean target) (Clean root)) as [E|_].
  - cbn. symmetry. apply bool_decide_eq_true. rewrite <-(elems_Clean root), <-E, elems_Clean.
    done.
  - assert (match elems target with [] => [] | l => l end = elems target) as ->
      by (by destruct (elems target)). cbn [Bool.eqb negb].
    pose proof (strip_common_spec (elems root) (elems target)) as Hs.
    destruct (strip_common (elems root) (elems target)) as [b t].
    destruct Hs as [(c & Eb & Et) Hpre].
    assert (Forall good_elem b ∧ Forall good_elem t) as [Hb Htg].
    { pose proof (elems_abs_good root Hr) as H1. pose proof (elems_abs_good target Ht) as H2.
      rewrite Eb, Forall_app in H1. rewrite Et, Forall_app in H2. tauto. }
    destruct b as [|e b].
    + rewrite (bool_decide_eq_true_2 _ (proj2 Hpre eq_refl)). cbn.
      by rewrite Join_good_head.
    + rewrite bool_decide_eq_false_2 by (by rewrite Hpre).
      apply Forall_cons in Hb as [(_ & _ & He & _) _].
      assert (∀ A (x y : A), match e with ".." => x | _ => y end = y) as Hne.
      { intros A x y. destruct e as [|c0 [|c1 [|]]]; try done;
          destruct c0 as [[] [] [] [] [] [] [] []]; try done;
          destruct c1 as [[] [] [] [] [] [] [] []]; done. }
      rewrite Hne. cbn [rbind map app]. by rewrite Join_dotdot_head.
Qed.

(** ** Lemmas: normalised paths *)
Lemma normalize_ok p c :
  NormalizeEventPath p = Ok c →
  Clean c = c ∧ Forall good_elem (elems c) ∧ (IsAbs c = false → elems c ≠ []).
Proof.
  unfold NormalizeEventPath. set (q := TrimPrefix _ _). intros H. split_ifs. bool_hyps.
  rewrite Clean_idemp, elems_Clean, IsAbs_Clean. split; [done|].
  pose proof (elems_form q) as (n & gs & E & Hgs & Hn).
  unfold Clean in *. destruct (IsAbs q) eqn:Eq.
  - rewrite Hn in E by done. by rewrite E.
  - destruct n as [|n].
    + rewrite E in *. split; [done|]. intros _ E'. simpl in E'. subst gs. done.
    + pose proof (Join_dotdot_head (replicate n ".." ++ gs)) as Hd.
      rewrite E in *. cbn [replicate app unsplit] in *. apply orb_true_iff in Hd.
      destruct Hd as [Hd|Hd]; [congruence|]. exfalso. apply eq_true_false_abs in Hd; done.
Qed.

(** Appending a path whose elements are names, or nothing between two
    slashes. *)
Lemma foldl_names r l : ∀ acc,
  Forall (λ e, e = "" ∨ good_elem e) l →
  foldl (clean_step r) acc l = rev (filter (λ e, e ≠ "") l) ++ acc.
Proof.
  induction l as [|e l IH]; intros acc; [done|]. intros [[->|He] Hl]%Forall_cons; cbn [foldl].
  - rewrite filter_cons_False by tauto. by rewrite IH.
  - rewrite filter_cons_True by (by destruct He). rewrite clean_step_good, IH by done.
    cbn [rev]. by rewrite <-app_assoc.
Qed.

Lemma elems_app_names p s :
  p ≠ "" → Forall (λ e, e = "" ∨ good_elem e) (Split slash s) →
  IsAbs (p +:+ "/" +:+ s) = IsAbs p ∧ elems (p +:+ "/" +:+ s) = elems p ++ elems s.
Proof.
  intros Hp Hs. assert (IsAbs (p +:+ "/" +:+ s) = IsAbs p) as HA by (by destruct p).
  split; [done|]. unfold elems. rewrite HA. unfold clean_elems.
  rewrite Split_app, foldl_app, !(foldl_names _ (Split slash s)) by done.
  by rewrite app_nil_r, rev_app_distr.
Qed.

Lemma clean_names c :
  Clean c = c → Forall good_elem (elems c) → (IsAbs c = false → elems c ≠ []) →
  Forall (λ e, e = "" ∨ good_elem e) (Split slash c).
Proof.
  intros Hc Hgs Hne. rewrite <-Hc. unfold Clean, unsplit.
  assert (Forall (λ e, e = "" ∨ good_elem e) (Split slash (Join "/" (elems c)))) as Hj.
  { destruct (decide (elems c = [])) as [->|Hn]; [cbn; by repeat constructor; left|].
    rewrite Split_Join; [|done|].
    - eapply Forall_impl; [done|]. by right.
    - eapply Forall_impl; [done|]. by intros ? (_ & _ & _ & ?). }
  destruct (IsAbs c).
  - constructor; [by left|done].
  - destruct (elems c); [by specialize (Hne eq_refl)|done].
Qed.

(** A normalised path below a directory. *)
Lemma normalize_join root p c :
  root ≠ "" → NormalizeEventPath p = Ok c →
  join [root; c] = unsplit (IsAbs root) (elems root ++ elems c).
Proof.
  intros Hroot (Hc & Hgs & Hne)%normalize_ok.
  assert (c ≠ "") as Hc0 by (intros ->; discriminate).
  unfold join. rewrite !filter_cons_True by (by apply is_empty_false).
  cbn [filter list_filter Join]. unfold Clean.
  destruct (elems_app_names root c) as [-> ->]; [done|by apply clean_names|done].
Qed.

(** ** Filters without wildcards

    A pattern that names one path, or a whole directory with a final
    "/**".  [pattern_base] is the path it names. *)
Definition trimmed (pattern : string) : string := Trim is_slash (ToSlashes pattern).
Definition pattern_base (pattern : string) : string :=
  TrimSuffix (trimmed pattern) "/**".
Definition static_pattern (pattern : string) : bool :=
  all_bytes literal_byte (pattern_base pattern) && negb (is_empty (pattern_base pattern)).

Lemma trimmed_last pattern : HasSuffix (trimmed pattern) "/" = false.
Proof.
  apply not_true_is_false. intros [t E]%HasSuffix_spec.
  assert (last_byte (trimmed pattern) = Some "/"%char) as H by (by rewrite E, last_byte_app).
  by apply Trim_last in H.
Qed.

Lemma base_first pattern c : first_byte (pattern_base pattern) = Some c → c ≠ "/"%char.
Proof.
  intros H ->. unfold pattern_base, TrimSuffix in H.
  assert (first_byte (trimmed pattern) = Some "/"%char) as F.
  { destruct (HasSuffix _ _) eqn:E; [|done]. apply HasSuffix_spec in E as [t E].
    revert H. rewrite E. cbn. intros H. destruct (str_take _ _) eqn:E'; [done|].
    rewrite <-(str_take_drop (String.length (t +:+ "/**") - String.length "/**") (t +:+ "/**")).
    cbn in *. rewrite E'. done. }
  by apply Trim_first in F.
Qed.

Lemma base_cases pattern :
  static_pattern pattern = true →
  trimmed pattern = pattern_base pattern ∧ HasSuffix (pattern_base pattern) "/**" = false ∨
  trimmed pattern = pattern_base pattern +:+ "/**".
Proof.
  intros _. unfold pattern_base. destruct (HasSuffix (trimmed pattern) "/**") eqn:E.
  - apply HasSuffix_spec in E as [t ->]. right. by rewrite TrimSuffix_app.
  - left. assert (TrimSuffix (trimmed pattern) "/**" = trimmed pattern) as ->
      by (unfold TrimSuffix; by rewrite E). done.
Qed.

Lemma matchesPath_static pattern p :
  static_pattern pattern = true → matchesPath pattern p = inside (pattern_base pattern) p.
Proof.
  intros Hs. pose proof (base_cases pattern Hs) as Hc. pose proof (trimmed_last pattern) as Hl.
  unfold static_pattern in Hs. apply andb_true_iff in Hs as [Hlit Hne].
  unfold matchesPath. fold (trimmed pattern). destruct Hc as [[E Hsuf]|E]; rewrite E in *.
  - rewrite Hsuf, Hl, Match_literal by done. destruct (pattern_base pattern); [done|].
    unfold inside. cbn [String.eqb]. by destruct (String.eqb p _).
  - assert (HasSuffix (pattern_base pattern +:+ "/**") "/**" = true) as ->
      by (apply HasSuffix_spec; eauto).
    rewrite TrimSuffix_app. by destruct (pattern_base pattern).
Qed.

Lemma IndexByte_app c a b :
  all_bytes (λ d, negb (ascii_eqb d c)) a = true →
  IndexByte (a +:+ b) c = (λ n, String.length a + n) <$> IndexByte b c.
Proof.
  induction a as [|d a IH]; cbn; [by destruct (IndexByte b c)|].
  intros [->%negb_true_iff H]%andb_true_iff. rewrite IH by done. by destruct (IndexByte b c).
Qed.

Lemma LastIndexByte_app c a b j :
  LastIndexByte b c = Some j → LastIndexByte (a +:+ b) c = Some (String.length a + j).
Proof. intros H. induction a as [|d a IH]; cbn; [done|]. by rewrite IH. Qed.

Lemma TrimRight_app p a b :
  (∀ c, last_byte a = Some c → p c = false) →
  TrimRight p (a +:+ b) = a +:+ TrimRight p b.
Proof.
  intros Ha. induction a as [|d a IH]; cbn; [done|].
  destruct (decide (a = "")) as [->|Hne].
  - rewrite str_app_nil_l, (Ha d) by done. by destruct (TrimRight p b).
  - rewrite IH by (intros c Hc; apply Ha; by destruct a).
    by destruct a.
Qed.

Lemma all_bytes_impl_literal c s :
  literal_byte c = false → all_bytes literal_byte s = true →
  all_bytes (λ d, negb (ascii_eqb d c)) s = true.
Proof.
  intros Hc. apply all_bytes_mono. intros d Hd. apply negb_true_iff, ascii_eqb_neq.
  intros ->. congruence.
Qed.

Lemma str_take_app_add a b j :
  str_take (String.length a + j) (a +:+ b) = a +:+ str_take j b.
Proof. induction a as [|c a IH]; cbn; [done|]. by rewrite IH. Qed.

(** [prefix] of [filterStaticPrefix] before its last trimming. *)
Lemma static_prefix_raw pattern d r :
  static_pattern pattern = true → pattern_base pattern = d +:+ "/" +:+ r →
  ∃ r', filterStaticPrefix pattern = Trim is_slash (d +:+ r') ∧ (r' = "" ∨ ∃ u, r' = "/" +:+ u).
Proof.
  intros Hs Hb. pose proof (base_cases pattern Hs) as Hc.
  pose proof (trimmed_last pattern) as Hlast. apply andb_true_iff in Hs as [Hlit Hne].
  set (b := pattern_base pattern) in *.
  unfold filterStaticPrefix. fold (trimmed pattern). destruct Hc as [[Hc _]|Hc]; rewrite Hc in *.
  - assert (∀ m, literal_byte m = false → IndexByte b m = None) as Hidx.
    { intros m Hm. rewrite <-(str_app_nil_r b), IndexByte_app; [done|].
      by apply all_bytes_impl_literal. }
    cbn [foldl]. rewrite !Hidx, str_take_ge by done.
    replace (TrimSuffix b "/") with b by (unfold TrimSuffix; by rewrite Hlast).
    rewrite Nat.ltb_irrefl. exists ("/" +:+ r). split; [|by right; eauto].
    assert (String.eqb b "" = false) as -> by (by destruct b). rewrite Hb.
    by destruct (LastIndexByte _ _).
  - assert (∀ m, literal_byte m = false → m ≠ "*"%char → IndexByte (b +:+ "/**") m = None) as Hidx.
    { intros m Hm Hs. rewrite IndexByte_app by (by apply all_bytes_impl_literal).
      cbn [IndexByte]. apply not_eq_sym, ascii_eqb_neq in Hs. rewrite Hs.
      destruct (ascii_eqb "/" m) eqn:E; [|done]. by apply ascii_eqb_eq in E as <-. }
    cbn [foldl]. rewrite (IndexByte_app "*" b) by (by apply all_bytes_impl_literal).
    rewrite !Hidx by done. change (IndexByte "/**" "*") with (Some 1). cbn [fmap option_fmap option_map].
    rewrite str_length_app. cbn [String.length].
    assert ((String.length b + 1 <? String.length b + 3) = true) as -> by (apply Nat.ltb_lt; lia).
    assert (str_take (String.length b + 1) (b +:+ "/**") = b +:+ "/") as ->.
    { change "/**" with ("/" +:+ "**"). rewrite <-str_app_assoc.
      replace (String.length b + 1) with (String.length (b +:+ "/"))
        by (rewrite str_length_app; cbn; lia). apply str_take_app. }
    rewrite TrimSuffix_app.
    assert ((String.length b + 1 <? String.length b + 3) = true) as -> by (apply Nat.ltb_lt; lia).
    assert (∃ j, LastIndexByte ("/" +:+ r) slash = Some j) as [j Hj]
      by (cbn; destruct (LastIndexByte r slash); eauto).
    assert (String.eqb (b +:+ "/**") "" = false) as -> by (by destruct b).
    rewrite Hb, (LastIndexByte_app _ _ _ j Hj).
    exists (str_take j ("/" +:+ r)). split; [|destruct j; cbn; eauto].
    f_equal. apply str_take_app_add.
Qed.

(** The wildcard-free head of a static pattern reaches every directory
    above the path the pattern names. *)
Lemma static_prefix_above pattern d r :
  static_pattern pattern = true → d ≠ "" →
  (∀ c, first_byte d = Some c → is_slash c = false) →
  (∀ c, last_byte d = Some c → is_slash c = false) →
  pattern_base pattern = d +:+ "/" +:+ r →
  filterStaticPrefix pattern ≠ "" ∧ isPathAncestor d (filterStaticPrefix pattern) = true.
Proof.
  intros Hs Hd Hf Hl Hb. destruct (static_prefix_raw pattern d r Hs Hb) as (r' & -> & Hr').
  assert (∃ u, Trim is_slash (d +:+ r') = d +:+ u ∧ (u = "" ∨ ∃ v, u = "/" +:+ v)) as (u & E & Hu).
  { unfold Trim. rewrite TrimLeft_id by (by destruct d).
    rewrite TrimRight_app by done. eexists. split; [done|].
    destruct Hr' as [->|[v ->]]; [by left|]. cbn. destruct (TrimRight is_slash v); eauto. }
  rewrite E. split; [by destruct d|]. unfold isPathAncestor. rewrite <-E.
  rewrite (Trim_id _ d), (Trim_id _ (Trim _ _)) by (eauto using Trim_first, Trim_last).
  rewrite (proj2 (String.eqb_neq d "") Hd), E. destruct Hu as [->|[v ->]].
  - by rewrite str_app_nil_r, String.eqb_refl.
  - rewrite <-str_app_assoc, HasPrefix_app. apply orb_true_r.
Qed.

(** Neither end of a relative normalised path is a slash. *)
Lemma last_byte_has s c : last_byte s = Some c → has_byte c s = true.
Proof.
  induction s as [|d s IH]; cbn; [done|]. destruct s as [|d' s].
  - intros [= ->]. by rewrite ascii_eqb_refl.
  - intros H. rewrite IH by done. apply orb_true_r.
Qed.

Lemma Join_last gs c :
  Forall good_elem gs → gs ≠ [] → last_byte (Join "/" gs) = Some c → is_slash c = false.
Proof.
  intros Hgs _. induction Hgs as [|g gs (H1 & H2 & H3 & H4) Hgs IH]; [done|].
  destruct gs as [|g' gs]; cbn [Join].
  - intros Hc%last_byte_has. apply ascii_eqb_neq. intros ->. unfold slash in H4. congruence.
  - change (match gs with [] => g' | _ :: _ => g' +:+ "/" +:+ Join "/" gs end)
      with (Join "/" (g' :: gs)).
    assert (Join "/" (g' :: gs) ≠ "") by (by apply Join_ne).
    by rewrite !last_byte_app by (by destruct (Join "/" (g' :: gs))).
Qed.

Lemma normalize_ends p c :
  NormalizeEventPath p = Ok c → (∀ x, first_byte c = Some x → is_slash x = false) →
  ∀ x, last_byte c = Some x → is_slash x = false.
Proof.
  intros (Hc & Hgs & Hne)%normalize_ok Hf x. rewrite <-Hc. unfold Clean.
  assert (IsAbs c = false) as Ha.
  { destruct c as [|y c]; [done|]. cbn. specialize (Hf y eq_refl). unfold is_slash in Hf.
    by rewrite Hf. }
  rewrite Ha. unfold unsplit. specialize (Hne Ha). destruct (elems c) eqn:E; [done|].
  rewrite <-E in *. by apply Join_last.
Qed.

Lemma inside_first a b : a ≠ "" → inside a b = true → first_byte b = first_byte a.
Proof. rewrite inside_spec. destruct a; [done|]. by intros _ [->|[t ->]]. Qed.

(** A static pattern that admits a path admits the directories above it,
    by matching them or by its wildcard-free head. *)
Lemma static_pattern_above pattern d p p' :
  static_pattern pattern = true → NormalizeEventPath d = Ok p → inside p p' = true →
  matchesPath pattern p' = true →
  matchesPath pattern p || (let root := filterStaticPrefix pattern in
                            negb (String.eqb root "") && isPathAncestor p root) = true.
Proof.
  intros Hs Hd Hin. rewrite !matchesPath_static by done. intros Hm.
  assert (pattern_base pattern ≠ "") as Hb0.
  { apply andb_true_iff in Hs as [_ Hne]. by destruct (pattern_base pattern). }
  assert (p ≠ "") as Hp0.
  { intros ->. apply normalize_ok in Hd as (H & _). discriminate. }
  destruct (inside_comparable _ _ _ Hin Hm) as [H|H]; [|by rewrite H].
  destruct (proj1 (inside_spec _ _) H) as [E|[r E]].
  { by rewrite E, inside_refl. }
  assert (∀ c, first_byte p = Some c → is_slash c = false) as Hf.
  { intros c Hc. rewrite <-(inside_first p p'), (inside_first _ p' Hb0 Hm) in Hc by done.
    apply ascii_eqb_neq. by eapply base_first. }
  destruct (static_prefix_above pattern p r Hs Hp0 Hf) as [H1 H2];
    [by eapply normalize_ends|done|].
  cbv zeta. rewrite (proj2 (String.eqb_neq _ "") H1), H2. apply orb_true_r.
Qed.

Lemma static_traversal f p p' d d' :
  forallb static_pattern (pf_IncludePaths f ++ pf_ExcludePaths f) = true →
  NormalizeEventPath p = Ok p' → NormalizeEventPath d = Ok d' → inside d' p' = true →
  ShouldReplicate f p = true → ShouldTraverse f d = true.
Proof.
  rewrite forallb_app, andb_true_iff. intros [Hinc Hexc] Hp Hd Hin. unfold ShouldReplicate, ShouldTraverse.
  rewrite Hp, Hd. rewrite forallb_forall in Hinc, Hexc.
  destruct (existsb _ (pf_ExcludePaths f)) eqn:Ex; [done|].
  destruct (existsb (λ e, matchesPath e d') (pf_ExcludePaths f)) eqn:Ex'.
  { apply existsb_exists in Ex' as (e & He & Hm).
    rewrite matchesPath_static in Hm by auto.
    rewrite <-not_true_iff_false, existsb_exists in Ex. destruct Ex. exists e. split; [done|].
    rewrite matchesPath_static by auto. by eapply inside_trans. }
  destruct (Nat.eqb _ 0); [done|]. rewrite !existsb_exists. intros (e & He & Hm).
  exists e. split; [done|]. eapply static_pattern_above; eauto.
Qed.

(** When every pattern of a filter names a path or a whole directory
    ("dir" or "dir/**"), no directory above a replicated path is skipped:
    a walk that enters only the directories of [ShouldTraverse] meets
    every path of [ShouldReplicate]. *)
Theorem traversal_reaches_replicated f p p' d d' :
  forallb static_pattern (pf_IncludePaths f ++ pf_ExcludePaths f) = true →
  NormalizeEventPath p = Ok p' → NormalizeEventPath d = Ok d' → inside d' p' = true →
  ShouldReplicate f p = true → ShouldTraverse f d = true.
Proof. apply static_traversal. Qed.

Lemma traversal_reaches_replicated_witness :
  ShouldReplicate (mkPathFilter ["world/**"; "server/plugins/cfg/**"] ["world/tmp"] false)
    "server/plugins/cfg/a.yml" = true ∧
  ShouldTraverse (mkPathFilter ["world/**"; "server/plugins/cfg/**"] ["world/tmp"] false)
    "server/plugins" = true.
Proof.
  split; [reflexivity|].
  eapply (traversal_reaches_replicated _ "server/plugins/cfg/a.yml" _ "server/plugins");
    reflexivity.
Defined.

(** With a wildcard in the last name of an include pattern that has
    two directories above it, the walk does not enter the inner one:
    "a/b/*.sav" replicates "a/b/x.sav", and neither the watcher nor the
    archive ever looks into "a/b". *)
Theorem traversal_misses_wildcard :
  let f := mkPathFilter ["a/b/*.sav"] [] false in
  ShouldReplicate f "a/b/x.sav" = true ∧ ShouldTraverse f "a/b" = false.
Proof. split; reflexivity. Qed.

(** Names with a space at an end or with a backslash are legal on
    Linux, but an event about one is taken for another path: the deletion
    of "save " becomes one of "save", and "a\b" becomes the file "b" of a
    directory "a". *)
Theorem unusual_names_confused :
  CoalesceEvents [mkFileEvent "save " EventOpDelete; mkFileEvent "a\b" EventOpUpsert] (mkPathFilter [] [] false) =
  Some [mkFileEvent "save" EventOpDelete; mkFileEvent "a/b" EventOpUpsert].
Proof. reflexivity. Qed.

(** [ensurePathInside] accepts exactly the targets whose cleaned
    elements extend those of the root. *)
Theorem ensure_path_inside_iff root target :
  IsAbs root = true → IsAbs target = true →
  ensurePathInside root target = Ok tt ↔ elems root `prefix_of` elems target.
Proof.
  intros Hr Ht. pose proof (ensurePathInside_abs root target Hr Ht) as H.
  destruct (ensurePathInside root target) as [[]|e]; simpl in H; symmetry in H.
  - by apply bool_decide_eq_true in H.
  - by apply bool_decide_eq_false in H.
Qed.

Lemma ensure_path_inside_iff_witness :
  ensurePathInside "/pool/ns/vol" "/pool/ns/vol/../vol/a" = Ok tt ∧
  ensurePathInside "/pool/ns/vol" "/pool/ns/vol/../vol2" ≠ Ok tt.
Proof.
  split.
  - apply (ensure_path_inside_iff "/pool/ns/vol" "/pool/ns/vol/../vol/a");
      [reflexivity..|]. by exists ["a"].
  - intros H. apply (ensure_path_inside_iff "/pool/ns/vol" "/pool/ns/vol/../vol2") in H;
      [|reflexivity..]. by destruct H as [k Hk].
Defined.

(** A path accepted by [NormalizeEventPath], joined to any absolute
    root, is the root followed by proper names (no empty name, ".", ".."
    or slash), so it passes [ensurePathInside]; it is the root itself in
    the one case that the normalised path is "/". *)
Theorem event_path_confined root p c :
  IsAbs root = true → NormalizeEventPath p = Ok c →
  elems (join [root; c]) = elems root ++ elems c ∧ Forall good_elem (elems c) ∧
  ensurePathInside root (join [root; c]) = Ok tt ∧
  (join [root; c] = Clean root ↔ c = "/").
Proof.
  intros Hr Hn. destruct (normalize_ok p c Hn) as (Hc & Hgs & Hne).
  assert (root ≠ "") as Hr0 by (by intros ->).
  rewrite (normalize_join root p c Hr0 Hn), Hr.
  assert (clean_form true (elems root ++ elems c)) as Hform.
  { exists 0, (elems root ++ elems c). split; [done|]. split; [|done].
    apply Forall_app. split; [by apply elems_abs_good|done]. }
  rewrite elems_unsplit by done. split; [done|]. split; [done|]. split.
  - pose proof (ensurePathInside_abs root (unsplit true (elems root ++ elems c)) Hr eq_refl) as H.
    rewrite elems_unsplit, bool_decide_eq_true_2 in H by (done || by eexists).
    destruct (ensurePathInside _ _) as [[]|]; done.
  - unfold Clean. rewrite Hr. split.
    + intros E. apply (f_equal elems) in E. rewrite !elems_unsplit in E;
        [|pose proof (elems_form root) as F; by rewrite Hr in F|done].
      assert (elems c = []) as E0 by (destruct (elems c); [done|];
        apply (f_equal length) in E; rewrite length_app in E; simpl in E; lia).
      rewrite <-Hc. unfold Clean. rewrite E0. destruct (IsAbs c); [done|by destruct Hne].
    + intros ->. by rewrite app_nil_r.
Qed.

Lemma event_path_confined_witness :
  NormalizeEventPath " \saves\..\world/level.dat" = Ok "world/level.dat" ∧
  ensurePathInside "/pool/ns/vol" (join ["/pool/ns/vol"; "world/level.dat"]) = Ok tt.
Proof.
  split; [reflexivity|].
  apply (event_path_confined "/pool/ns/vol" " \saves\..\world/level.dat" "world/level.dat");
    reflexivity.
Defined.

Lemma coalesce_spec events f :
  CoalesceEvents events f = Some (keep_last (omap (admitted f) events)).
Proof.
  unfold CoalesceEvents.
  destruct (coalesce_from_spec f events (mkCoalescing ∅ [] ∅)) as (st & -> & _ & H).
  { split; simpl; [constructor|done|set_solver]. }
  simpl. f_equal. by apply (H []).
Qed.

Lemma keep_last_sub l e : e ∈ keep_last l → e ∈ l.
Proof.
  induction l as [|x l IH]; cbn [keep_last]; [done|]. destruct (existsb _ _).
  - intros H. right. auto.
  - intros [->|H]%elem_of_cons; [left|right; auto].
Qed.

Lemma keep_last_has l e : e ∈ l → ∃ op, mkFileEvent (ev_Path e) op ∈ keep_last l.
Proof.
  revert e. induction l as [|x l IH]; cbn [keep_last]; intros e He; [by apply elem_of_nil in He|].
  destruct (existsb _ l) eqn:E.
  - apply elem_of_cons in He as [->|He]; [|auto].
    apply existsb_exists in E as (y & Hy%list_elem_of_In & <-%String.eqb_eq). auto.
  - apply elem_of_cons in He as [->|He].
    + destruct x as [p op]. exists op. left.
    + destruct (IH e He) as [op H]. exists op. by right.
Qed.

(** The paths of coalesced events are normalised, and the normalised path
    "/" is refused when the filter normalises it a second time. *)
Lemma coalesced_normal events f l e :
  CoalesceEvents events f = Some l → e ∈ l →
  ∃ p, NormalizeEventPath p = Ok (ev_Path e) ∧ ev_Path e ≠ "/".
Proof.
  rewrite coalesce_spec. intros [= <-] He%keep_last_sub.
  apply list_elem_of_omap in He as (e0 & _ & H). unfold admitted in H.
  destruct (NormalizeEventPath (ev_Path e0)) as [c|] eqn:E; [|done].
  destruct (ShouldReplicate f c) eqn:Es; simplify_eq. exists (ev_Path e0).
  split; [done|]. cbn [ev_Path]. by intros ->.
Qed.

(** C26: Coalescing never indexes outside its slice, and its result is the
    reference: the admitted events, normalised, keeping for every path
    only its last event, in the order of these last events. *)
Theorem coalesce_events_refines events f :
  CoalesceEvents events f = Some (keep_last (omap (admitted f) events)).
Proof. apply coalesce_spec. Qed.

(** The pattern "/" selects nothing in an event filter and everything in
    the filter handed to rclone. *)
Lemma root_pattern_diverges p :
  matchesPath "/" p = false ∧ normalizeFilterPattern "/" = "/**".
Proof. by split. Qed.

End Filter.
