(* ===== verification/Commands.v ===== *)
(** * rclone commands and their output: [internal/agent/replication.go]

    The argument lists the agent hands to rclone, the bounded buffer in
    which it keeps the output, and how it reads that output. *)
From Stdlib Require Import ZifyBool.
From S2P Require Import Prelude GoStrings GoPath AgentEnv AgentTypes Filter.

Module Commands.
Import Str Path Filter.

(** ** Command lines *)
Definition appendRcloneLowMemoryArgs (args : list string) : list string :=
  args ++ ["--transfers"; "1"; "--checkers"; "1"; "--buffer-size"; "0";
           "--multi-thread-streams"; "0"].

(** The two optional arguments the builders share. *)
Definition credential_args (source : SourceRef) : list string :=
  (if is_empty (src_User source) then [] else ["--webdav-user"; src_User source]) ++
  (if is_empty (src_Password source) then [] else ["--webdav-pass"; src_Password source]).

(** The filter rules in the order rclone applies them: the first match
    decides. *)
Definition filter_args (f : PathFilter) : list string :=
  flat_map (λ e, ["--filter"; "- " +:+ normalizeFilterPattern e]) (pf_ExcludePaths f) ++
  flat_map (λ i, ["--filter"; "+ " +:+ normalizeFilterPattern i]) (pf_IncludePaths f) ++
  match pf_IncludePaths f with [] => [] | _ => ["--filter"; "- **"] end.

Definition webdav_args (source : SourceRef) : list string :=
  ["--config"; "/dev/null"; "--webdav-url"; TrimRight is_slash (src_WebDAVURL source);
   "--webdav-vendor"; "other"].

Definition BuildRcloneServeWebDAVCommand (rootPath addr : string) (readOnly : bool) : CommandSpec :=
  mkCommandSpec "rclone"
    (["serve"; "webdav"; rootPath; "--config"; "/dev/null"; "--addr"; addr;
      "--dir-cache-time"; "1s"; "--metadata"; "--links"] ++
     (if readOnly then ["--read-only"] else [])).

Definition BuildRcloneCopyToCommand (source : SourceRef) (sourcePath targetPath : string)
  : result CommandSpec :=
  clean <-? NormalizeEventPath sourcePath ;;
  Ok (mkCommandSpec "rclone"
    (appendRcloneLowMemoryArgs
       (["copyto"] ++ webdav_args source ++ ["--metadata"; "--links"; "--ignore-times"]) ++
     credential_args source ++ [":webdav:" +:+ clean; targetPath])).

Definition BuildRcloneFullSyncCommand (source : SourceRef) (sourceVolume targetRoot : string)
    (f : PathFilter) : CommandSpec :=
  mkCommandSpec "rclone"
    (appendRcloneLowMemoryArgs
       (["sync"] ++ webdav_args source ++ ["--metadata"; "--links"] ++
        (if pf_PruneExcluded f then ["--delete-excluded"] else [])) ++
     credential_args source ++ filter_args f ++
     [":webdav:" +:+ Trim is_slash sourceVolume; targetRoot]).

Definition BuildRcloneLocalSyncCommand (sourceRoot targetRoot : string) (f : PathFilter)
  : CommandSpec :=
  mkCommandSpec "rclone"
    (appendRcloneLowMemoryArgs
       (["sync"; sourceRoot; targetRoot; "--metadata"; "--links"] ++
        (if pf_PruneExcluded f then ["--delete-excluded"] else [])) ++
     filter_args f).

Definition BuildRcloneLocalCopyToCommand (sourcePath targetPath : string) : CommandSpec :=
  mkCommandSpec "rclone"
    (appendRcloneLowMemoryArgs
       ["copyto"; sourcePath; targetPath; "--metadata"; "--links"; "--ignore-times"]).

Definition BuildRcloneCheckCommand (source : SourceRef) (sourcePath targetPath : string)
  : CommandSpec :=
  mkCommandSpec "rclone"
    (["check"; "--one-way"; "--size-only"] ++ webdav_args source ++ ["--checkers"; "1"] ++
     credential_args source ++ [":webdav:" +:+ Trim is_slash sourcePath; targetPath]).

Definition BuildRclonePathSyncCommand (source : SourceRef) (sourcePath targetPath : string)
  : CommandSpec :=
  mkCommandSpec "rclone"
    (appendRcloneLowMemoryArgs
       (["sync"] ++ webdav_args source ++ ["--metadata"; "--links"; "--ignore-times"]) ++
     credential_args source ++ [":webdav:" +:+ Trim is_slash sourcePath; targetPath]).

(** ** [limitedOutput] *)
Record limitedOutput : Type := mkLimitedOutput {
  lo_buf : string;
  lo_limit : Z;
  lo_truncated : Z;
}.

Definition str_len (s : string) : Z := Z.of_nat (String.length s).

Definition Write (o : limitedOutput) (p : string) : limitedOutput * Z :=
  (if (lo_limit o <=? 0)%Z then
     mkLimitedOutput (lo_buf o) (lo_limit o) (lo_truncated o + str_len p)
   else
     let remaining := (lo_limit o - str_len (lo_buf o))%Z in
     if (0 <? remaining)%Z then
       if (str_len p <=? remaining)%Z then
         mkLimitedOutput (lo_buf o +:+ p) (lo_limit o) (lo_truncated o)
       else
         mkLimitedOutput (lo_buf o +:+ str_take (Z.to_nat remaining) p) (lo_limit o)
           (lo_truncated o + (str_len p - remaining))
     else mkLimitedOutput (lo_buf o) (lo_limit o) (lo_truncated o + str_len p),
   str_len p).

Definition newline : string := String "010" "".

Definition Bytes (o : limitedOutput) : string :=
  if (lo_truncated o =? 0)%Z then lo_buf o
  else lo_buf o +:+ newline +:+ "... truncated " +:+ FormatInt (lo_truncated o) +:+
       " bytes of command output ..." +:+ newline.

Definition new_output (limit : Z) : limitedOutput := mkLimitedOutput "" limit 0.

(** ** What the output of a failed copy says *)
Definition isMissingSourceOutput (output : string) : bool :=
  let normalized := ToLower output in
  if negb (Contains normalized "not found") && negb (Contains normalized "directory not found")
  then false
  else Contains normalized "error reading source" ||
       Contains normalized "failed to open source" || Contains normalized "webdav root".

Definition isDirectorySourceCopyOutput (output : string) : bool :=
  let normalized := ToLower output in
  Contains normalized "source doesn't exist or is a directory and destination is a file" ||
  Contains normalized "source does not exist or is a directory and destination is a file".

(** [errors.As] looks for a [CommandError] in the chain of wrapped
    errors. *)
Fixpoint as_command (e : error) : option string :=
  match e with
  | CommandErr _ output => Some output
  | Wrapf _ _ inner => as_command inner
  | _ => None
  end.

Definition isMissingSourceCopyError (e : error) : bool :=
  match as_command e with
  | None => false
  | Some output => isMissingSourceOutput output || isDirectorySourceCopyOutput output
  end.

(** An include pattern without wildcards. *)
Definition exactIncludePath (include : string) : result (option string) :=
  clean <-? NormalizeEventPath include ;;
  if ContainsAny clean "*?[" then Ok None else Ok (Some clean).

(** ** The bounded buffer *)
Definition write_all (o : limitedOutput) (chunks : list string) : limitedOutput :=
  foldl (λ o p, fst (Write o p)) o chunks.

Definition concat_str (l : list string) : string := foldr String.append "" l.

Lemma concat_str_app l m : concat_str (l ++ m) = concat_str l +:+ concat_str m.
Proof. 
  induction l as [|x l IH]; [done|].
  change (x +:+ concat_str (l ++ m) = (x +:+ concat_str l) +:+ concat_str m).
  by rewrite IH, str_app_assoc.
Qed.

Lemma str_take_app_le n a b : n ≤ String.length a → str_take n (a +:+ b) = str_take n a.
Proof.
  revert n. induction a as [|c a IH]; intros [|n]; cbn; try done; try lia.
  intros H. by rewrite IH by lia.
Qed.

Lemma str_take_app_ge n a b :
  String.length a ≤ n → str_take n (a +:+ b) = a +:+ str_take (n - String.length a) b.
Proof.
  revert n. induction a as [|c a IH]; intros n; cbn; [by rewrite Nat.sub_0_r|].
  destruct n; cbn; [lia|]. intros H. by rewrite IH by lia.
Qed.

Lemma str_take_nil n : str_take n "" = "".
Proof. by destruct n. Qed.

(** The buffer after some writes: the first [limit] bytes written, and
    the number of the others. *)
Lemma write_all_spec limit chunks :
  write_all (new_output limit) chunks =
  mkLimitedOutput (str_take (Z.to_nat limit) (concat_str chunks)) limit
    (Z.max 0 (str_len (concat_str chunks) - Z.max 0 limit)).
Proof.
  unfold write_all. induction chunks as [|p chunks IH] using rev_ind.
  { cbn. rewrite str_take_nil. unfold new_output. f_equal; unfold str_len; cbn; lia. }
  rewrite foldl_snoc, IH, concat_str_app. cbn [concat_str foldr]. rewrite str_app_nil_r.
  clear IH. generalize (concat_str chunks) as w. intros w. unfold Write, str_len. cbn [fst lo_limit lo_buf lo_truncated].
  rewrite str_length_app, str_length_take.
  destruct (limit <=? 0)%Z eqn:E1.
  { replace (Z.to_nat limit) with 0 by lia. change (str_take 0 (w +:+ p)) with (str_take 0 w). f_equal; lia. }
  destruct (0 <? _)%Z eqn:E2; [destruct (Z.of_nat (String.length p) <=? _)%Z eqn:E3|].
  - rewrite str_take_app_ge by lia. rewrite !str_take_ge by lia. f_equal; lia.
  - rewrite str_take_app_ge by lia. rewrite (str_take_ge _ w) by lia. f_equal; [|lia].
    f_equal. f_equal. lia.
  - rewrite str_take_app_le by lia. f_equal; lia.
Qed.

(** Whatever pieces a command writes its output in, the agent keeps
    the output itself when it fits the limit, and otherwise exactly its
    first [limit] bytes and a line with the number of bytes dropped; every
    write reports that it took all its bytes. *)
Theorem limited_output_keeps_prefix limit chunks :
  let total := concat_str chunks in
  Bytes (write_all (new_output limit) chunks) =
    (if (str_len total <=? Z.max 0 limit)%Z then total
     else str_take (Z.to_nat limit) total +:+ newline +:+ "... truncated " +:+
          FormatInt (str_len total - Z.max 0 limit) +:+
          " bytes of command output ..." +:+ newline) ∧
  ∀ o p, snd (Write o p) = str_len p.
Proof.
  split; [|done]. rewrite write_all_spec. unfold Bytes. cbn [lo_truncated lo_buf].
  destruct (_ <=? _)%Z eqn:E.
  - replace (Z.max 0 _ =? 0)%Z with true by lia. apply str_take_ge. unfold str_len in E. lia.
  - replace (Z.max 0 _ =? 0)%Z with false by lia.
    by replace (Z.max 0 (str_len (concat_str chunks) - Z.max 0 limit))
      with (str_len (concat_str chunks) - Z.max 0 limit)%Z by lia.
Qed.

End Commands.
