(* ===== verification/Rclone.v ===== *)
(** * What a command line says to rclone

    The agent moves files by running rclone.  This file reads a command
    line the way rclone documents it: the first word is the verb, a word
    with a dash is a switch or an option with its value in the next word,
    wherever it stands, and what is left are the source and the target;
    [:webdav:path] is a path on the server that the options name.  It
    knows nothing of the functions that build command lines (Commands);
    the lemmas say what each of them asks rclone to do. *)
From S2P Require Import Prelude GoStrings GoPath AgentEnv AgentTypes Filter Commands.

Module Rclone.
Import Str Path Filter Commands.

(** ** Reading the words *)
Definition switches : list string :=
  ["--metadata"; "--links"; "--ignore-times"; "--delete-excluded"; "--one-way"; "--size-only"; "--read-only"].

Definition options : list string :=
  ["--config"; "--webdav-url"; "--webdav-vendor"; "--webdav-user"; "--webdav-pass"; "--transfers"; "--checkers";
   "--buffer-size"; "--multi-thread-streams"; "--filter"; "--addr"; "--dir-cache-time"].

Definition known (l : list string) (word : string) : bool := existsb (String.eqb word) l.

(** The flags with their values, and the other words. *)
Definition words : Type := list (string * string) * list string.

Definition and_flag (name v : string) (w : words) : words := ((name, v) :: fst w, snd w).
Definition and_path (p : string) (w : words) : words := (fst w, p :: snd w).

Fixpoint read_words (args : list string) : option words :=
  match args with
  | [] => Some ([], [])
  | a :: rest =>
      if negb (HasPrefix a "-") then option_map (and_path a) (read_words rest)
      else if known switches a then option_map (and_flag a "") (read_words rest)
      else if known options a then
        match rest with
        | v :: rest => option_map (and_flag a v) (read_words rest)
        | [] => None
        end
      else None
  end.

(** The values given for a flag, in order. *)
Definition given (name : string) (flags : list (string * string)) : list string :=
  map snd (List.filter (λ f, String.eqb (fst f) name) flags).

(** The last one counts. *)
Definition value (name : string) (flags : list (string * string)) : string := List.last (given name flags) "".

(** ** What rclone is asked to do *)
Inductive remote : Type :=
| Local (path : string)
| WebDAV (server : SourceRef) (path : string).

Definition location (flags : list (string * string)) (word : string) : option remote :=
  if HasPrefix word ":webdav:" then
    Some (WebDAV (mkSourceRef (value "--webdav-url" flags) (value "--webdav-user" flags) (value "--webdav-pass" flags))
            (TrimPrefix word ":webdav:"))
  else if IsAbs word then Some (Local word) else None.

(** A transfer: [t_mirror] if what the source has not is deleted from the
    target, [t_force] if files that look unchanged are copied all the
    same, [t_rules] the filter rules in their order. *)
Record transfer : Type := mkTransfer {
  t_mirror : bool;
  t_force : bool;
  t_rules : list string;
  t_from : remote;
  t_to : remote;
}.

Inductive action : Type :=
| Transfer (t : transfer)
| Compare (from to : remote).

(** [None] for a command line of which nothing is known. *)
Definition action_of (spec : CommandSpec) : option action :=
  match cmd_Name spec, cmd_Args spec with
  | "rclone", verb :: args =>
      match read_words args with
      | Some (flags, [from; to]) =>
          match location flags from, location flags to with
          | Some a, Some b =>
              let t mirror := Transfer (mkTransfer mirror (known (map fst flags) "--ignore-times") (given "--filter" flags) a b) in
              if String.eqb verb "copyto" then Some (t false)
              else if String.eqb verb "sync" then Some (t true)
              else if String.eqb verb "check" then Some (Compare a b)
              else None
          | _, _ => None
          end
      | _ => None
      end
  | _, _ => None
  end.

(** ** Lemmas: reading words *)

(** [l] is read as [w], whatever follows. *)
Definition reads (l : list string) (w : words) : Prop :=
  ∀ rest, read_words (l ++ rest) = option_map (λ r, (fst w ++ fst r, snd w ++ snd r)) (read_words rest).

Lemma reads_nil : reads [] ([], []).
Proof. intros rest. cbn. by destruct (read_words rest) as [[fs ps]|]. Qed.

Lemma reads_app l w m v : reads l w → reads m v → reads (l ++ m) (fst w ++ fst v, snd w ++ snd v).
Proof.
  intros Hl Hm rest. rewrite <-app_assoc, Hl, Hm. destruct (read_words rest) as [[fs ps]|]; [|done].
  cbn. by rewrite <- !app_assoc.
Qed.

Lemma reads_flags l a m b : reads l (a, []) → reads m (b, []) → reads (l ++ m) (a ++ b, []).
Proof. intros H1 H2. exact (reads_app l (a, []) m (b, []) H1 H2). Qed.

Lemma reads_switch name : HasPrefix name "-" = true → known switches name = true → reads [name] ([(name, "")], []).
Proof. intros H1 H2 rest. cbn [app read_words]. rewrite H1, H2. cbn. by destruct (read_words rest) as [[fs ps]|]. Qed.

Lemma reads_option name v : HasPrefix name "-" = true → known switches name = false → known options name = true →
  reads [name; v] ([(name, v)], []).
Proof. intros H1 H2 H3 rest. cbn [app read_words]. rewrite H1, H2, H3. cbn. by destruct (read_words rest) as [[fs ps]|]. Qed.

Lemma reads_path p : HasPrefix p "-" = false → reads [p] ([], [p]).
Proof. intros H rest. cbn [app read_words]. rewrite H. cbn. by destruct (read_words rest) as [[fs ps]|]. Qed.

Lemma reads_all l w : reads l w → read_words l = Some w.
Proof. intros H. specialize (H []). rewrite app_nil_r in H. rewrite H. cbn. rewrite !app_nil_r. by destruct w. Qed.

Lemma abs_no_dash p : IsAbs p = true → HasPrefix p "-" = false.
Proof. destruct p as [|c p]; [done|]. cbn. destruct (ascii_eqb c "/") eqn:E; [|done]. by apply ascii_eqb_eq in E as ->. Qed.

Lemma abs_location flags p : IsAbs p = true → location flags p = Some (Local p).
Proof.
  intros H. unfold location. rewrite H. destruct p as [|c p]; [done|]. cbn in H |- *.
  destruct (ascii_eqb c "/") eqn:E; [|done]. by apply ascii_eqb_eq in E as ->.
Qed.

(** The rules of a filter. *)
Definition filter_rules (f : PathFilter) : list string :=
  map (λ e, "- " +:+ normalizeFilterPattern e) (pf_ExcludePaths f) ++
  map (λ i, "+ " +:+ normalizeFilterPattern i) (pf_IncludePaths f) ++
  match pf_IncludePaths f with [] => [] | _ => ["- **"] end.

Lemma reads_rules sign l :
  reads (flat_map (λ e, ["--filter"; sign +:+ normalizeFilterPattern e]) l)
        (map (λ e, ("--filter", sign +:+ normalizeFilterPattern e)) l, []).
Proof.
  induction l as [|e l IH]; [apply reads_nil|].
  exact (reads_app ["--filter"; sign +:+ normalizeFilterPattern e] ([_], []) _ _
    (reads_option "--filter" _ eq_refl eq_refl eq_refl) IH).
Qed.

Lemma reads_filter f : reads (filter_args f) (map (pair "--filter") (filter_rules f), []).
Proof.
  unfold filter_args, filter_rules. rewrite !map_app, !map_map.
  apply reads_flags; [apply (reads_rules "- ")|]. apply reads_flags; [apply (reads_rules "+ ")|].
  destruct (pf_IncludePaths f); [apply reads_nil|]. by apply reads_option.
Qed.

(** The flags every transfer has, and those for a server. *)
Definition low_memory : list (string * string) :=
  [("--transfers", "1"); ("--checkers", "1"); ("--buffer-size", "0"); ("--multi-thread-streams", "0")].

Definition server_flags (source : SourceRef) : list (string * string) :=
  [("--config", "/dev/null"); ("--webdav-url", TrimRight is_slash (src_WebDAVURL source)); ("--webdav-vendor", "other")].

Definition login_flags (source : SourceRef) : list (string * string) :=
  (if is_empty (src_User source) then [] else [("--webdav-user", src_User source)]) ++
  (if is_empty (src_Password source) then [] else [("--webdav-pass", src_Password source)]).

Lemma reads_server source : reads (webdav_args source) (server_flags source, []).
Proof. intros rest. cbn. by destruct (read_words rest) as [[fs ps]|]. Qed.

Lemma reads_login source : reads (credential_args source) (login_flags source, []).
Proof.
  unfold credential_args, login_flags. apply reads_flags;
    (destruct (is_empty _); [apply reads_nil|by apply reads_option]).
Qed.

(** The source as the command line names it. *)
Definition server (source : SourceRef) : SourceRef :=
  mkSourceRef (TrimRight is_slash (src_WebDAVURL source)) (src_User source) (src_Password source).

Lemma given_app name l m : given name (l ++ m) = given name l ++ given name m.
Proof. unfold given. by rewrite List.filter_app, map_app. Qed.

Lemma given_none name l : Forall (λ f, fst f ≠ name) l → given name l = [].
Proof.
  unfold given. induction 1 as [|[n v] l H _ IH]; [done|]. cbn in *. by rewrite (proj2 (String.eqb_neq _ _) H).
Qed.

Lemma given_rules l : given "--filter" (map (pair "--filter") l) = l.
Proof. unfold given. induction l as [|x l IH]; [done|]. cbn. by rewrite IH. Qed.

Lemma known_app l m w : known (l ++ m) w = known l w || known m w.
Proof. apply existsb_app. Qed.

(** The flags of a transfer that reads from a server: [pre] and [post] are
    the flags before and after those of the server and of memory. *)
Definition pull_flags (source : SourceRef) (pre : list (string * string)) (rules : list string) :=
  (server_flags source ++ pre ++ low_memory) ++ login_flags source ++ map (pair "--filter") rules.

Definition own_flag (f : string * string) : Prop := fst f ∈ switches.

Lemma own_given name pre : known options name = true → Forall own_flag pre → given name pre = [].
Proof.
  intros Hn H. apply given_none. eapply Forall_impl; [exact H|]. intros [n v] Hs E. unfold own_flag in Hs. cbn in *. subst n.
  unfold switches in Hs. repeat (apply elem_of_cons in Hs as [->|Hs]; [discriminate Hn|]). by apply elem_of_nil in Hs.
Qed.

Lemma rules_given name rules : String.eqb "--filter" name = false → given name (map (pair "--filter") rules) = [].
Proof. intros H. apply given_none, Forall_map, Forall_true. intros x. by apply String.eqb_neq. Qed.

(** What such flags say: the server, the rules, and whether to force. *)
Lemma pull_says source pre rules :
  Forall own_flag pre →
  let flags := pull_flags source pre rules in
  mkSourceRef (value "--webdav-url" flags) (value "--webdav-user" flags) (value "--webdav-pass" flags) = server source ∧
  given "--filter" flags = rules ∧ known (map fst flags) "--ignore-times" = known (map fst pre) "--ignore-times".
Proof.
  intros Hp flags. unfold flags, pull_flags, value. rewrite !given_app, !(own_given _ pre), given_rules by done.
  rewrite !(rules_given _ rules) by done. split; [|split].
  - unfold server, login_flags. destruct (src_User source) as [|c u], (src_Password source) as [|d v]; reflexivity.
  - unfold login_flags. by destruct (is_empty (src_User source)), (is_empty (src_Password source)).
  - rewrite !map_app, !known_app. cbn. unfold login_flags.
    assert (known (map fst (map (pair "--filter") rules)) "--ignore-times" = false) as ->.
    { induction rules as [|r rules IH]; [done|exact IH]. }
    destruct (is_empty (src_User source)), (is_empty (src_Password source)); cbn; by rewrite !orb_false_r.
Qed.

(** A command line with those flags and two paths. *)
Lemma pull_action verb mirror source pre rules p target :
  (verb = "copyto" ∧ mirror = false) ∨ (verb = "sync" ∧ mirror = true) →
  Forall own_flag pre → IsAbs target = true →
  ∀ args, reads args (pull_flags source pre rules, []) →
  action_of (mkCommandSpec "rclone" (verb :: args ++ [":webdav:" +:+ p; target])) =
  Some (Transfer (mkTransfer mirror (known (map fst pre) "--ignore-times") rules (WebDAV (server source) p) (Local target))).
Proof.
  intros Hv Hp Ht args Hr. unfold action_of. cbn [cmd_Name cmd_Args].
  assert (read_words (args ++ [":webdav:" +:+ p; target]) = Some (pull_flags source pre rules, [":webdav:" +:+ p; target])) as ->.
  { rewrite Hr. rewrite (reads_all [":webdav:" +:+ p; target] ([], [":webdav:" +:+ p; target])); [cbn; by rewrite app_nil_r|].
    apply (reads_app [_] ([], [_]) [_] ([], [_])); apply reads_path; [done|by apply abs_no_dash]. }
  rewrite (abs_location _ target) by done. destruct (pull_says source pre rules Hp) as (E1 & E2 & E3).
  assert (location (pull_flags source pre rules) (":webdav:" +:+ p) = Some (WebDAV (server source) p)) as ->.
  { unfold location. rewrite E1, TrimPrefix_app.
    assert (HasPrefix (":webdav:" +:+ p) ":webdav:" = true) as -> by (apply HasPrefix_spec; by exists p). done. }
  rewrite E2, E3. by destruct Hv as [[-> ->]|[-> ->]].
Qed.

Definition force_flags : list (string * string) := [("--metadata", ""); ("--links", ""); ("--ignore-times", "")].
Definition prune_flags (f : PathFilter) : list (string * string) :=
  [("--metadata", ""); ("--links", "")] ++ (if pf_PruneExcluded f then [("--delete-excluded", "")] else []).

Lemma force_own : Forall own_flag force_flags.
Proof. by repeat constructor. Qed.

Lemma prune_own f : Forall own_flag (prune_flags f).
Proof. unfold prune_flags. by destruct (pf_PruneExcluded f); repeat constructor. Qed.

Lemma reads_force source : reads (appendRcloneLowMemoryArgs (webdav_args source ++ ["--metadata"; "--links"; "--ignore-times"]) ++
  credential_args source) (pull_flags source force_flags [], []).
Proof.
  unfold pull_flags, appendRcloneLowMemoryArgs. cbn [map]. rewrite app_nil_r, <-(app_assoc (webdav_args _)).
  apply reads_flags; [|apply reads_login].
  apply reads_flags; [apply reads_server|].
  intros rest. cbn. by destruct (read_words rest) as [[fs ps]|].
Qed.

(** ** What the builders ask for *)
Lemma copyto_action source p target spec :
  BuildRcloneCopyToCommand source p target = Ok spec → IsAbs target = true →
  ∃ c, NormalizeEventPath p = Ok c ∧
    action_of spec = Some (Transfer (mkTransfer false true [] (WebDAV (server source) c) (Local target))).
Proof.
  unfold BuildRcloneCopyToCommand. destruct (NormalizeEventPath p) as [c|]; [|done]. intros [= <-] Ht.
  exists c. split; [done|]. pose proof (pull_action "copyto" false source force_flags [] c target (or_introl (conj eq_refl eq_refl))
    force_own Ht _ (reads_force source)) as H. etransitivity; [|exact H]. unfold appendRcloneLowMemoryArgs. cbn [app]. by rewrite <- !app_assoc.
Qed.

Lemma path_sync_action source p target : IsAbs target = true →
  action_of (BuildRclonePathSyncCommand source p target) =
  Some (Transfer (mkTransfer true true [] (WebDAV (server source) (Trim is_slash p)) (Local target))).
Proof.
  intros Ht. pose proof (pull_action "sync" true source force_flags [] (Trim is_slash p) target (or_intror (conj eq_refl eq_refl))
    force_own Ht _ (reads_force source)) as H. etransitivity; [|exact H]. unfold BuildRclonePathSyncCommand.
  unfold appendRcloneLowMemoryArgs. cbn [app]. by rewrite <- !app_assoc.
Qed.

Lemma full_sync_action source p target f : IsAbs target = true →
  action_of (BuildRcloneFullSyncCommand source p target f) =
  Some (Transfer (mkTransfer true false (filter_rules f) (WebDAV (server source) (Trim is_slash p)) (Local target))).
Proof.
  intros Ht.
  assert (reads (appendRcloneLowMemoryArgs (webdav_args source ++ ["--metadata"; "--links"] ++
      (if pf_PruneExcluded f then ["--delete-excluded"] else [])) ++ credential_args source ++ filter_args f)
    (pull_flags source (prune_flags f) (filter_rules f), [])) as Hr.
  { unfold pull_flags, appendRcloneLowMemoryArgs. rewrite <-(app_assoc (webdav_args _)).
    apply reads_flags; [|apply reads_flags; [apply reads_login|apply reads_filter]].
    apply reads_flags; [apply reads_server|]. unfold prune_flags.
    intros rest. destruct (pf_PruneExcluded f); cbn; by destruct (read_words rest) as [[fs ps]|]. }
  pose proof (pull_action "sync" true source (prune_flags f) (filter_rules f) (Trim is_slash p) target
    (or_intror (conj eq_refl eq_refl)) (prune_own f) Ht _ Hr) as H.
  assert (known (map fst (prune_flags f)) "--ignore-times" = false) as E by (unfold prune_flags; by destruct (pf_PruneExcluded f)).
  rewrite E in H. etransitivity; [|exact H]. unfold BuildRcloneFullSyncCommand. unfold appendRcloneLowMemoryArgs. cbn [app]. by rewrite <- !app_assoc.
Qed.

(** A copy on one node. *)
Lemma local_copyto_action p target : IsAbs p = true → IsAbs target = true →
  action_of (BuildRcloneLocalCopyToCommand p target) =
  Some (Transfer (mkTransfer false true [] (Local p) (Local target))).
Proof.
  intros Hp Ht. unfold action_of, BuildRcloneLocalCopyToCommand, appendRcloneLowMemoryArgs. cbn [cmd_Name cmd_Args app].
  assert (read_words [p; target; "--metadata"; "--links"; "--ignore-times"; "--transfers"; "1"; "--checkers"; "1";
    "--buffer-size"; "0"; "--multi-thread-streams"; "0"] = Some (force_flags ++ low_memory, [p; target])) as ->.
  { cbn [read_words]. by rewrite (abs_no_dash p Hp), (abs_no_dash target Ht). }
  by rewrite !abs_location.
Qed.

Lemma local_sync_action p target f : IsAbs p = true → IsAbs target = true →
  action_of (BuildRcloneLocalSyncCommand p target f) =
  Some (Transfer (mkTransfer true false (filter_rules f) (Local p) (Local target))).
Proof.
  intros Hp Ht. unfold action_of, BuildRcloneLocalSyncCommand, appendRcloneLowMemoryArgs. cbn [cmd_Name cmd_Args app].
  set (flags := (prune_flags f ++ low_memory) ++ map (pair "--filter") (filter_rules f)).
  match goal with |- context [read_words (p :: target :: ?l)] =>
    assert (read_words (p :: target :: l) = Some (flags, [p; target])) as -> end.
  { apply reads_all. apply (reads_app [p] ([], [p]) _ (flags, [target])); [by apply reads_path, abs_no_dash|].
    apply (reads_app [target] ([], [target]) _ (flags, [])); [by apply reads_path, abs_no_dash|].
    change ("--metadata" :: "--links" :: ?l ++ ?m) with (("--metadata" :: "--links" :: l) ++ m).
    apply reads_flags; [|apply reads_filter]. unfold prune_flags.
    intros rest. destruct (pf_PruneExcluded f); cbn; by destruct (read_words rest) as [[fs ps]|]. }
  rewrite !abs_location by done. unfold flags, prune_flags. rewrite !given_app, given_rules, !map_app, !known_app.
  assert (known (map fst (map (pair "--filter") (filter_rules f))) "--ignore-times" = false) as ->.
  { induction (filter_rules f) as [|r rules IH]; [done|exact IH]. }
  by destruct (pf_PruneExcluded f).
Qed.

End Rclone.
