(* ===== verification/Ownership.v ===== *)
(** * Ownership of replicated files: [internal/agent/replication.go]

    [ApplyOwnershipPolicy] gives the files a replica received their
    configured owner and mode: the directories from the file up to the
    root of the volume, then the file or the whole tree below it. *)
From S2P Require Import Prelude GoStrings GoPath Effects AgentEnv AgentMem AgentTypes Filter.

Module Ownership.
Import Str Path Filter.

(** [desired.Perm() | (current.Perm() & 0o111)]; 0o111 is 73. *)
Definition fileModePreservingExecute (current desired : Z) : Z :=
  Z.lor (Perm desired) (Z.land (Perm current) 73).

Definition applyOwnershipToOne (p : string) (info : FileInfo) (policy : OwnershipPolicy)
  : prog agent_sig (result unit) :=
  _ <-! (match own_UID policy, own_GID policy with
         | None, None => Ret (Ok tt)
         | u, g =>
             let uid := default (-1)%Z u in
             let gid := default (-1)%Z g in
             if info_IsSymlink info then os_call (OsLchown p uid gid)
             else os_call (OsChown p uid gid)
         end : prog agent_sig (result unit)) ;;
  if info_IsSymlink info then Ret (Ok tt)
  else if info_IsDir info then
    match own_DirMode policy with
    | Some mode => os_call (OsChmod p mode)
    | None => Ret (Ok tt)
    end
  else
    match own_FileMode policy with
    | Some mode => os_call (OsChmod p (fileModePreservingExecute (fi_Mode info) mode))
    | None => Ret (Ok tt)
    end.

(** The directories the loop of [applyOwnershipToParentDirs] visits when
    every one of them exists: upwards from [dir] until the root of the
    volume or a directory that is its own parent.  A path has fewer
    parents than bytes, see [dir_chain_complete]. *)
Fixpoint dir_chain (fuel : nat) (root dir : string) : list string :=
  match fuel with
  | 0 => []
  | S fuel =>
      if String.eqb dir root then [dir]
      else if String.eqb (Dir dir) dir then [dir]
      else dir :: dir_chain fuel root (Dir dir)
  end.

(** The body of the loop, which ends early when a directory is gone. *)
Fixpoint own_dirs (dirs : list string) (policy : OwnershipPolicy)
  : prog agent_sig (result unit) :=
  match dirs with
  | [] => Ret (Ok tt)
  | dir :: dirs' =>
      st <- os_call (OsLstat dir) ;;
      match st with
      | Err e => if IsNotExist e then Ret (Ok tt) else Ret (Err e)
      | Ok info =>
          _ <-! applyOwnershipToOne dir info
                  (mkOwnershipPolicy (own_UID policy) (own_GID policy) None (own_DirMode policy)) ;;
          own_dirs dirs' policy
      end
  end.

Definition chain_of (root dir : string) : list string :=
  dir_chain (S (String.length dir)) root dir.

Definition applyOwnershipToParentDirs (root target : string) (policy : OwnershipPolicy)
  : prog agent_sig (result unit) :=
  st <- os_call (OsLstat target) ;;
  match st with
  | Ok info =>
      own_dirs (chain_of root (if info_IsDir info then target else Dir target)) policy
  | Err e =>
      if IsNotExist e then own_dirs (chain_of root (Dir target)) policy
      else Ret (Err e)
  end.

(** The callback of [filepath.WalkDir]. *)
Definition own_entry (policy : OwnershipPolicy) (d : walk_entry) : prog agent_sig (result unit) :=
  match we_Err d with
  | Some e => if IsNotExist e then Ret (Ok tt) else Ret (Err e)
  | None =>
      match we_Info d with
      | Err e => if IsNotExist e then Ret (Ok tt) else Ret (Err e)
      | Ok info => applyOwnershipToOne (we_Path d) info policy
      end
  end.

Definition ApplyOwnershipPolicy (root0 target0 : string) (policy : OwnershipPolicy)
    (recursive : bool) : prog agent_sig (result unit) :=
  if Ownership_Empty policy then Ret (Ok tt)
  else
    let root := Clean root0 in
    let target := Clean target0 in
    match Rel root target with
    | Err e => Ret (Err e)
    | Ok rel =>
        if String.eqb rel ".." || HasPrefix rel "../" then
          Ret (Err (Errorf "ownership target escapes volume: %s" [target]))
        else
          _ <-! applyOwnershipToParentDirs root target policy ;;
          st <- os_call (OsLstat target) ;;
          match st with
          | Err e => if IsNotExist e then Ret (Ok tt) else Ret (Err e)
          | Ok info =>
              if recursive && info_IsDir info then
                entries <- os_call (OsWalkDir target) ;;
                try_each entries (own_entry policy)
              else applyOwnershipToOne target info policy
          end
    end.

(** The loop over the include patterns, with the prefixes already seen. *)
Fixpoint own_includes (root : string) (policy : OwnershipPolicy) (seen : gset string)
    (includes : list string) : prog agent_sig (result unit) :=
  match includes with
  | [] => Ret (Ok tt)
  | include :: l =>
      let prefix := filterStaticPrefix include in
      if String.eqb prefix "" then ApplyOwnershipPolicy root root policy true
      else
        match NormalizeEventPath prefix with
        | Err e => Ret (Err e)
        | Ok clean =>
            if bool_decide (clean ∈ seen) then own_includes root policy seen l
            else
              _ <-! ApplyOwnershipPolicy root (join [root; clean]) policy true ;;
              own_includes root policy ({[clean]} ∪ seen) l
        end
  end.

Definition ApplyOwnershipPolicyForFilter (root : string) (f : PathFilter)
    (policy : OwnershipPolicy) : prog agent_sig (result unit) :=
  if Ownership_Empty policy then Ret (Ok tt)
  else if Nat.eqb (length (pf_IncludePaths f)) 0 then ApplyOwnershipPolicy root root policy true
  else own_includes root policy ∅ (pf_IncludePaths f).

(** ** Lemmas: the parents of a path *)
Lemma LastIndexByte_none c s : has_byte c s = false → LastIndexByte s c = None.
Proof.
  induction s as [|d s IH]; cbn; [done|]. intros [Hd Hs]%orb_false_iff. rewrite IH by done.
  by rewrite Hd.
Qed.

Lemma Clean_trailing_slash p : p ≠ "" → Clean (p +:+ "/") = Clean p.
Proof.
  intros Hp. unfold Clean, elems, clean_elems.
  assert (IsAbs (p +:+ "/") = IsAbs p) as -> by (by destruct p).
  change "/" with ("/" +:+ ""). rewrite Split_app, foldl_app. done.
Qed.

Lemma Clean_unsplit l : Forall good_elem l → Clean (unsplit true l) = unsplit true l.
Proof.
  intros Hl. assert (clean_form true l) as Hf by (by exists 0, l).
  unfold Clean. by rewrite elems_unsplit, IsAbs_unsplit.
Qed.

Lemma Dir_snoc l x :
  Forall good_elem (l ++ [x]) → Dir (unsplit true (l ++ [x])) = unsplit true l.
Proof.
  intros [Hl Hx]%Forall_app. apply Forall_cons in Hx as [Hx _].
  assert (LastIndexByte x slash = None) as Ex
    by (apply LastIndexByte_none; by destruct Hx as (_ & _ & _ & ?)).
  destruct (decide (l = [])) as [->|Hne].
  { unfold Dir. cbn -[Clean]. by rewrite Ex. }
  rewrite unsplit_app by done. cbn [Join]. unfold Dir.
  rewrite (LastIndexByte_app slash (unsplit true l) ("/" +:+ x) 0) by (cbn; by rewrite Ex).
  rewrite plus_n_Sm, str_take_app_add. cbn [str_take String.append].
  rewrite Clean_trailing_slash; [|done]. by apply Clean_unsplit.
Qed.

Lemma unsplit_inj l m :
  Forall good_elem l → Forall good_elem m → unsplit true l = unsplit true m → l = m.
Proof.
  intros Hl Hm E. apply (f_equal elems) in E.
  by rewrite !elems_unsplit in E by (by eexists 0, _).
Qed.

(** The loop visits the path itself and then its parents down to the
    root, and stops there. *)
Lemma dir_chain_ancestors r gs fuel :
  Forall good_elem (r ++ gs) → length gs < fuel →
  dir_chain fuel (unsplit true r) (unsplit true (r ++ gs)) =
  map (λ k, unsplit true (r ++ take k gs)) (rev (List.seq 0 (S (length gs)))).
Proof.
  revert fuel. induction gs as [|x gs IH] using rev_ind; intros [|fuel] Hg Hf; try (simpl in Hf; lia).
  { cbn. by rewrite app_nil_r, String.eqb_refl. }
  rewrite length_app in *. cbn [length] in *. rewrite Nat.add_1_r in *.
  rewrite seq_S, rev_app_distr. cbn [rev app map dir_chain].
  assert (Forall good_elem (r ++ gs)) as Hg' by (rewrite app_assoc in Hg; by apply Forall_app in Hg as [? _]).
  rewrite (proj2 (String.eqb_neq _ _)).
  2:{ intros E. apply unsplit_inj in E; [|done|by apply Forall_app in Hg as [? _]].
      apply (f_equal length) in E. rewrite !length_app in E. simpl in E. lia. }
  rewrite (app_assoc r), Dir_snoc by (by rewrite <-app_assoc).
  rewrite (proj2 (String.eqb_neq _ _)).
  2:{ intros E. apply unsplit_inj in E; [|done|by rewrite <-app_assoc].
      apply (f_equal length) in E. rewrite !length_app in E. simpl in E. lia. }
  f_equal.
  - rewrite take_ge by (rewrite length_app; simpl; lia). by rewrite app_assoc.
  - rewrite IH by (done || lia). apply map_ext_in. intros k Hk.
    rewrite <- in_rev, in_seq in Hk. by rewrite take_app_le by lia.
Qed.

Lemma unsplit_length l : Forall good_elem l → length l ≤ String.length (unsplit true l).
Proof.
  induction 1 as [|x l (Hx & _) _ IH]; [cbn; lia|]. cbn in IH |- *.
  destruct l; [destruct x; [done|cbn; lia]|]. rewrite !str_length_app. cbn -[Join] in *. lia.
Qed.

(** The fuel of [chain_of] is enough. *)
Lemma chain_of_ancestors r gs :
  Forall good_elem (r ++ gs) →
  chain_of (unsplit true r) (unsplit true (r ++ gs)) =
  map (λ k, unsplit true (r ++ take k gs)) (rev (List.seq 0 (S (length gs)))).
Proof.
  intros Hg. apply dir_chain_ancestors; [done|]. apply unsplit_length in Hg.
  rewrite length_app in Hg. lia.
Qed.

Lemma inside_unsplit r gs : r ≠ [] → inside (unsplit true r) (unsplit true (r ++ gs)) = true.
Proof.
  intros Hr. destruct (decide (gs = [])) as [->|Hne]; [by rewrite app_nil_r, inside_refl|].
  rewrite unsplit_app by done. apply inside_app.
Qed.

Lemma chain_of_inside r gs :
  r ≠ [] → Forall good_elem (r ++ gs) →
  Forall (λ d, inside (unsplit true r) d = true) (chain_of (unsplit true r) (unsplit true (r ++ gs))).
Proof.
  intros Hr Hg. rewrite chain_of_ancestors by done. apply List.Forall_map, List.Forall_forall.
  intros k _. by apply inside_unsplit.
Qed.

(** ** Lemmas: the paths a change of ownership touches *)

(** The calls that set an owner or a mode, and the calls that look. *)
Definition ownership_op (o : agent_op) : Prop :=
  match o with
  | OsLstat _ | OsWalkDir _ | OsChown _ _ _ | OsLchown _ _ _ | OsChmod _ _ => True
  | _ => False
  end.

(** What is relied on of [filepath.WalkDir]: the paths it reports are the
    directory it was given and paths below it. *)
Definition walks_below (tr : list (event agent_sig)) : Prop :=
  ∀ p entries, did (OsWalkDir p) entries tr →
    Forall (λ e, inside p (we_Path e) = true) entries.

(** Every look at [p] found a directory. *)
Definition seen_as_dir (p : string) (tr : list (event agent_sig)) : Prop :=
  ∀ r, did (OsLstat p) r tr → ∃ info, r = Ok info ∧ info_IsDir info = true.

Lemma walks_below_app tr1 tr2 : walks_below (tr1 ++ tr2) ↔ walks_below tr1 ∧ walks_below tr2.
Proof. unfold walks_below. setoid_rewrite did_app. naive_solver. Qed.

Lemma seen_as_dir_app p tr1 tr2 :
  seen_as_dir p (tr1 ++ tr2) ↔ seen_as_dir p tr1 ∧ seen_as_dir p tr2.
Proof. unfold seen_as_dir. setoid_rewrite did_app. naive_solver. Qed.

(** [touches Q tr]: only ownership calls, and only on paths in [Q]. *)
Definition touches (Q : string → Prop) (tr : list (event agent_sig)) : Prop :=
  Forall ownership_op (ops tr) ∧ Forall Q (mutated tr).

Lemma touches_app Q tr1 tr2 : touches Q (tr1 ++ tr2) ↔ touches Q tr1 ∧ touches Q tr2.
Proof. unfold touches. rewrite ops_app, mutated_app, !Forall_app. tauto. Qed.

Lemma touches_one (Q : string → Prop) p info policy tr r :
  Q p → exec (applyOwnershipToOne p info policy) tr r → touches Q tr.
Proof.
  intros HQ Hex. unfold applyOwnershipToOne in Hex.
  assert (∀ o (a : agent_ans o), ownership_op o → Forall Q (mutates o) →
            touches Q [Ev (S:=agent_sig) o a]) as Hone.
  { intros o a Ho Hm. unfold touches. cbn. rewrite app_nil_r. by repeat constructor. }
  assert (touches Q []) as Hnil by (by split).
  exec_inv.
  - apply touches_app. split.
    + destruct (own_UID policy), (own_GID policy), (info_IsSymlink info); exec_inv;
        auto; apply Hone; cbn; auto.
    + destruct (info_IsSymlink info); [by exec_inv|].
      destruct (info_IsDir info); [destruct (own_DirMode policy)|destruct (own_FileMode policy)];
        exec_inv; auto; apply Hone; cbn; auto.
  - destruct (own_UID policy), (own_GID policy), (info_IsSymlink info); exec_inv;
      auto; apply Hone; cbn; auto.
Qed.

Lemma touches_look (Q : string → Prop) p r : touches Q [Ev (S:=agent_sig) (OsLstat p) r].
Proof. split; cbn; by repeat constructor. Qed.

Lemma touches_nil (Q : string → Prop) : touches Q [].
Proof. by split. Qed.

#[local] Hint Resolve touches_look touches_nil : sv.

Lemma touches_dirs (Q : string → Prop) dirs policy tr r :
  Forall Q dirs → exec (own_dirs dirs policy) tr r → touches Q tr.
Proof.
  revert tr. induction dirs as [|d dirs IH]; intros tr HQ Hex; cbn [own_dirs] in Hex.
  { exec_inv. auto with sv. }
  apply Forall_cons in HQ as [Hd HQ]. exec_inv. apply touches_app. split; [auto with sv|].
  destruct a as [info|e].
  - exec_inv; [apply touches_app; split; [|by eapply IH]|]; by eapply touches_one.
  - destruct (IsNotExist e); exec_inv; auto with sv.
Qed.

Lemma touches_entries (Q : string → Prop) entries policy tr r :
  Forall (λ e, Q (we_Path e)) entries → exec (try_each entries (own_entry policy)) tr r →
  touches Q tr.
Proof.
  revert tr. induction entries as [|d entries IH]; intros tr HQ Hex; cbn [try_each] in Hex.
  { exec_inv. auto with sv. }
  apply Forall_cons in HQ as [Hd HQ].
  assert (∀ tr r, exec (own_entry policy d) tr r → touches Q tr) as Hentry.
  { intros tr' r' H. unfold own_entry in H. destruct (we_Err d) as [e|].
    { destruct (IsNotExist e); exec_inv; auto with sv. }
    destruct (we_Info d) as [info|e]; [by eapply touches_one|].
    destruct (IsNotExist e); exec_inv; auto with sv. }
  exec_inv; [|eauto]. apply touches_app. split; [eauto|]. by apply IH.
Qed.

(** The directory from which the owner is set upwards lies below the root
    unless the root itself is not a directory. *)
Lemma touches_parents r gs policy tr res :
  r ≠ [] → Forall good_elem (r ++ gs) →
  exec (applyOwnershipToParentDirs (unsplit true r) (unsplit true (r ++ gs)) policy) tr res →
  (gs = [] → seen_as_dir (unsplit true r) tr) →
  touches (λ p, inside (unsplit true r) p = true) tr.
Proof.
  intros Hr Hg Hex Hdir. unfold applyOwnershipToParentDirs in Hex. exec_inv.
  apply touches_app. split; [auto with sv|].
  destruct (decide (gs = [])) as [->|Hne].
  - apply seen_as_dir_app in Hdir as [Hdir _]; [|done]. rewrite app_nil_r in *. destruct (Hdir a) as (info & -> & Hi); [apply did_here|].
    rewrite Hi in Hex. eapply touches_dirs; [|done].
    pose proof (chain_of_inside r [] Hr) as H. rewrite app_nil_r in H. by apply H.
  - assert (∃ gs', Dir (unsplit true (r ++ gs)) = unsplit true (r ++ gs') ∧
                   Forall good_elem (r ++ gs')) as (gs' & HD & Hg').
    { destruct gs as [|x gs _] using rev_ind; [done|]. exists gs. rewrite app_assoc in Hg |- *.
      split; [by apply Dir_snoc|by apply Forall_app in Hg as [? _]]. }
    rewrite HD in Hex.
    destruct a as [info|e]; [destruct (info_IsDir info)|destruct (IsNotExist e); [|exec_inv; auto with sv]];
      (eapply touches_dirs; [|exact Hex]); by apply chain_of_inside.
Qed.

(** The paths that pass the [Rel] check extend the root. *)
Lemma Rel_below root target rel :
  IsAbs root = true → IsAbs target = true →
  Rel root target = Ok rel → String.eqb rel ".." || HasPrefix rel "../" = false →
  elems root `prefix_of` elems target.
Proof.
  intros Hr Ht E H. pose proof (ensurePathInside_abs root target Hr Ht) as Ho.
  unfold ensurePathInside in Ho. rewrite E in Ho. cbn [rbind] in Ho. rewrite H in Ho. symmetry in Ho. by apply bool_decide_eq_true in Ho.
Qed.

Lemma Clean_abs p : IsAbs p = true → Clean p = unsplit true (elems p).
Proof. intros H. unfold Clean. by rewrite H. Qed.

Lemma touches_policy root target policy recursive tr res :
  IsAbs root = true → IsAbs target = true → elems root ≠ [] →
  exec (ApplyOwnershipPolicy root target policy recursive) tr res →
  walks_below tr → (elems target = elems root → seen_as_dir (Clean root) tr) →
  touches (λ p, inside (Clean root) p = true) tr.
Proof.
  intros Hr Ht Hne Hex Hwalk Hdir. unfold ApplyOwnershipPolicy in Hex.
  destruct (Ownership_Empty policy); [exec_inv; auto with sv|].
  destruct (Rel (Clean root) (Clean target)) as [rel|] eqn:Erel; [|exec_inv; auto with sv].
  destruct (String.eqb rel ".." || _) eqn:Eb; [exec_inv; auto with sv|].
  apply Rel_below in Erel as [gs Hgs]; [|by rewrite IsAbs_Clean..|done].
  rewrite !elems_Clean in Hgs.
  assert (Forall good_elem (elems root ++ gs)) as Hg by (rewrite <-Hgs; by apply elems_abs_good).
  rewrite (Clean_abs root), (Clean_abs target), Hgs in * by done.
  assert (inside (unsplit true (elems root)) (unsplit true (elems root ++ gs)) = true) as Hin
    by (by apply inside_unsplit).
  assert (gs = [] → seen_as_dir (unsplit true (elems root)) tr) as Hdir'
    by (intros ->; apply Hdir, app_nil_r).
  clear Hdir. exec_step Hex; [apply walks_below_app in Hwalk as [Hw1 Hw2]|by eapply touches_parents].
  assert (gs = [] → seen_as_dir (unsplit true (elems root)) tr0) as Hdir
    by (intros E; by apply Hdir', seen_as_dir_app in E as [? _]).
  apply touches_app; split; [by eapply touches_parents|]. exec_inv. apply touches_app; split; [auto with sv|].
  destruct a0 as [info|e]; [|destruct (IsNotExist e); exec_inv; auto with sv].
  destruct (recursive && info_IsDir info); [|by eapply touches_one].
  exec_inv. apply walks_below_app in Hw2 as [_ Hw2]. apply walks_below_app in Hw2 as [Hw _].
  apply touches_app. split; [split; cbn; by repeat constructor|].
  eapply touches_entries; [|done]. eapply Forall_impl; [by apply Hw, did_here|].
  intros e He. cbn in He. by eapply inside_trans.
Qed.

(** Setting the ownership issues no other calls, whatever the paths. *)
Lemma policy_ops root target policy recursive :
  calls_only (S:=agent_sig) ownership_op (ApplyOwnershipPolicy root target policy recursive).
Proof.
  assert (∀ tr, touches (λ _, True) tr → Forall (λ e : event agent_sig, ownership_op (ev_op e)) tr) as Hops.
  { intros tr [H _]. by apply (proj1 (List.Forall_map _ _ _)) in H. }
  assert (∀ l : list string, Forall (λ _, True) l) as Htrue by (intros l; by apply Forall_true).
  assert (∀ dirs, calls_only (S:=agent_sig) ownership_op (own_dirs dirs policy)) as Hdirs.
  { intros dirs tr r H. by eapply Hops, touches_dirs. }
  unfold ApplyOwnershipPolicy. destruct (Ownership_Empty policy); [auto with sv|].
  destruct (Rel _ _); [|auto with sv]. destruct (_ || _); [auto with sv|].
  apply calls_only_try.
  { unfold applyOwnershipToParentDirs. apply calls_only_bind; [by apply calls_only_call|].
    intros [info|e]; [done|]. destruct (IsNotExist e); auto with sv. }
  intros _. apply calls_only_bind; [by apply calls_only_call|].
  intros [info|e]; [|destruct (IsNotExist e); auto with sv].
  destruct (recursive && _).
  - apply calls_only_bind; [by apply calls_only_call|]. intros es tr r H.
    eapply Hops, touches_entries; [|done]. by apply Forall_true.
  - intros tr r H. by eapply Hops, touches_one.
Qed.

Lemma IsAbs_join root c : IsAbs root = true → IsAbs (join [root; c]) = true.
Proof.
  intros Hr. destruct root as [|x root]; [done|]. unfold join.
  rewrite filter_cons_True by done.
  destruct (filter _ [c]); rewrite IsAbs_Clean; exact Hr.
Qed.

Lemma touches_for_filter root f policy tr res :
  IsAbs root = true → elems root ≠ [] →
  exec (ApplyOwnershipPolicyForFilter root f policy) tr res →
  walks_below tr → seen_as_dir (Clean root) tr →
  touches (λ p, inside (Clean root) p = true) tr.
Proof.
  intros Hr Hne Hex. unfold ApplyOwnershipPolicyForFilter in Hex.
  destruct (Ownership_Empty policy); [exec_inv; auto with sv|].
  destruct (Nat.eqb _ 0);
    [intros Hw Hd; by eapply (touches_policy root root); [..|intros _]|]. revert Hex.
  generalize (∅ : gset string) as seen. revert tr.
  induction (pf_IncludePaths f) as [|i l IH]; intros tr seen Hex Hw Hd; cbn [own_includes] in Hex.
  { exec_inv. auto with sv. }
  destruct (String.eqb (filterStaticPrefix i) ""); [by eapply (touches_policy root root); [..|intros _]|].
  destruct (NormalizeEventPath _) as [c|]; [|exec_inv; auto with sv].
  destruct (bool_decide _); [by eapply IH|].
  exec_inv; [|by eapply (touches_policy root (join [root; c])); [|apply IsAbs_join|..|intros _]].
  apply walks_below_app in Hw as [? ?]. apply seen_as_dir_app in Hd as [? ?].
  apply touches_app. split; [|by eapply IH].
  by eapply (touches_policy root (join [root; c])); [|apply IsAbs_join|..|intros _].
Qed.

(** The two conditions on a given trace, as executable checks. *)
Definition walks_check (tr : list (event agent_sig)) : bool :=
  forallb (λ e : event agent_sig,
    match e with
    | Ev o r =>
        match o return agent_ans o → bool with
        | OsWalkDir p => λ entries, forallb (λ d, inside p (we_Path d)) entries
        | _ => λ _, true
        end r
    end) tr.

Definition dir_check (p : string) (tr : list (event agent_sig)) : bool :=
  forallb (λ e : event agent_sig,
    match e with
    | Ev o r =>
        match o return agent_ans o → bool with
        | OsLstat q => λ st, negb (String.eqb q p) ||
                             match st with Ok info => info_IsDir info | Err _ => false end
        | _ => λ _, true
        end r
    end) tr.

Lemma walks_check_ok tr : walks_check tr = true → walks_below tr.
Proof.
  unfold walks_check. rewrite forallb_forall. intros H p es Hd.
  apply list_elem_of_In, H in Hd. apply List.Forall_forall. by apply forallb_forall.
Qed.

Lemma dir_check_ok p tr : dir_check p tr = true → seen_as_dir p tr.
Proof.
  unfold dir_check. rewrite forallb_forall. intros H r Hd.
  apply list_elem_of_In, H in Hd. rewrite String.eqb_refl in Hd. destruct r; [eauto|done].
Qed.

(** ** Theorems *)

(** C35: Setting the ownership of a replicated path changes owners and
    modes only, and only of paths inside the volume, whatever path is
    asked for and whatever the file system answers, provided walking a
    directory reports paths below it and, when the target is the root of
    the volume itself, the root was a directory whenever it was looked at.
    A target outside the volume is refused before any call. *)
Theorem ownership_confined root target policy recursive tr res :
  IsAbs root = true → IsAbs target = true → elems root ≠ [] →
  exec (ApplyOwnershipPolicy root target policy recursive) tr res →
  walks_below tr → (elems target = elems root → seen_as_dir (Clean root) tr) →
  Forall ownership_op (ops tr) ∧
  Forall (λ p, inside (Clean root) p = true) (mutated tr) ∧
  (Ownership_Empty policy = false → ¬ elems root `prefix_of` elems target →
   tr = [] ∧ is_ok res = false).
Proof.
  intros Hr Ht Hne Hex Hw Hd.
  destruct (touches_policy root target policy recursive tr res) as [H1 H2]; [done..|].
  split; [done|]. split; [done|]. intros He Hp. unfold ApplyOwnershipPolicy in Hex.
  rewrite He in Hex. destruct (Rel _ _) as [rel|] eqn:Erel; [|by exec_inv].
  destruct (_ || _) eqn:Eb; [by exec_inv|]. destruct Hp.
  apply Rel_below in Erel; [|by rewrite IsAbs_Clean..|done]. by rewrite !elems_Clean in Erel.
Qed.

(** A volume with one file, and a policy for it. *)
Definition ex_world (root_info : FileInfo) : Mem.world :=
  Mem.mkWorld {["/" := Mem.dir_info; "/data" := Mem.dir_info; "/data/ns" := Mem.dir_info;
                "/data/ns/v" := root_info; "/data/ns/v/save" := Mem.file_info]} ∅ 0.
Definition ex_policy : OwnershipPolicy :=
  mkOwnershipPolicy (Some 1000%Z) (Some 1000%Z) (Some 416%Z) (Some 488%Z).

Lemma ownership_confined_witness :
  let r := Mem.run_on (ApplyOwnershipPolicy "/data/ns/v" "/data/ns/v/save" ex_policy true)
             (ex_world Mem.dir_info) in
  mutated (snd r) = ["/data/ns/v"; "/data/ns/v"; "/data/ns/v/save"; "/data/ns/v/save"] ∧
  Forall (λ p, inside "/data/ns/v" p = true) (mutated (snd r)).
Proof.
  set (p := ApplyOwnershipPolicy "/data/ns/v" "/data/ns/v/save" ex_policy true).
  split; [vm_compute; reflexivity|].
  destruct (ownership_confined "/data/ns/v" "/data/ns/v/save" ex_policy true
    (snd (Mem.run_on p (ex_world Mem.dir_info))) (fst (fst (Mem.run_on p (ex_world Mem.dir_info)))))
    as (_ & H & _); [reflexivity|reflexivity|discriminate|apply run_self| | |exact H].
  - apply walks_check_ok. vm_compute. reflexivity.
  - intros _. apply dir_check_ok. vm_compute. reflexivity.
Defined.

(** If the directory of a volume is a symbolic link to a directory,
    setting the ownership of the whole volume starts at the parent of the
    link and never meets the root: it changes the owner and the mode of
    the namespace directory, of the pool and of every directory above it
    up to "/". *)
Theorem ownership_climbs_from_symlink :
  let link := mkFileInfo 7 (ModeSymlink + 511) 0 0 0 in
  let r := Mem.run_on (ApplyOwnershipPolicyForFilter "/data/ns/v" (mkPathFilter [] [] false) ex_policy)
             (ex_world link) in
  fst (fst r) = Ok tt ∧
  ops (snd r) =
    [OsLstat "/data/ns/v";
     OsLstat "/data/ns"; OsChown "/data/ns" 1000 1000; OsChmod "/data/ns" 488;
     OsLstat "/data"; OsChown "/data" 1000 1000; OsChmod "/data" 488;
     OsLstat "/"; OsChown "/" 1000 1000; OsChmod "/" 488;
     OsLstat "/data/ns/v"; OsLchown "/data/ns/v" 1000 1000].
Proof. split; vm_compute; reflexivity. Qed.

(** The mode a file is given has the nine permission bits of the
    policy, and the three execute bits of the file that are already set
    stay set; every higher bit (set-user-id, set-group-id, sticky) is
    dropped. *)
Theorem file_mode_bits current desired i :
  (0 ≤ i)%Z →
  Z.testbit (fileModePreservingExecute current desired) i =
  (i <? 9)%Z && (Z.testbit desired i ||
                 Z.testbit current i && ((i =? 0) || (i =? 3) || (i =? 6))%Z).
Proof.
  intros Hi. unfold fileModePreservingExecute, Perm.
  rewrite Z.lor_spec, !Z.land_spec.
  destruct (decide (i < 9)%Z) as [Hlt|Hge].
  - assert (i = 0 ∨ i = 1 ∨ i = 2 ∨ i = 3 ∨ i = 4 ∨ i = 5 ∨ i = 6 ∨ i = 7 ∨ i = 8)%Z as Hc by lia.
    destruct_or! Hc; subst i; cbn [Z.testbit Pos.testbit Z.ltb Z.compare Z.eqb Pos.eqb Pos.compare
      Pos.compare_cont Pos.pred_N Pos.pred_double]; by rewrite ?andb_true_r, ?andb_false_r, ?orb_false_r.
  - assert (Z.testbit 511 i = false) as ->
      by (change 511%Z with (Z.ones 9); apply Z.ones_spec_high; lia).
    assert ((i <? 9)%Z = false) as -> by (apply Z.ltb_ge; lia).
    by rewrite !andb_false_r.
Qed.

Lemma file_mode_bits_witness :
  Z.testbit (fileModePreservingExecute 493 2468) 6 = true ∧
  Z.testbit (fileModePreservingExecute 493 2468) 11 = false.
Proof. split; rewrite file_mode_bits; [reflexivity|done|reflexivity|done]. Defined.

End Ownership.
