(* ===== verification/Apply.v ===== *)
(** * What an agent does with a batch, a full sync and a shadow

    [internal/agent/replication.go]: the receiving side of the
    replication.  rclone is run through [RunCommand], whose answer is the
    kept output and the error of the process; the runner is the
    [ExecRunner] the agent is started with. *)
From S2P Require Import Prelude GoStrings GoPath GoUrl GoTime Effects AgentEnv AgentMem AgentTypes.
From S2P Require Import Agent Filter Commands Ownership.

Module Apply.
Import Str Path Agent Filter Commands Ownership.

Definition requiredPathRepairTries : nat := 3.
Definition shadowManifestName : string := ".simple-volume-generation.json".

(** ** Running rclone *)
Definition runEventCopy (spec : CommandSpec) : prog agent_sig (result unit) :=
  r <- os_call (RunCommand spec) ;;
  match (r : string * option error) with
  | (_, None) => Ret (Ok tt)
  | (output, Some e) => Ret (Err (CommandErr e output))
  end.

Definition runFullSyncCommand (spec : CommandSpec) : prog agent_sig (result unit) :=
  r <- os_call (RunCommand spec) ;;
  match (r : string * option error) with
  | (_, None) => Ret (Ok tt)
  | (output, Some e) => Ret (Err (CommandErr e output))
  end.

(** ** Asking the source *)
Inductive sourceExistsResult : Type :=
| sourceExistsUnknown
| sourceExistsYes
| sourceExistsNo.

Definition sourceBasePath (namespace volume override : string) : string :=
  if negb (is_empty (TrimSpace override)) then Trim is_slash (ToSlashes override)
  else join [safeSegment namespace; safeSegment volume].

(** The loop over the candidates. *)
Fixpoint probe (source : SourceRef) (base : Url.URL) (candidates : list string)
    (sawMissing sawUnknown : bool) : prog agent_sig (result sourceExistsResult) :=
  match candidates with
  | [] => Ret (Ok (if sawMissing then sourceExistsNo
                   else if sawUnknown then sourceExistsUnknown else sourceExistsUnknown))
  | candidate :: l =>
      match Url.Parse candidate with
      | Err e => Ret (Err e)
      | Ok rel =>
          r <- os_call (HttpHead (Url.URL_String (Url.ResolveReference base rel)) (src_User source) (src_Password source)) ;;
          match r with
          | HeadInvalid e => Ret (Err e)
          | HeadFailed => Ret (Ok sourceExistsUnknown)
          | HeadStatus status =>
              if ((status =? 200) || (status =? 204) || (status =? 206))%Z then
                Ret (Ok sourceExistsYes)
              else if ((status =? 404) || (status =? 410))%Z then probe source base l true sawUnknown
              else if (status =? 405)%Z then probe source base l sawMissing true
              else Ret (Ok sourceExistsUnknown)
          end
      end
  end.

Definition source_base (source : SourceRef) : string :=
  TrimRight is_slash (src_WebDAVURL source) +:+ "/".

(** The path as a file and, unless it already ends in a slash, as a
    directory. *)
Definition candidates (sourcePath : string) : list string :=
  let candidate := join [Trim is_slash sourcePath] in
  candidate :: (if HasSuffix sourcePath "/" then [] else [candidate +:+ "/"]).

Definition sourcePathExists (source : SourceRef) (sourcePath : string)
  : prog agent_sig (result sourceExistsResult) :=
  if is_empty (TrimSpace (src_WebDAVURL source)) then Ret (Ok sourceExistsUnknown)
  else
    match Url.Parse (source_base source) with
    | Err e => Ret (Err e)
    | Ok base => probe source base (candidates sourcePath) false false
    end.

(** ** A batch of events *)
(** The [default] branch: copy the path from the source. *)
Definition apply_upsert (targetRoot : string) (batch : EventBatch) (event : FileEvent)
  : prog agent_sig (result unit) :=
  let sourcePath := join [sourceBasePath (eb_Namespace batch) (eb_Volume batch)
                            (eb_SourceBasePath batch); ev_Path event] in
  let targetPath := join [targetRoot; ev_Path event] in
  exists_ <-! sourcePathExists (eb_Source batch) sourcePath ;;
  match exists_ with
  | sourceExistsNo => Ret (Ok tt)
  | _ =>
      match BuildRcloneCopyToCommand (eb_Source batch) sourcePath targetPath with
      | Err e => Ret (Err e)
      | Ok spec =>
          copied <- runEventCopy spec ;;
          match copied with
          | Err e =>
              again <- sourcePathExists (eb_Source batch) sourcePath ;;
              match again with
              | Err _ => Ret (Err e)
              | Ok sourceExistsNo => Ret (Ok tt)
              | Ok _ => if isMissingSourceCopyError e then Ret (Ok tt) else Ret (Err e)
              end
          | Ok _ => ApplyOwnershipPolicy targetRoot targetPath (eb_Ownership batch) true
          end
      end
  end.

Definition apply_event (targetRoot : string) (batch : EventBatch) (event : FileEvent)
  : prog agent_sig (result unit) :=
  match ev_Op event with
  | EventOpDelete =>
      if eb_DeletesAuthoritative batch then
        let targetPath := join [targetRoot; ev_Path event] in
        match ensurePathInside targetRoot targetPath with
        | Err e => Ret (Err e)
        | Ok _ => os_call (OsRemoveAll targetPath)
        end
      else Ret (Ok tt)
  | _ => apply_upsert targetRoot batch event
  end.

(** [CoalesceEvents] as a list: it never indexes out of range, see
    [coalesce_spec]. *)
Definition coalesced (events : list FileEvent) (f : PathFilter) : list FileEvent :=
  default [] (CoalesceEvents events f).

Definition no_filter : PathFilter := mkPathFilter [] [] false.

Definition ApplyEventBatch (pool : Pool) (batch : EventBatch) : prog agent_sig (result unit) :=
  targetRoot <-! EnsureVolumePath
                   (mkVolumePath pool (eb_Namespace batch) (eb_Volume batch) "") 493 ;;
  try_each (coalesced (eb_Events batch) no_filter) (apply_event targetRoot batch).

(** ** A full sync *)
Definition validateFullSyncRequiredPaths (source : SourceRef) (sourceVolume : string)
    (requiredPaths : list string) : prog agent_sig (result unit) :=
  try_each requiredPaths (λ required,
    match NormalizeEventPath required with
    | Err e => Ret (Err (Wrapf "required path %q: %w" [required] e))
    | Ok clean =>
        let sourcePath := join [Trim is_slash sourceVolume; clean] in
        exists_ <- sourcePathExists source sourcePath ;;
        match exists_ with
        | Err e => Ret (Err (Wrapf "check required source path %s: %w" [clean] e))
        | Ok sourceExistsYes => Ret (Ok tt)
        | Ok _ => Ret (Err (Errorf "required source path missing: %s" [clean]))
        end
    end).

(** The attempts for one required path; [lastErr] is the error of the
    last one. *)
Fixpoint repair (tries : nat) (source : SourceRef) (clean sourcePath targetPath : string)
    (lastErr : result unit) : prog agent_sig (result unit) :=
  match tries with
  | 0 => Ret lastErr
  | S tries =>
      synced <- runFullSyncCommand (BuildRclonePathSyncCommand source sourcePath targetPath) ;;
      match synced with
      | Err e => repair tries source clean sourcePath targetPath
                   (Err (Wrapf "required target path repair sync failed %s: %w" [clean] e))
      | Ok _ =>
          st <- os_call (OsStat targetPath) ;;
          match st with
          | Err e =>
              if IsNotExist e then
                repair tries source clean sourcePath targetPath
                  (Err (Errorf "required target path missing after full sync: %s" [clean]))
              else Ret (Err (Wrapf "check required target path %s: %w" [clean] e))
          | Ok _ =>
              checked <- runFullSyncCommand (BuildRcloneCheckCommand source sourcePath targetPath) ;;
              match checked with
              | Err e => repair tries source clean sourcePath targetPath
                           (Err (Wrapf "required target path failed post-sync check %s: %w" [clean] e))
              | Ok _ => Ret (Ok tt)
              end
          end
      end
  end.

Definition validateFullSyncTargetRequiredPaths (source : SourceRef)
    (sourceVolume targetRoot : string) (requiredPaths : list string)
  : prog agent_sig (result unit) :=
  try_each requiredPaths (λ required,
    match NormalizeEventPath required with
    | Err e => Ret (Err (Wrapf "required path %q: %w" [required] e))
    | Ok clean =>
        repair requiredPathRepairTries source clean
          (join [Trim is_slash sourceVolume; clean]) (join [targetRoot; clean]) (Ok tt)
    end).

Definition forceSyncIncludedFiles (source : SourceRef) (sourceVolume targetRoot : string)
    (includePaths : list string) : prog agent_sig (result unit) :=
  try_each includePaths (λ include,
    match exactIncludePath include with
    | Err e => Ret (Err e)
    | Ok None => Ret (Ok tt)
    | Ok (Some clean) =>
        let sourcePath := join [Trim is_slash sourceVolume; clean] in
        exists_ <- sourcePathExists source sourcePath ;;
        match exists_ with
        | Err e => Ret (Err (Wrapf "check included source path %s: %w" [clean] e))
        | Ok sourceExistsNo => Ret (Ok tt)
        | Ok _ =>
            match BuildRcloneCopyToCommand source sourcePath (join [targetRoot; clean]) with
            | Err e => Ret (Err e)
            | Ok spec =>
                copied <- runFullSyncCommand spec ;;
                match copied with
                | Ok _ => Ret (Ok tt)
                | Err e =>
                    if isMissingSourceCopyError e then Ret (Ok tt)
                    else Ret (Err (Wrapf "force sync included file %s: %w" [clean] e))
                end
            end
        end
    end).

Definition request_filter (req : FullSyncRequest) : PathFilter :=
  mkPathFilter (fs_IncludePaths req) (fs_ExcludePaths req) (fs_PruneExcluded req).

Definition ApplyFullSyncWithToken (pool : Pool) (req : FullSyncRequest) (token : string)
  : prog agent_sig (result unit) :=
  if is_empty (fs_Volume req) then Ret (Err (Errorf "volume is required" []))
  else if is_empty (src_WebDAVURL (fs_Source req)) then
    Ret (Err (Errorf "source.webdavUrl is required" []))
  else
    let volumePath := mkVolumePath pool (fs_Namespace req) (fs_Volume req) "" in
    _ <-! (if fs_BackupExisting req then
             now <- os_call TimeNow ;;
             _ <-! BackupVolumePath volumePath now ;;
             Ret (Ok tt)
           else Ret (Ok tt)) ;;
    targetRoot <-! EnsureVolumePath volumePath 493 ;;
    let sourceVolume := sourceBasePath (fs_Namespace req) (fs_Volume req) (fs_SourceBasePath req) in
    _ <-! validateFullSyncRequiredPaths (fs_Source req) sourceVolume (fs_RequiredPaths req) ;;
    _ <-! runFullSyncCommand
            (BuildRcloneFullSyncCommand (fs_Source req) sourceVolume targetRoot (request_filter req)) ;;
    _ <-! forceSyncIncludedFiles (fs_Source req) sourceVolume targetRoot (fs_IncludePaths req) ;;
    _ <-! validateFullSyncTargetRequiredPaths (fs_Source req) sourceVolume targetRoot
            (fs_RequiredPaths req) ;;
    ApplyOwnershipPolicyForFilter targetRoot (request_filter req) (fs_Ownership req).

Definition ApplyFullSync (pool : Pool) (req : FullSyncRequest) : prog agent_sig (result unit) :=
  ApplyFullSyncWithToken pool req "".

End Apply.
