(* ===== verification/ApplyProps.v ===== *)
(** * Properties of the receiving side

    Where a batch and a full sync may write, what they do with the
    answers of the source, and what their success means. *)
From S2P Require Import Prelude GoStrings GoPath GoUrl GoTime Effects AgentEnv AgentMem AgentTypes.
From S2P Require Import Agent Filter Commands Ownership Apply.

Module ApplyProps.
Import Str Path Agent Filter Commands Ownership Apply.

(** ** The directory of a volume *)
Definition volume_root (pool : Pool) (ns volume : string) : string :=
  below pool (volume_elems ns volume).

(** A pool the agent can use: an absolute path other than "/". *)
Definition usable (pool : Pool) : Prop := pool_ok pool ∧ IsAbs (pool_Path pool) = true.

(** A command that names its target last writes inside [root]. *)
Definition command_inside (root : string) (o : agent_op) : Prop :=
  match o with
  | RunCommand spec => ∃ t, last (cmd_Args spec) = Some t ∧ inside root t = true
  | _ => True
  end.

(** Everything a trace changes lies inside [root]. *)
Definition stays_inside (root : string) (tr : list (event agent_sig)) : Prop :=
  Forall (λ p, inside root p = true) (mutated tr) ∧ Forall (command_inside root) (ops tr).

Section volume.
Context (pool : Pool) (Hpool : usable pool) (ns volume : string).
Let root := volume_root pool ns volume.

Lemma volume_elems_good : Forall good_elem (volume_elems ns volume).
Proof. unfold volume_elems. good_elems. Qed.

Lemma below_facts l :
  Forall good_elem l → l ≠ [] →
  IsAbs (below pool l) = true ∧ Clean (below pool l) = below pool l ∧ elems (below pool l) ≠ [].
Proof.
  intros Hl Hne. destruct Hpool as [Hp Ha].
  destruct (join_below pool l) as [_ E]; [done..|].
  assert (Clean (pool_Path pool) ≠ "") as Hc by apply Clean_ne.
  destruct (elems_app_good (Clean (pool_Path pool)) l) as [H1 H2]; [done..|].
  split; [unfold below; by rewrite H1, IsAbs_Clean|]. split; [done|].
  unfold below. rewrite H2. by intros [_ ?]%app_nil.
Qed.

Lemma root_facts : IsAbs root = true ∧ Clean root = root ∧ elems root ≠ [].
Proof. apply below_facts; [apply volume_elems_good|done]. Qed.

Lemma resolve_root gen : ResolveVolumePath (mkVolumePath pool ns volume gen) = Ok root.
Proof. by rewrite ResolveVolumePath_below by apply Hpool. Qed.
End volume.

(** A normalised path joined to a directory stays inside it. *)
Lemma join_normal_inside root p c :
  IsAbs root = true → Clean root = root → elems root ≠ [] → NormalizeEventPath p = Ok c →
  inside root (join [root; c]) = true.
Proof.
  intros Ha Hc Hne Hn. assert (root ≠ "") as Hr0 by (by intros ->).
  rewrite (normalize_join root p c Hr0 Hn), Ha. rewrite <-Hc at 1. rewrite Clean_abs by done.
  by apply inside_unsplit.
Qed.

(** The directory itself is only named by "/". *)
Lemma join_normal_strict root p c :
  IsAbs root = true → NormalizeEventPath p = Ok c → c ≠ "/" → elems (join [root; c]) ≠ elems root.
Proof.
  intros Ha Hn Hc E. assert (root ≠ "") as Hr0 by (by intros ->).
  rewrite (normalize_join root p c Hr0 Hn), Ha in E.
  apply normalize_ok in Hn as (Hcl & Hgs & Hne).
  rewrite elems_unsplit in E.
  2:{ exists 0, (elems root ++ elems c). split; [done|]. split; [|done].
      apply Forall_app. by split; [apply elems_abs_good|]. }
  assert (elems c = []) as E0 by (destruct (elems c); [done|];
    apply (f_equal length) in E; rewrite length_app in E; simpl in E; lia).
  apply Hc. rewrite <-Hcl. unfold Clean. rewrite E0. destruct (IsAbs c); [done|by destruct Hne].
Qed.

(** ** Traces that stay inside *)
Lemma stays_nil root : stays_inside root [].
Proof. by split. Qed.

Lemma stays_app root tr1 tr2 :
  stays_inside root (tr1 ++ tr2) ↔ stays_inside root tr1 ∧ stays_inside root tr2.
Proof. unfold stays_inside. rewrite mutated_app, ops_app, !Forall_app. tauto. Qed.

Lemma stays_one root o (r : agent_ans o) :
  Forall (λ p, inside root p = true) (mutates o) → command_inside root o →
  stays_inside root [Ev (S:=agent_sig) o r].
Proof. intros H1 H2. split; cbn; [by rewrite app_nil_r|by repeat constructor]. Qed.

(** A call that changes nothing. *)
Definition harmless (o : agent_op) : Prop :=
  mutates o = [] ∧ ∀ spec, o ≠ RunCommand spec.

Lemma stays_harmless root tr : Forall (λ e : event agent_sig, harmless (ev_op e)) tr → stays_inside root tr.
Proof.
  induction 1 as [|[o r] tr [Hm Hc] _ IH]; [apply stays_nil|].
  change (Ev o r :: tr) with ([Ev (S:=agent_sig) o r] ++ tr). apply stays_app. split; [|done].
  cbn in Hm, Hc. apply stays_one; [by rewrite Hm|]. destruct o; try done. by destruct (Hc spec).
Qed.

Lemma harmless_probe source base candidates m u :
  calls_only (S:=agent_sig) harmless (probe source base candidates m u).
Proof.
  revert m u. induction candidates as [|c l IH]; intros m u; cbn [probe]; [auto with sv|].
  destruct (Url.Parse c); [|auto with sv]. apply calls_only_bind; [apply calls_only_call; by split|]. intros [e| |code]; auto with sv.
  repeat (destruct (_ : bool); auto with sv).
Qed.

Lemma harmless_exists source p : calls_only (S:=agent_sig) harmless (sourcePathExists source p).
Proof.
  unfold sourcePathExists. destruct (is_empty _); [auto with sv|].
  destruct (Url.Parse _); [apply harmless_probe|auto with sv].
Qed.

Lemma stays_exists root source p tr r :
  exec (sourcePathExists source p) tr r → stays_inside root tr.
Proof. intros H. by eapply stays_harmless, harmless_exists. Qed.

Lemma stays_run root spec t tr r :
  last (cmd_Args spec) = Some t → inside root t = true →
  exec (runFullSyncCommand spec) tr r → stays_inside root tr.
Proof.
  intros Hl Hi Hex. unfold runFullSyncCommand in Hex. exec_inv. apply stays_app.
  split; [apply stays_one; [constructor|by exists t]|].
  destruct a as [out [e|]]; exec_inv; apply stays_nil.
Qed.

Lemma stays_touches root tr :
  touches (λ p, inside root p = true) tr → stays_inside root tr.
Proof.
  intros [H1 H2]. split; [done|]. eapply Forall_impl; [exact H1|]. by intros [].
Qed.

(** ** Targets of the commands *)
Lemma last_two (l : list string) a b : last (l ++ [a; b]) = Some b.
Proof. change [a; b] with ([a] ++ [b]). by rewrite app_assoc, last_snoc. Qed.

Lemma copy_target source src t spec :
  BuildRcloneCopyToCommand source src t = Ok spec → last (cmd_Args spec) = Some t.
Proof.
  unfold BuildRcloneCopyToCommand. destruct (NormalizeEventPath src) as [c|]; [|done].
  cbn [rbind]. intros E.
  change (match Ok spec with Ok s => last (cmd_Args s) | Err _ => None end = Some t).
  rewrite <-E. cbn [cmd_Args]. rewrite app_assoc. apply last_two.
Qed.

Lemma full_sync_target source v t f :
  last (cmd_Args (BuildRcloneFullSyncCommand source v t f)) = Some t.
Proof. cbn [cmd_Args BuildRcloneFullSyncCommand]. rewrite !app_assoc. apply last_two. Qed.

Lemma check_target source p t : last (cmd_Args (BuildRcloneCheckCommand source p t)) = Some t.
Proof. cbn [cmd_Args BuildRcloneCheckCommand]. rewrite !app_assoc. apply last_two. Qed.

Lemma path_sync_target source p t :
  last (cmd_Args (BuildRclonePathSyncCommand source p t)) = Some t.
Proof. cbn [cmd_Args BuildRclonePathSyncCommand]. rewrite !app_assoc. apply last_two. Qed.

(** The condition on the answers of the file system, closed under taking
    parts of the trace. *)
Definition sane (root : string) (tr : list (event agent_sig)) : Prop :=
  walks_below tr ∧ seen_as_dir root tr.

Lemma sane_app root tr1 tr2 : sane root (tr1 ++ tr2) ↔ sane root tr1 ∧ sane root tr2.
Proof. unfold sane. rewrite walks_below_app, seen_as_dir_app. tauto. Qed.

Ltac stays_parts :=
  repeat match goal with
  | H : sane _ (_ ++ _) |- _ => apply sane_app in H as [? ?]
  | H : walks_below (_ ++ _) |- _ => apply walks_below_app in H as [? ?]
  | |- stays_inside _ (_ ++ _) => apply stays_app; split
  end; eauto using stays_nil, stays_exists.

(** ** A batch of events *)
Section event.
Context (pool : Pool) (Hpool : usable pool) (batch : EventBatch).
Let root := volume_root pool (eb_Namespace batch) (eb_Volume batch).

Lemma stays_upsert e p tr r :
  NormalizeEventPath p = Ok (ev_Path e) → ev_Path e ≠ "/" →
  exec (apply_upsert root batch e) tr r → walks_below tr → stays_inside root tr.
Proof.
  intros Hn Hslash Hex Hs. destruct (root_facts pool Hpool (eb_Namespace batch) (eb_Volume batch))
    as (Ha & Hc & Hne). fold root in Ha, Hc, Hne.
  pose proof (join_normal_inside root p _ Ha Hc Hne Hn) as Hin.
  unfold apply_upsert in Hex. exec_inv; stays_parts.
  destruct a.
  3:{ exec_inv. stays_parts. }
  all: destruct (BuildRcloneCopyToCommand _ _ _) as [spec|] eqn:Eb; [|exec_inv; by stays_parts].
  all: exec_inv; stays_parts; [by eapply (stays_run root spec); [eapply copy_target| |]|].
  all: destruct a as [[]|err];
    [|exec_inv; stays_parts; destruct a as [[]|]; try destruct (isMissingSourceCopyError err);
      exec_inv; by stays_parts].
  all: apply stays_touches; rewrite <-Hc; eapply touches_policy;
    [done|by apply IsAbs_join|done|exact Hex|done|intros E; by apply (join_normal_strict root p) in E].
Qed.

Lemma stays_event e p tr r :
  NormalizeEventPath p = Ok (ev_Path e) → ev_Path e ≠ "/" →
  exec (apply_event root batch e) tr r → walks_below tr → stays_inside root tr.
Proof.
  intros Hn Hslash Hex Hs. unfold apply_event in Hex.
  destruct (ev_Op e); [by eapply stays_upsert| |by eapply stays_upsert].
  destruct (eb_DeletesAuthoritative batch); [|exec_inv; apply stays_nil].
  destruct (ensurePathInside root _); [|exec_inv; apply stays_nil].
  exec_inv. apply stays_one; [|done]. repeat constructor.
  destruct (root_facts pool Hpool (eb_Namespace batch) (eb_Volume batch)) as (Ha & Hc & Hne).
  by eapply join_normal_inside.
Qed.
End event.

(** ** What the answers of the source mean *)

(** The request for a parsed candidate. *)
Definition head (source : SourceRef) (base rel : Url.URL) : agent_op :=
  HttpHead (Url.URL_String (Url.ResolveReference base rel)) (src_User source) (src_Password source).

(** The source was asked for [sourcePath] and answered with [code]. *)
Definition answered (source : SourceRef) (sourcePath : string) (code : Z)
    (tr : list (event agent_sig)) : Prop :=
  ∃ base candidate rel, candidate ∈ candidates sourcePath ∧
    Url.Parse (source_base source) = Ok base ∧ Url.Parse candidate = Ok rel ∧
    did (head source base rel) (HeadStatus code) tr.

Definition present (code : Z) : Prop := (code = 200 ∨ code = 204 ∨ code = 206)%Z.
Definition missing (code : Z) : Prop := (code = 404 ∨ code = 410)%Z.

Lemma probe_spec source base l m u tr r :
  exec (probe source base l m u) tr (Ok r) →
  let asked P := ∃ c rel code, c ∈ l ∧ P code ∧ Url.Parse c = Ok rel ∧
    did (head source base rel) (HeadStatus code) tr in
  (r = sourceExistsYes → asked present) ∧ (r = sourceExistsNo → m = true ∨ asked missing).
Proof.
  revert m u tr. induction l as [|c l IH]; intros m u tr Hex; cbn [probe] in Hex.
  { exec_inv. destruct m, u; split; auto; discriminate. }
  destruct (Url.Parse c) as [rel|] eqn:Ec; [|exec_inv; done]. fold (head source base rel) in Hex.
  exec_inv. cbv zeta in IH |- *. destruct a as [e| |code]; [exec_inv; done..|].
  assert (∀ (P : Z → Prop), P code → ∃ c' rel' code', c' ∈ c :: l ∧ P code' ∧ Url.Parse c' = Ok rel' ∧
    did (head source base rel') (HeadStatus code')
      ([Ev (S:=agent_sig) (head source base rel) (HeadStatus code)] ++ tr1)) as Hhere.
  { intros P HP. exists c, rel, code. split; [left|]. split; [done|]. split; [done|]. apply did_here. }
  assert (∀ (P : Z → Prop), (∃ c' rel' code', c' ∈ l ∧ P code' ∧ Url.Parse c' = Ok rel' ∧
      did (head source base rel') (HeadStatus code') tr1) →
    ∃ c' rel' code', c' ∈ c :: l ∧ P code' ∧ Url.Parse c' = Ok rel' ∧
    did (head source base rel') (HeadStatus code')
      ([Ev (S:=agent_sig) (head source base rel) (HeadStatus code)] ++ tr1)) as Hlater.
  { intros P (c' & rel' & code' & Hc & HP & Hr & Hd). exists c', rel', code'. split; [by right|].
    do 2 (split; [done|]). by apply did_later. }
  destruct (_ || _ || _) eqn:E1.
  { exec_inv. split; [|done]. intros _. apply Hhere. unfold present. lia. }
  destruct ((code =? 404)%Z || (code =? 410)%Z) eqn:E2.
  { apply IH in Hex as [H1 H2]. split; [auto|]. intros _. right. apply Hhere. unfold missing. lia. }
  destruct (code =? 405)%Z.
  - apply IH in Hex as [H1 H2]. split; [auto|]. intros E. destruct (H2 E); auto.
  - exec_inv. done.
Qed.

Lemma exists_spec source p tr r :
  exec (sourcePathExists source p) tr (Ok r) →
  (r = sourceExistsYes → ∃ code, present code ∧ answered source p code tr) ∧
  (r = sourceExistsNo → ∃ code, missing code ∧ answered source p code tr).
Proof.
  unfold sourcePathExists. destruct (is_empty _); [intros H; exec_inv; done|].
  destruct (Url.Parse (source_base source)) as [base|] eqn:Eb; [|intros H; exec_inv; done].
  intros [H1 H2]%probe_spec. split; intros E.
  - destruct (H1 E) as (c & rel & code & Hc & HP & Hr & Hd). exists code. split; [done|]. by exists base, c, rel.
  - destruct (H2 E) as [|(c & rel & code & Hc & HP & Hr & Hd)]; [done|]. exists code. split; [done|]. by exists base, c, rel.
Qed.

(** ** Success of a batch *)

(** The paths a trace deletes. *)
Definition removal (o : agent_op) : option string :=
  match o with OsRemoveAll p | OsRemove p => Some p | _ => None end.
Definition removed (tr : list (event agent_sig)) : list string := omap removal (ops tr).

Lemma removed_app tr1 tr2 : removed (tr1 ++ tr2) = removed tr1 ++ removed tr2.
Proof. unfold removed. by rewrite ops_app, omap_app. Qed.

Lemma removed_none tr :
  Forall (λ e : event agent_sig, removal (ev_op e) = None) tr → removed tr = [].
Proof. unfold removed. induction 1 as [|e tr He _ IH]; [done|]. cbn. by rewrite He. Qed.

(** [path] was copied from the source to [target]. *)
Definition copied (source : SourceRef) (path target : string) (tr : list (event agent_sig)) : Prop :=
  ∃ spec output, BuildRcloneCopyToCommand source path target = Ok spec ∧
    did (RunCommand spec) (output, None) tr.

(** The source, or the failed copy, said that [path] is no longer there. *)
Definition source_gone (source : SourceRef) (path target : string)
    (tr : list (event agent_sig)) : Prop :=
  (∃ code, missing code ∧ answered source path code tr) ∨
  (∃ spec output e, BuildRcloneCopyToCommand source path target = Ok spec ∧
     did (RunCommand spec) (output, Some e) tr ∧
     isMissingSourceOutput output || isDirectorySourceCopyOutput output = true).

Definition upserted (root : string) (batch : EventBatch) (tr : list (event agent_sig))
    (e : FileEvent) : Prop :=
  let path := join [sourceBasePath (eb_Namespace batch) (eb_Volume batch) (eb_SourceBasePath batch);
                    ev_Path e] in
  copied (eb_Source batch) path (join [root; ev_Path e]) tr ∨
  source_gone (eb_Source batch) path (join [root; ev_Path e]) tr.

Lemma answered_mono source p code tr1 tr tr2 :
  answered source p code tr → answered source p code (tr1 ++ tr ++ tr2).
Proof.
  intros (base & c & rel & Hc & Hb & Hr & Hd). exists base, c, rel. do 3 (split; [done|]). rewrite !did_app. auto.
Qed.

Lemma upserted_mono root batch e tr1 tr tr2 :
  upserted root batch tr e → upserted root batch (tr1 ++ tr ++ tr2) e.
Proof.
  intros [(spec & out & Hb & Hd)|[(code & Hm & Ha)|(spec & out & err & Hb & Hd & Ho)]].
  - left. exists spec, out. split; [done|]. rewrite !did_app. auto.
  - right. left. exists code. split; [done|]. by apply answered_mono.
  - right. right. exists spec, out, err. split; [done|]. rewrite !did_app. auto.
Qed.

Lemma run_cases spec tr r :
  exec (runFullSyncCommand spec) tr r →
  (r = Ok tt ∧ ∃ out, tr = [Ev (S:=agent_sig) (RunCommand spec) (out, None)]) ∨
  (∃ out e, r = Err (CommandErr e out) ∧
            tr = [Ev (S:=agent_sig) (RunCommand spec) (out, Some e)]).
Proof.
  intros Hex. unfold runFullSyncCommand in Hex. exec_inv.
  destruct a as [out [e|]]; exec_inv; [right|left]; eauto.
Qed.

Lemma upsert_ok root batch e tr :
  exec (apply_upsert root batch e) tr (Ok tt) → upserted root batch tr e.
Proof.
  intros Hex. unfold apply_upsert in Hex. exec_inv.
  match goal with H : exec (sourcePathExists _ _) _ _ |- _ => apply exists_spec in H as [_ Hno] end.
  destruct a.
  3:{ exec_inv. right. left. rewrite app_nil_r. by apply Hno. }
  all: destruct (BuildRcloneCopyToCommand _ _ _) as [spec|] eqn:Eb; [|by exec_inv].
  all: exec_step Hex; apply run_cases in Hex0 as [(-> & out & ->)|(out & err & -> & ->)];
    [left; exists spec, out; split; [done|]; rewrite !did_app; auto using did_here|].
  all: exec_step Hex; destruct a as [[]|]; cbn [isMissingSourceCopyError as_command] in Hex;
    try (destruct (isMissingSourceOutput out || isDirectorySourceCopyOutput out) eqn:Em);
    exec_inv; right.
  all: try (right; exists spec, out, err; split; [done|]; split; [|done];
            rewrite !did_app; auto using did_here).
  all: left; apply exists_spec in Hex0 as [_ Hgone]; destruct (Hgone eq_refl) as (code & Hm & Ha);
    exists code; split; [done|]; rewrite app_assoc; by apply answered_mono.
Qed.

Lemma removal_harmless (o : agent_op) : harmless o → removal o = None.
Proof. intros [H _]. by destruct o. Qed.

Lemma removal_upsert root batch e :
  calls_only (S:=agent_sig) (λ o, removal o = None) (apply_upsert root batch e).
Proof.
  assert (∀ p, calls_only (S:=agent_sig) (λ o, removal o = None) (sourcePathExists (eb_Source batch) p))
    as Hask by (intros p; eapply calls_only_mono; [apply removal_harmless|apply harmless_exists]).
  unfold apply_upsert. apply calls_only_try; [done|]. intros x.
  assert (calls_only (S:=agent_sig) (λ o, removal o = None)
    (ApplyOwnershipPolicy root (join [root; ev_Path e]) (eb_Ownership batch) true)) as Hown.
  { eapply calls_only_mono; [|apply policy_ops]. by intros []. }
  assert (∀ spec, calls_only (S:=agent_sig) (λ o, removal o = None) (runEventCopy spec)) as Hrun.
  { intros spec tr r H. apply run_cases in H as [(_ & out & ->)|(out & err & _ & ->)]; by repeat constructor. }
  destruct x; auto with sv;
    (destruct (BuildRcloneCopyToCommand _ _ _); [|auto with sv];
     apply calls_only_bind; [done|]; intros [[]|]; [done|];
     apply calls_only_bind; [done|]; intros [[]|]; auto with sv;
     destruct (isMissingSourceCopyError _); auto with sv).
Qed.

Definition is_delete (e : FileEvent) : bool :=
  match ev_Op e with EventOpDelete => true | _ => false end.

Lemma removed_event root batch e tr r :
  exec (apply_event root batch e) tr r →
  (eb_DeletesAuthoritative batch = false → removed tr = []) ∧
  (r = Ok tt → eb_DeletesAuthoritative batch = true →
   removed tr = if is_delete e then [join [root; ev_Path e]] else []).
Proof.
  intros Hex. unfold apply_event in Hex. unfold is_delete.
  destruct (ev_Op e); [|destruct (eb_DeletesAuthoritative batch)|];
    try (rewrite (removed_none tr) by (by eapply removal_upsert)); try done.
  - destruct (ensurePathInside root _); exec_inv; done.
  - exec_inv. done.
Qed.

Lemma removed_not_root pool batch e p tr r :
  usable pool → NormalizeEventPath p = Ok (ev_Path e) → ev_Path e ≠ "/" →
  let root := volume_root pool (eb_Namespace batch) (eb_Volume batch) in
  exec (apply_event root batch e) tr r → root ∉ removed tr.
Proof.
  intros Hp Hn Hsl root Hex. unfold apply_event in Hex.
  destruct (root_facts pool Hp (eb_Namespace batch) (eb_Volume batch)) as (Ha & _ & _).
  destruct (ev_Op e); [|destruct (eb_DeletesAuthoritative batch)|];
    try (rewrite (removed_none tr) by (by eapply removal_upsert); by intros ?%elem_of_nil).
  - destruct (ensurePathInside root _); exec_inv; [|by intros ?%elem_of_nil].
    intros H. apply list_elem_of_singleton in H.
    apply (join_normal_strict root p (ev_Path e)); [done..|]. by rewrite <-H.
  - exec_inv. by intros ?%elem_of_nil.
Qed.

Lemma removed_events root batch l trs :
  eb_DeletesAuthoritative batch = true →
  Forall2 (λ e t, exec (apply_event root batch e) t (Ok tt)) l trs →
  removed (concat trs) = map (λ e, join [root; ev_Path e]) (filter (λ e, is_delete e = true) l).
Proof.
  intros Hd. induction 1 as [|e t l trs He _ IH]; [done|]. cbn [concat].
  rewrite removed_app, IH. apply removed_event in He as [_ ->]; [|done..].
  destruct (is_delete e) eqn:E; [by rewrite filter_cons_True|by rewrite filter_cons_False by congruence].
Qed.

Lemma upserted_events root batch l trs e :
  Forall2 (λ e t, exec (apply_event root batch e) t (Ok tt)) l trs → e ∈ l → is_delete e = false →
  upserted root batch (concat trs) e.
Proof.
  induction 1 as [|e' t l trs He _ IH]; intros Hin Hd; [by apply elem_of_nil in Hin|].
  cbn [concat]. apply elem_of_cons in Hin as [->|Hin].
  - assert (upserted root batch t e') as H.
    { apply upsert_ok. unfold apply_event, is_delete in *. by destruct (ev_Op e'). }
    by apply (upserted_mono root batch e' []).
  - rewrite <-(app_nil_r (concat trs)). apply upserted_mono. auto.
Qed.

(** ** Theorems *)

(** C11: Applying a batch of events changes nothing outside the directory
    of its volume, whatever paths the events name and whatever the source
    and the file system answer: every path created, deleted or given a new
    owner or mode, and the target of every copy, lies inside it.  The
    directory itself is never deleted, and a batch whose deletions are
    advisory deletes nothing at all. *)
Theorem event_batch_confined pool batch tr res :
  usable pool → exec (ApplyEventBatch pool batch) tr res →
  let root := volume_root pool (eb_Namespace batch) (eb_Volume batch) in
  walks_below tr →
  stays_inside root tr ∧ root ∉ removed tr ∧ (eb_DeletesAuthoritative batch = false → removed tr = []).
Proof.
  intros Hp Hex root Hs.
  unfold ApplyEventBatch, EnsureVolumePath in Hex. rewrite resolve_root in Hex by done.
  fold root in Hex.
  assert (stays_inside root [Ev (S:=agent_sig) (OsMkdirAll root 493) (Ok tt)] ∧
          ∀ e, stays_inside root [Ev (S:=agent_sig) (OsMkdirAll root 493) (Err e)]) as [Hmk Hmk'].
  { split; intros; apply stays_one; try done; repeat constructor; apply inside_refl. }
  exec_inv; rewrite ?app_nil_r in *; [|split; [done|split; [by intros ?%elem_of_nil|done]]].
  destruct a0. split; [|split].
  - apply walks_below_app in Hs as [_ Hs]. apply stays_app. split; [done|]. revert Hs.
    eapply (exec_try_each_ind (λ t, walks_below t → stays_inside root t)); [| | |done].
    + intros _. apply stays_nil.
    + intros t1 t2 H1 H2 [? ?]%walks_below_app. apply stays_app; auto.
    + intros e t r He Hbody. unfold coalesced in He. rewrite coalesce_spec in He. cbn [default] in He.
      destruct (coalesced_normal (eb_Events batch) no_filter _ e (coalesce_spec _ _) He) as (p & Hn & Hsl).
      by eapply stays_event.
  - rewrite removed_app, elem_of_app. intros [H|H]; [by apply elem_of_nil in H|]. revert H.
    eapply (exec_try_each_ind (λ t, root ∉ removed t)); [by intros ?%elem_of_nil| | |done].
    + intros t1 t2 H1 H2. rewrite removed_app, elem_of_app. tauto.
    + intros e t r He Hbody. unfold coalesced in He. rewrite coalesce_spec in He. cbn [default] in He.
      destruct (coalesced_normal (eb_Events batch) no_filter _ e (coalesce_spec _ _) He) as (p & Hn & Hsl).
      by eapply removed_not_root.
  - intros Hadv. rewrite removed_app. cbn [removed ops map omap list_omap removal ev_op app].
    eapply (exec_try_each_ind (λ t, removed t = [])); [done| | |done].
    + intros t1 t2 H1 H2. by rewrite removed_app, H1, H2.
    + intros e t r _ Hbody. by eapply removed_event.
Qed.

(** C12: A batch that succeeds did all its work.  If its deletions are
    authoritative, the paths deleted are exactly those of the delete
    events, after coalescing and in its order; otherwise none.  Every
    other event was copied from the source into the volume, or the source
    or the failed copy reported the path as gone. *)
Theorem event_batch_outcome pool batch tr :
  usable pool → exec (ApplyEventBatch pool batch) tr (Ok tt) →
  let root := volume_root pool (eb_Namespace batch) (eb_Volume batch) in
  let events := keep_last (omap (admitted no_filter) (eb_Events batch)) in
  removed tr = (if eb_DeletesAuthoritative batch
                then map (λ e, join [root; ev_Path e]) (filter (λ e, is_delete e = true) events)
                else []) ∧
  ∀ e, e ∈ events → is_delete e = false → upserted root batch tr e.
Proof.
  intros Hp Hex root events. unfold ApplyEventBatch, EnsureVolumePath in Hex.
  rewrite resolve_root in Hex by done. fold root in Hex. unfold coalesced in Hex.
  rewrite coalesce_spec in Hex. cbn [default] in Hex. fold events in Hex.
  exec_inv. rewrite app_nil_r.
  apply exec_try_each_ok in Hex as (trs & -> & Hall). split.
  - rewrite removed_app. cbn [removed ops map omap list_omap removal ev_op app].
    destruct (eb_DeletesAuthoritative batch) eqn:Ed; [by apply (removed_events root batch)|].
    clear -Hall Ed. induction Hall as [|e t l trs He _ IH]; [done|]. cbn [concat].
    rewrite removed_app, IH. by apply removed_event in He as [-> _].
  - intros e He Hd. rewrite <-(app_nil_r (concat trs)). apply upserted_mono.
    by eapply upserted_events.
Qed.

(** ** A full sync *)
Definition no_command (tr : list (event agent_sig)) : Prop :=
  Forall (λ e : event agent_sig, ∀ spec, ev_op e ≠ RunCommand spec) tr.

(** The full sync after the required paths were found at the source. *)
Definition sync_stage (targetRoot : string) (req : FullSyncRequest) : prog agent_sig (result unit) :=
  let sourceVolume := sourceBasePath (fs_Namespace req) (fs_Volume req) (fs_SourceBasePath req) in
  _ <-! runFullSyncCommand
          (BuildRcloneFullSyncCommand (fs_Source req) sourceVolume targetRoot (request_filter req)) ;;
  _ <-! forceSyncIncludedFiles (fs_Source req) sourceVolume targetRoot (fs_IncludePaths req) ;;
  _ <-! validateFullSyncTargetRequiredPaths (fs_Source req) sourceVolume targetRoot
          (fs_RequiredPaths req) ;;
  ApplyOwnershipPolicyForFilter targetRoot (request_filter req) (fs_Ownership req).

(** Where a required path is looked for at the source. *)
Definition required_source (req : FullSyncRequest) (clean : string) : string :=
  join [Trim is_slash (sourceBasePath (fs_Namespace req) (fs_Volume req) (fs_SourceBasePath req)); clean].

(** The source confirmed every required path. *)
Definition required_present (req : FullSyncRequest) (tr : list (event agent_sig)) : Prop :=
  ∀ p, p ∈ fs_RequiredPaths req → ∃ clean code, NormalizeEventPath p = Ok clean ∧ present code ∧
    answered (fs_Source req) (required_source req clean) code tr.

Lemma concat_sub {A} (l : list (list A)) x : x ∈ l → ∃ l1 l2, concat l = l1 ++ x ++ l2.
Proof.
  intros H. apply list_elem_of_split in H as (a & b & ->).
  exists (concat a), (concat b). by rewrite concat_app.
Qed.

Lemma validate_source source v required tr :
  exec (validateFullSyncRequiredPaths source v required) tr (Ok tt) →
  ∀ p, p ∈ required → ∃ clean code, NormalizeEventPath p = Ok clean ∧ present code ∧
    answered source (join [Trim is_slash v; clean]) code tr.
Proof.
  intros (trs & -> & Hall)%exec_try_each_ok p Hp.
  apply list_elem_of_lookup_1 in Hp as [i Hi].
  destruct (Forall2_lookup_l _ _ _ _ _ Hall Hi) as (t & Ht & Hex). cbv beta zeta in Hex.
  destruct (NormalizeEventPath p) as [clean|]; [|by exec_inv].
  exec_inv. destruct a as [[]|]; try (by exec_inv).
  match goal with H : exec (sourcePathExists _ _) _ _ |- _ => apply exists_spec in H as [Hyes _] end.
  destruct (Hyes eq_refl) as (code & Hc & Ha). exec_inv. rewrite app_nil_r in Ht.
  exists clean, code. split; [done|]. split; [done|].
  apply list_elem_of_lookup_2, concat_sub in Ht as (l1 & l2 & ->). by apply answered_mono.
Qed.

Lemma validate_harmless source v required :
  calls_only (S:=agent_sig) harmless (validateFullSyncRequiredPaths source v required).
Proof.
  apply calls_only_try_each. intros p _. destruct (NormalizeEventPath p); [|auto with sv].
  apply calls_only_bind; [apply harmless_exists|]. intros [[]|]; auto with sv.
Qed.

(** A path of the volume, or one of the two paths of its backup. *)
Definition volume_or_backup (pool : Pool) (req : FullSyncRequest) (p : string) : Prop :=
  let v := mkVolumePath pool (fs_Namespace req) (fs_Volume req) "" in
  inside (volume_root pool (fs_Namespace req) (fs_Volume req)) p = true ∨
  p = backup_root v ∨ ∃ now, p = join [backup_root v; Time.format_stamp now].

Lemma no_command_harmless tr :
  Forall (λ e : event agent_sig, harmless (ev_op e)) tr → no_command tr ∧ mutated tr = [].
Proof.
  induction 1 as [|e tr [Hm Hc] _ [IH1 IH2]]; [by split; constructor|]. split; [by constructor|].
  cbn. by rewrite Hm.
Qed.

Lemma no_command_app tr1 tr2 : no_command (tr1 ++ tr2) ↔ no_command tr1 ∧ no_command tr2.
Proof. apply Forall_app. Qed.

Lemma no_command_one o r :
  (∀ spec, o ≠ RunCommand spec) → no_command [Ev (S:=agent_sig) o r].
Proof. intros H. by repeat constructor. Qed.

(** The backup runs no command and touches its own paths. *)
Lemma backup_quiet pool req now tr r :
  usable pool →
  exec (BackupVolumePath (mkVolumePath pool (fs_Namespace req) (fs_Volume req) "") now) tr r →
  no_command tr ∧ Forall (volume_or_backup pool req) (mutated tr).
Proof.
  intros Hp Hex. unfold BackupVolumePath, IsEmptyDir in Hex. rewrite resolve_root in Hex by done.
  set (v := mkVolumePath pool _ _ _) in *.
  change (join [join [pool_Path (Pool_Clean (vp_Pool v)); _; _; _]; Time.format_stamp now])
    with (join [backup_root v; Time.format_stamp now]) in Hex.
  change (join [pool_Path (Pool_Clean (vp_Pool v)); _; _; _]) with (backup_root v) in Hex.
  assert (volume_or_backup pool req (volume_root pool (fs_Namespace req) (fs_Volume req))) as H1
    by (left; apply inside_refl).
  assert (volume_or_backup pool req (backup_root v)) as H2 by (by right; left).
  assert (volume_or_backup pool req (join [backup_root v; Time.format_stamp now])) as H3
    by (right; right; by exists now).
  revert H1 H2 H3 Hex. generalize (volume_or_backup pool req). intros Q H1 H2 H3 Hex.
  exec_inv. destruct a as [info|e]; [|destruct (IsNotExist e); exec_inv; split; by repeat constructor].
  exec_inv; try (split; by repeat constructor).
  clear E0. destruct a; exec_inv; split; by repeat constructor.
Qed.

Lemma ensure_root pool ns volume gen perm tr r :
  usable pool → exec (EnsureVolumePath (mkVolumePath pool ns volume gen) perm) tr r →
  (∃ a, tr = [Ev (S:=agent_sig) (OsMkdirAll (volume_root pool ns volume) perm) a]) ∧
  ∀ p, r = Ok p → p = volume_root pool ns volume.
Proof.
  intros Hp Hex. unfold EnsureVolumePath in Hex. rewrite resolve_root in Hex by done.
  exec_inv; rewrite ?app_nil_r; (split; [eauto|]); [by intros p [= <-]|done].
Qed.

(** A full sync up to the first command. *)
Lemma full_sync_split pool req token tr res :
  usable pool → exec (ApplyFullSyncWithToken pool req token) tr res →
  let root := volume_root pool (fs_Namespace req) (fs_Volume req) in
  ∃ tr1 tr2, tr = tr1 ++ tr2 ∧ no_command tr1 ∧ Forall (volume_or_backup pool req) (mutated tr1) ∧
    ((tr2 = [] ∧ is_ok res = false) ∨
     (required_present req tr1 ∧ exec (sync_stage root req) tr2 res)).
Proof.
  intros Hp Hex root. unfold ApplyFullSyncWithToken in Hex.
  set (quiet := λ t, no_command t ∧ Forall (volume_or_backup pool req) (mutated t)).
  assert (∀ t1 t2, quiet t1 → quiet t2 → quiet (t1 ++ t2)) as Hq.
  { intros t1 t2 [? ?] [? ?]. unfold quiet. by rewrite no_command_app, mutated_app, Forall_app. }
  assert (∀ t, quiet t → tr = t → is_ok res = false →
    ∃ tr1 tr2, tr = tr1 ++ tr2 ∧ no_command tr1 ∧ Forall (volume_or_backup pool req) (mutated tr1) ∧
    ((tr2 = [] ∧ is_ok res = false) ∨ (required_present req tr1 ∧ exec (sync_stage root req) tr2 res)))
    as Hend.
  { intros t [? ?] -> Hr. exists t, []. rewrite app_nil_r. auto 10. }
  assert (quiet []) as Hnil by (by split; constructor).
  destruct (is_empty (fs_Volume req)); [exec_inv; by apply (Hend [])|].
  destruct (is_empty _); [exec_inv; by apply (Hend [])|]. cbv zeta in Hex.
  set (backup := if fs_BackupExisting req then _ else _) in Hex.
  assert (∀ t r, exec backup t r → quiet t) as Hb.
  { intros t r H. unfold backup in H. destruct (fs_BackupExisting req); [|by exec_inv].
    exec_inv; match goal with H : exec (BackupVolumePath _ _) _ _ |- _ =>
      apply backup_quiet in H; [|done] end; rewrite ?app_nil_r;
      (apply Hq; [by split; [apply no_command_one|constructor]|done]). }
  clearbody backup.
  exec_step Hex; [apply Hb in Hex0|by apply (Hend tr); [eapply Hb|..]].
  exec_step Hex; [apply ensure_root in Hex1 as [[r Er] Hroot]|apply ensure_root in Hex as [[r Er] Hroot]];
    [|done| |done].
  all: match type of Er with ?t = _ => assert (quiet t) by (rewrite Er; split; [by apply no_command_one|];
         apply List.Forall_cons; [left; apply inside_refl|constructor]) end; clear Er.
  2:{ by apply (Hend (tr0 ++ tr1)); [apply Hq|..]. }
  rewrite (Hroot _ eq_refl) in *.
  assert (∀ t r', exec (validateFullSyncRequiredPaths (fs_Source req)
      (sourceBasePath (fs_Namespace req) (fs_Volume req) (fs_SourceBasePath req))
      (fs_RequiredPaths req)) t r' → quiet t) as Hval.
  { intros t r' Hv. apply validate_harmless, no_command_harmless in Hv as [? Hm].
    split; [done|]. by rewrite Hm. }
  exec_step Hex.
  - assert (quiet (tr0 ++ tr ++ tr1)) as [? ?] by eauto.
    exists (tr0 ++ tr ++ tr1), tr3. split; [by rewrite <- !app_assoc|]. split; [done|].
    split; [done|]. right. split; [|done]. intros p Hpp. destruct a1.
    destruct (validate_source _ _ _ _ Hex1 p Hpp) as (clean & code & Hn & Hc & Ha).
    exists clean, code. split; [done|]. split; [done|].
    rewrite app_assoc, <-(app_nil_r tr1). by apply answered_mono.
  - by apply (Hend (tr0 ++ tr ++ tr2)); [eauto|..].
Qed.

(** The repair of one required path ends with the path in place. *)
Lemma repair_ok tries source clean p t lastErr tr :
  is_ok lastErr = false ∨ 0 < tries →
  exec (repair tries source clean p t lastErr) tr (Ok tt) →
  (∃ info, did (OsStat t) (Ok info) tr) ∧
  ∃ output, did (RunCommand (BuildRcloneCheckCommand source p t)) (output, None) tr.
Proof.
  revert lastErr tr. induction tries as [|n IH]; intros lastErr tr Hl Hex; cbn [repair] in Hex.
  { exec_inv. destruct Hl; [done|lia]. }
  assert (∀ e t1 t2, exec (repair n source clean p t (Err e)) t2 (Ok tt) →
    (∃ info, did (OsStat t) (Ok info) (t1 ++ t2)) ∧
    ∃ output, did (RunCommand (BuildRcloneCheckCommand source p t)) (output, None) (t1 ++ t2)) as Hagain.
  { intros e t1 t2 H. apply IH in H as [[info Hi] [out Ho]]; [|by left].
    split; [exists info|exists out]; rewrite did_app; auto. }
  exec_step Hex. destruct a as [[]|e]; [|by eapply Hagain].
  exec_step Hex. exec_inv. destruct a as [info|e].
  - exec_step Hex. destruct a as [[]|e]; [|rewrite !app_assoc; by eapply Hagain].
    apply run_cases in Hex1 as [(_ & out & ->)|(? & ? & ? & _)]; [|done].
    split; [exists info|exists out]; rewrite !did_app; auto using did_here.
  - destruct (IsNotExist e); [|by exec_inv]. rewrite app_assoc. by eapply Hagain.
Qed.

Lemma validate_target source v root required tr :
  exec (validateFullSyncTargetRequiredPaths source v root required) tr (Ok tt) →
  ∀ p, p ∈ required → ∃ clean, NormalizeEventPath p = Ok clean ∧
    (∃ info, did (OsStat (join [root; clean])) (Ok info) tr) ∧
    ∃ output, did (RunCommand (BuildRcloneCheckCommand source (join [Trim is_slash v; clean])
                                 (join [root; clean]))) (output, None) tr.
Proof.
  intros (trs & -> & Hall)%exec_try_each_ok p Hp.
  apply list_elem_of_lookup_1 in Hp as [i Hi].
  destruct (Forall2_lookup_l _ _ _ _ _ Hall Hi) as (t & Ht & Hex). cbv beta zeta in Hex.
  destruct (NormalizeEventPath p) as [clean|]; [|by exec_inv]. exists clean. split; [done|].
  apply repair_ok in Hex as [[info Hs] [out Hc]]; [|right; unfold requiredPathRepairTries; lia].
  apply list_elem_of_lookup_2, concat_sub in Ht as (l1 & l2 & ->).
  split; [exists info|exists out]; rewrite !did_app; auto.
Qed.

(** ** Where the commands of a full sync write *)
Section stage.
Context (root : string).
Context (Ha : IsAbs root = true) (Hc : Clean root = root) (Hne : elems root ≠ []).

Lemma stays_force source v includes tr r :
  exec (forceSyncIncludedFiles source v root includes) tr r → stays_inside root tr.
Proof.
  intros Hex0. refine (exec_try_each_ind (stays_inside root) _ _ tr r (stays_nil root) _ _ Hex0);
    [by intros; apply stays_app|].
  intros i t r' _ Hex. cbv beta zeta in Hex. unfold exactIncludePath in Hex.
  destruct (NormalizeEventPath i) as [c|] eqn:En; cbn [rbind] in Hex; [|exec_inv; apply stays_nil].
  destruct (ContainsAny c _); [exec_inv; apply stays_nil|].
  exec_step Hex. apply stays_app. split; [by eapply stays_exists|].
  destruct a as [[]|]; try (exec_inv; apply stays_nil);
    (destruct (BuildRcloneCopyToCommand _ _ _) as [spec|] eqn:Eb; [|exec_inv; apply stays_nil];
     exec_step Hex; apply stays_app; split;
     [eapply (stays_run root spec); [by eapply copy_target|by eapply join_normal_inside|done]|];
     destruct a as [|e]; [|destruct (isMissingSourceCopyError e)]; exec_inv; apply stays_nil).
Qed.

Lemma stays_repair tries source clean p t lastErr tr r :
  inside root t = true →
  exec (repair tries source clean p t lastErr) tr r → stays_inside root tr.
Proof.
  intros Ht. revert lastErr tr. induction tries as [|n IH]; intros lastErr tr Hex; cbn [repair] in Hex.
  { exec_inv. apply stays_nil. }
  exec_step Hex. apply stays_app.
  split; [eapply stays_run; [apply path_sync_target|exact Ht|exact Hex0]|].
  destruct a as [[]|]; [|by eapply IH].
  exec_step Hex. apply stays_app. split; [exec_inv; apply stays_one; done|].
  destruct a as [info|e]; [|destruct (IsNotExist e); [by eapply IH|exec_inv; apply stays_nil]].
  exec_step Hex. apply stays_app.
  split; [eapply stays_run; [apply check_target|exact Ht|exact Hex2]|].
  destruct a; [exec_inv; apply stays_nil|by eapply IH].
Qed.

Lemma stays_validate source v required tr r :
  exec (validateFullSyncTargetRequiredPaths source v root required) tr r → stays_inside root tr.
Proof.
  intros Hex0. refine (exec_try_each_ind (stays_inside root) _ _ tr r (stays_nil root) _ _ Hex0);
    [by intros; apply stays_app|].
  intros p t r' _ Hex. cbv beta zeta in Hex.
  destruct (NormalizeEventPath p) as [c|] eqn:En; [|exec_inv; apply stays_nil].
  eapply stays_repair; [by eapply join_normal_inside|done].
Qed.

Lemma stays_stage req tr r :
  exec (sync_stage root req) tr r → sane root tr → stays_inside root tr.
Proof.
  intros Hex Hs. unfold sync_stage in Hex. cbv zeta in Hex.
  assert (∀ t r', exec (runFullSyncCommand (BuildRcloneFullSyncCommand (fs_Source req)
     (sourceBasePath (fs_Namespace req) (fs_Volume req) (fs_SourceBasePath req)) root (request_filter req))) t r' →
     stays_inside root t) as Hrun.
  { intros t r' H. eapply stays_run; [apply full_sync_target|apply inside_refl|exact H]. }
  exec_step Hex; [|eauto]. exec_step Hex; [|stays_parts; by eapply stays_force].
  exec_step Hex; stays_parts; eauto using stays_force, stays_validate.
  apply stays_touches. rewrite <-Hc. eapply touches_for_filter; [done|done|done|..];
    repeat match goal with H : sane _ _ |- _ => destruct H end; rewrite ?Hc; done.
Qed.
End stage.

(** C13: A full sync first makes sure that the source has the data: no
    rclone command runs before the source has confirmed, for every
    required path, that the path exists, and a full sync that could not
    confirm them fails.  And it changes nothing outside the directory of
    the volume and its backup, and runs only commands that write inside
    the volume, provided a directory walk reports paths below its directory
    and the root of the volume was a directory whenever it was looked at
    (a link there lets the changes of ownership climb,
    [Ownership.ownership_climbs_from_symlink]). *)
Theorem full_sync_guarded pool req token tr res :
  usable pool → exec (ApplyFullSyncWithToken pool req token) tr res →
  let root := volume_root pool (fs_Namespace req) (fs_Volume req) in
  (walks_below tr → seen_as_dir root tr →
   Forall (volume_or_backup pool req) (mutated tr) ∧ Forall (command_inside root) (ops tr)) ∧
  (∀ before spec answer after,
     tr = before ++ Ev (S:=agent_sig) (RunCommand spec) answer :: after → required_present req before).
Proof.
  intros Hp Hex root.
  destruct (full_sync_split _ _ _ _ _ Hp Hex) as (tr1 & tr2 & -> & Hnc & Hm & Hcase).
  destruct (root_facts pool Hp (fs_Namespace req) (fs_Volume req)) as (Ha & Hc & Hne).
  fold root in Ha, Hc, Hne, Hcase. split.
  - intros Hw Hd. assert (sane root (tr1 ++ tr2)) as [_ Hs]%sane_app by done.
    assert (stays_inside root tr2) as [H1 H2].
    { destruct Hcase as [[-> _]|[_ Hst]]; [apply stays_nil|by eapply stays_stage]. }
    rewrite mutated_app, ops_app, !Forall_app. split_and!; [done| | |done].
    + eapply Forall_impl; [exact H1|]. intros p Hin. by left.
    + apply List.Forall_map. eapply Forall_impl; [exact Hnc|]. intros e He.
      unfold command_inside. destruct (ev_op e) eqn:E; try done. by destruct (He spec).
  - intros before spec answer after E.
    assert (∃ k, before = tr1 ++ k ∧ tr2 = k ++ Ev (S:=agent_sig) (RunCommand spec) answer :: after)
      as (k & -> & ->).
    { apply app_eq_inv in E as [(k & -> & E)|(k & -> & E)]; [|eauto].
      destruct k as [|x k]; [exists []; rewrite !app_nil_r; by split|].
      cbn [app] in E. injection E as Hev _. apply Forall_app in Hnc as [_ Hnc]. apply Forall_cons in Hnc as [Hx _].
      rewrite <-Hev in Hx. by destruct (Hx spec). }
    destruct Hcase as [[Hnil _]|[Hreq _]]; [by destruct k|].
    intros p Hpp. destruct (Hreq p Hpp) as (clean & code & Hn & Hco & Han).
    exists clean, code. split; [done|]. split; [done|]. by apply (answered_mono _ _ _ []).
Qed.

(** C14: A full sync that succeeds left a complete replica: the sync of the
    whole volume ran to its end, and every required path was seen at the
    target and afterwards compared equal with the source. *)
Theorem full_sync_complete pool req token tr :
  usable pool → exec (ApplyFullSyncWithToken pool req token) tr (Ok tt) →
  let root := volume_root pool (fs_Namespace req) (fs_Volume req) in
  let v := sourceBasePath (fs_Namespace req) (fs_Volume req) (fs_SourceBasePath req) in
  (∃ output, did (RunCommand (BuildRcloneFullSyncCommand (fs_Source req) v root (request_filter req)))
                 (output, None) tr) ∧
  ∀ p, p ∈ fs_RequiredPaths req → ∃ clean, NormalizeEventPath p = Ok clean ∧
    (∃ info, did (OsStat (join [root; clean])) (Ok info) tr) ∧
    ∃ output, did (RunCommand (BuildRcloneCheckCommand (fs_Source req) (required_source req clean)
                                 (join [root; clean]))) (output, None) tr.
Proof.
  intros Hp Hex root v.
  destruct (full_sync_split _ _ _ _ _ Hp Hex) as (tr1 & tr2 & -> & _ & _ & [[_ ?]|[_ Hst]]); [done|].
  fold root in Hst. unfold sync_stage in Hst. cbv zeta in Hst. fold v in Hst.
  exec_step Hst. exec_step Hst. exec_step Hst. destruct a, a0, a1.
  apply run_cases in Hst0 as [(_ & out & ->)|(? & ? & ? & _)]; [|done].
  split; [exists out; rewrite !did_app; auto using did_here|].
  intros p Hpp. destruct (validate_target _ _ _ _ _ Hst2 p Hpp) as (clean & Hn & [info Hi] & [o Ho]).
  exists clean. split; [done|]. split; [exists info|exists o]; rewrite !did_app; auto 6.
Qed.

(** ** Examples *)
Definition ex_pool : Pool := mkPool "default" "/data".
Definition ex_source : SourceRef := mkSourceRef "http://src/" "" "".
Definition ex_replica : Mem.world :=
  Mem.mkWorld (Mem.w_files (ex_world Mem.dir_info)) {["http://src/ns/v/save" := 200%Z]} 0.
Definition ex_batch : EventBatch :=
  mkEventBatch "ns" "v" "" ex_source "" ex_policy true
    [mkFileEvent "save" EventOpDelete; mkFileEvent "/old" EventOpDelete;
     mkFileEvent "gone" EventOpUpsert; mkFileEvent "save" EventOpUpsert].
Definition ex_request (backup : bool) : FullSyncRequest :=
  mkFullSyncRequest "ns" "v" ex_source "" [] [] false ["save"] ex_policy backup.

Lemma ex_pool_usable : usable ex_pool.
Proof. split; [unfold pool_ok; vm_compute; discriminate|reflexivity]. Qed.

Lemma event_batch_confined_witness :
  let r := Mem.run_on (ApplyEventBatch ex_pool ex_batch) ex_replica in
  fst (fst r) = Ok tt ∧ removed (snd r) = ["/data/ns/v/old"] ∧
  stays_inside (volume_root ex_pool "ns" "v") (snd r).
Proof.
  intros r. split; [vm_compute; reflexivity|]. split; [vm_compute; reflexivity|].
  apply (event_batch_confined ex_pool ex_batch (snd r) (fst (fst r)));
    [apply ex_pool_usable|apply run_self|apply walks_check_ok; vm_compute; reflexivity].
Defined.

Lemma event_batch_outcome_witness :
  let r := Mem.run_on (ApplyEventBatch ex_pool ex_batch) ex_replica in
  upserted (volume_root ex_pool "ns" "v") ex_batch (snd r) (mkFileEvent "save" EventOpUpsert).
Proof.
  intros r. destruct (event_batch_outcome ex_pool ex_batch (snd r)) as [_ H].
  - apply ex_pool_usable.
  - assert (fst (fst r) = Ok tt) as E by (vm_compute; reflexivity). rewrite <-E. apply run_self.
  - apply H; [|reflexivity]. vm_compute. do 2 right. left.
Defined.

Lemma full_sync_guarded_witness :
  let r := Mem.run_on (ApplyFullSyncWithToken ex_pool (ex_request true) "") ex_replica in
  mutated (snd r) ≠ [] ∧ Forall (volume_or_backup ex_pool (ex_request true)) (mutated (snd r)).
Proof.
  intros r. split; [vm_compute; discriminate|].
  destruct (full_sync_guarded ex_pool (ex_request true) "" (snd r) (fst (fst r))) as [H _];
    [apply ex_pool_usable|apply run_self|].
  apply H; [apply walks_check_ok|apply dir_check_ok]; vm_compute; reflexivity.
Defined.

Lemma full_sync_complete_witness :
  let r := Mem.run_on (ApplyFullSyncWithToken ex_pool (ex_request false) "") ex_replica in
  ∃ clean info, NormalizeEventPath "save" = Ok clean ∧
    did (OsStat (join [volume_root ex_pool "ns" "v"; clean])) (Ok info) (snd r).
Proof.
  intros r. destruct (full_sync_complete ex_pool (ex_request false) "" (snd r)) as [_ H].
  - apply ex_pool_usable.
  - assert (fst (fst r) = Ok tt) as E by (vm_compute; reflexivity). rewrite <-E. apply run_self.
  - destruct (H "save") as (clean & Hn & [info Hi] & _); [left|]. exists clean, info.
    split; [exact Hn|exact Hi].
Defined.

(** ** File names that mean something in an address *)

Lemma unparsed_refused source p tr r :
  is_empty (TrimSpace (src_WebDAVURL source)) = false → is_ok (Url.Parse (join [Trim is_slash p])) = false →
  exec (sourcePathExists source p) tr r → is_ok r = false.
Proof.
  intros He Hp Hex. unfold sourcePathExists in Hex. rewrite He in Hex.
  destruct (Url.Parse (source_base source)); [|by exec_step Hex].
  unfold candidates in Hex. cbn [probe] in Hex. destruct (Url.Parse _); [done|]. by exec_step Hex.
Qed.

(** The path of an event is put into an address as it is, without being
    escaped.  If the result is no address, as for a name with a percent
    sign that starts no escape, no batch with a write to that path ever
    succeeds, whatever the source answers: it ends with an error at the
    latest at that event, and the events behind it are not applied. *)
Theorem unescaped_name_blocks pool batch e tr r :
  usable pool → is_empty (TrimSpace (src_WebDAVURL (eb_Source batch))) = false →
  e ∈ keep_last (omap (admitted no_filter) (eb_Events batch)) → is_delete e = false →
  is_ok (Url.Parse (join [Trim is_slash (join
    [sourceBasePath (eb_Namespace batch) (eb_Volume batch) (eb_SourceBasePath batch); ev_Path e])])) = false →
  exec (ApplyEventBatch pool batch) tr r → is_ok r = false.
Proof.
  intros Hp Hurl Hin Hd Hbad Hex. destruct r as [[]|]; [|done]. exfalso.
  unfold ApplyEventBatch, EnsureVolumePath in Hex. rewrite resolve_root in Hex by done.
  unfold coalesced in Hex. rewrite coalesce_spec in Hex. cbn [default] in Hex.
  exec_step Hex. apply exec_try_each_ok in Hex as (trs & -> & Hall).
  apply list_elem_of_lookup in Hin as [i Hi]. destruct (Forall2_lookup_l _ _ _ _ _ Hall Hi) as (t & _ & He).
  unfold apply_event in He. unfold is_delete in Hd.
  assert (exec (apply_upsert a batch e) t (Ok tt)) as Hu
    by (destruct (ev_Op e); [exact He|discriminate Hd|exact He]).
  unfold apply_upsert in Hu. exec_step Hu. by apply unparsed_refused in Hu0.
Qed.

(** A percent sign. *)
Lemma percent_name_unparsed : is_ok (Url.Parse "ns/v/100%") = false.
Proof. reflexivity. Qed.

(** A question mark: the source is asked for what precedes it, says that
    there is no such file, and the batch succeeds without the file having
    been copied, although the source serves it. *)
Theorem question_mark_skipped :
  let batch := mkEventBatch "ns" "v" "" ex_source "" ex_policy true [mkFileEvent "who?" EventOpUpsert] in
  let w := Mem.mkWorld (Mem.w_files (ex_world Mem.dir_info)) {["http://src/ns/v/who%3F" := 200%Z]} 0 in
  let r := Mem.run_on (ApplyEventBatch ex_pool batch) w in
  fst (fst r) = Ok tt ∧ Forall (λ o, ∀ spec, o ≠ RunCommand spec) (ops (snd r)) ∧
  HttpHead "http://src/ns/v/who?" "" "" ∈ ops (snd r).
Proof.
  intros batch w r. split; [vm_compute; reflexivity|].
  let t := eval vm_compute in (ops (snd r)) in change (ops (snd r)) with t.
  split; [by repeat constructor|]. repeat ((left; reflexivity) || right).
Qed.

End ApplyProps.
