(* ===== verification/Shadow.v ===== *)
(** * Shadow copies: [internal/agent/replication.go]

    In the consistency mode "shadow" the agent of the source keeps a copy
    of the volume beside the live one and the replicas read from it:
    [PrepareShadow] makes the copy, [ApplyShadowEventBatch] brings a batch
    of events into it and returns the batch to send. *)
From S2P Require Import Prelude GoStrings GoPath GoTime Effects AgentEnv AgentMem AgentTypes.
From S2P Require Import Agent Filter Commands Ownership Apply ApplyProps.

Module Shadow.
Import Str Path Agent Filter Commands Ownership Apply ApplyProps.

Definition validateRequiredLocalPaths (root : string) (requiredPaths : list string)
  : prog agent_sig (result unit) :=
  try_each requiredPaths (λ required,
    match NormalizeEventPath required with
    | Err e => Ret (Err (Wrapf "required path %q: %w" [required] e))
    | Ok clean =>
        st <- os_call (OsStat (join [root; clean])) ;;
        match st with
        | Err e =>
            if IsNotExist e then Ret (Err (Errorf "required shadow path missing: %s" [clean]))
            else Ret (Err e)
        | Ok _ => Ret (Ok tt)
        end
    end).

(** The fields of the manifest, in the order [json.MarshalIndent] writes
    the keys of a map. *)
Definition manifest_fields (req : ShadowPrepareRequest) (generation : string)
  : list (string * string) :=
  [("createdAt", generation); ("generation", generation); ("mode", ConsistencyModeShadow);
   ("namespace", sp_Namespace req); ("volume", sp_Volume req)].

Definition manifest_path (shadowRoot : string) : string :=
  join [Dir shadowRoot; shadowManifestName].

Definition PrepareShadow (pool : Pool) (req : ShadowPrepareRequest)
  : prog agent_sig (result ShadowPrepareResponse) :=
  if is_empty (sp_Volume req) then Ret (Err (Errorf "volume is required" []))
  else
    match ResolveVolumePath (mkVolumePath pool (sp_Namespace req) (sp_Volume req) "") with
    | Err e => Ret (Err e)
    | Ok liveRoot =>
        _ <-! os_call (OsStat liveRoot) ;;
        _ <-! validateRequiredLocalPaths liveRoot (sp_RequiredPaths req) ;;
        shadowRoot <-! EnsureShadowPath pool (sp_Namespace req) (sp_Volume req) ;;
        let manifest := manifest_path shadowRoot in
        os_call (OsRemove manifest) ;;;
        let f := mkPathFilter (sp_IncludePaths req) (sp_ExcludePaths req) (sp_PruneExcluded req) in
        _ <-! runFullSyncCommand (BuildRcloneLocalSyncCommand liveRoot shadowRoot f) ;;
        _ <-! validateRequiredLocalPaths shadowRoot (sp_RequiredPaths req) ;;
        now <- os_call TimeNow ;;
        let generation := Time.format_rfc3339nano now in
        _ <-! os_call (OsWriteJSON manifest (manifest_fields req generation) 420) ;;
        Ret (Ok (mkShadowPrepareResponse (sp_Namespace req) (sp_Volume req)
                   (ShadowSourceBasePath (sp_Namespace req) (sp_Volume req)) generation true))
    end.

(** A path that was written: copied, or forwarded as a deletion when it is
    gone from the live volume. *)
Definition shadow_upsert (sourcePath shadowPath : string) (event : FileEvent)
  : prog agent_sig (result (option FileEvent)) :=
  st <- os_call (OsLstat sourcePath) ;;
  match st with
  | Err e =>
      if IsNotExist e then
        _ <-! os_call (OsRemoveAll shadowPath) ;;
        Ret (Ok (Some (mkFileEvent (ev_Path event) EventOpDelete)))
      else Ret (Err e)
  | Ok info =>
      if info_IsDir info && negb (info_IsSymlink info) then Ret (Ok None)
      else
        _ <-! os_call (OsMkdirAll (Dir shadowPath) 493) ;;
        copied <- runFullSyncCommand (BuildRcloneLocalCopyToCommand sourcePath shadowPath) ;;
        match copied with
        | Ok _ => Ret (Ok (Some (mkFileEvent (ev_Path event) EventOpUpsert)))
        | Err e =>
            again <- os_call (OsLstat sourcePath) ;;
            if match again with Err e' => IsNotExist e' | Ok _ => false end ||
               isMissingSourceCopyError e
            then
              _ <-! os_call (OsRemoveAll shadowPath) ;;
              Ret (Ok (Some (mkFileEvent (ev_Path event) EventOpDelete)))
            else Ret (Err e)
        end
  end.

(** One event: the event to forward, if any. *)
Definition shadow_event (liveRoot shadowRoot : string) (event : FileEvent)
  : prog agent_sig (result (option FileEvent)) :=
  let sourcePath := join [liveRoot; ev_Path event] in
  let shadowPath := join [shadowRoot; ev_Path event] in
  match ensurePathInside liveRoot sourcePath with
  | Err e => Ret (Err e)
  | Ok _ =>
      match ensurePathInside shadowRoot shadowPath with
      | Err e => Ret (Err e)
      | Ok _ =>
          match ev_Op event with
          | EventOpDelete =>
              _ <-! os_call (OsRemoveAll shadowPath) ;;
              Ret (Ok (Some event))
          | _ => shadow_upsert sourcePath shadowPath event
          end
      end
  end.

(** The loop with [outEvents]. *)
Fixpoint shadow_events (liveRoot shadowRoot : string) (events outEvents : list FileEvent)
  : prog agent_sig (result (list FileEvent)) :=
  match events with
  | [] => Ret (Ok outEvents)
  | event :: l =>
      out <-! shadow_event liveRoot shadowRoot event ;;
      shadow_events liveRoot shadowRoot l
        (match out with Some e => outEvents ++ [e] | None => outEvents end)
  end.

Definition ApplyShadowEventBatch (pool : Pool) (batch : EventBatch) (f : PathFilter)
  : prog agent_sig (result EventBatch) :=
  match ResolveVolumePath (mkVolumePath pool (eb_Namespace batch) (eb_Volume batch) "") with
  | Err e => Ret (Err e)
  | Ok liveRoot =>
      shadowRoot <-! EnsureShadowPath pool (eb_Namespace batch) (eb_Volume batch) ;;
      outEvents <-! shadow_events liveRoot shadowRoot (coalesced (eb_Events batch) f) [] ;;
      generation <- (if is_empty (eb_Generation batch) then
                       now <- os_call TimeNow ;; Ret (Time.format_rfc3339nano now)
                     else Ret (eb_Generation batch)) ;;
      Ret (Ok (mkEventBatch (eb_Namespace batch) (eb_Volume batch) generation (eb_Source batch)
                 (ShadowSourceBasePath (eb_Namespace batch) (eb_Volume batch))
                 (eb_Ownership batch) true outEvents))
  end.

(** ** The directories of a shadow *)
Definition shadow_root (pool : Pool) (ns volume : string) : string :=
  below pool (shadow_elems ns volume).

Lemma shadow_elems_good ns volume : Forall good_elem (shadow_elems ns volume).
Proof. unfold shadow_elems. good_elems. Qed.

Lemma shadow_facts pool ns volume :
  usable pool →
  let root := shadow_root pool ns volume in
  IsAbs root = true ∧ Clean root = root ∧ elems root ≠ [].
Proof. intros Hp. apply below_facts; [done|apply shadow_elems_good|done]. Qed.

Lemma ensure_shadow pool ns volume tr r :
  usable pool → exec (EnsureShadowPath pool ns volume) tr r →
  (∃ a, tr = [Ev (S:=agent_sig) (OsMkdirAll (shadow_root pool ns volume) 493) a]) ∧
  ∀ p, r = Ok p → p = shadow_root pool ns volume.
Proof.
  intros Hp Hex. unfold EnsureShadowPath in Hex. rewrite ResolveShadowPath_below in Hex by apply Hp.
  exec_inv; rewrite ?app_nil_r; (split; [eauto|]); [by intros p [= <-]|done].
Qed.

(** The parent of a path below a directory is still inside it. *)
Lemma Dir_join_inside root p c :
  IsAbs root = true → Clean root = root → elems root ≠ [] →
  NormalizeEventPath p = Ok c → c ≠ "/" → inside root (Dir (join [root; c])) = true.
Proof.
  intros Ha Hc Hne Hn Hsl. assert (root ≠ "") as Hr0 by (by intros ->).
  pose proof (join_normal_strict root p c Ha Hn Hsl) as Hstrict.
  rewrite (normalize_join root p c Hr0 Hn), Ha in *.
  apply normalize_ok in Hn as (_ & Hgs & _).
  assert (Forall good_elem (elems root ++ elems c)) as Hg
    by (apply Forall_app; by split; [apply elems_abs_good|]).
  destruct (elems c) as [|x l _] using rev_ind.
  { rewrite app_nil_r in Hstrict. destruct Hstrict. apply elems_unsplit.
    pose proof (elems_form root) as F. by rewrite Ha in F. }
  rewrite app_assoc in *. rewrite Dir_snoc by done. rewrite <-Hc at 1. rewrite Clean_abs by done.
  by apply inside_unsplit.
Qed.

(** ** One event *)

(** What may be changed: the shadow, by copies from the live volume. *)
Definition shadow_op (live shadow : string) (o : agent_op) : Prop :=
  Forall (λ p, inside shadow p = true) (mutates o) ∧
  ∀ spec, o = RunCommand spec →
    ∃ src dst, spec = BuildRcloneLocalCopyToCommand src dst ∧
      inside live src = true ∧ inside shadow dst = true.

(** How a forwarded event follows from what happened. *)
Inductive forwarded (live shadow : string) (tr : list (event agent_sig)) (e : FileEvent)
  : option FileEvent → Prop :=
| forwarded_delete :
    did (OsRemoveAll (join [shadow; ev_Path e])) (Ok tt) tr →
    forwarded live shadow tr e (Some (mkFileEvent (ev_Path e) EventOpDelete))
| forwarded_copy output :
    is_delete e = false →
    did (RunCommand (BuildRcloneLocalCopyToCommand (join [live; ev_Path e]) (join [shadow; ev_Path e])))
        (output, None) tr →
    forwarded live shadow tr e (Some (mkFileEvent (ev_Path e) EventOpUpsert))
| forwarded_dir info :
    is_delete e = false →
    did (OsLstat (join [live; ev_Path e])) (Ok info) tr → info_IsDir info = true →
    forwarded live shadow tr e None.

Lemma forwarded_mono live shadow tr1 tr tr2 e o :
  forwarded live shadow tr e o → forwarded live shadow (tr1 ++ tr ++ tr2) e o.
Proof.
  destruct 1; [apply forwarded_delete|eapply forwarded_copy|eapply forwarded_dir]; try done;
    rewrite !did_app; eauto.
Qed.

Lemma shadow_event_ok live shadow e tr o :
  exec (shadow_event live shadow e) tr (Ok o) → forwarded live shadow tr e o.
Proof.
  intros Hex. unfold shadow_event in Hex. cbv zeta in Hex.
  destruct (ensurePathInside live _); [|by exec_inv].
  destruct (ensurePathInside shadow _); [|by exec_inv].
  destruct e as [path op]. cbn [ev_Path ev_Op] in *.
  assert (op = EventOpDelete ∨ is_delete (mkFileEvent path op) = false ∧
          exec (shadow_upsert (join [live; path]) (join [shadow; path]) (mkFileEvent path op)) tr (Ok o))
    as [->|[Hop Hup]] by (destruct op; auto).
  { exec_inv. destruct a1. apply forwarded_delete, did_here. }
  clear Hex. unfold shadow_upsert in Hup. cbn [ev_Path] in Hup.
  exec_step Hup. exec_inv. destruct a1 as [info|err].
  2:{ destruct (IsNotExist err); [|by exec_inv]. exec_inv. destruct a1.
      apply forwarded_delete. rewrite !did_app. auto using did_here. }
  destruct (info_IsDir info && _) eqn:Ei.
  { apply andb_true_iff in Ei as [Ei _]. exec_inv. eapply forwarded_dir; [done| |done]. apply did_here. }
  exec_step Hup. exec_step Hup. exec_inv. destruct a2 as [[]|err].
  { exec_inv. match goal with H : exec (runFullSyncCommand _) _ _ |- _ =>
      apply run_cases in H as [(_ & out & ->)|(? & ? & ? & _)]; [|done] end.
    eapply forwarded_copy; [done|]. rewrite !did_app. auto using did_here. }
  exec_step Hup. exec_inv. destruct (_ || _); [|by exec_inv]. exec_inv. destruct a3.
  apply forwarded_delete. rewrite !did_app. auto 10 using did_here.
Qed.

Lemma shadow_event_ops live shadow p e :
  IsAbs live = true → Clean live = live → elems live ≠ [] →
  IsAbs shadow = true → Clean shadow = shadow → elems shadow ≠ [] →
  NormalizeEventPath p = Ok (ev_Path e) → ev_Path e ≠ "/" →
  calls_only (S:=agent_sig) (shadow_op live shadow) (shadow_event live shadow e).
Proof.
  intros Hl1 Hl2 Hl3 Hs1 Hs2 Hs3 Hn Hsl.
  pose proof (join_normal_inside live p _ Hl1 Hl2 Hl3 Hn) as Hin1.
  pose proof (join_normal_inside shadow p _ Hs1 Hs2 Hs3 Hn) as Hin2.
  pose proof (Dir_join_inside shadow p _ Hs1 Hs2 Hs3 Hn Hsl) as Hin3.
  unfold shadow_event, shadow_upsert. cbv zeta.
  destruct (ensurePathInside live _); [|auto with sv].
  destruct (ensurePathInside shadow _); [|auto with sv].
  revert Hin1 Hin2 Hin3. generalize (join [live; ev_Path e]) as src, (join [shadow; ev_Path e]) as dst.
  intros src dst Hin1 Hin2 Hin3.
  assert (∀ x, calls_only (S:=agent_sig) (shadow_op live shadow)
    (_ <-! os_call (OsRemoveAll dst) ;; Ret (Ok x : result (option FileEvent)))) as Hrm.
  { intros x. apply calls_only_try; [apply (calls_only_call (S:=agent_sig) _ (OsRemoveAll dst))|auto with sv].
    split; [by repeat constructor|done]. }
  assert (shadow_op live shadow (OsLstat src)) as Hst by (split; [constructor|done]).
  assert (calls_only (S:=agent_sig) (shadow_op live shadow) (os_call (OsMkdirAll (Dir dst) 493))) as Hmk
    by (apply (calls_only_call (S:=agent_sig) _ (OsMkdirAll (Dir dst) 493)); split; [by repeat constructor|done]).
  assert (calls_only (S:=agent_sig) (shadow_op live shadow) (os_call (OsLstat src))) as Hst'
    by (by apply (calls_only_call (S:=agent_sig) _ (OsLstat src))).
  destruct (ev_Op e); [|done|];
    (apply calls_only_bind; [exact Hst'|]; intros [info|err];
     [|destruct (IsNotExist err); auto with sv];
     destruct (_ && _); [auto with sv|];
     apply calls_only_try; [exact Hmk|]; intros _;
     apply calls_only_bind;
     [|intros [[]|err]; [auto with sv|]; apply calls_only_bind; [exact Hst'|];
       intros again; destruct (_ || _); auto with sv]).
  all: apply calls_only_bind; [|intros [out [err|]]; auto with sv].
  all: apply (calls_only_call (S:=agent_sig) _ (RunCommand _)); split; [constructor|]; intros spec E; injection E as <-; eauto.
Qed.

(** ** All events *)
Lemma shadow_events_ok live shadow events out0 tr out :
  exec (shadow_events live shadow events out0) tr (Ok out) →
  ∃ outs, out = out0 ++ omap id outs ∧ Forall2 (forwarded live shadow tr) events outs.
Proof.
  revert out0 tr. induction events as [|e l IH]; intros out0 tr Hex; cbn [shadow_events] in Hex.
  { exec_inv. exists []. rewrite app_nil_r. by split. }
  exec_step Hex. apply shadow_event_ok in Hex0.
  apply IH in Hex as (outs & -> & Hall). exists (a :: outs). split.
  - destruct a; cbn; [by rewrite <-app_assoc|done].
  - constructor; [by apply (forwarded_mono live shadow [])|].
    eapply Forall2_impl; [exact Hall|]. intros x y Hf.
    apply (forwarded_mono live shadow tr0 _ []) in Hf. rewrite app_nil_r in Hf. exact Hf.
Qed.

Lemma shadow_events_ops live shadow events out0 :
  (∀ e, e ∈ events → calls_only (S:=agent_sig) (shadow_op live shadow) (shadow_event live shadow e)) →
  calls_only (S:=agent_sig) (shadow_op live shadow) (shadow_events live shadow events out0).
Proof.
  revert out0. induction events as [|e l IH]; intros out0 H; cbn [shadow_events]; [auto with sv|].
  apply calls_only_try; [apply H; left|]. intros o. apply IH. intros e' He'. apply H. by right.
Qed.

(** ** Theorems *)

(** Bringing a batch into the shadow never touches the live volume:
    whatever the events name and whatever the file system answers, every
    path created or deleted lies inside the shadow directory of the
    volume, and every command copies a path of the live volume into it. *)
Theorem shadow_batch_confined pool batch f tr res :
  usable pool → exec (ApplyShadowEventBatch pool batch f) tr res →
  Forall (shadow_op (volume_root pool (eb_Namespace batch) (eb_Volume batch))
                    (shadow_root pool (eb_Namespace batch) (eb_Volume batch))) (ops tr).
Proof.
  intros Hp Hex. set (live := volume_root _ _ _). set (shadow := shadow_root _ _ _).
  destruct (root_facts pool Hp (eb_Namespace batch) (eb_Volume batch)) as (Hl1 & Hl2 & Hl3).
  destruct (shadow_facts pool (eb_Namespace batch) (eb_Volume batch) Hp) as (Hs1 & Hs2 & Hs3).
  unfold ApplyShadowEventBatch in Hex. rewrite resolve_root in Hex by done. fold live in Hex, Hl1, Hl2, Hl3.
  fold shadow in Hs1, Hs2, Hs3.
  assert (∀ a, Forall (shadow_op live shadow) (ops [Ev (S:=agent_sig) (OsMkdirAll shadow 493) a])) as Hmk.
  { intros a. repeat constructor; [apply inside_refl|done]. }
  assert (∀ out0 t r, exec (shadow_events live shadow (coalesced (eb_Events batch) f) out0) t r →
            Forall (shadow_op live shadow) (ops t)) as Hev.
  { intros out0 t r H. apply List.Forall_map. revert H. apply shadow_events_ops. intros e He.
    unfold coalesced in He. rewrite coalesce_spec in He. cbn [default] in He.
    destruct (coalesced_normal _ f _ e (coalesce_spec _ _) He) as (p & Hn & Hsl).
    by eapply shadow_event_ops. }
  exec_step Hex; [apply ensure_shadow in Hex0 as [[a' ->] Hr]; [|done]|
                  apply ensure_shadow in Hex as [[a' ->] _]; [apply Hmk|done]].
  rewrite (Hr _ eq_refl) in Hex. fold shadow in Hex |- *.
  rewrite ops_app, Forall_app. split; [apply Hmk|].
  exec_step Hex; [|eauto]. rewrite ops_app, Forall_app. split; [eauto|]. exec_step Hex.
  rewrite ops_app, Forall_app. exec_inv. split; [|constructor].
  destruct (is_empty _); exec_inv; repeat constructor; done.
Qed.

(** C23: The batch that [ApplyShadowEventBatch] returns describes the shadow:
    it names the shadow as its source, makes its deletions authoritative,
    and its events are those of the coalesced batch, in the same order,
    each one a deletion if the path was removed from the shadow, a write
    if it was copied into it, and left out if the live path is a
    directory. *)
Theorem shadow_batch_outcome pool batch f tr out :
  usable pool → exec (ApplyShadowEventBatch pool batch f) tr (Ok out) →
  eb_SourceBasePath out = ShadowSourceBasePath (eb_Namespace batch) (eb_Volume batch) ∧
  eb_DeletesAuthoritative out = true ∧
  (eb_Namespace out, eb_Volume out, eb_Source out, eb_Ownership out) =
    (eb_Namespace batch, eb_Volume batch, eb_Source batch, eb_Ownership batch) ∧
  (eb_Generation batch ≠ "" → eb_Generation out = eb_Generation batch) ∧
  ∃ outs, eb_Events out = omap id outs ∧
    Forall2 (forwarded (volume_root pool (eb_Namespace batch) (eb_Volume batch))
                       (shadow_root pool (eb_Namespace batch) (eb_Volume batch)) tr)
      (keep_last (omap (admitted f) (eb_Events batch))) outs.
Proof.
  intros Hp Hex. unfold ApplyShadowEventBatch in Hex. rewrite resolve_root in Hex by done.
  unfold coalesced in Hex. rewrite coalesce_spec in Hex. cbn [default] in Hex.
  exec_step Hex. apply ensure_shadow in Hex0 as [_ Hr]; [|done]. rewrite (Hr _ eq_refl) in Hex.
  exec_step Hex. apply shadow_events_ok in Hex0 as (outs & -> & Hall). exec_step Hex.
  destruct Hex as [-> [= ->]]. cbn [eb_SourceBasePath eb_DeletesAuthoritative eb_Namespace
    eb_Volume eb_Source eb_Ownership eb_Generation eb_Events].
  split; [done|]. split; [done|]. split; [done|]. split.
  - intros Hg. apply is_empty_false in Hg. rewrite Hg in Hex0. by exec_inv.
  - exists outs. split; [done|]. eapply Forall2_impl; [exact Hall|]. intros x y Hf.
    by apply forwarded_mono.
Qed.

(** ** Preparing a shadow *)
Definition prepare_filter (req : ShadowPrepareRequest) : PathFilter :=
  mkPathFilter (sp_IncludePaths req) (sp_ExcludePaths req) (sp_PruneExcluded req).

(** Every required path was seen below [root]. *)
Definition required_seen (root : string) (required : list string)
    (tr : list (event agent_sig)) : Prop :=
  ∀ p, p ∈ required → ∃ clean info, NormalizeEventPath p = Ok clean ∧
    did (OsStat (join [root; clean])) (Ok info) tr.

(** The shadow is complete: the old manifest was removed, the live volume
    with all its required paths was then copied without an error, and the
    required paths were seen in the copy. *)
Definition shadow_complete (live shadow : string) (req : ShadowPrepareRequest)
    (tr : list (event agent_sig)) : Prop :=
  ∃ before output after,
    tr = before ++ Ev (S:=agent_sig) (RunCommand (BuildRcloneLocalSyncCommand live shadow (prepare_filter req)))
                      (output, None) :: after ∧
    required_seen live (sp_RequiredPaths req) before ∧
    OsRemove (manifest_path shadow) ∈ ops before ∧
    required_seen shadow (sp_RequiredPaths req) after.

Definition no_manifest (tr : list (event agent_sig)) : Prop :=
  Forall (λ o, ∀ p fields perm, o ≠ OsWriteJSON p fields perm) (ops tr).

Lemma validate_local_seen root required tr :
  exec (validateRequiredLocalPaths root required) tr (Ok tt) → required_seen root required tr.
Proof.
  intros (trs & -> & Hall)%exec_try_each_ok p Hp.
  apply list_elem_of_lookup_1 in Hp as [i Hi].
  destruct (Forall2_lookup_l _ _ _ _ _ Hall Hi) as (t & Ht & Hex). cbv beta zeta in Hex.
  destruct (NormalizeEventPath p) as [clean|]; [|by exec_inv]. exec_inv.
  destruct a as [info|e]; [|destruct (IsNotExist e); by exec_inv].
  exists clean, info. split; [done|].
  apply list_elem_of_lookup_2, concat_sub in Ht as (l1 & l2 & ->).
  rewrite !did_app. auto using did_here.
Qed.

Lemma validate_local_ops root required tr r :
  exec (validateRequiredLocalPaths root required) tr r → mutated tr = [] ∧ no_manifest tr.
Proof.
  intros Hex0. refine (exec_try_each_ind (λ t, mutated t = [] ∧ no_manifest t) _ _ tr r _ _ _ Hex0).
  - split; constructor.
  - intros t1 t2 [H1 H2] [H3 H4]. unfold no_manifest. rewrite mutated_app, H1, H3, ops_app, Forall_app. auto.
  - intros p t r' _ Hex. cbv beta zeta in Hex. destruct (NormalizeEventPath p); [|by exec_inv; split; constructor].
    exec_inv. destruct a0; [|destruct (IsNotExist e)]; exec_inv; split; by repeat constructor.
Qed.

Lemma seen_mono root required tr1 tr tr2 :
  required_seen root required tr → required_seen root required (tr1 ++ tr ++ tr2).
Proof.
  intros H p Hp. destruct (H p Hp) as (c & info & Hn & Hd). exists c, info.
  split; [done|]. rewrite !did_app. auto.
Qed.

(** What a preparation does before it writes the manifest: it changes at
    most the shadow and the old manifest. *)
Definition undisturbed (shadow : string) (t : list (event agent_sig)) : Prop :=
  no_manifest t ∧ Forall (λ p, p = shadow ∨ p = manifest_path shadow) (mutated t).

Lemma undisturbed_app shadow t1 t2 : undisturbed shadow t1 → undisturbed shadow t2 → undisturbed shadow (t1 ++ t2).
Proof. intros [? ?] [? ?]. unfold undisturbed, no_manifest. by rewrite ops_app, mutated_app, !Forall_app. Qed.

Lemma undisturbed_one shadow o (r : agent_ans o) :
  (∀ p fields perm, o ≠ OsWriteJSON p fields perm) →
  Forall (λ p, p = shadow ∨ p = manifest_path shadow) (mutates o) → undisturbed shadow [Ev (S:=agent_sig) o r].
Proof. intros H1 H2. split; cbn; [by repeat constructor|by rewrite app_nil_r]. Qed.

Lemma undisturbed_validate shadow root l t r : exec (validateRequiredLocalPaths root l) t r → undisturbed shadow t.
Proof. intros [H1 H2]%validate_local_ops. split; [done|]. by rewrite H1. Qed.

Lemma undisturbed_run shadow spec t r : exec (runFullSyncCommand spec) t r → undisturbed shadow t.
Proof. intros H. apply run_cases in H as [(_ & out & ->)|(out & e & _ & ->)]; by apply undisturbed_one. Qed.

(** A preparation up to the writing of the manifest. *)
Lemma prepare_split pool req tr res :
  usable pool → exec (PrepareShadow pool req) tr res →
  let live := volume_root pool (sp_Namespace req) (sp_Volume req) in
  let shadow := shadow_root pool (sp_Namespace req) (sp_Volume req) in
  ∃ tr1 tr2, tr = tr1 ++ tr2 ∧ no_manifest tr1 ∧
    Forall (λ p, p = shadow ∨ p = manifest_path shadow) (mutated tr1) ∧
    ((tr2 = [] ∧ is_ok res = false) ∨
     (shadow_complete live shadow req tr1 ∧ ∃ generation a,
        tr2 = [Ev (S:=agent_sig) (OsWriteJSON (manifest_path shadow) (manifest_fields req generation) 420) a] ∧
        res = match a with
              | Ok _ => Ok (mkShadowPrepareResponse (sp_Namespace req) (sp_Volume req)
                              (ShadowSourceBasePath (sp_Namespace req) (sp_Volume req)) generation true)
              | Err e => Err e
              end)).
Proof.
  intros Hp Hex live shadow.
  pose proof (undisturbed_app shadow) as Hq. pose proof (undisturbed_validate shadow) as Hval. pose proof (undisturbed_run shadow) as Hrun.
  assert (∀ a, undisturbed shadow [Ev (S:=agent_sig) (OsMkdirAll shadow 493) a]) as Hmk
    by (intros a; apply undisturbed_one; [done|repeat constructor]).
  match goal with |- ?G => assert (undisturbed shadow tr → is_ok res = false → G) as Hend end.
  { intros [? ?] Hr. exists tr, []. rewrite app_nil_r. auto 10. }
  unfold PrepareShadow in Hex. destruct (is_empty _); [exec_inv; apply Hend; [by split; constructor|done]|].
  rewrite resolve_root in Hex by done. fold live in Hex.
  assert (∀ a, undisturbed shadow [Ev (S:=agent_sig) (OsStat live) a]) as Hst by (intros a; by apply undisturbed_one).
  exec_step Hex; [exec_step Hex0|exec_step Hex; by apply Hend].
  exec_step Hex; [|by apply Hend; [eauto|]].
  exec_step Hex.
  2:{ apply ensure_shadow in Hex as [[r ->] _]; [|done]. by apply Hend; [eauto|]. }
  apply ensure_shadow in Hex1 as [[r ->] Hr]; [|done]. rewrite (Hr _ eq_refl) in Hex. change (shadow_root pool _ _) with shadow in Hex |- *.
  cbv zeta in Hex. fold (prepare_filter req) in Hex. exec_step Hex. exec_step Hex1.
  assert (undisturbed shadow [Ev (S:=agent_sig) (OsRemove (manifest_path shadow)) a2]) as Hrm
    by (apply undisturbed_one; [done|repeat constructor; by right]).
  exec_step Hex; [|by apply Hend; [eauto 10|]].
  exec_step Hex; [|by apply Hend; [eauto 10|]].
  exec_step Hex. exec_step Hex3. pose proof (undisturbed_run shadow _ _ _ Hex1) as Hq1. pose proof (undisturbed_validate shadow _ _ _ _ Hex2) as Hq2.
  apply run_cases in Hex1 as [(_ & out & ->)|(? & ? & ? & _)]; [|done].
  destruct a0, a4. apply validate_local_seen in Hex0 as Hlive. apply validate_local_seen in Hex2 as Hshadow.
  assert (undisturbed shadow [Ev (S:=agent_sig) TimeNow a5]) as Hnow by (by apply undisturbed_one).
  set (before := [Ev (S:=agent_sig) (OsStat live) (Ok a)] ++ tr ++
         [Ev (S:=agent_sig) (OsMkdirAll shadow 493) r] ++
         [Ev (S:=agent_sig) (OsRemove (manifest_path shadow)) a2]).
  set (sync := Ev (S:=agent_sig) (RunCommand (BuildRcloneLocalSyncCommand live shadow (prepare_filter req))) (out, None)).
  set (after := tr1 ++ [Ev (S:=agent_sig) TimeNow a5]).
  exists (before ++ sync :: after), tr4.
  assert (undisturbed shadow (before ++ [sync] ++ after)) as [? ?] by (unfold before, after; eauto 20).
  split; [unfold before, after; rewrite <- ?app_assoc; cbn [app]; rewrite <- ?app_assoc; reflexivity|]. split; [done|]. split; [done|]. right.
  split.
  - exists before, out, after. split; [done|]. split; [|split].
    + unfold before. by apply seen_mono.
    + unfold before. rewrite !ops_app, !elem_of_app. do 3 right. left.
    + unfold after. by apply (seen_mono _ _ []).
  - exists (Time.format_rfc3339nano a5). exec_inv; rewrite ?app_nil_r; eauto.
Qed.

(** The manifest marks a finished shadow.  A preparation writes nothing
    but the shadow directory and the manifest beside it; it writes the
    manifest only when the shadow is complete; and it succeeds only if the
    manifest was written, with the generation it returns. *)
Theorem prepare_shadow_manifest pool req tr res :
  usable pool → exec (PrepareShadow pool req) tr res →
  let live := volume_root pool (sp_Namespace req) (sp_Volume req) in
  let shadow := shadow_root pool (sp_Namespace req) (sp_Volume req) in
  Forall (λ p, p = shadow ∨ p = manifest_path shadow) (mutated tr) ∧
  (∀ before p fields perm a after,
     tr = before ++ Ev (S:=agent_sig) (OsWriteJSON p fields perm) a :: after →
     p = manifest_path shadow ∧ shadow_complete live shadow req before) ∧
  (∀ resp, res = Ok resp →
     spr_SourceBasePath resp = ShadowSourceBasePath (sp_Namespace req) (sp_Volume req) ∧
     did (OsWriteJSON (manifest_path shadow) (manifest_fields req (spr_Generation resp)) 420) (Ok tt) tr).
Proof.
  intros Hp Hex live shadow.
  destruct (prepare_split _ _ _ _ Hp Hex) as (tr1 & tr2 & -> & Hnm & Hm & Hcase).
  fold live shadow in Hcase, Hm. destruct Hcase as [[-> Hr]|(Hc & gen & a & -> & Hr)].
  - rewrite app_nil_r. split; [done|]. split; [|by intros resp ->].
    intros before p fields perm a after ->. unfold no_manifest in Hnm.
    rewrite ops_app, Forall_app in Hnm. destruct Hnm as [_ Hnm].
    apply Forall_cons in Hnm as [Hx _]. by destruct (Hx p fields perm).
  - split; [rewrite mutated_app; apply Forall_app; split; [done|by repeat constructor]|]. split.
    + intros before p fields perm a' after E.
      apply app_eq_inv in E as [(k & -> & E)|(k & -> & E)].
      * destruct k as [|x k].
        { cbn [app] in E. rewrite app_nil_r in Hc. inversion E; subst. done. }
        cbn [app] in E. injection E as Hev _. unfold no_manifest in Hnm.
        rewrite ops_app, Forall_app in Hnm. destruct Hnm as [_ Hnm].
        apply Forall_cons in Hnm as [Hx _]. cbn in Hx. rewrite <-Hev in Hx.
        by destruct (Hx p fields perm).
      * destruct k as [|x k].
        { cbn [app] in E. rewrite app_nil_r. inversion E; subst. done. }
        cbn [app] in E. injection E as _ E. by destruct k.
    + intros resp ->. destruct a as [[]|]; [|done]. injection Hr as ->.
      split; [done|]. rewrite did_app. right. apply did_here.
Qed.

(** ** Examples *)
Definition ex_live : Mem.world :=
  Mem.mkWorld (<["/data/ns/v/link" := mkFileInfo 4 (ModeSymlink + 511) 0 0 0]>
                 (<["/data/.simple-volume-shadows/ns/v/current/data/save" := Mem.file_info]>
                    (Mem.w_files (ex_world Mem.dir_info)))) ∅ 0.
Definition ex_events : EventBatch :=
  mkEventBatch "ns" "v" "" ex_source "" ex_policy false
    [mkFileEvent "save" EventOpUpsert; mkFileEvent "lost" EventOpUpsert;
     mkFileEvent "link" (EventOpOther "")].
Definition ex_prepare : ShadowPrepareRequest :=
  mkShadowPrepareRequest "ns" "v" [] [] false ["save"].

Lemma shadow_batch_confined_witness :
  let r := Mem.run_on (ApplyShadowEventBatch ex_pool ex_events no_filter) ex_live in
  is_ok (fst (fst r)) = true ∧
  Forall (shadow_op (volume_root ex_pool "ns" "v") (shadow_root ex_pool "ns" "v")) (ops (snd r)).
Proof.
  intros r. split; [vm_compute; reflexivity|].
  apply (shadow_batch_confined ex_pool ex_events no_filter (snd r) (fst (fst r)));
    [apply ex_pool_usable|apply run_self].
Defined.

Lemma shadow_batch_outcome_witness :
  let r := Mem.run_on (ApplyShadowEventBatch ex_pool ex_events no_filter) ex_live in
  ∃ out, fst (fst r) = Ok out ∧ eb_DeletesAuthoritative out = true ∧
    eb_Events out = [mkFileEvent "save" EventOpUpsert; mkFileEvent "lost" EventOpDelete;
                     mkFileEvent "link" EventOpUpsert].
Proof.
  intros r.
  set (out := match fst (fst r) with Ok out => out | Err _ => ex_events end).
  assert (fst (fst r) = Ok out) as E by (vm_compute; reflexivity).
  exists out. split; [exact E|].
  destruct (shadow_batch_outcome ex_pool ex_events no_filter (snd r) out) as (_ & H & _).
  - apply ex_pool_usable.
  - rewrite <-E. apply run_self.
  - split; [exact H|]. vm_compute. reflexivity.
Defined.

Lemma prepare_shadow_manifest_witness :
  let r := Mem.run_on (PrepareShadow ex_pool ex_prepare) ex_live in
  is_ok (fst (fst r)) = true ∧
  Forall (λ p, p = shadow_root ex_pool "ns" "v" ∨ p = manifest_path (shadow_root ex_pool "ns" "v"))
    (mutated (snd r)).
Proof.
  intros r. split; [vm_compute; reflexivity|].
  apply (prepare_shadow_manifest ex_pool ex_prepare (snd r) (fst (fst r)));
    [apply ex_pool_usable|apply run_self].
Defined.

End Shadow.
