(* ===== verification/Replica.v ===== *)
(** * What replication does to the disks of two nodes

    The theorems of ApplyProps and Shadow say which calls an agent makes.
    This file says what these calls achieve: it gives the calls their
    documented meaning on the contents of a disk ([effect]), states the
    contract of a batch on such contents ([event_spec], [batch_spec]), and
    shows that the two halves of the pipeline, the shadow copy on the
    source node and the batch on the receiving node, meet it and together
    bring a replica to the state of the live volume. *)
From S2P Require Import Prelude GoStrings GoPath GoUrl GoTime Effects AgentEnv AgentMem AgentTypes.
From S2P Require Import Agent Filter Commands Rclone Ownership Apply ApplyProps Shadow.

Module Replica.
Import Str Path Agent Filter Commands Ownership Apply ApplyProps Shadow.

Section trees.
(** [C]: what a file holds, its bytes or the target of a link; owners,
    modes and times are left out. *)
Context {C : Type}.

(** [same c c']: a copy without force takes [c'] for [c] (rclone goes by
    size and, where the server tells it, by time). *)
Context (same : C → C → bool).

(** ** Contents of a disk, by absolute path *)
Definition tree : Type := string → option C.

#[export] Instance tree_equiv : Equiv tree := λ t u, ∀ q, t q = u q.

#[export] Instance tree_equivalence : Equivalence (≡@{tree}).
Proof. split; [by intros t q|by intros t u H q|intros t u v H H' q; by rewrite (H q)]. Qed.

(** Nothing changes outside [p]. *)
Definition only_at (p : string) (t t' : tree) : Prop := ∀ q, inside p q = false → t' q = t q.

(** [p] and everything below it is removed. *)
Definition prunes (p : string) (t t' : tree) : Prop :=
  ∀ q, t' q = if inside p q then None else t q.

(** A file [c] is brought to a place that held [old]: it is there
    afterwards, or without force the old one that looks the same. *)
Definition arrives (force : bool) (c : C) (old new : option C) : Prop :=
  new = Some c ∨ (force = false ∧ new = old ∧ ∃ c', old = Some c' ∧ same c c' = true).

(** What [from] holds at [p] and below is copied to [target]; nothing is
    deleted.  A suffix [s] is empty or starts with a slash. *)
Definition copies (force : bool) (from : tree) (p target : string) (t t' : tree) : Prop :=
  ∀ s, inside "" s = true →
    match from (p +:+ s) with
    | Some c => arrives force c (t (target +:+ s)) (t' (target +:+ s))
    | None => t' (target +:+ s) = t (target +:+ s)
    end.

(** The same, and what [from] has not is deleted. *)
Definition mirrors (force : bool) (from : tree) (p target : string) (t t' : tree) : Prop :=
  ∀ s, inside "" s = true →
    match from (p +:+ s) with
    | Some c => arrives force c (t (target +:+ s)) (t' (target +:+ s))
    | None => t' (target +:+ s) = None
    end.

(** ** The meaning of the calls

    [served source] is what the WebDAV server of [source] serves, by path
    below the root it serves. *)
Context (served : SourceRef → tree).

(** rclone, by what its command line says (Rclone): a transfer to a place
    on this node changes that place only; if it ends without an error and
    has no filter rules, it did copy or mirror.  A comparison changes
    nothing; of any other command nothing is known. *)
Definition ran (spec : CommandSpec) (failed : bool) (t t' : tree) : Prop :=
  match Rclone.action_of spec with
  | Some (Rclone.Transfer (Rclone.mkTransfer mirror force rules from (Rclone.Local target))) =>
      only_at target t t' ∧
      (failed = false → rules = [] →
       let moved := if mirror then mirrors force else copies force in
       match from with
       | Rclone.Local p => moved t p target t t'
       | Rclone.WebDAV server p => ∀ source, Rclone.server source = server → moved (served source) p target t t'
       end)
  | Some (Rclone.Compare _ _) => t' ≡ t
  | _ => True
  end.

(** Calls that change no contents: those that look, those that make
    directories, and those that change owners, modes or times. *)
Definition keeps_contents (o : agent_op) : bool :=
  match o with
  | OsWriteFile _ _ _ | OsWriteJSON _ _ _ | OsRename _ _ | OsRemove _ | OsRemoveAll _
  | RunCommand _ | OsSymlink _ _ | OsCreate _ _ | OsWrite _ _ => false
  | _ => true
  end.

Definition op_effect (o : agent_op) (t t' : tree) : agent_ans o → Prop :=
  match o return agent_ans o → Prop with
  | OsRemoveAll p => λ r, match r with Ok _ => prunes p t t' | Err _ => only_at p t t' end
  | RunCommand spec => λ r, ran spec (match snd r with Some _ => true | None => false end) t t'
  | o => λ _, if keeps_contents o then t' ≡ t
              else ∀ q, (∀ p, p ∈ mutates o → inside p q = false) → t' q = t q
  end.

Definition effect (e : event agent_sig) (t t' : tree) : Prop :=
  op_effect (ev_op e) t t' (ev_ans e).

Fixpoint effects (tr : list (event agent_sig)) (t t' : tree) : Prop :=
  match tr with
  | [] => t' ≡ t
  | e :: tr => ∃ t1, effect e t t1 ∧ effects tr t1 t'
  end.

(** ** Lemmas: effects *)
#[export] Instance only_at_proper p : Proper ((≡) ==> (≡) ==> iff) (only_at p).
Proof. intros t t2 Ht u u2 Hu. split; intros H q Hq; [rewrite <-(Ht q), <-(Hu q)|rewrite (Ht q), (Hu q)]; auto. Qed.

#[export] Instance prunes_proper p : Proper ((≡) ==> (≡) ==> iff) (prunes p).
Proof. intros t t2 Ht u u2 Hu. split; intros H q; [rewrite <-(Ht q), <-(Hu q)|rewrite (Ht q), (Hu q)]; auto. Qed.

#[export] Instance copies_proper force : Proper ((≡) ==> (=) ==> (=) ==> (≡) ==> (≡) ==> iff) (copies force).
Proof.
  intros f f2 Hf p _ <- q _ <- t t2 Ht u u2 Hu. unfold copies.
  split; intros H s Hs; specialize (H s Hs); revert H; by rewrite (Hf _), (Ht _), (Hu _).
Qed.

#[export] Instance mirrors_proper force : Proper ((≡) ==> (=) ==> (=) ==> (≡) ==> (≡) ==> iff) (mirrors force).
Proof.
  intros f f2 Hf p _ <- q _ <- t t2 Ht u u2 Hu. unfold mirrors.
  split; intros H s Hs; specialize (H s Hs); revert H; by rewrite (Hf _), (Ht _), (Hu _).
Qed.

#[export] Instance ran_proper spec failed : Proper ((≡) ==> (≡) ==> iff) (ran spec failed).
Proof.
  intros t t2 Ht u u2 Hu. unfold ran.
  destruct (Rclone.action_of spec) as [[[mirror force rules from [target|]]|]|]; [|done|by rewrite Ht, Hu|done].
  rewrite Ht, Hu. cbv zeta. destruct mirror, from; by setoid_rewrite Ht; setoid_rewrite Hu.
Qed.

#[export] Instance effect_proper e : Proper ((≡) ==> (≡) ==> iff) (effect e).
Proof.
  intros t t2 Ht u u2 Hu. destruct e as [o r]. unfold effect, op_effect. cbn [ev_op ev_ans].
  destruct o; cbn [keeps_contents];
    try (destruct r; by rewrite Ht, Hu); try by rewrite Ht, Hu.
  all: split; intros H q Hq; [rewrite <-(Ht q), <-(Hu q)|rewrite (Ht q), (Hu q)]; auto.
Qed.

#[export] Instance effects_proper tr : Proper ((≡) ==> (≡) ==> iff) (effects tr).
Proof.
  induction tr as [|e tr IH]; intros t t2 Ht u u2 Hu; cbn [effects]; [by rewrite Ht, Hu|].
  setoid_rewrite Hu. by setoid_rewrite Ht.
Qed.

Lemma effects_app tr1 tr2 t t' :
  effects (tr1 ++ tr2) t t' ↔ ∃ u, effects tr1 t u ∧ effects tr2 u t'.
Proof.
  revert t. induction tr1 as [|e tr1 IH]; intros t; cbn [effects app].
  - split; [intros H; by exists t|]. intros (u & Hu & H). by rewrite <-Hu.
  - setoid_rewrite IH. naive_solver.
Qed.

Lemma effects_one e t t' : effects [e] t t' ↔ effect e t t'.
Proof. cbn [effects]. split; [intros (u & H & Hu); by rewrite Hu|]. intros H. by exists t'. Qed.

(** Calls that keep contents leave the disk as it is. *)
Lemma effects_keep tr t t' :
  Forall (λ e : event agent_sig, keeps_contents (ev_op e) = true) tr → effects tr t t' → t' ≡ t.
Proof.
  intros H. revert t. induction H as [|[o r] tr Ho _ IH]; intros t; cbn [effects]; [done|].
  intros (u & Hu & Htr). rewrite (IH u Htr). unfold effect, op_effect in Hu. cbn [ev_op ev_ans] in *.
  destruct o; cbn [keeps_contents] in *; done.
Qed.

Lemma only_at_trans p t u v : only_at p t u → only_at p u v → only_at p t v.
Proof. intros H1 H2 q Hq. by rewrite H2, H1. Qed.

Lemma only_at_mono p p' t u : inside p p' = true → only_at p' t u → only_at p t u.
Proof.
  intros Hp H q Hq. apply H. destruct (inside p' q) eqn:E; [|done].
  by rewrite (inside_trans p p' q) in Hq.
Qed.

Lemma only_at_refl p (t u : tree) : u ≡ t → only_at p t u.
Proof. intros H q _. apply H. Qed.

Lemma prunes_only_at p t u : prunes p t u → only_at p t u.
Proof. intros H q Hq. by rewrite H, Hq. Qed.

Lemma copies_here f p target t u c : copies true f p target t u → f p = Some c → u target = Some c.
Proof.
  intros H Hf. specialize (H "" eq_refl). rewrite !str_app_nil_r, Hf in H. by destruct H as [H|[? _]].
Qed.

(** What the copies of the agent did. *)
Lemma copyto_ran source p target spec failed t u :
  BuildRcloneCopyToCommand source p target = Ok spec → IsAbs target = true → ran spec failed t u →
  only_at target t u ∧ (failed = false → ∃ c, NormalizeEventPath p = Ok c ∧ copies true (served source) c target t u).
Proof.
  intros Hb Ht H. destruct (Rclone.copyto_action _ _ _ _ Hb Ht) as (c & Hc & Ha). unfold ran in H. rewrite Ha in H.
  destruct H as [H1 H2]. split; [done|]. intros Hf. exists c. split; [done|]. by apply H2.
Qed.

Lemma local_ran p target failed t u :
  IsAbs p = true → IsAbs target = true → ran (BuildRcloneLocalCopyToCommand p target) failed t u →
  only_at target t u ∧ (failed = false → copies true t p target t u).
Proof.
  intros Hp Ht H. unfold ran in H. rewrite Rclone.local_copyto_action in H by done. destruct H as [H1 H2].
  split; [done|]. intros Hf. by apply H2.
Qed.

Lemma sync_ran source p target failed t u :
  IsAbs target = true → ran (BuildRcloneFullSyncCommand source p target no_filter) failed t u →
  only_at target t u ∧ (failed = false → mirrors false (served source) (Trim is_slash p) target t u).
Proof.
  intros Ht H. unfold ran in H. rewrite Rclone.full_sync_action in H by done. destruct H as [H1 H2].
  split; [done|]. intros Hf. by apply H2.
Qed.

(** ** The contract of a batch

    The place of an event on a node, and the path under which the copy
    asks the source for it. *)
Definition place (root : string) (e : FileEvent) : string := join [root; ev_Path e].

(** A path whose bytes stand for themselves in an address, and which does
    not start like one. *)
Definition url_plain (p : string) : bool :=
  all_bytes Url.plain_byte p && negb (has_byte ":" (fst (Url.Cut p "/"))).

(** What one event does: an authoritative deletion removes its path, any
    other deletion does nothing, and a write changes nothing but its path
    and leaves there what the source serves under [base], if that is a
    file and its path is passed on unchanged. *)
Definition event_spec (from : tree) (base root : string) (authoritative : bool) (e : FileEvent)
    (t t' : tree) : Prop :=
  if is_delete e then (if authoritative then prunes (place root e) t t' else t' ≡ t)
  else only_at (place root e) t t' ∧
       ∀ c, NormalizeEventPath (place base e) = Ok (place base e) → IsAbs (place base e) = false →
         url_plain (place base e) = true →
         from (place base e) = Some c → t' (place root e) = Some c.

Fixpoint batch_spec (from : tree) (base root : string) (authoritative : bool)
    (l : list FileEvent) (t t' : tree) : Prop :=
  match l with
  | [] => t' ≡ t
  | e :: l => ∃ u, event_spec from base root authoritative e t u ∧
                   batch_spec from base root authoritative l u t'
  end.

(** The source is given by an address with nothing below its host, such as
    http://10.0.0.1:8081. *)
Definition web_source (source : SourceRef) : Prop :=
  ∃ u, Url.Parse (source_base source) = Ok u ∧ Url.rooted u ∧ Url.URL_String u = source_base source.

(** The addresses the controller gives out, of the form
    http://10.0.0.1:8081, are such addresses. *)
Lemma agent_web_source host port user password :
  Url.web_host host port → web_source (mkSourceRef (Url.web_url host port "") user password).
Proof.
  intros Hw. assert (source_base (mkSourceRef (Url.web_url host port "") user password) = Url.web_url host port "/") as E.
  { unfold source_base. cbn [src_WebDAVURL]. rewrite TrimRight_id.
    - unfold Url.web_url. by rewrite str_app_nil_r, str_app_assoc.
    - intros c Hc.
      destruct (is_slash c) eqn:Es; [|done]. apply ascii_eqb_eq in Es as ->. exfalso.
      unfold Url.web_url in Hc. rewrite str_app_nil_r, last_byte_app in Hc.
      + apply last_byte_has in Hc. rewrite (Url.bytes_without Url.authority_byte) in Hc; [done|by apply Url.host_port_bytes|done].
      + intros [E _]%str_app_eq_nil. by destruct Hw. }
  exists (Url.web host port "/" false ""). unfold web_source. rewrite E. by apply Url.web_rooted.
Qed.

(** What is relied on of the answers: a path reported as missing, by the
    server under the address of that path or by a failed copy, is not a
    file the server serves. *)
Record honest (tr : list (event agent_sig)) : Prop := {
  honest_head source p address code :
    missing code → Url.names_path (source_base source) p address →
    did (HttpHead address (src_User source) (src_Password source)) (HeadStatus code) tr →
    served source (TrimRight is_slash p) = None;
  honest_copy spec source p t output e :
    Rclone.action_of spec = Some (Rclone.Transfer t) → Rclone.t_from t = Rclone.WebDAV (Rclone.server source) p →
    did (RunCommand spec) (output, Some e) tr →
    isMissingSourceOutput output || isDirectorySourceCopyOutput output = true →
    served source p = None;
}.

Lemma honest_app tr1 tr2 : honest (tr1 ++ tr2) → honest tr1 ∧ honest tr2.
Proof.
  intros [H1 H2]. split; split.
  1,3: intros source p address code Hm Hn Hd; apply (H1 source p address code Hm Hn); rewrite did_app; auto.
  all: intros spec source p t output e Ha Hf Hd Ho;
    apply (H2 spec source p t output e Ha Hf); [rewrite did_app; auto|done].
Qed.

(** A normal relative path is asked for under its own name, as a file and
    as a directory. *)
Lemma candidates_normal p candidate :
  NormalizeEventPath p = Ok p → IsAbs p = false → candidate ∈ candidates p →
  (candidate = p ∨ candidate = p +:+ "/") ∧ TrimRight is_slash candidate = p.
Proof.
  intros Hn Ha Hin.
  assert (∀ x, first_byte p = Some x → is_slash x = false) as Hf.
  { destruct p as [|y p]; intros x [= <-]. cbn in Ha. unfold is_slash. by destruct (ascii_eqb _ _). }
  pose proof (normalize_ends p p Hn Hf) as Hl. pose proof (normalize_ok p p Hn) as (Hc & _ & Hne).
  assert (is_empty p = false) as He by (apply is_empty_false; intros ->; by apply Hne).
  assert (join [Trim is_slash p] = p) as Ej.
  { rewrite Trim_id by done. unfold join. rewrite filter_cons_True by done. cbn. done. }
  unfold candidates in Hin. rewrite Ej in Hin. apply elem_of_cons in Hin as [->|Hin].
  - split; [auto|]. by apply TrimRight_id.
  - destruct (HasSuffix p "/"); [by apply elem_of_nil in Hin|].
    apply list_elem_of_singleton in Hin as ->. split; [auto|]. rewrite TrimRight_app by done. by rewrite str_app_nil_r.
Qed.

(** If its bytes stand for themselves, these are plain references. *)
Lemma candidates_plain p candidate :
  NormalizeEventPath p = Ok p → IsAbs p = false → url_plain p = true → candidate ∈ candidates p →
  Url.plain_reference candidate.
Proof.
  intros Hn Ha [Hb Hc%negb_true_iff]%andb_true_iff Hin.
  pose proof (normalize_ok p p Hn) as (Hcl & Hg & Hne). specialize (Hne Ha).
  assert (p = Join "/" (elems p)) as Ep by (rewrite <-Hcl at 1; unfold Clean; rewrite Ha; by destruct (elems p)).
  assert (Split slash p = elems p) as Es.
  { rewrite Ep at 1. apply Split_Join; [done|]. eapply Forall_impl; [exact Hg|]. by intros ? (_ & _ & _ & ?). }
  assert (Forall (λ s, Url.dots s = false) (Split slash p)) as Hd.
  { rewrite Es. eapply Forall_impl; [exact Hg|]. intros x (_ & H1 & H2 & _). unfold Url.dots.
    apply orb_false_iff. by split; apply String.eqb_neq. }
  assert (p ≠ "") as Hp by (rewrite Ep; by apply Join_ne).
  destruct (candidates_normal p candidate Hn Ha Hin) as [[->| ->] _]; split; try done.
  - destruct p; done.
  - destruct p; done.
  - by rewrite all_bytes_app, Hb.
  - destruct (Url.Cut p "/") as [x o] eqn:E. rewrite (Url.Cut_more _ _ _ _ _ E).
    destruct o; [done|]. change (fst (Url.Cut "/" "/")) with "". by rewrite str_app_nil_r.
  - change (Split "/" (p +:+ "/")) with (Split slash (p +:+ "/" +:+ "")). rewrite Split_app.
    apply Forall_app. split; [done|]. by repeat constructor.
Qed.

Lemma harmless_keeps o : harmless o → keeps_contents o = true.
Proof. intros [Hm Hr]. destruct o; try done. by destruct (Hr spec). Qed.

Lemma asking_keeps source p tr r t u :
  exec (sourcePathExists source p) tr r → effects tr t u → u ≡ t.
Proof.
  intros H. apply effects_keep. eapply Forall_impl; [by eapply harmless_exists|].
  intros e. apply harmless_keeps.
Qed.

Lemma owning_keeps root target policy recursive tr r t u :
  exec (ApplyOwnershipPolicy root target policy recursive) tr r → effects tr t u → u ≡ t.
Proof.
  intros H. apply effects_keep. eapply Forall_impl; [by eapply policy_ops|]. by intros [[] ?].
Qed.

(** A path the source was asked for and reported as missing is not
    there. *)
Lemma answered_gone source p code tr :
  web_source source → honest tr → NormalizeEventPath p = Ok p → IsAbs p = false → url_plain p = true →
  missing code → answered source p code tr → served source p = None.
Proof.
  intros (u & Hu & Hroot & Hstr) Hh Hn Ha Hpl Hm (base & c & rel & Hc & Hb & Hr & Hd).
  rewrite Hu in Hb. injection Hb as <-.
  destruct (Url.reference_names _ u c Hu Hroot Hstr) as (rel' & Hr' & Hname); [by eapply candidates_plain|].
  rewrite Hr in Hr'. injection Hr' as <-.
  pose proof (honest_head _ Hh _ _ _ _ Hm Hname Hd) as H. by rewrite (proj2 (candidates_normal p c Hn Ha Hc)) in H.
Qed.

Section receive.
Context (batch : EventBatch) (root : string).
Context (Hsrc : web_source (eb_Source batch)) (Habs : IsAbs root = true).
Let base := sourceBasePath (eb_Namespace batch) (eb_Volume batch) (eb_SourceBasePath batch).

Lemma upsert_spec e tr t u :
  exec (apply_upsert root batch e) tr (Ok tt) → honest tr → effects tr t u →
  only_at (place root e) t u ∧
  ∀ c, NormalizeEventPath (place base e) = Ok (place base e) → IsAbs (place base e) = false →
    url_plain (place base e) = true → served (eb_Source batch) (place base e) = Some c → u (place root e) = Some c.
Proof.
  intros Hex Hh He. unfold apply_upsert in Hex. fold base in Hex.
  change (join [base; ev_Path e]) with (place base e) in Hex.
  change (join [root; ev_Path e]) with (place root e) in Hex.
  exec_step Hex. apply effects_app in He as (t1 & He1 & He). apply honest_app in Hh as [Hh1 Hh].
  rewrite (asking_keeps _ _ _ _ _ _ Hex0 He1) in He. clear He1 t1.
  apply exists_spec in Hex0 as [_ Hno].
  destruct a.
  3:{ exec_step Hex. split; [by apply only_at_refl|]. intros c Hn Ha Hpl Hs.
      destruct (Hno eq_refl) as (code & Hm & Hans). by rewrite (answered_gone _ _ _ _ Hsrc Hh1 Hn Ha Hpl Hm Hans) in Hs. }
  all: destruct (BuildRcloneCopyToCommand _ _ _) as [spec|] eqn:Eb; [|by exec_step Hex].
  all: exec_step Hex; apply effects_app in He as (t1 & He1 & He); apply honest_app in Hh as [Hh2 Hh];
    apply run_cases in Hex0 as [(-> & out & ->)|(out & err & -> & ->)]; apply effects_one in He1;
    unfold effect, op_effect in He1; cbn [ev_op ev_ans snd] in He1.
  all: pose proof (IsAbs_join root (ev_Path e) Habs) as Habs'; change (join [root; ev_Path e]) with (place root e) in Habs'.
  all: destruct (copyto_ran _ _ _ _ _ _ _ Eb Habs' He1) as [Hat Hc]; destruct (Rclone.copyto_action _ _ _ _ Eb Habs') as (c1 & Hn1 & Hact).
  1,3: pose proof (owning_keeps _ _ _ _ _ _ _ _ Hex He) as Hu; rewrite <-Hu in Hat;
    (split; [done|]); intros c Hn Ha Hpl Hs;
    destruct (Hc eq_refl) as (c' & Hn' & Hcp); rewrite <-Hu in Hcp; rewrite Hn in Hn'; injection Hn' as <-;
    by eapply copies_here.
  all: exec_step Hex; apply effects_app in He as (t2 & He2 & He); apply honest_app in Hh as [Hh3 Hh];
    rewrite (asking_keeps _ _ _ _ _ _ Hex0 He2) in He; clear He2 t2.
  all: assert (u ≡ t1) as Hu by (destruct a as [[]|]; try destruct (isMissingSourceCopyError _); exec_step Hex; done).
  all: rewrite <-Hu in Hat; split; [done|]; intros c Hn Ha Hpl Hs; exfalso.
  all: destruct a as [[]|]; try (by exec_step Hex).
  all: try (apply exists_spec in Hex0 as [_ Hno2]; destruct (Hno2 eq_refl) as (code & Hm & Hans);
            by rewrite (answered_gone _ _ _ _ Hsrc Hh3 Hn Ha Hpl Hm Hans) in Hs).
  all: cbn [isMissingSourceCopyError as_command] in Hex;
    destruct (isMissingSourceOutput out || isDirectorySourceCopyOutput out) eqn:Em; [|by exec_step Hex];
    rewrite Hn in Hn1; injection Hn1 as <-;
    pose proof (honest_copy _ Hh2 _ _ _ _ _ _ Hact eq_refl (did_here _ _ _) Em); congruence.
Qed.

Lemma apply_event_spec e tr t u :
  exec (apply_event root batch e) tr (Ok tt) → honest tr → effects tr t u →
  event_spec (served (eb_Source batch)) base root (eb_DeletesAuthoritative batch) e t u.
Proof.
  intros Hex Hh He. unfold apply_event in Hex. unfold event_spec, is_delete.
  destruct (ev_Op e); [by eapply upsert_spec| |by eapply upsert_spec].
  destruct (eb_DeletesAuthoritative batch); [|exec_step Hex; done].
  destruct (ensurePathInside _ _); [|by exec_step Hex].
  exec_step Hex. apply effects_one in He. exact He.
Qed.

Lemma apply_events_spec l tr t u :
  exec (try_each l (apply_event root batch)) tr (Ok tt) → honest tr → effects tr t u →
  batch_spec (served (eb_Source batch)) base root (eb_DeletesAuthoritative batch) l t u.
Proof.
  revert tr t. induction l as [|e l IH]; intros tr t Hex Hh He; cbn [try_each] in Hex.
  { exec_step Hex. done. }
  exec_step Hex. apply effects_app in He as (t1 & He1 & He). apply honest_app in Hh as [Hh1 Hh].
  destruct a. exists t1. split; [by eapply apply_event_spec|by eapply IH].
Qed.
End receive.

(** ** Lemmas: paths that are passed on unchanged *)

(** A relative path in normal form without backslashes, without spaces at
    its ends, and without the bytes that mean something in an address (the
    percent sign, the question mark, the hash and control characters): the
    names the agents pass on as they are. *)
Record plain_path (p : string) : Prop := {
  pp_normal : NormalizeEventPath p = Ok p;
  pp_rel : IsAbs p = false;
  pp_slashes : ToSlashes p = p;
  pp_spaces : TrimSpace p = p;
  pp_plain : all_bytes Url.plain_byte p = true;
}.

Lemma trim_space_left_length s : ∀ k, String.length (trim_space_left k s) ≤ String.length s.
Proof.
  induction s as [|c s IH]; intros k; cbn [trim_space_left]; [done|]. destruct k as [|k].
  - destruct (space_width _) as [|k]; [done|]. specialize (IH k). cbn. lia.
  - specialize (IH k). cbn. lia.
Qed.

Lemma trim_space_right_length s : String.length (trim_space_right s) ≤ String.length s.
Proof. induction s as [|c s IH]; cbn [trim_space_right]; [done|]. destruct (is_empty _); cbn; lia. Qed.

Lemma TrimSpace_right_fixed s : TrimSpace s = s → trim_space_right s = s.
Proof.
  unfold TrimSpace. intros H. destruct (decide (trim_space_left 0 s = s)) as [E|E]; [by rewrite E in H|].
  exfalso. apply (f_equal String.length) in H. pose proof (trim_space_right_length (trim_space_left 0 s)).
  destruct s as [|c s]; [done|]. cbn [trim_space_left] in *.
  destruct (space_width _) as [|k]; [done|]. pose proof (trim_space_left_length s k). cbn in *. lia.
Qed.

Lemma trim_space_right_app b p :
  all_bytes (byte_in 33 126) b = true → trim_space_right p = p → trim_space_right (b +:+ p) = b +:+ p.
Proof.
  intros Hb Hp. induction b as [|c b IH]; [done|]. cbn -[byte_in trim_space_left] in *.
  apply andb_true_iff in Hb as [Hc Hb]. rewrite (IH Hb). cbn [trim_space_left].
  by rewrite space_width_ink.
Qed.

Lemma TrimSpace_below b p :
  all_bytes (byte_in 33 126) b = true → b ≠ "" → TrimSpace p = p → TrimSpace (b +:+ p) = b +:+ p.
Proof.
  intros Hb Hne Hp. destruct b as [|c b]; [done|]. unfold TrimSpace.
  assert (trim_space_left 0 (String c b +:+ p) = String c b +:+ p) as ->.
  { change (String c b +:+ p) with (String c (b +:+ p)). cbn [trim_space_left].
    rewrite space_width_ink; [done|]. cbn -[byte_in] in Hb. by apply andb_true_iff in Hb as [? _]. }
  apply trim_space_right_app; [done|]. by apply TrimSpace_right_fixed.
Qed.

(** The bytes of the directories the agents make: those of a safe segment
    and the slash. *)
Definition dir_byte (c : ascii) : bool := segment_byte c || ascii_eqb c "/".

Lemma dir_byte_plain c : dir_byte c = true → byte_in 33 126 c = true ∧ slash_of_backslash c = c.
Proof. by byte_cases c. Qed.

Lemma dir_bytes_plain b : all_bytes dir_byte b = true → all_bytes (byte_in 33 126) b = true ∧ ToSlashes b = b.
Proof.
  unfold ToSlashes. induction b as [|c b IH]; cbn -[byte_in dir_byte]; [done|].
  rewrite !andb_true_iff. intros [[H1 H2]%dir_byte_plain [H3 H4]%IH]. by rewrite H2, H4.
Qed.

Lemma dir_bytes_Join l : Forall (λ s, all_bytes segment_byte s = true) l → all_bytes dir_byte (Join "/" l) = true.
Proof.
  assert (∀ s, all_bytes segment_byte s = true → all_bytes dir_byte s = true) as H.
  { intros s. apply all_bytes_mono. intros c Hc. unfold dir_byte. by rewrite Hc. }
  induction 1 as [|x l Hx Hl IH]; [done|]. destruct l as [|y l]; [cbn [Join]; auto|].
  cbn [Join] in *. by rewrite !all_bytes_app, H, IH.
Qed.

(** Names joined by slashes are in normal form. *)
Lemma normalize_names l :
  Forall good_elem l → l ≠ [] → ToSlashes (Join "/" l) = Join "/" l → TrimSpace (Join "/" l) = Join "/" l →
  NormalizeEventPath (Join "/" l) = Ok (Join "/" l) ∧ IsAbs (Join "/" l) = false ∧ elems (Join "/" l) = l.
Proof.
  intros Hl Hne Hs Ht.
  assert (clean_form false l) as Hf by (by exists 0, l).
  assert (unsplit false l = Join "/" l) as El by (by destruct l).
  assert (IsAbs (Join "/" l) = false ∧ elems (Join "/" l) = l) as [Ha Ee]
    by (rewrite <-El; by rewrite IsAbs_unsplit, elems_unsplit).
  assert (Clean (Join "/" l) = Join "/" l) as Hcl by (unfold Clean; by rewrite Ha, Ee).
  split; [|done]. unfold NormalizeEventPath. rewrite Hs, Ht. unfold TrimPrefix.
  change (HasPrefix (Join "/" l) "/") with (IsAbs (Join "/" l)). rewrite Ha, Hcl.
  assert (∀ x m, Split slash (Join "/" l) = x :: m → good_elem x) as Hx.
  { intros x m E. rewrite Split_Join in E; [rewrite E in Hl; by inversion Hl|done|].
    eapply Forall_impl; [exact Hl|]. by intros ? (_ & _ & _ & ?). }
  destruct (String.eqb_spec (Join "/" l) ".") as [E|_].
  { rewrite E in Hx. by destruct (Hx "." [] eq_refl) as (_ & ? & _). }
  destruct (String.eqb_spec (Join "/" l) "") as [E|_]; [by apply Join_ne in E|].
  destruct (HasPrefix (Join "/" l) "../") eqn:Ep.
  { apply HasPrefix_spec in Ep as [t E]. rewrite E in Hx.
    destruct (Hx ".." (Split slash t)) as (_ & _ & ? & _); [|done]. apply (Split_app ".." t). }
  destruct (String.eqb_spec (Join "/" l) "..") as [E|_]; [|done].
  rewrite E in Hx. by destruct (Hx ".." [] eq_refl) as (_ & _ & ? & _).
Qed.

Lemma segment_url c : segment_byte c = true → Url.plain_byte c = true ∧ ascii_eqb c ":" = false.
Proof. revert c. intros c. Url.each_byte c; intros H; try discriminate H; by split. Qed.

Lemma url_plain_below l p :
  Forall (λ s, all_bytes segment_byte s = true) l → l ≠ [] → Forall (λ s, has_byte slash s = false) l →
  all_bytes Url.plain_byte p = true → url_plain (Join "/" l +:+ "/" +:+ p) = true.
Proof.
  intros Hb Hne Hs Hp. apply andb_true_iff. split.
  - rewrite !all_bytes_app, Hp, andb_true_r. eapply all_bytes_mono; [|by apply dir_bytes_Join].
    intros c [Hc|Hc]%orb_true_iff; [by apply segment_url|]. by apply ascii_eqb_eq in Hc as ->.
  - destruct l as [|x l]; [done|]. apply Forall_cons in Hb as [Hx _], Hs as [Hsx _].
    assert (∃ t, Join "/" (x :: l) +:+ "/" +:+ p = x +:+ String "/" t) as [t ->].
    { destruct l as [|y l]; [by exists p|]. exists (Join "/" (y :: l) +:+ "/" +:+ p).
      change (Join "/" (x :: y :: l)) with (x +:+ "/" +:+ Join "/" (y :: l)). by rewrite !str_app_assoc. }
    rewrite Url.Cut_app by done. cbn [fst]. apply negb_true_iff, (Url.bytes_without segment_byte); [done|].
    destruct (segment_byte ":") eqn:E; [|done]. by apply segment_url in E as [_ ?].
Qed.

(** A plain path below such a directory is passed on unchanged. *)
Lemma plain_below l p :
  Forall good_elem l → l ≠ [] → Forall (λ s, all_bytes segment_byte s = true) l → plain_path p →
  let q := Join "/" (l ++ elems p) in
  join [Join "/" l; p] = q ∧ NormalizeEventPath q = Ok q ∧ IsAbs q = false ∧ url_plain q = true.
Proof.
  intros Hl Hne Hb [Hn Hr Hs Ht Hp1] q. pose proof (normalize_ok p p Hn) as (Hc & Hg & Hp). specialize (Hp Hr).
  assert (Join "/" l ≠ "") as Hj by (by apply Join_ne).
  destruct (dir_bytes_plain (Join "/" l) (dir_bytes_Join l Hb)) as [Hpl Hsl].
  assert (q = (Join "/" l +:+ "/") +:+ p) as Ej.
  { unfold q. rewrite Join_app, str_app_assoc by done. do 2 f_equal. rewrite <-Hc at 2. unfold Clean.
    rewrite Hr. by destruct (elems p). }
  destruct (normalize_names (l ++ elems p)) as (H1 & H2 & _); [by apply Forall_app|by destruct l| | |].
  - fold q. by rewrite Ej, !ToSlashes_app, Hsl, Hs.
  - fold q. rewrite Ej. apply TrimSpace_below; [by rewrite all_bytes_app, Hpl| |done].
    by intros [? _]%str_app_eq_nil.
  - split; [|split; [done|split; [done|]]].
    2:{ fold q. rewrite Ej, str_app_assoc. apply url_plain_below; [done..| |done].
        eapply Forall_impl; [exact Hl|]. by intros ? (_ & _ & _ & ?). }
    rewrite (normalize_join _ p p) by done.
    destruct (normalize_names l) as (_ & Ha & Ee); [done..| |].
    { rewrite <-(str_app_nil_r (Join "/" l)). by apply TrimSpace_below. }
    rewrite Ha, Ee. unfold q. by destruct l.
Qed.

(** ** Lemmas: places that do not meet *)

(** Neither path is at or below the other. *)
Definition apart (e e' : FileEvent) : Prop :=
  ¬ elems (ev_Path e) `prefix_of` elems (ev_Path e') ∧ ¬ elems (ev_Path e') `prefix_of` elems (ev_Path e).

Lemma unsplit_inside l m :
  l ≠ [] → m ≠ [] → Forall good_elem l → Forall good_elem m →
  inside (unsplit true l) (unsplit true m) = true → l `prefix_of` m.
Proof. intros Hl Hm Hgl Hgm. apply (below_inside (mkPool "" ".") l m Hl Hm Hgl Hgm). Qed.

(** A directory of the pool, with the facts about its path. *)
Record dir_ok (root : string) : Prop := {
  do_abs : IsAbs root = true;
  do_clean : Clean root = root;
  do_ne : elems root ≠ [];
}.

Definition normal_event (e : FileEvent) : Prop :=
  ∃ p, NormalizeEventPath p = Ok (ev_Path e) ∧ ev_Path e ≠ "/".

Lemma place_elems root e :
  dir_ok root → normal_event e →
  place root e = unsplit true (elems root ++ elems (ev_Path e)) ∧ elems (ev_Path e) ≠ [] ∧
  Forall good_elem (elems root ++ elems (ev_Path e)) ∧ inside root (place root e) = true.
Proof.
  intros [Ha Hc Hne] (p & Hn & Hsl). unfold place.
  assert (root ≠ "") as Hr by (by intros ->). pose proof (join_normal_inside root p _ Ha Hc Hne Hn) as Hi.
  rewrite (normalize_join root p _ Hr Hn), Ha in *. pose proof (normalize_ok _ _ Hn) as (Hcl & Hg & Hrel).
  split_and!; [done| |apply Forall_app; by split; [apply elems_abs_good|]|done].
  intros E. destruct (IsAbs (ev_Path e)) eqn:Hab; [|by apply Hrel].
  apply Hsl. rewrite <-Hcl. unfold Clean. by rewrite Hab, E.
Qed.

Lemma apart_places root e e' q :
  dir_ok root → normal_event e → normal_event e' → apart e e' →
  inside (place root e) q = true → inside (place root e') q = false.
Proof.
  intros Hr He He' [H1 H2] Hq. destruct (inside (place root e') q) eqn:Hq'; [|done]. exfalso.
  destruct (place_elems root e Hr He) as (E & Hn & Hg & _), (place_elems root e' Hr He') as (E' & Hn' & Hg' & _).
  assert (elems root ≠ []) as Hne by apply Hr.
  assert (∀ l m : list string, elems root ++ l `prefix_of` elems root ++ m → l `prefix_of` m) as Hcut
    by (intros l m; apply prefix_app_inv).
  destruct (inside_comparable _ _ _ Hq Hq') as [H|H]; rewrite E, E' in H; apply unsplit_inside in H;
    try done; try (by destruct (elems root)); apply Hcut in H; done.
Qed.

(** ** Consequences of the contract of a batch *)
Section contract.
Context (from : tree) (base root : string) (auth : bool).
Abbreviation bspec := (batch_spec from base root auth).

Lemma event_spec_only e t u : event_spec from base root auth e t u → only_at (place root e) t u.
Proof.
  unfold event_spec. destruct (is_delete e); [|by intros [? _]]. destruct auth; [apply prunes_only_at|].
  by apply only_at_refl.
Qed.

(** Paths no event names keep their contents. *)
Lemma batch_spec_frame l t u q :
  bspec l t u → (∀ e, e ∈ l → inside (place root e) q = false) → u q = t q.
Proof.
  revert t. induction l as [|e l IH]; intros t; cbn [batch_spec]; [intros H _; apply H|].
  intros (v & He & H) Hq. rewrite (IH v H) by (intros e' Hin; apply Hq; by right).
  apply event_spec_only in He. apply He, Hq. left.
Qed.

Lemma batch_spec_app l1 l2 t u : bspec (l1 ++ l2) t u → ∃ v, bspec l1 t v ∧ bspec l2 v u.
Proof.
  revert t. induction l1 as [|e l1 IH]; intros t; cbn [batch_spec app]; [intros H; by exists t|].
  intros (v & He & (w & H1 & H2)%IH). exists w. eauto.
Qed.

(** An event no later one interferes with has its effect in the end. *)
Lemma batch_spec_settled l1 e l2 t u :
  dir_ok root → Forall normal_event (e :: l2) → Forall (apart e) l2 → bspec (l1 ++ e :: l2) t u →
  (is_delete e = true → auth = true → ∀ q, inside (place root e) q = true → u q = None) ∧
  (is_delete e = false → ∀ c, NormalizeEventPath (place base e) = Ok (place base e) →
     IsAbs (place base e) = false → url_plain (place base e) = true →
     from (place base e) = Some c → u (place root e) = Some c).
Proof.
  intros Hr [He Hl]%Forall_cons Hap H. apply batch_spec_app in H as (v & _ & w & Hev & H).
  rewrite Forall_forall in Hl, Hap.
  assert (∀ q, inside (place root e) q = true → u q = w q) as Hkeep.
  { intros q Hq. apply (batch_spec_frame l2 w u q H). intros e' Hin. by apply (apart_places root e e' q); auto. }
  unfold event_spec in Hev. split.
  - intros Hd -> q Hq. rewrite Hd in Hev. by rewrite Hkeep, Hev, Hq.
  - intros Hd c Hn Ha Hpl Hc. rewrite Hd in Hev. rewrite Hkeep by apply inside_refl. by apply Hev.
Qed.
End contract.

Lemma dir_ok_volume pool ns volume : usable pool → dir_ok (volume_root pool ns volume).
Proof. intros Hp. destruct (root_facts pool Hp ns volume) as (? & ? & ?). by split. Qed.

Lemma dir_ok_shadow pool ns volume : usable pool → dir_ok (shadow_root pool ns volume).
Proof. intros Hp. destruct (shadow_facts pool ns volume Hp) as (? & ? & ?). by split. Qed.

Lemma coalesced_events_normal events f : Forall normal_event (keep_last (omap (admitted f) events)).
Proof.
  apply Forall_forall. intros e He. by apply (coalesced_normal events f _ e (coalesce_spec _ _)).
Qed.

(** ** Theorems: the receiving side *)

Lemma batch_meets_contract pool batch tr t u :
  usable pool → web_source (eb_Source batch) → exec (ApplyEventBatch pool batch) tr (Ok tt) → honest tr → effects tr t u →
  batch_spec (served (eb_Source batch))
    (sourceBasePath (eb_Namespace batch) (eb_Volume batch) (eb_SourceBasePath batch))
    (volume_root pool (eb_Namespace batch) (eb_Volume batch)) (eb_DeletesAuthoritative batch)
    (keep_last (omap (admitted no_filter) (eb_Events batch))) t u.
Proof.
  intros Hp Hsrc Hex Hh He. unfold ApplyEventBatch, EnsureVolumePath in Hex. rewrite resolve_root in Hex by done.
  unfold coalesced in Hex. rewrite coalesce_spec in Hex. cbn [default] in Hex.
  exec_step Hex. exec_step Hex0. exec_step Hex0. exec_step Hex1.
  apply effects_app in He as (v & Hm & He). apply honest_app in Hh as [_ Hh].
  apply effects_app in Hm as (w & Hm & Hw). apply effects_one in Hm. cbn [effects] in Hw.
  assert (v ≡ t) as Hv by (transitivity w; [exact Hw|exact Hm]).
  rewrite Hv in He. eapply apply_events_spec; [done|exact (do_abs _ (dir_ok_volume pool _ _ Hp))|done..].
Qed.

(** C9: A batch that succeeds refines its contract: on the disk of the
    receiving node it does, event by event in the coalesced order, exactly
    what [event_spec] says, whatever calls it took: deletions remove their
    path if they are authoritative, a write leaves at its path what the
    source serves there, and nothing else of the disk changes.  The source
    is an agent's plain address ([web_source]); a write is promised for
    paths that need no escaping in a URL. *)
Theorem batch_refines pool batch tr t u :
  usable pool → web_source (eb_Source batch) → exec (ApplyEventBatch pool batch) tr (Ok tt) → honest tr → effects tr t u →
  batch_spec (served (eb_Source batch))
    (sourceBasePath (eb_Namespace batch) (eb_Volume batch) (eb_SourceBasePath batch))
    (volume_root pool (eb_Namespace batch) (eb_Volume batch)) (eb_DeletesAuthoritative batch)
    (keep_last (omap (admitted no_filter) (eb_Events batch))) t u.
Proof. apply batch_meets_contract. Qed.

(** ** The sending side: bringing events into the shadow *)

(** What is relied on of the answers on the source node, while the live
    volume holds [L]: a path is reported as missing only if there is no
    file, and as a file or link only if there is one. *)
Record honest_local (L : tree) (tr : list (event agent_sig)) : Prop := {
  hl_missing p e : did (OsLstat p) (Err e) tr → IsNotExist e = true → L p = None;
  hl_found p info : did (OsLstat p) (Ok info) tr →
    info_IsDir info && negb (info_IsSymlink info) = false → is_Some (L p);
  hl_copy spec p t output e :
    Rclone.action_of spec = Some (Rclone.Transfer t) → Rclone.t_from t = Rclone.Local p →
    did (RunCommand spec) (output, Some e) tr →
    isMissingSourceOutput output || isDirectorySourceCopyOutput output = true → L p = None;
}.

Lemma honest_local_app L tr1 tr2 : honest_local L (tr1 ++ tr2) → honest_local L tr1 ∧ honest_local L tr2.
Proof.
  intros [H1 H2 H3]. split; split.
  1,4: intros p e Hd; apply (H1 p e); rewrite did_app; auto.
  1,3: intros p e Hd; apply (H2 p e); rewrite did_app; auto.
  all: intros spec p t output e Ha Hf Hd; apply (H3 spec p t output e Ha Hf); rewrite did_app; auto.
Qed.

(** One event: [o] is what is forwarded; [T] is the whole trace. *)
Definition shadow_step (T : list (event agent_sig)) (L : tree) (live shadow : string) (e : FileEvent) (o : option FileEvent)
    (t u : tree) : Prop :=
  only_at (place shadow e) t u ∧
  match o with
  | None =>
      is_delete e = false ∧
      ∃ info, did (OsLstat (place live e)) (Ok info) T ∧ info_IsDir info && negb (info_IsSymlink info) = true
  | Some e' =>
      ev_Path e' = ev_Path e ∧
      match ev_Op e' with
      | EventOpDelete =>
          (∀ q, inside (place shadow e) q = true → u q = None) ∧ (is_delete e = false → L (place live e) = None)
      | EventOpUpsert => is_delete e = false ∧ is_Some (L (place live e)) ∧ u (place shadow e) = L (place live e)
      | EventOpOther _ => False
      end
  end.

Lemma only_then_prunes p t u v : only_at p t u → prunes p u v →
  only_at p t v ∧ ∀ q, inside p q = true → v q = None.
Proof.
  intros H1 H2. split.
  - intros q Hq. by rewrite H2, Hq, H1.
  - intros q Hq. by rewrite H2, Hq.
Qed.

(** A deletion forwarded after the path was removed from the shadow. *)
Lemma shadow_removed T L live shadow e op t u v r tr :
  only_at (place shadow e) t u → (is_delete e = false → L (place live e) = None) →
  exec (_ <-! os_call (OsRemoveAll (place shadow e)) ;;
        Ret (Ok (Some (mkFileEvent (ev_Path e) op)))) tr (Ok r) →
  op = EventOpDelete → effects tr u v → shadow_step T L live shadow e r t v.
Proof.
  intros Hat HL Hex -> He. exec_step Hex. exec_step Hex0. exec_step Hex. destruct a.
  rewrite app_nil_r in He. apply effects_one in He. destruct (only_then_prunes _ _ _ _ Hat He). by split_and!.
Qed.

Lemma shadow_event_spec T L live shadow e tr o t u :
  tr ⊆ T → IsAbs live = true → IsAbs shadow = true →
  exec (shadow_event live shadow e) tr (Ok o) → honest_local L tr → effects tr t u →
  t (place live e) = L (place live e) → shadow_step T L live shadow e o t u.
Proof.
  intros HT Hl Hsh Hex Hh He HL. apply (IsAbs_join _ (ev_Path e)) in Hl, Hsh.
  change (join [live; ev_Path e]) with (place live e) in Hl. change (join [shadow; ev_Path e]) with (place shadow e) in Hsh.
  unfold shadow_event in Hex. cbv zeta in Hex.
  change (join [live; ev_Path e]) with (place live e) in Hex.
  change (join [shadow; ev_Path e]) with (place shadow e) in Hex.
  destruct (ensurePathInside live _); [|by exec_step Hex].
  destruct (ensurePathInside shadow _); [|by exec_step Hex].
  assert (is_delete e = true ∧ exec (_ <-! os_call (OsRemoveAll (place shadow e)) ;; Ret (Ok (Some e))) tr (Ok o) ∨
          is_delete e = false ∧ exec (shadow_upsert (place live e) (place shadow e) e) tr (Ok o)) as [[Hd Hup]|[Hd Hup]]
    by (unfold is_delete; destruct (ev_Op e); auto).
  { destruct e as [path op]. assert (op = EventOpDelete) as Eop by (by destruct op).
    eapply shadow_removed; [by apply only_at_refl| |exact Hup|done|done]. by rewrite Hd. }
  clear Hex. unfold shadow_upsert in Hup. exec_step Hup. exec_step Hup0.
  apply effects_app in He as (t1 & He1 & He). apply effects_one in He1. change (t1 ≡ t) in He1.
  rewrite He1 in He. clear He1 t1. apply honest_local_app in Hh as [Hh1 Hh]. destruct a1 as [info|err].
  2:{ destruct (IsNotExist err) eqn:Ene; [|by exec_step Hup].
      eapply shadow_removed; [by apply only_at_refl| |exact Hup|done|done].
      intros _. by apply (hl_missing _ _ Hh1 _ err (did_here _ _ _)). }
  destruct (info_IsDir info && _) eqn:Ei.
  { exec_step Hup. split; [by apply only_at_refl|]. split; [done|]. exists info. split; [|done].
    apply HT, did_here. }
  pose proof (hl_found _ _ Hh1 _ _ (did_here _ _ _) Ei) as Hsome.
  exec_step Hup. exec_step Hup0. apply effects_app in He as (t1 & He1 & He). apply effects_one in He1.
  change (t1 ≡ t) in He1. rewrite He1 in He. clear He1 t1. apply honest_local_app in Hh as [_ Hh].
  exec_step Hup. apply effects_app in He as (t1 & He1 & He). apply honest_local_app in Hh as [Hh2 Hh].
  apply run_cases in Hup0 as [(-> & out & ->)|(out & err & -> & ->)]; apply effects_one in He1;
    unfold effect, op_effect in He1; cbn [ev_op ev_ans snd] in He1; destruct (local_ran _ _ _ _ _ Hl Hsh He1) as [Hat Hc].
  - exec_step Hup. cbn [effects] in He. specialize (Hc eq_refl). rewrite <-He in Hc, Hat. split; [done|]. split; [done|].
    cbn [ev_Op]. split; [done|]. split; [done|]. destruct Hsome as [c Hc']. rewrite Hc'. eapply copies_here; [done|]. etransitivity; [exact HL|done].
  - exfalso. destruct Hsome as [c Hc']. exec_step Hup. exec_step Hup0. apply honest_local_app in Hh as [Hh3 _].
    destruct (_ || _) eqn:Eg; [|by exec_step Hup]. apply orb_true_iff in Eg as [Eg|Eg].
    + match type of Eg with match ?x with _ => _ end = true => destruct x as [|err'] end; [done|]. pose proof (hl_missing _ _ Hh3 _ err' (did_here _ _ _) Eg). congruence.
    + pose proof (hl_copy _ _ Hh2 _ _ _ _ _ (Rclone.local_copyto_action _ _ Hl Hsh) eq_refl (did_here _ _ _) Eg). congruence.
Qed.

Lemma part_l (t1 t2 T : list (event agent_sig)) : t1 ++ t2 ⊆ T → t1 ⊆ T.
Proof. intros H x Hx. apply H, elem_of_app. by left. Qed.

Lemma part_r (t1 t2 T : list (event agent_sig)) : t1 ++ t2 ⊆ T → t2 ⊆ T.
Proof. intros H x Hx. apply H, elem_of_app. by right. Qed.

Fixpoint shadow_chain (T : list (event agent_sig)) (L : tree) (live shadow : string) (l : list FileEvent)
    (outs : list (option FileEvent)) (t u : tree) : Prop :=
  match l, outs with
  | [], [] => u ≡ t
  | e :: l, o :: outs => ∃ v, shadow_step T L live shadow e o t v ∧ shadow_chain T L live shadow l outs v u
  | _, _ => False
  end.

Section chain.
Context (T : list (event agent_sig)) (L : tree) (live shadow : string).
Hypothesis live_ok : dir_ok live.
Hypothesis shadow_ok : dir_ok shadow.
Hypothesis disjoint : ∀ q, inside live q = true → inside shadow q = false.

(** Work on the shadow leaves the live volume alone. *)
Lemma step_keeps_live e o t u q :
  normal_event e → shadow_step T L live shadow e o t u → inside live q = true → u q = t q.
Proof.
  intros He [Hat _] Hq. apply Hat. destruct (inside (place shadow e) q) eqn:E; [|done].
  destruct (place_elems shadow e shadow_ok He) as (_ & _ & _ & Hi).
  pose proof (inside_trans _ _ _ Hi E) as H. by rewrite (disjoint q Hq) in H.
Qed.

Lemma chain_keeps_live l outs : ∀ t u q,
  Forall normal_event l → shadow_chain T L live shadow l outs t u → inside live q = true → u q = t q.
Proof.
  revert outs. induction l as [|e l IH]; intros [|o outs] t u q; cbn [shadow_chain]; try done.
  intros [He Hl]%Forall_cons (v & Hv & H) Hq. by rewrite (IH _ _ _ _ Hl H Hq), (step_keeps_live _ _ _ _ _ He Hv Hq).
Qed.

Lemma shadow_events_spec l : ∀ out0 tr out t u,
  tr ⊆ T →
  exec (shadow_events live shadow l out0) tr (Ok out) → honest_local L tr → effects tr t u →
  Forall normal_event l → (∀ q, inside live q = true → t q = L q) →
  ∃ outs, out = out0 ++ omap id outs ∧ shadow_chain T L live shadow l outs t u.
Proof.
  induction l as [|e l IH]; intros out0 tr out t u HT Hex Hh He Hn HL; cbn [shadow_events] in Hex.
  { exec_step Hex. exists []. rewrite app_nil_r. by split. }
  apply Forall_cons in Hn as [Hne Hnl]. exec_step Hex. apply effects_app in He as (v & He1 & He).
  apply honest_local_app in Hh as [Hh1 Hh]. destruct (place_elems live e live_ok Hne) as (_ & _ & _ & Hin).
  pose proof (shadow_event_spec T L live shadow e _ _ _ _ (part_l _ _ _ HT) (do_abs _ live_ok) (do_abs _ shadow_ok) Hex0 Hh1 He1 (HL _ Hin)) as Hs.
  destruct (IH _ _ _ v u (part_r _ _ _ HT) Hex Hh He Hnl) as (outs & -> & Hc).
  { intros q Hq. rewrite <-HL by done. by eapply step_keeps_live. }
  exists (a :: outs). split; [destruct a; cbn; [by rewrite <-app_assoc|done]|]. by exists v.
Qed.

(** The part of the chain from the event [e] on. *)
Lemma chain_split l1 e l2 outs t u :
  shadow_chain T L live shadow (l1 ++ e :: l2) outs t u →
  ∃ o1 o o2 v w, outs = o1 ++ o :: o2 ∧ shadow_chain T L live shadow l1 o1 t v ∧
    shadow_step T L live shadow e o v w ∧ shadow_chain T L live shadow l2 o2 w u.
Proof.
  revert outs t. induction l1 as [|x l1 IH]; intros [|o outs] t; cbn [app shadow_chain]; try done.
  - intros (v & H1 & H2). by exists [], o, outs, t, v.
  - intros (v & H1 & (o1 & o' & o2 & w & w' & -> & H2 & H3 & H4)%IH).
    exists (o :: o1), o', o2, w, w'. split; [done|]. split; [by exists v|done].
Qed.

Lemma chain_frame l : ∀ outs t u q,
  shadow_chain T L live shadow l outs t u → (∀ e, e ∈ l → inside (place shadow e) q = false) → u q = t q.
Proof.
  induction l as [|e l IH]; intros [|o outs] t u q; cbn [shadow_chain]; try done; try (by intros H _).
  intros (v & [Hat _] & H) Hq. rewrite (IH _ _ _ _ H) by (intros e' He'; apply Hq; by right).
  apply Hat, Hq. left.
Qed.

(** What is forwarded: at most one event per path, a write or a deletion. *)
Definition forwards (e : FileEvent) (o : option FileEvent) : Prop :=
  ∀ e', o = Some e' → ev_Path e' = ev_Path e ∧ (ev_Op e' = EventOpUpsert ∨ ev_Op e' = EventOpDelete).

Lemma chain_forwards l : ∀ outs t u, shadow_chain T L live shadow l outs t u → Forall2 forwards l outs.
Proof.
  induction l as [|e l IH]; intros [|o outs] t u; cbn [shadow_chain]; try done.
  intros (v & [_ Hs] & H). constructor; [|by eapply IH]. intros e' ->. destruct Hs as [Hp Hs].
  split; [done|]. destruct (ev_Op e'); auto; done.
Qed.
End chain.

(** ** Lemmas: coalescing what was forwarded changes nothing *)
Lemma keep_last_paths l : NoDup (map ev_Path (keep_last l)).
Proof.
  induction l as [|e l IH]; cbn [keep_last]; [constructor|]. destruct (existsb _ l) eqn:E; [done|].
  cbn [map]. constructor; [|done]. intros (x & Ex & Hx%keep_last_sub)%list_elem_of_fmap.
  assert (existsb (λ e', String.eqb (ev_Path e') (ev_Path e)) l = true) as H; [|by rewrite E in H].
  apply existsb_exists. exists x. split; [by apply list_elem_of_In|]. by apply String.eqb_eq.
Qed.

Lemma keep_last_id l : NoDup (map ev_Path l) → keep_last l = l.
Proof.
  induction l as [|e l IH]; cbn [keep_last map]; [done|]. intros [Hn Hd]%NoDup_cons.
  destruct (existsb _ l) eqn:E; [|by rewrite IH]. destruct Hn.
  apply existsb_exists in E as (y & Hy%list_elem_of_In & Ey%String.eqb_eq). apply list_elem_of_fmap. eauto.
Qed.

Lemma forwarded_paths l outs :
  Forall2 forwards l outs → map ev_Path (omap id outs) `sublist_of` map ev_Path l.
Proof.
  induction 1 as [|e o l outs Ho _ IH]; [done|]. destruct o as [e'|]; cbn.
  - destruct (Ho e' eq_refl) as [-> _]. by apply sublist_skip.
  - by apply sublist_cons.
Qed.

Lemma forwarded_coalesced l outs :
  NoDup (map ev_Path l) → Forall (λ e, plain_path (ev_Path e)) l → Forall2 forwards l outs →
  keep_last (omap (admitted no_filter) (omap id outs)) = omap id outs.
Proof.
  intros Hd Hp Ho.
  assert (omap (admitted no_filter) (omap id outs) = omap id outs) as ->.
  { clear Hd. induction Ho as [|e o l outs H _ IH]; [done|]. apply Forall_cons in Hp as [He Hp].
    destruct o as [e'|]; cbn; [|auto]. rewrite IH by done. destruct (H e' eq_refl) as [E Hop].
    destruct e' as [p op]. cbn in E, Hop. subst p. unfold admitted. cbn [ev_Path ev_Op]. rewrite (pp_normal _ He).
    unfold ShouldReplicate. rewrite (pp_normal _ He). by destruct Hop as [->| ->]. }
  apply keep_last_id. eapply sublist_NoDup; [exact Hd|by apply forwarded_paths].
Qed.

(** ** The whole pipeline *)
Lemma live_shadow_disjoint pool ns volume q :
  usable pool → inside (volume_root pool ns volume) q = true → inside (shadow_root pool ns volume) q = false.
Proof.
  intros Hp Hq. destruct (inside (shadow_root pool ns volume) q) eqn:E; [|done]. exfalso.
  assert (Forall good_elem (volume_elems ns volume)) as Hg1 by apply volume_elems_good.
  pose proof (shadow_elems_good ns volume) as Hg2. unfold volume_root, shadow_root in *.
  assert (safeSegment ns ≠ shadowRootDir) as Hns by apply safeSegment_not_dot.
  destruct (inside_comparable _ _ _ Hq E) as [H|H]; apply below_inside in H as [k Hk]; try done;
    unfold volume_elems, shadow_elems in Hk; cbn in Hk; congruence.
Qed.

(** Where the receiver asks the source for a path of the shadow. *)
Lemma shadow_source pool ns volume e :
  usable pool → plain_path (ev_Path e) →
  let p := place (sourceBasePath ns volume (ShadowSourceBasePath ns volume)) e in
  NormalizeEventPath p = Ok p ∧ IsAbs p = false ∧ url_plain p = true ∧
  Clean (pool_Path pool) +:+ "/" +:+ p = place (shadow_root pool ns volume) e.
Proof.
  intros Hp He p. assert (Forall (λ s, all_bytes segment_byte s = true) (shadow_elems ns volume)) as Hb.
  { unfold shadow_elems. repeat constructor; try done; apply safeSegment_bytes. }
  assert (sourceBasePath ns volume (ShadowSourceBasePath ns volume) = Join "/" (shadow_elems ns volume)) as Eb.
  { unfold sourceBasePath. rewrite ShadowSourceBasePath_elems, shadow_rel_fixed.
    destruct (is_empty (TrimSpace _)) eqn:E; [|done]. apply is_empty_spec in E.
    assert (TrimSpace (Join "/" (shadow_elems ns volume) +:+ "") = Join "/" (shadow_elems ns volume) +:+ "") as H.
    { apply TrimSpace_below; [|by apply Join_ne; [apply shadow_elems_good|]|done].
      by apply dir_bytes_plain, dir_bytes_Join. }
    rewrite str_app_nil_r, E in H. by destruct (Join_ne (shadow_elems ns volume)); [apply shadow_elems_good|..]. }
  destruct (plain_below (shadow_elems ns volume) (ev_Path e)) as (E1 & E2 & E3 & E4);
    [apply shadow_elems_good|done..|].
  unfold p, place. rewrite Eb, E1. do 3 (split; [done|]).
  destruct He as [Hn Hr _ _ _]. pose proof (normalize_ok _ _ Hn) as (Hc & Hg & Hpe). specialize (Hpe Hr).
  destruct (dir_ok_shadow pool ns volume Hp) as [Ha Hcl Hne].
  assert (ev_Path e = Join "/" (elems (ev_Path e))) as Ee.
  { rewrite <-Hc at 1. unfold Clean. rewrite Hr. by destruct (elems (ev_Path e)). }
  rewrite Ee at 2. rewrite join_good, Hcl by done. unfold shadow_root, below.
  rewrite Join_app by (done || apply shadow_elems_good). by rewrite !str_app_assoc.
Qed.

#[export] Instance shadow_step_proper T L live shadow e o : Proper ((≡) ==> (≡) ==> iff) (shadow_step T L live shadow e o).
Proof.
  intros t t2 Ht u u2 Hu. unfold shadow_step. rewrite Ht, Hu. destruct o as [e'|]; [|done].
  destruct (ev_Op e'); [by rewrite (Hu _)| |done].
  by setoid_rewrite (λ q, Hu q : u q = u2 q).
Qed.

#[export] Instance shadow_chain_proper T L live shadow l outs : Proper ((≡) ==> (≡) ==> iff) (shadow_chain T L live shadow l outs).
Proof.
  revert outs. induction l as [|e l IH]; intros [|o outs] t t2 Ht u u2 Hu; cbn [shadow_chain]; [by rewrite Ht, Hu|done..|].
  setoid_rewrite Hu. by setoid_rewrite Ht.
Qed.

(** [ApplyShadowEventBatch] on the disk of the source node. *)
Lemma shadow_batch_spec pool batch f tr out S S' :
  usable pool → exec (ApplyShadowEventBatch pool batch f) tr (Ok out) → honest_local S tr → effects tr S S' →
  ∃ gen outs,
    out = mkEventBatch (eb_Namespace batch) (eb_Volume batch) gen (eb_Source batch)
            (ShadowSourceBasePath (eb_Namespace batch) (eb_Volume batch)) (eb_Ownership batch) true (omap id outs) ∧
    shadow_chain tr S (volume_root pool (eb_Namespace batch) (eb_Volume batch))
      (shadow_root pool (eb_Namespace batch) (eb_Volume batch))
      (keep_last (omap (admitted f) (eb_Events batch))) outs S S'.
Proof.
  intros Hp Hex Hh He. set (T := tr) in |- *. assert (tr ⊆ T) as HT by done. revert HT. generalize T. clear T. intros T HT.
  unfold ApplyShadowEventBatch in Hex. rewrite resolve_root in Hex by done.
  unfold coalesced in Hex. rewrite coalesce_spec in Hex. cbn [default] in Hex.
  exec_step Hex. apply ensure_shadow in Hex0 as [[r ->] Hr]; [|done]. rewrite (Hr _ eq_refl) in Hex.
  apply effects_app in He as (t1 & He1 & He). apply effects_one in He1. change (t1 ≡ S) in He1.
  rewrite He1 in He. clear He1 t1. apply honest_local_app in Hh as [_ Hh]. apply part_r in HT.
  exec_step Hex. apply effects_app in He as (u & He1 & He). apply honest_local_app in Hh as [Hh _]. apply part_l in HT.
  destruct (shadow_events_spec T S _ _ (dir_ok_volume pool _ _ Hp) (dir_ok_shadow pool _ _ Hp)
    (λ q, live_shadow_disjoint pool _ _ q Hp) _ _ _ _ _ _ HT Hex0 Hh He1 (coalesced_events_normal _ _)) as (outs & -> & Hc); [done|].
  exec_step Hex. exec_step Hex. eexists _, outs. split; [done|].
  assert (S' ≡ u) as Hu; [|by rewrite Hu].
  revert He. rewrite app_nil_r. apply effects_keep. destruct (is_empty _); exec_inv; by repeat constructor.
Qed.

Lemma plain_normal e : plain_path (ev_Path e) → normal_event e.
Proof. intros [Hn Hr _ _ _]. exists (ev_Path e). split; [done|]. intros E. by rewrite E in Hr. Qed.

(** The later events that were forwarded do not interfere either. *)
Lemma forwarded_apart e e' l outs :
  ev_Path e' = ev_Path e → Forall (λ e, plain_path (ev_Path e)) (e :: l) → Forall2 forwards l outs →
  Forall (apart e) l → Forall normal_event (e' :: omap id outs) ∧ Forall (apart e') (omap id outs).
Proof.
  intros Ep [He Hl]%Forall_cons Hf Ha.
  assert (normal_event e') as He' by (apply plain_normal; by rewrite Ep).
  induction Hf as [|x o l outs Ho _ IH]; [by repeat constructor|].
  apply Forall_cons in Hl as [Hx Hl], Ha as [Hax Ha]. destruct (IH Hl Ha) as [H1 H2]. destruct o as [y|]; [|done].
  destruct (Ho y eq_refl) as [Ey _]. apply Forall_cons in H1 as [_ H1]. cbn. split.
  - do 2 (constructor; [done || (apply plain_normal; by rewrite Ey)|]). done.
  - constructor; [|done]. unfold apart in *. by rewrite Ep, Ey.
Qed.

(** The fate of one event on the way from the live volume to the replica. *)
Lemma event_arrives T poolS ns volume (replica : string) from e o l2 o2 v w S S' l1' R R' :
  let live := volume_root poolS ns volume in
  let shadow := shadow_root poolS ns volume in
  let base := sourceBasePath ns volume (ShadowSourceBasePath ns volume) in
  usable poolS → dir_ok replica → Forall (λ e, plain_path (ev_Path e)) (e :: l2) → Forall (apart e) l2 →
  shadow_step T S live shadow e o v w → shadow_chain T S live shadow l2 o2 w S' →
  (∀ q, from q = S' (Clean (pool_Path poolS) +:+ "/" +:+ q)) →
  batch_spec from base replica true (l1' ++ omap id (o :: o2)) R R' →
  (is_delete e = true → ∀ q, inside (place replica e) q = true → R' q = None) ∧
  (is_delete e = false →
   (∀ info, did (OsLstat (place live e)) (Ok info) T → info_IsDir info && negb (info_IsSymlink info) = false) →
   R' (place replica e) = S (place live e)).
Proof.
  intros live shadow base HpS HokR Hplain Hap [_ Hs] Hc Hfrom Hb.
  pose proof (Forall_inv Hplain : plain_path (ev_Path e)) as Hpe. pose proof (dir_ok_shadow poolS ns volume HpS) as HokS.
  destruct o as [e'|].
  2:{ destruct Hs as (Hd & info & Hi & Ei). split; [congruence|]. intros _ Hdir. by rewrite (Hdir info Hi) in Ei. }
  destruct Hs as [Ep Hs].
  destruct (forwarded_apart e e' l2 o2 Ep Hplain (chain_forwards _ _ _ _ _ _ _ _ Hc) Hap) as [Hn' Ha'].
  destruct (batch_spec_settled _ _ _ _ l1' e' (omap id o2) R R' HokR Hn' Ha' Hb) as [Hdel Hwr].
  assert (∀ root, place root e' = place root e) as Epl by (intros root; unfold place; by rewrite Ep).
  rewrite !Epl in *. split.
  - intros Hd q Hq. assert (is_delete e' = true) as Hd'.
    { unfold is_delete. destruct (ev_Op e'); [destruct Hs; congruence|done|done]. }
    by apply Hdel.
  - intros Hd _. destruct (ev_Op e') eqn:Eop; [| |done].
    + destruct Hs as (_ & [c Hc'] & Hw). rewrite Hc'.
      destruct (shadow_source poolS ns volume e HpS Hpe) as (N1 & N2 & N3 & N4).
      apply Hwr; [unfold is_delete; by rewrite Eop|done|done|done|]. rewrite Hfrom. unfold base. rewrite N4.
      rewrite <-Hc', <-Hw. eapply chain_frame; [exact Hc|]. intros e2 He2. rewrite Forall_forall in Hap.
      apply (apart_places shadow e e2); [done|by apply plain_normal| |auto|apply inside_refl].
      apply plain_normal. rewrite Forall_forall in Hplain. apply Hplain. by right.
    + destruct Hs as [_ HL]. rewrite (HL Hd). apply Hdel; [unfold is_delete; by rewrite Eop|done|apply inside_refl].
Qed.

(** The pipeline brings a replica to the state of the live volume.  Let
    a batch go through the shadow of the source node and its result be
    applied, without an error, by a replica that reads from that shadow.
    Then the live volume is unchanged, the replica changed only at paths
    the batch names, and a path of the batch that no later event touches
    ends up on the replica as it is in the live volume: with the same
    contents if it is a file, and gone if it is gone or was deleted
    (a directory is left to the events of its files). *)
Theorem pipeline_converges poolS poolT batch f trS out S S' trT R R' :
  usable poolS → usable poolT → web_source (eb_Source batch) →
  exec (ApplyShadowEventBatch poolS batch f) trS (Ok out) → honest_local S trS → effects trS S S' →
  exec (ApplyEventBatch poolT out) trT (Ok tt) → honest trT → effects trT R R' →
  (∀ q, served (eb_Source batch) q = S' (Clean (pool_Path poolS) +:+ "/" +:+ q)) →
  let live := volume_root poolS (eb_Namespace batch) (eb_Volume batch) in
  let replica := volume_root poolT (eb_Namespace batch) (eb_Volume batch) in
  let events := keep_last (omap (admitted f) (eb_Events batch)) in
  Forall (λ e, plain_path (ev_Path e)) events →
  (∀ q, inside live q = true → S' q = S q) ∧
  (∀ q, (∀ e, e ∈ events → inside (place replica e) q = false) → R' q = R q) ∧
  ∀ l1 e l2, events = l1 ++ e :: l2 → Forall (apart e) l2 →
    (is_delete e = true → ∀ q, inside (place replica e) q = true → R' q = None) ∧
    (is_delete e = false →
     (∀ info, did (OsLstat (place live e)) (Ok info) trS → info_IsDir info && negb (info_IsSymlink info) = false) →
     R' (place replica e) = S (place live e)).
Proof.
  intros HpS HpT Hsrc HexS HhS HeS HexT HhT HeT Hserved live replica events Hplain.
  destruct (shadow_batch_spec poolS batch f trS out S S' HpS HexS HhS HeS) as (gen & outs & -> & Hc).
  fold live events in Hc. set (shadow := shadow_root poolS (eb_Namespace batch) (eb_Volume batch)) in *.
  pose proof (dir_ok_volume poolS (eb_Namespace batch) (eb_Volume batch) HpS) as HokL. fold live in HokL.
  pose proof (dir_ok_shadow poolS (eb_Namespace batch) (eb_Volume batch) HpS) as HokS. fold shadow in HokS.
  pose proof (dir_ok_volume poolT (eb_Namespace batch) (eb_Volume batch) HpT) as HokR. fold replica in HokR.
  pose proof (coalesced_events_normal (eb_Events batch) f) as Hnorm. fold events in Hnorm.
  pose proof (chain_forwards _ _ _ _ _ _ _ _ Hc) as Hfw.
  pose proof (batch_meets_contract _ (mkEventBatch _ _ _ (eb_Source batch) _ _ _ _) _ _ _ HpT Hsrc HexT HhT HeT) as Hb.
  cbn [eb_Namespace eb_Volume eb_Source eb_SourceBasePath eb_DeletesAuthoritative eb_Events] in Hb.
  fold replica in Hb. rewrite (forwarded_coalesced events outs) in Hb; [|apply keep_last_paths|done..].
  split; [|split].
  - intros q Hq. exact (chain_keeps_live trS S live shadow HokS (λ q, live_shadow_disjoint poolS _ _ q HpS)
      events outs S S' q Hnorm Hc Hq).
  - intros q Hq. eapply batch_spec_frame; [exact Hb|]. intros e' (o & Ho & E)%list_elem_of_omap.
    unfold id in E. subst o. apply list_elem_of_lookup in Ho as [i Hi].
    destruct (Forall2_lookup_r _ _ _ _ _ Hfw Hi) as (e & Hei & Hf). destruct (Hf e' eq_refl) as [Ep _].
    unfold place. rewrite Ep. apply Hq. by eapply list_elem_of_lookup_2.
  - intros l1 e l2 El Hap. rewrite El in *.
    apply chain_split in Hc as (o1 & o & o2 & v & w & -> & _ & Hs & Hc2). rewrite omap_app in Hb.
    apply Forall_app in Hplain as [_ Hplain]. by eapply event_arrives.
Qed.

(** C10: A full sync without filters and required paths that succeeds
    leaves a mirror: at every place of the volume on the receiving node
    there is a file exactly where the source serves one below its base
    path, and it is the file of the source or one that rclone does not
    tell from it, whatever the volume held before and whether or not it was
    first moved to a backup. *)
Theorem full_sync_mirrors pool req token tr t u :
  usable pool → exec (ApplyFullSyncWithToken pool req token) tr (Ok tt) → effects tr t u →
  request_filter req = no_filter → fs_RequiredPaths req = [] →
  let root := volume_root pool (fs_Namespace req) (fs_Volume req) in
  let base := Trim is_slash (sourceBasePath (fs_Namespace req) (fs_Volume req) (fs_SourceBasePath req)) in
  ∀ s, inside "" s = true →
    match served (fs_Source req) (base +:+ s) with
    | Some c => ∃ c', u (root +:+ s) = Some c' ∧ (c' = c ∨ same c c' = true)
    | None => u (root +:+ s) = None
    end.
Proof.
  intros Hp Hex He Hf Hreq root base s Hs.
  destruct (full_sync_split _ _ _ _ _ Hp Hex) as (tr1 & tr2 & -> & _ & _ & [[_ ?]|[_ Hst]]); [done|].
  apply effects_app in He as (t1 & _ & He). unfold sync_stage in Hst. cbv zeta in Hst.
  assert (fs_IncludePaths req = []) as Hi by (by apply (f_equal pf_IncludePaths) in Hf).
  rewrite Hf, Hreq, Hi in Hst. cbn [forceSyncIncludedFiles validateFullSyncTargetRequiredPaths try_each] in Hst.
  exec_step Hst. exec_step Hst. exec_step Hst1. exec_step Hst. exec_step Hst1.
  apply effects_app in He as (t2 & He1 & He). cbn [app] in He.
  apply run_cases in Hst0 as [(_ & out & ->)|(? & ? & ? & _)]; [|done].
  apply effects_one in He1. destruct (sync_ran _ _ _ _ _ _ (do_abs _ (dir_ok_volume pool _ _ Hp)) He1) as [_ Hm].
  specialize (Hm eq_refl s Hs). fold root base in Hm.
  assert (u ≡ t2) as Hu.
  { unfold ApplyOwnershipPolicyForFilter in Hst.
    destruct (Ownership_Empty _); [exec_step Hst; exact He|]. change (Nat.eqb _ _) with true in Hst. by eapply owning_keeps. }
  rewrite (Hu _). destruct (served _ _) as [c|]; [|done].
  destruct Hm as [->|(_ & -> & c' & -> & Hc)]; eauto.
Qed.

End trees.
Arguments tree C : clear implicits.

(** A disk after a copy, as a function. *)
Definition copied {C} (from : tree C) (p target : string) (t : tree C) : tree C := λ q,
  if inside target q then
    match from (p +:+ str_drop (String.length target) q) with Some c => Some c | None => t q end
  else t q.

Definition pruned {C} (p : string) (t : tree C) : tree C := λ q, if inside p q then None else t q.

Lemma inside_suffix target s : inside "" s = true → inside target (target +:+ s) = true.
Proof.
  rewrite !inside_spec. intros [->|[k ->]]; [left; by rewrite str_app_nil_r|right; by exists k].
Qed.

Lemma copied_copies {C} same (from : tree C) p target t :
  only_at target t (copied from p target t) ∧ copies same true from p target t (copied from p target t).
Proof.
  split; [intros q Hq; unfold copied; by rewrite Hq|]. intros s Hs. unfold copied.
  rewrite inside_suffix, str_drop_app by done. destruct (from _); [by left|done].
Qed.

(** ** Traces in which nothing was reported as missing, and honest looks
    at a disk, as executable checks *)
Definition nothing_missing (tr : list (event agent_sig)) : bool :=
  forallb (λ e : event agent_sig,
    match ev_op e as o return agent_ans o → bool with
    | HttpHead _ _ _ => λ r, match r with HeadStatus code => (code =? 200)%Z | _ => true end
    | RunCommand _ => λ r, match snd r with Some _ => false | None => true end
    | _ => λ _, true
    end (ev_ans e)) tr.

Definition looks_match {C} (L : tree C) (tr : list (event agent_sig)) : bool :=
  forallb (λ e : event agent_sig,
    match ev_op e as o return agent_ans o → bool with
    | OsLstat p => λ r, Bool.eqb (is_ok r) (match L p with Some _ => true | None => false end)
    | RunCommand _ => λ r, match snd r with Some _ => false | None => true end
    | _ => λ _, true
    end (ev_ans e)) tr.

Lemma check_did (P : event agent_sig → bool) tr o r :
  forallb P tr = true → did o r tr → P (Ev (S:=agent_sig) o r) = true.
Proof. rewrite forallb_forall. intros H Hd. by apply H, list_elem_of_In. Qed.

Lemma nothing_missing_honest {C} (served : SourceRef → tree C) tr : nothing_missing tr = true → honest served tr.
Proof.
  intros H. split.
  - intros source p address code Hm _ Hd. pose proof (check_did _ _ _ _ H Hd) as Hc. cbn in Hc. apply Z.eqb_eq in Hc as ->.
    by destruct Hm.
  - intros spec source p t output e _ _ Hd. by pose proof (check_did _ _ _ _ H Hd).
Qed.

Lemma looks_match_honest {C} (L : tree C) tr : looks_match L tr = true → honest_local L tr.
Proof.
  intros H. split.
  - intros p e Hd _. pose proof (check_did _ _ _ _ H Hd) as Hc. cbn in Hc. by destruct (L p).
  - intros p info Hd _. pose proof (check_did _ _ _ _ H Hd) as Hc. cbn in Hc. destruct (L p); [by eexists|done].
  - intros spec p t output e _ _ Hd _. by pose proof (check_did _ _ _ _ H Hd).
Qed.

(** ** An example of the whole way

    A save game was changed and another one deleted since the shadow and
    the replica were last brought up to date. *)
Definition ex_changes : EventBatch :=
  mkEventBatch "ns" "v" "" ex_source "" ex_policy false
    [mkFileEvent "save" EventOpUpsert; mkFileEvent "lost" EventOpUpsert].
Definition ex_shadow_dir : string := "/data/.simple-volume-shadows/ns/v/current/data".
Definition ex_disk : tree string := λ q,
  if String.eqb q "/data/ns/v/save" then Some "new"
  else if String.eqb q (ex_shadow_dir +:+ "/save") then Some "old"
  else if String.eqb q (ex_shadow_dir +:+ "/lost") then Some "old" else None.
Definition ex_replica_disk : tree string := λ q,
  if String.eqb q "/data/ns/v/save" || String.eqb q "/data/ns/v/lost" then Some "old" else None.
Definition ex_disk' : tree string :=
  pruned (ex_shadow_dir +:+ "/lost") (copied ex_disk "/data/ns/v/save" (ex_shadow_dir +:+ "/save") ex_disk).
Definition ex_served : tree string := λ q, ex_disk' ("/data/" +:+ q).
Definition ex_replica_disk' : tree string :=
  pruned "/data/ns/v/lost"
    (copied ex_served ".simple-volume-shadows/ns/v/current/data/save" "/data/ns/v/save" ex_replica_disk).
Definition ex_forwarded : EventBatch :=
  mkEventBatch "ns" "v" "0001-01-01T00:00:00Z" ex_source ".simple-volume-shadows/ns/v/current/data" ex_policy true
    [mkFileEvent "save" EventOpUpsert; mkFileEvent "lost" EventOpDelete].
(** Files of the same length look the same. *)
Definition ex_same (c c' : string) : bool := Nat.eqb (String.length c) (String.length c').
Definition ex_shadow_run := Mem.run_on (ApplyShadowEventBatch ex_pool ex_changes no_filter) ex_live.
Definition ex_replica_world : Mem.world :=
  Mem.mkWorld (Mem.w_files (ex_world Mem.dir_info))
    {["http://src/.simple-volume-shadows/ns/v/current/data/save" := 200%Z]} 0.
Definition ex_replica_run := Mem.run_on (ApplyEventBatch ex_pool ex_forwarded) ex_replica_world.

(** One call of a concrete trace: it keeps the disk, copies or removes. *)
Ltac kept := eexists; split; [cbv [effect op_effect ev_op ev_ans keeps_contents]; reflexivity|].

Lemma ex_shadow_effects : effects ex_same (λ _, ex_served) (snd ex_shadow_run) ex_disk ex_disk'.
Proof.
  let t := eval vm_compute in (snd ex_shadow_run) in change (snd ex_shadow_run) with t.
  do 3 kept. eexists. split; [split; [|intros _ _]; apply (copied_copies ex_same ex_disk "/data/ns/v/save" (ex_shadow_dir +:+ "/save") ex_disk)|].
  kept. exists ex_disk'. split; [intros q; reflexivity|]. kept. done.
Qed.

Lemma ex_replica_effects : effects ex_same (λ _, ex_served) (snd ex_replica_run) ex_replica_disk ex_replica_disk'.
Proof.
  let t := eval vm_compute in (snd ex_replica_run) in change (snd ex_replica_run) with t.
  do 2 kept. eexists. split; [split; [|intros _ _; cbv zeta; intros source _];
    apply (copied_copies ex_same ex_served ".simple-volume-shadows/ns/v/current/data/save" "/data/ns/v/save" ex_replica_disk)|].
  do 7 kept. exists ex_replica_disk'. split; [intros q; reflexivity|]. done.
Qed.

Lemma ex_web_source : web_source ex_source.
Proof. eexists. split; [vm_compute; reflexivity|]. split; [by split|]. vm_compute. reflexivity. Qed.

Lemma ex_paths_plain : Forall (λ e, plain_path (ev_Path e)) (keep_last (omap (admitted no_filter) (eb_Events ex_changes))).
Proof.
  change (Forall (λ e, plain_path (ev_Path e)) (eb_Events ex_changes)).
  repeat constructor; vm_compute; reflexivity.
Qed.

Lemma batch_refines_witness :
  let r := ex_replica_run in
  fst (fst r) = Ok tt ∧
  batch_spec ex_served ".simple-volume-shadows/ns/v/current/data" "/data/ns/v" true
    [mkFileEvent "save" EventOpUpsert; mkFileEvent "lost" EventOpDelete] ex_replica_disk ex_replica_disk'.
Proof.
  intros r. assert (fst (fst r) = Ok tt) as E by (vm_compute; reflexivity). split; [exact E|].
  apply (batch_refines ex_same (λ _, ex_served) ex_pool ex_forwarded (snd r) ex_replica_disk ex_replica_disk').
  - apply ex_pool_usable.
  - exact ex_web_source.
  - rewrite <-E. apply run_self.
  - apply nothing_missing_honest. vm_compute. reflexivity.
  - exact ex_replica_effects.
Defined.

Lemma pipeline_converges_witness :
  ex_replica_disk' "/data/ns/v/save" = Some "new" ∧ ex_replica_disk' "/data/ns/v/lost" = None ∧
  ex_replica_disk' "/data/ns/v/save" = ex_disk "/data/ns/v/save".
Proof.
  split; [vm_compute; reflexivity|]. split; [vm_compute; reflexivity|].
  destruct (pipeline_converges ex_same (λ _, ex_served) ex_pool ex_pool ex_changes no_filter (snd ex_shadow_run) ex_forwarded
    ex_disk ex_disk' (snd ex_replica_run) ex_replica_disk ex_replica_disk') as (_ & _ & H).
  - apply ex_pool_usable.
  - apply ex_pool_usable.
  - exact ex_web_source.
  - assert (Ok ex_forwarded = fst (fst ex_shadow_run)) as -> by (vm_compute; reflexivity). apply run_self.
  - apply looks_match_honest. vm_compute. reflexivity.
  - exact ex_shadow_effects.
  - assert (Ok tt = fst (fst ex_replica_run)) as -> by (vm_compute; reflexivity). apply run_self.
  - apply nothing_missing_honest. vm_compute. reflexivity.
  - exact ex_replica_effects.
  - intros q. reflexivity.
  - exact ex_paths_plain.
  - refine (proj2 (H [] (mkFileEvent "save" EventOpUpsert) [mkFileEvent "lost" EventOpUpsert] eq_refl _) eq_refl _).
    + apply Forall_singleton. by split; apply (bool_decide_unpack _); vm_compute.
    + intros info Hd. apply (check_did (λ e, match ev_op e as o return agent_ans o → bool with
        OsLstat _ => λ r, match r with Ok i => negb (info_IsDir i && negb (info_IsSymlink i)) | Err _ => true end
        | _ => λ _, true end (ev_ans e))) in Hd; [|vm_compute; reflexivity].
      cbn in Hd. by apply negb_true_iff in Hd.
Defined.

(** A disk after a sync, as a function. *)
Definition mirrored {C} (from : tree C) (p target : string) (t : tree C) : tree C := λ q,
  if inside target q then from (p +:+ str_drop (String.length target) q) else t q.

Lemma mirrored_mirrors {C} same force (from : tree C) p target t :
  only_at target t (mirrored from p target t) ∧ mirrors same force from p target t (mirrored from p target t).
Proof.
  split; [intros q Hq; unfold mirrored; by rewrite Hq|]. intros s Hs. unfold mirrored.
  rewrite inside_suffix, str_drop_app by done. destruct (from _); [by left|done].
Qed.

(** A first full sync of the same volume, from the live side. *)
Definition ex_first_sync : FullSyncRequest := mkFullSyncRequest "ns" "v" ex_source "" [] [] false [] ex_policy false.
Definition ex_full_run := Mem.run_on (ApplyFullSyncWithToken ex_pool ex_first_sync "") ex_replica.

Lemma ex_full_effects :
  effects ex_same (λ _, ex_served) (snd ex_full_run) ex_replica_disk (mirrored ex_served "ns/v" "/data/ns/v" ex_replica_disk).
Proof.
  let t := eval vm_compute in (snd ex_full_run) in change (snd ex_full_run) with t.
  kept. eexists. split; [split; [|intros _ _; cbv zeta; intros source _]; apply (mirrored_mirrors ex_same false ex_served "ns/v" "/data/ns/v" ex_replica_disk)|].
  repeat kept. done.
Qed.

Lemma full_sync_mirrors_witness :
  let r := ex_full_run in
  fst (fst r) = Ok tt ∧ ex_served "ns/v/save" = Some "new" ∧
  ∃ c', mirrored ex_served "ns/v" "/data/ns/v" ex_replica_disk ("/data/ns/v" +:+ "/save") = Some c' ∧
    (c' = "new" ∨ ex_same "new" c' = true).
Proof.
  intros r. assert (fst (fst r) = Ok tt) as E by (vm_compute; reflexivity). split; [exact E|].
  split; [vm_compute; reflexivity|].
  refine (full_sync_mirrors ex_same (λ _, ex_served) ex_pool ex_first_sync "" (snd r) ex_replica_disk
    (mirrored ex_served "ns/v" "/data/ns/v" ex_replica_disk) _ _ _ _ _ "/save" _).
  - apply ex_pool_usable.
  - rewrite <-E. apply run_self.
  - exact ex_full_effects.
  - reflexivity.
  - reflexivity.
  - reflexivity.
Defined.

End Replica.
