(* ===== verification/Handlers.v ===== *)
(** * The agent's endpoints and the lock per volume

    [internal/agent/replication.go]: the handlers of
    "/replication/sync-batch", "/replication/full-sync" and
    "/replication/shadow/prepare", and [VolumeLocker], which makes requests
    for one volume wait for each other.  A handler either answers
    at once or asks for the lock of a volume and then runs a program; any
    number of requests are served at the same time, so the requests of an
    agent are a transition system whose steps are the critical section of
    [VolumeLocker.Lock], taking the mutex of the volume, one call of a
    program, and the deferred unlock. *)
From S2P Require Import Prelude GoStrings GoPath Effects AgentEnv AgentTypes.
From S2P Require Import Agent Filter Apply ApplyProps Shadow.

Module Handlers.
Import Str Path Agent Filter Apply ApplyProps Shadow.

(** ** Requests and responses *)

(** What a handler reads of a request: the method, the Authorization
    header and the outcome of decoding the JSON body. *)
Record request (B : Type) : Type := mkRequest {
  rq_Method : string;
  rq_Authorization : string;
  rq_Body : result B;
}.
Arguments mkRequest {B} _ _ _.
Arguments rq_Method {B} _.
Arguments rq_Authorization {B} _.
Arguments rq_Body {B} _.

Inductive response : Type :=
| HttpError (code : Z) (e : error)
| BatchReply (volume : string) (events : nat)
| SyncReply (volume : string)
| ShadowReply (r : ShadowPrepareResponse).

(** A request that has passed the checks of its handler: the volume to
    lock and the program to run while it is locked. *)
Record job : Type := mkJob {
  job_Namespace : string;
  job_Volume : string;
  job_Prog : prog agent_sig response;
}.

(** The checks at the head of every handler. *)
Definition admit_request {B} (token : string) (r : request B) (f : B → job) : response + job :=
  if negb (String.eqb (rq_Method r) "POST") then
    inl (HttpError 405 (Errorf "method not allowed" []))
  else if negb (Authorize token (rq_Authorization r)) then
    inl (HttpError 401 (Errorf "unauthorized" []))
  else
    match rq_Body r with
    | Err e => inl (HttpError 400 e)
    | Ok body => inr (f body)
    end.

Definition SyncBatchHandler (pool : Pool) (token : string) (r : request EventBatch)
  : response + job :=
  admit_request token r (λ batch,
    mkJob (eb_Namespace batch) (eb_Volume batch)
      (applied <- ApplyEventBatch pool batch ;;
       match applied with
       | Err e => Ret (HttpError 500 e)
       | Ok _ => Ret (BatchReply (eb_Volume batch) (length (eb_Events batch)))
       end)).

Definition FullSyncHandler (pool : Pool) (token : string) (r : request FullSyncRequest)
  : response + job :=
  admit_request token r (λ req,
    mkJob (fs_Namespace req) (fs_Volume req)
      (applied <- ApplyFullSyncWithToken pool req
                    (TrimPrefix (rq_Authorization r) "Bearer ") ;;
       match applied with
       | Err e => Ret (HttpError 500 e)
       | Ok _ => Ret (SyncReply (fs_Volume req))
       end)).

Definition ShadowPrepareHandler (pool : Pool) (token : string) (r : request ShadowPrepareRequest)
  : response + job :=
  admit_request token r (λ req,
    mkJob (sp_Namespace req) (sp_Volume req)
      (prepared <- PrepareShadow pool req ;;
       match prepared with
       | Err e => Ret (HttpError 500 e)
       | Ok resp => Ret (ShadowReply resp)
       end)).

(** ** [VolumeLocker]

    [locks] maps a key to the address of its mutex; an address is taken
    from a counter when a mutex is created.  [owner] says which request
    holds the mutex at an address. *)
Record VolumeLocker : Type := mkVolumeLocker {
  locks : gmap string nat;
  next : nat;
}.

Definition lock_key (namespace volume : string) : string :=
  safeSegment namespace +:+ "/" +:+ safeSegment volume.

(** The section of [Lock] guarded by [l.mu]: the mutex of the key, created
    when there is none. *)
Definition get_lock (l : VolumeLocker) (key : string) : nat * VolumeLocker :=
  match locks l !! key with
  | Some m => (m, l)
  | None => (next l, mkVolumeLocker (<[key := next l]> (locks l)) (S (next l)))
  end.

(** ** The requests of an agent *)
Inductive thread : Type :=
| Arrived (j : job)
| Waiting (j : job) (m : nat)
| Inside (j : job) (m : nat)
| Answered (r : response).

Record agent_state : Type := mkAgentState {
  locker : VolumeLocker;
  owner : gmap nat nat;
  threads : gmap nat thread;
}.

Definition step_job (j : job) (p : prog agent_sig response) : job :=
  mkJob (job_Namespace j) (job_Volume j) p.

(** The request [i] takes a step. *)
Inductive act (i : nat) : agent_state → agent_state → Prop :=
| act_get s j m l :
    threads s !! i = Some (Arrived j) →
    get_lock (locker s) (lock_key (job_Namespace j) (job_Volume j)) = (m, l) →
    act i s (mkAgentState l (owner s) (<[i := Waiting j m]> (threads s)))
| act_lock s j m :
    threads s !! i = Some (Waiting j m) → owner s !! m = None →
    act i s (mkAgentState (locker s) (<[m := i]> (owner s)) (<[i := Inside j m]> (threads s)))
| act_call s j m o k (a : agent_ans o) :
    threads s !! i = Some (Inside j m) → job_Prog j = Vis (S:=agent_sig) o k →
    act i s (mkAgentState (locker s) (owner s) (<[i := Inside (step_job j (k a)) m]> (threads s)))
| act_unlock s j m r :
    threads s !! i = Some (Inside j m) → job_Prog j = Ret r →
    act i s (mkAgentState (locker s) (delete m (owner s)) (<[i := Answered r]> (threads s))).

(** [arrives]: the requests the agent gets. *)
Inductive step (arrives : job → Prop) : agent_state → agent_state → Prop :=
| step_arrive s i j :
    threads s !! i = None → arrives j →
    step arrives s (mkAgentState (locker s) (owner s) (<[i := Arrived j]> (threads s)))
| step_act i s s' : act i s s' → step arrives s s'.

Definition initial : agent_state := mkAgentState (mkVolumeLocker ∅ 0) ∅ ∅.

Definition reachable (arrives : job → Prop) (s : agent_state) : Prop := rtc (step arrives) initial s.

(** The bodies of the requests for the three endpoints, with the volume
    each is about, and the job its handler makes of a request that has
    this body. *)
Inductive body : Type :=
| BatchBody (b : EventBatch)
| SyncBody (r : FullSyncRequest)
| ShadowBody (r : ShadowPrepareRequest).

Definition body_namespace (b : body) : string :=
  match b with BatchBody b => eb_Namespace b | SyncBody r => fs_Namespace r | ShadowBody r => sp_Namespace r end.

Definition body_volume (b : body) : string :=
  match b with BatchBody b => eb_Volume b | SyncBody r => fs_Volume r | ShadowBody r => sp_Volume r end.

Definition accepted (pool : Pool) (token : string) (b : body) (j : job) : Prop :=
  match b with
  | BatchBody b => ∃ r, rq_Body r = Ok b ∧ SyncBatchHandler pool token r = inr j
  | SyncBody r => ∃ q, rq_Body q = Ok r ∧ FullSyncHandler pool token q = inr j
  | ShadowBody r => ∃ q, rq_Body q = Ok r ∧ ShadowPrepareHandler pool token q = inr j
  end.

Definition handled (pool : Pool) (token : string) (j : job) : Prop := ∃ b, accepted pool token b j.

(** [q] is what is left of [p] after the calls of [tr]. *)
Fixpoint remains {A} (p : prog agent_sig A) (tr : list (event agent_sig)) (q : prog agent_sig A) : Prop :=
  match tr with
  | [] => q = p
  | e :: tr => ∃ k, p = Vis (S:=agent_sig) (ev_op e) k ∧ remains (k (ev_ans e)) tr q
  end.

(** ** The invariant *)
Definition has_mutex (s : agent_state) (j : job) (m : nat) : Prop :=
  locks (locker s) !! lock_key (job_Namespace j) (job_Volume j) = Some m.

Record inv (s : agent_state) : Prop := {
  inv_fresh key m : locks (locker s) !! key = Some m → m < next (locker s);
  inv_inj key key' m :
    locks (locker s) !! key = Some m → locks (locker s) !! key' = Some m → key = key';
  inv_waiting i j m : threads s !! i = Some (Waiting j m) → has_mutex s j m;
  inv_inside i j m : threads s !! i = Some (Inside j m) → has_mutex s j m ∧ owner s !! m = Some i;
  inv_owner m i : owner s !! m = Some i → ∃ j, threads s !! i = Some (Inside j m);
}.

Lemma get_lock_spec l key m l' :
  get_lock l key = (m, l') →
  (∀ k n, locks l !! k = Some n → n < next l) →
  (∀ k k' n, locks l !! k = Some n → locks l !! k' = Some n → k = k') →
  locks l' !! key = Some m ∧ (∀ k n, locks l !! k = Some n → locks l' !! k = Some n) ∧
  (∀ k n, locks l' !! k = Some n → n < next l') ∧
  (∀ k k' n, locks l' !! k = Some n → locks l' !! k' = Some n → k = k').
Proof.
  unfold get_lock. destruct (locks l !! key) as [m0|] eqn:E; intros [= <- <-] Hf Hi; [auto|].
  cbn [locks next]. split_and!.
  - apply lookup_insert_eq.
  - intros k n Hk. rewrite lookup_insert_ne by congruence. done.
  - intros k n [[<- <-]|[_ Hk]]%lookup_insert_Some; [lia|]. apply Hf in Hk. lia.
  - intros k k' n H1 H2. rewrite lookup_insert_Some in H1, H2.
    destruct H1 as [[<- <-]|[_ H1]], H2 as [[<- E2]|[_ H2]];
      [done|apply Hf in H2; lia|subst; apply Hf in H1; lia|by eapply Hi].
Qed.

Lemma inv_step arrives s s' : inv s → step arrives s s' → inv s'.
Proof.
  intros [Hf Hi Hw Hin Ho] Hs.
  destruct Hs as [s i j Hn _|i s s' [s0 j m l Ht Hg|s0 j m Ht Hfree|s0 j m o k a Ht Hp|s0 j m r Ht Hp]];
    unfold has_mutex in *; cbn [locker owner threads] in *.
  - split; unfold has_mutex; cbn [locker owner threads]; try done.
    + intros i' j' m' [[_ ?]|[_ H]]%lookup_insert_Some; [done|eauto].
    + intros i' j' m' [[_ ?]|[_ H]]%lookup_insert_Some; [done|eauto].
    + intros m i' H. destruct (Ho m i' H) as [j' Hj]. exists j'.
      rewrite lookup_insert_ne by congruence. done.
  - destruct (get_lock_spec _ _ _ _ Hg Hf Hi) as (H1 & H2 & H3 & H4).
    split; unfold has_mutex; cbn [locker owner threads]; try done.
    + intros i' j' m' [[_ ?]|[_ H]]%lookup_insert_Some; [by simplify_eq|eauto].
    + intros i' j' m' [[_ ?]|[_ H]]%lookup_insert_Some; [done|]. apply Hin in H as [? ?]. eauto.
    + intros m' i' H. destruct (Ho m' i' H) as [j' Hj]. exists j'.
      rewrite lookup_insert_ne by congruence. done.
  - split; unfold has_mutex; cbn [locker owner threads]; try done.
    + intros i' j' m' [[_ ?]|[_ H]]%lookup_insert_Some; [done|eauto].
    + intros i' j' m' [[<- ?]|[Hne H]]%lookup_insert_Some.
      * simplify_eq. split; [eauto|apply lookup_insert_eq].
      * apply Hin in H as [? H]. split; [done|]. rewrite lookup_insert_ne by congruence. done.
    + intros m' i' [[<- <-]|[Hne H]]%lookup_insert_Some.
      * exists j. apply lookup_insert_eq.
      * destruct (Ho m' i' H) as [j' Hj]. exists j'. rewrite lookup_insert_ne by congruence. done.
  - split; unfold has_mutex; cbn [locker owner threads]; try done.
    + intros i' j' m' [[_ ?]|[_ H]]%lookup_insert_Some; [done|eauto].
    + intros i' j' m' [[<- ?]|[Hne H]]%lookup_insert_Some; [|eauto].
      simplify_eq. cbn. eauto.
    + intros m' i' H. destruct (decide (i = i')) as [->|Hne].
      * destruct (Ho m' i' H) as [j' Hj]. rewrite Ht in Hj. simplify_eq.
        eexists. apply lookup_insert_eq.
      * rewrite lookup_insert_ne by done. eauto.
  - split; unfold has_mutex; cbn [locker owner threads]; try done.
    + intros i' j' m' [[_ ?]|[_ H]]%lookup_insert_Some; [done|eauto].
    + intros i' j' m' [[_ ?]|[Hne H]]%lookup_insert_Some; [done|].
      apply Hin in H as H'. destruct H' as [H1 H2]. split; [done|].
      rewrite lookup_delete_ne; [done|]. intros ->. apply Hin in Ht as [_ Ht]. congruence.
    + intros m' i' [Hne H]%lookup_delete_Some. destruct (Ho m' i' H) as [j' Hj]. exists j'.
      rewrite lookup_insert_ne; [done|]. intros ->. congruence.
Qed.

Lemma requests_inv arrives s : reachable arrives s → inv s.
Proof.
  intros H. unfold reachable in H. assert (inv initial) as H0.
  { split; cbn; intros; rewrite lookup_empty in *; discriminate. }
  induction H; [done|]. apply IHrtc. by eapply inv_step.
Qed.

(** Two volumes have one key exactly when they have one directory. *)
Lemma lock_key_inj ns volume ns' volume' :
  lock_key ns volume = lock_key ns' volume' → volume_elems ns volume = volume_elems ns' volume'.
Proof.
  unfold lock_key. intros E. apply (f_equal (Split slash)) in E. rewrite !Split_app in E.
  assert (∀ s, Split slash (safeSegment s) = [safeSegment s]) as Hs
    by (intros s; apply Split_single; by destruct (safeSegment_good s) as (_ & _ & _ & ?)).
  by rewrite !Hs in E.
Qed.

Lemma lock_key_root pool ns volume ns' volume' :
  usable pool → lock_key ns volume = lock_key ns' volume' ↔ volume_root pool ns volume = volume_root pool ns' volume'.
Proof.
  intros Hp. split.
  - intros E%lock_key_inj. unfold volume_root. by rewrite E.
  - intros E. apply below_inj in E; [|done|done|apply volume_elems_good..].
    unfold volume_elems in E. injection E as E1 E2. unfold lock_key. by rewrite E1, E2.
Qed.

(** Volumes with different keys have no path in common. *)
Lemma volumes_apart pool ns volume ns' volume' :
  usable pool → lock_key ns volume ≠ lock_key ns' volume' →
  ∀ q, inside (volume_root pool ns volume) q = true → inside (volume_root pool ns' volume') q = false.
Proof.
  intros Hp Hk q Hq. destruct (inside (volume_root pool ns' volume') q) eqn:E; [|done]. exfalso. apply Hk.
  assert (∀ a b, Forall good_elem (volume_elems a b)) as Hg by (intros; apply volume_elems_good).
  apply (lock_key_root pool); [done|]. unfold volume_root in *.
  destruct (inside_comparable _ _ _ Hq E) as [H|H]; apply below_inside in H as [k Hl]; try done;
    destruct k; try (by rewrite Hl, app_nil_r); by apply (f_equal length) in Hl.
Qed.

(** ** What the requests work on *)
Lemma remains_snoc {A} (p : prog agent_sig A) tr o k (a : agent_ans o) :
  remains p tr (Vis (S:=agent_sig) o k) → remains p (tr ++ [Ev (S:=agent_sig) o a]) (k a).
Proof.
  revert p. induction tr as [|e tr IH]; intros p; cbn [remains app]; [intros <-; by exists k|].
  intros (k' & -> & H). exists k'. eauto.
Qed.

(** A request at work does what is left of a job that arrived, under the
    lock of that job. *)
Definition comes_from (arrives : job → Prop) (j : job) : Prop :=
  ∃ j0 tr, arrives j0 ∧ job_Namespace j = job_Namespace j0 ∧ job_Volume j = job_Volume j0 ∧
    remains (job_Prog j0) tr (job_Prog j).

Definition thread_ok (arrives : job → Prop) (t : thread) : Prop :=
  match t with Arrived j | Waiting j _ | Inside j _ => comes_from arrives j | Answered _ => True end.

Lemma threads_step arrives s s' :
  (∀ i t, threads s !! i = Some t → thread_ok arrives t) → step arrives s s' →
  ∀ i t, threads s' !! i = Some t → thread_ok arrives t.
Proof.
  intros H Hs.
  destruct Hs as [s i j Hn Ha|i s s' [s0 j m l Ht Hg|s0 j m Ht Hfree|s0 j m o k a Ht Hp|s0 j m r Ht Hp]]; cbn [threads];
    intros i' t [[_ <-]|[_ ?]]%lookup_insert_Some; eauto.
  - exists j, []. by split_and!.
  - exact (H _ _ Ht).
  - exact (H _ _ Ht).
  - destruct (H _ _ Ht) as (j0 & tr & Ha & E1 & E2 & Hr). exists j0, (tr ++ [Ev (S:=agent_sig) o a]).
    split_and!; [done..|]. rewrite Hp in Hr. exact (remains_snoc _ _ _ _ _ Hr).
  - done.
Qed.

Lemma threads_come_from arrives s i t : reachable arrives s → threads s !! i = Some t → thread_ok arrives t.
Proof.
  intros H. unfold reachable in H. revert i t.
  assert (∀ i t, threads initial !! i = Some t → thread_ok arrives t) as H0.
  { intros i t Hi. cbn in Hi. by rewrite lookup_empty in Hi. }
  induction H as [|s0 s1 s2 Hs _ IH]; [done|]. by apply IH, (threads_step arrives s0).
Qed.

(** A handler locks the volume its request is about. *)
Lemma admit_body {B} token (r : request B) f (b : B) j :
  rq_Body r = Ok b → admit_request token r f = inr j → j = f b.
Proof.
  intros Hb. unfold admit_request. rewrite Hb. destruct (negb _); [done|]. destruct (negb _); [done|]. by intros [= <-].
Qed.

Lemma accepted_locks pool token b j :
  accepted pool token b j → job_Namespace j = body_namespace b ∧ job_Volume j = body_volume b.
Proof. destruct b; intros (r' & Hb & ->%(admit_body _ _ _ _ _ Hb)); done. Qed.

(** ** Theorems *)

(** C20: Two requests for batches, full syncs or shadows that an agent
    carries out at the same time are about volumes whose directories have
    no path in common, however its requests interleave: each of the two is
    what is left of the work its handler makes of a request, and the
    requests name different volumes.  The lock is no coarser than needed:
    two volumes share a key exactly if they share a directory. *)
Theorem volume_requests_exclusive pool token s :
  usable pool → reachable (handled pool token) s →
  (∀ i i' j j' m m',
     threads s !! i = Some (Inside j m) → threads s !! i' = Some (Inside j' m') → i ≠ i' →
     ∃ b b' j0 j0' tr tr', accepted pool token b j0 ∧ accepted pool token b' j0' ∧
       remains (job_Prog j0) tr (job_Prog j) ∧ remains (job_Prog j0') tr' (job_Prog j') ∧
       ∀ q, inside (volume_root pool (body_namespace b) (body_volume b)) q = true →
            inside (volume_root pool (body_namespace b') (body_volume b')) q = false) ∧
  (∀ ns volume ns' volume', lock_key ns volume = lock_key ns' volume' ↔
     volume_root pool ns volume = volume_root pool ns' volume').
Proof.
  intros Hp Hs. pose proof (requests_inv _ _ Hs) as [Hf Hi Hw Hin Ho].
  split; [|intros; by apply lock_key_root]. intros i i' j j' m m' H1 H2 Hne.
  destruct (threads_come_from _ _ _ _ Hs H1) as (j0 & tr & [b Hb] & E1 & E2 & Hr).
  destruct (threads_come_from _ _ _ _ Hs H2) as (j0' & tr' & [b' Hb'] & E1' & E2' & Hr').
  exists b, b', j0, j0', tr, tr'. split_and!; [done..|]. apply volumes_apart; [done|]. intros E.
  destruct (accepted_locks _ _ _ _ Hb) as [Ea Eb], (accepted_locks _ _ _ _ Hb') as [Ea' Eb'].
  apply Hin in H1 as [Hm1 Ho1]. apply Hin in H2 as [Hm2 Ho2]. unfold has_mutex in *.
  rewrite E1, E2, Ea, Eb, E in Hm1. rewrite E1', E2', Ea', Eb' in Hm2. congruence.
Qed.

(** Some answer to every call. *)
Definition some_answer (o : agent_op) : agent_ans o :=
  match o return agent_ans o with
  | OsStat p | OsLstat p => Err (NotExist p)
  | OsReadDir _ => Ok []
  | OsReaddirnames1 _ => RdEOF
  | RunCommand _ => ("", None)
  | HttpHead _ _ _ => HeadFailed
  | OsWalkDir _ => []
  | OsReadlink p => Err (NotExist p)
  | OsRead _ => ([], None)
  | OsFadvise _ _ _ | OsSyncRange _ _ _ => AdviceDone
  | WatchSelect => TimerFired
  | TimerReset _ | Manager _ => tt
  | HttpPost _ _ _ => PostFailed Canceled
  | HttpGet _ _ => GetFailed Canceled
  | TimeNow => 0%Z
  | _ => Ok tt
  end.

Lemma inside_acts s i j m : threads s !! i = Some (Inside j m) → ∃ s', act i s s'.
Proof.
  intros H. destruct (job_Prog j) as [r|o k] eqn:E.
  - eexists. by eapply act_unlock.
  - eexists. by eapply (act_call i s j m o k (some_answer o)).
Qed.

(** C32: The locks of an agent never block it for ever: in every reachable
    state in which some request is not yet answered, some request can
    take a step. *)
Theorem requests_never_deadlock arrives s i t :
  reachable arrives s → threads s !! i = Some t → (∀ r, t ≠ Answered r) → ∃ i' s', act i' s s'.
Proof.
  intros [Hf Hi Hw Hin Ho]%requests_inv Ht Hna. destruct t as [j|j m|j m|r].
  - destruct (get_lock (locker s) (lock_key (job_Namespace j) (job_Volume j))) as [m l] eqn:E.
    exists i. eexists. by eapply act_get.
  - destruct (owner s !! m) as [i'|] eqn:E.
    + destruct (Ho m i' E) as [j' Hj]. exists i'. by eapply inside_acts.
    + exists i. eexists. by eapply act_lock.
  - exists i. by eapply inside_acts.
  - by destruct (Hna r).
Qed.

(** A handler touches nothing for a request it does not accept: a
    program is run only for a POST request that carries the configured,
    non-empty token and a body that decodes, and then under the lock of
    the volume the body names. *)
Theorem handlers_admit pool token :
  let accepted {B} (r : request B) (body : B) :=
    rq_Method r = "POST" ∧ token ≠ "" ∧ rq_Authorization r = "Bearer " +:+ token ∧
    rq_Body r = Ok body in
  (∀ r j, SyncBatchHandler pool token r = inr j → ∃ b, accepted r b ∧
     job_Namespace j = eb_Namespace b ∧ job_Volume j = eb_Volume b) ∧
  (∀ r j, FullSyncHandler pool token r = inr j → ∃ b, accepted r b ∧
     job_Namespace j = fs_Namespace b ∧ job_Volume j = fs_Volume b) ∧
  (∀ r j, ShadowPrepareHandler pool token r = inr j → ∃ b, accepted r b ∧
     job_Namespace j = sp_Namespace b ∧ job_Volume j = sp_Volume b).
Proof.
  intros accepted.
  assert (∀ B (r : request B) f j, admit_request token r f = inr j →
            ∃ b, accepted B r b ∧ j = f b) as Hadm.
  { intros B r f j. unfold admit_request, Authorize.
    destruct (String.eqb_spec (rq_Method r) "POST") as [Hm|]; [|done]. cbn [negb].
    destruct (is_empty token) eqn:Et; [done|].
    destruct (String.eqb_spec (rq_Authorization r) ("Bearer " +:+ token)) as [Ha|]; [|done]. cbn [negb].
    destruct (rq_Body r) as [b|] eqn:Eb; [|done]. intros [= <-]. exists b. split; [|done].
    split; [done|]. split; [by apply is_empty_false|]. by split. }
  split_and!; intros r j H; apply Hadm in H as (b & Hb & ->); by exists b.
Qed.

(** ** Examples *)

(** Two requests in their critical sections. *)
Definition ex_batch (volume : string) : EventBatch :=
  mkEventBatch "ns" volume "" (mkSourceRef "http://10.0.0.1:8081" "" "") "" empty_ownership false [].
Definition ex_request (volume : string) : request EventBatch := mkRequest "POST" "Bearer secret" (Ok (ex_batch volume)).
Definition ex_job (volume : string) : job :=
  match SyncBatchHandler ex_pool "secret" (ex_request volume) with
  | inr j => j
  | inl r => mkJob "" "" (Ret r)
  end.
Definition ex_state : agent_state :=
  mkAgentState (mkVolumeLocker {["ns/b" := 1; "ns/a" := 0]} 2) {[1 := 1; 0 := 0]}
    {[0 := Inside (ex_job "a") 0; 1 := Inside (ex_job "b") 1]}.

Lemma ex_handled volume : handled ex_pool "secret" (ex_job volume).
Proof. exists (BatchBody (ex_batch volume)), (ex_request volume). done. Qed.

Lemma ex_state_reachable : reachable (handled ex_pool "secret") ex_state.
Proof.
  unfold reachable.
  eapply rtc_l; [apply (step_arrive _ _ 0 (ex_job "a")); [reflexivity|apply ex_handled]|].
  eapply rtc_l; [apply (step_arrive _ _ 1 (ex_job "b")); [reflexivity|apply ex_handled]|].
  eapply rtc_l; [eapply (step_act _ 0), act_get; [reflexivity|vm_compute; reflexivity]|].
  eapply rtc_l; [eapply (step_act _ 1), act_get; [reflexivity|vm_compute; reflexivity]|].
  eapply rtc_l; [eapply (step_act _ 0), act_lock; reflexivity|].
  eapply rtc_l; [eapply (step_act _ 1), act_lock; reflexivity|].
  apply rtc_refl.
Qed.

Lemma volume_requests_exclusive_witness :
  ∃ b b' j0 j0' tr tr', accepted ex_pool "secret" b j0 ∧ accepted ex_pool "secret" b' j0' ∧
    remains (job_Prog j0) tr (job_Prog (ex_job "a")) ∧ remains (job_Prog j0') tr' (job_Prog (ex_job "b")) ∧
    ∀ q, inside (volume_root ex_pool (body_namespace b) (body_volume b)) q = true →
         inside (volume_root ex_pool (body_namespace b') (body_volume b')) q = false.
Proof.
  destruct (volume_requests_exclusive ex_pool "secret" ex_state) as [H _];
    [apply ex_pool_usable|apply ex_state_reachable|].
  apply (H 0 1 (ex_job "a") (ex_job "b") 0 1); [reflexivity|reflexivity|discriminate].
Defined.

Lemma requests_never_deadlock_witness : ∃ i s', act i ex_state s'.
Proof.
  apply (requests_never_deadlock (handled ex_pool "secret") ex_state 0 (Inside (ex_job "a") 0));
    [apply ex_state_reachable|reflexivity|discriminate].
Defined.

End Handlers.
