(* ===== verification/Watch.v ===== *)
(** * The volume watcher: [internal/agent/watch.go]

    [WatchVolume] turns the notifications of the kernel and a periodic
    rescan of a volume into batches of events for a sink.  Its loop runs
    until the context is cancelled; the model runs a given number of
    rounds of it, one [select] each, so a theorem about every number of
    rounds is about every moment of the loop. *)
From S2P Require Import Prelude GoStrings GoPath GoTime Effects AgentTypes AgentEnv AgentMem.
From S2P Require Import Agent Filter Apply.

Module Watch.
Import Str Path Agent Filter Apply.

Definition maxPendingWatchEvents : nat := 512.

Record WatchConfig : Type := mkWatchConfig {
  wc_Pool : Pool;
  wc_Namespace : string;
  wc_Volume : string;
  wc_IncludePaths : list string;
  wc_ExcludePaths : list string;
  wc_Debounce : Z;
  wc_Rescan : Z;
}.

Definition wc_filter (cfg : WatchConfig) : PathFilter :=
  mkPathFilter (wc_IncludePaths cfg) (wc_ExcludePaths cfg) false.

(** ** Walking a directory

    [filepath.WalkDir] with a callback that threads a state: an error
    ends the walk, [SkipDir] leaves out what is below a directory, or the
    rest of its directory when it is returned for a file. *)
Inductive walk_next : Type := WalkOn | SkipDir.

Fixpoint walk {St} (fn : St → walk_entry → prog agent_sig (St * result walk_next))
    (skip : option string) (entries : list walk_entry) (st : St)
  : prog agent_sig (St * result unit) :=
  match entries with
  | [] => Ret (st, Ok tt)
  | d :: l =>
      if match skip with Some p => inside p (we_Path d) | None => false end
      then walk fn skip l st
      else
        r <- fn st d ;;
        match r with
        | (st', Err e) => Ret (st', Err e)
        | (st', Ok WalkOn) => walk fn None l st'
        | (st', Ok SkipDir) =>
            walk fn (Some (if we_IsDir d then we_Path d else Dir (we_Path d))) l st'
        end
  end.

Definition WalkDir {St} (root : string)
    (fn : St → walk_entry → prog agent_sig (St * result walk_next)) (st : St)
  : prog agent_sig (St * result unit) :=
  entries <- os_call (OsWalkDir root) ;; walk fn None entries st.

(** [relativeWatchPath] *)
Definition relativeWatchPath (root p : string) : option string :=
  match Rel root p with
  | Err _ => None
  | Ok rel => if HasPrefix rel ".." then None else Some rel
  end.

(** ** Snapshots *)
Record watchedFileState : Type := mkWatchedFileState {
  wf_Size : Z;
  wf_Mode : Z;
  wf_ModTime : Z;
  wf_Link : string;
}.

#[export] Instance watchedFileState_eq_dec : EqDecision watchedFileState.
Proof. solve_decision. Defined.

(** The zero value, which a lookup of a missing key gives. *)
Definition zero_state : watchedFileState := mkWatchedFileState 0 0 0 "".

Abbreviation snapshot := (gmap string watchedFileState).

(** The callback of [snapshotWatchedFiles]. *)
Definition snapshot_entry (root : string) (f : PathFilter) (s : snapshot) (d : walk_entry)
  : prog agent_sig (snapshot * result walk_next) :=
  match we_Err d with
  | Some e => if IsNotExist e then Ret (s, Ok WalkOn) else Ret (s, Err e)
  | None =>
      match relativeWatchPath root (we_Path d) with
      | None => Ret (s, Ok WalkOn)
      | Some rel =>
          if we_IsDir d then
            if negb (String.eqb rel ".") && negb (ShouldTraverse f rel)
            then Ret (s, Ok SkipDir) else Ret (s, Ok WalkOn)
          else if negb (ShouldReplicate f rel) then Ret (s, Ok WalkOn)
          else
            st <- os_call (OsLstat (we_Path d)) ;;
            match st with
            | Err e => if IsNotExist e then Ret (s, Ok WalkOn) else Ret (s, Err e)
            | Ok info =>
                if info_IsSymlink info then
                  lk <- os_call (OsReadlink (we_Path d)) ;;
                  match lk with
                  | Err e => if IsNotExist e then Ret (s, Ok WalkOn) else Ret (s, Err e)
                  | Ok link =>
                      Ret (<[rel := mkWatchedFileState (fi_Size info) (fi_Mode info)
                                      (fi_ModTime info) link]> s, Ok WalkOn)
                  end
                else Ret (<[rel := mkWatchedFileState (fi_Size info) (fi_Mode info)
                                     (fi_ModTime info) ""]> s, Ok WalkOn)
            end
      end
  end.

Definition snapshotWatchedFiles (root : string) (f : PathFilter)
  : prog agent_sig (snapshot * result unit) :=
  WalkDir root (snapshot_entry root f) ∅.

(** [diffWatchedSnapshots]: the paths whose state changed, then the paths
    that are gone, sorted. *)
Definition changed_paths (previous current : snapshot) : list string :=
  omap (λ kv, if bool_decide (default zero_state (previous !! fst kv) = snd kv)
              then None else Some (fst kv)) (map_to_list current) ++
  omap (λ kv, match current !! fst kv with Some _ => None | None => Some (fst kv) end)
    (map_to_list previous).

Definition diff_event (current : snapshot) (path : string) : FileEvent :=
  mkFileEvent path (match current !! path with Some _ => EventOpUpsert | None => EventOpDelete end).

Definition diffWatchedSnapshots (previous current : snapshot) : list FileEvent :=
  map (diff_event current) (stable_sort str_lt (changed_paths previous current)).

(** ** Directories under watch *)

(** The callback of [addRecursiveWatches]; the relative path is taken from
    the directory the walk started in. *)
Definition watch_entry (root : string) (f : PathFilter) (_ : unit) (d : walk_entry)
  : prog agent_sig (unit * result walk_next) :=
  match we_Err d with
  | Some e => Ret (tt, Err e)
  | None =>
      if negb (we_IsDir d) then Ret (tt, Ok WalkOn)
      else if match relativeWatchPath root (we_Path d) with
              | Some rel => negb (String.eqb rel ".") && negb (ShouldTraverse f rel)
              | None => false
              end
      then Ret (tt, Ok SkipDir)
      else
        r <- os_call (InotifyAdd (we_Path d)) ;;
        Ret (tt, match r with Ok _ => Ok WalkOn | Err e => Err e end)
  end.

Definition addRecursiveWatches (root : string) (f : PathFilter) : prog agent_sig (result unit) :=
  r <- WalkDir root (watch_entry root f) tt ;; Ret (snd r).

(** The callback of [collectExistingEvents]; [yield] threads its own
    state. *)
Definition collect_entry {St} (root : string) (f : PathFilter)
    (yield : St → FileEvent → prog agent_sig (St * result unit)) (st : St) (d : walk_entry)
  : prog agent_sig (St * result walk_next) :=
  match we_Err d with
  | Some e => if IsNotExist e then Ret (st, Ok WalkOn) else Ret (st, Err e)
  | None =>
      match relativeWatchPath root (we_Path d) with
      | None => Ret (st, Ok WalkOn)
      | Some rel =>
          if we_IsDir d then
            if negb (String.eqb rel ".") && negb (ShouldTraverse f rel)
            then Ret (st, Ok SkipDir) else Ret (st, Ok WalkOn)
          else if ShouldReplicate f rel then
            r <- yield st (mkFileEvent rel EventOpUpsert) ;;
            Ret (fst r, match snd r with Ok _ => Ok WalkOn | Err e => Err e end)
          else Ret (st, Ok WalkOn)
      end
  end.

Definition collectExistingEvents {St} (root start : string) (f : PathFilter)
    (yield : St → FileEvent → prog agent_sig (St * result unit)) (st : St)
  : prog agent_sig (St * result unit) :=
  WalkDir start (collect_entry root f yield) st.

(** ** The loop *)
Section loop.
Context (cfg : WatchConfig) (sink : EventBatch → prog agent_sig (result unit)) (root : string).

Definition watch_debounce : Z :=
  if (wc_Debounce cfg <=? 0)%Z then (5 * Time.Second)%Z else wc_Debounce cfg.

Definition watch_batch (events : list FileEvent) (now : Z) : EventBatch :=
  mkEventBatch (wc_Namespace cfg) (wc_Volume cfg) (Time.format_rfc3339nano now)
    (mkSourceRef "" "" "") "" empty_ownership false events.

(** Sends [events] with the current time as generation. *)
Definition send_events (events : list FileEvent) : prog agent_sig (result unit) :=
  now <- os_call TimeNow ;; sink (watch_batch events now).

(** [flush] empties [pending] whatever the sink answers. *)
Definition flush (pending : list FileEvent) : prog agent_sig (list FileEvent * result unit) :=
  match coalesced pending (wc_filter cfg) with
  | [] => Ret ([], Ok tt)
  | events => r <- send_events events ;; Ret ([], r)
  end.

(** The closure given to [collectExistingEvents]: [collected] and
    [pending]. *)
Definition collect_yield (st : bool * list FileEvent) (event : FileEvent)
  : prog agent_sig ((bool * list FileEvent) * result unit) :=
  let pending := snd st ++ [event] in
  if Nat.leb maxPendingWatchEvents (length pending) then
    r <- flush pending ;; Ret ((true, fst r), snd r)
  else Ret ((true, pending), Ok tt).

Record watch_state : Type := mkWatchState {
  ws_pending : list FileEvent;
  ws_snapshot : snapshot;
}.

(** A round ends with [continue] or with a return. *)
Inductive round_end : Type :=
| NextRound (st : watch_state)
| ReturnErr (e : error).

Abbreviation next pending s := (NextRound (mkWatchState pending s)).

(** A created directory: watch it and collect the files already there. *)
Definition directory_created (st : watch_state) (name : string) : prog agent_sig round_end :=
  added <- addRecursiveWatches name (wc_filter cfg) ;;
  match added with
  | Err e => Ret (ReturnErr e)
  | Ok _ =>
      c <- collectExistingEvents root name (wc_filter cfg) collect_yield (false, ws_pending st) ;;
      match snd c with
      | Err e => Ret (ReturnErr e)
      | Ok _ =>
          let '(collected, pending) := fst c in
          (if collected && Nat.ltb 0 (length pending) then os_call (TimerReset watch_debounce)
           else Ret tt) ;;;
          Ret (next pending (ws_snapshot st))
      end
  end.

(** An event for a path. *)
Definition path_event (st : watch_state) (rel : string) (e : fs_event) : prog agent_sig round_end :=
  if negb (ShouldReplicate (wc_filter cfg) rel) then Ret (NextRound st)
  else
    let op := if fe_Remove e || fe_Rename e then EventOpDelete else EventOpUpsert in
    let pending := ws_pending st ++ [mkFileEvent rel op] in
    if Nat.leb maxPendingWatchEvents (length pending) then
      r <- flush pending ;;
      match snd r with
      | Err err => Ret (ReturnErr err)
      | Ok _ => Ret (next (fst r) (ws_snapshot st))
      end
    else
      os_call (TimerReset watch_debounce) ;;;
      Ret (next pending (ws_snapshot st)).

Definition watcher_event (st : watch_state) (e : fs_event) : prog agent_sig round_end :=
  match relativeWatchPath root (fe_Name e) with
  | None => Ret (NextRound st)
  | Some rel =>
      if fe_Create e then
        info <- os_call (OsStat (fe_Name e)) ;;
        if match info with Ok i => info_IsDir i | Err _ => false end &&
           ShouldTraverse (wc_filter cfg) rel
        then directory_created st (fe_Name e)
        else path_event st rel e
      else path_event st rel e
  end.

Definition rescan (st : watch_state) : prog agent_sig round_end :=
  s <- snapshotWatchedFiles root (wc_filter cfg) ;;
  match s with
  | (_, Err e) => Ret (ReturnErr e)
  | (current, Ok _) =>
      match diffWatchedSnapshots (ws_snapshot st) current with
      | [] => Ret (next (ws_pending st) current)
      | events =>
          r <- send_events events ;;
          match r with
          | Err e => Ret (ReturnErr e)
          | Ok _ => Ret (next (ws_pending st) current)
          end
      end
  end.

Definition watch_round (st : watch_state) : prog agent_sig round_end :=
  signal <- os_call WatchSelect ;;
  match signal with
  | CtxDone e => Ret (ReturnErr e)
  | WatcherError (Some e) => Ret (ReturnErr e)
  | WatcherError None => Ret (NextRound st)
  | WatcherEvent e => watcher_event st e
  | TimerFired =>
      r <- flush (ws_pending st) ;;
      match snd r with
      | Err e => Ret (ReturnErr e)
      | Ok _ => Ret (next (fst r) (ws_snapshot st))
      end
  | RescanTick => rescan st
  end.

(** [rounds] rounds of the loop. *)
Fixpoint watch_loop (rounds : nat) (st : watch_state) : prog agent_sig round_end :=
  match rounds with
  | 0 => Ret (NextRound st)
  | S rounds =>
      r <- watch_round st ;;
      match r with
      | ReturnErr e => Ret (ReturnErr e)
      | NextRound st' => watch_loop rounds st'
      end
  end.
End loop.

(** [WatchVolume] for a number of rounds. *)
Definition WatchVolume (rounds : nat) (cfg : WatchConfig)
    (sink : EventBatch → prog agent_sig (result unit)) : prog agent_sig round_end :=
  r <- EnsureVolumePath (mkVolumePath (wc_Pool cfg) (wc_Namespace cfg) (wc_Volume cfg) "") 493 ;;
  match r with
  | Err e => Ret (ReturnErr e)
  | Ok root =>
      w <- os_call InotifyInit ;;
      match w with
      | Err e => Ret (ReturnErr e)
      | Ok _ =>
          added <- addRecursiveWatches root (wc_filter cfg) ;;
          match added with
          | Err e => Ret (ReturnErr e)
          | Ok _ =>
              s <- snapshotWatchedFiles root (wc_filter cfg) ;;
              match s with
              | (_, Err e) => Ret (ReturnErr e)
              | (current, Ok _) => watch_loop cfg sink root rounds (mkWatchState [] current)
              end
          end
      end
  end.

(** ** Lemmas: snapshots *)

(** A path is reported if its state changed; a new file whose state is the
    zero value is taken for one that was there. *)
Definition reported (previous current : snapshot) (p : string) : Prop :=
  previous !! p ≠ current !! p ∧ ¬ (previous !! p = None ∧ current !! p = Some zero_state).

Lemma changed_paths_spec previous current p :
  p ∈ changed_paths previous current ↔ reported previous current p.
Proof.
  unfold changed_paths, reported. rewrite elem_of_app, !list_elem_of_omap. split.
  - intros [([k s] & Hin & H)|([k s] & Hin & H)]; apply elem_of_map_to_list in Hin; cbn in H.
    + destruct (bool_decide _) eqn:E; [done|]. apply bool_decide_eq_false in E. simplify_eq.
      rewrite Hin. destruct (previous !! p) eqn:Ep; cbn in E; split; try congruence; intros Hz; destruct Hz; congruence.
    + destruct (current !! k) eqn:E; [done|]. simplify_eq. rewrite Hin, E. split; [done|]. intros Hz; destruct Hz; congruence.
  - intros [Hne Hz]. destruct (current !! p) as [s|] eqn:E.
    + left. exists (p, s). split; [by apply elem_of_map_to_list|]. cbn.
      destruct (bool_decide _) eqn:Eb; [|done]. apply bool_decide_eq_true in Eb.
      destruct (previous !! p) eqn:Ep; cbn in Eb; [congruence|]. destruct Hz. split; [done|]. by rewrite <-Eb.
    + right. destruct (previous !! p) as [s|] eqn:Ep; [|done]. exists (p, s).
      split; [by apply elem_of_map_to_list|]. cbn. by rewrite E.
Qed.

Lemma omap_keys_nodup {A B} (g : A * B → option A) (l : list (A * B)) :
  (∀ kv k, g kv = Some k → k = fst kv) → NoDup (fst <$> l) → NoDup (omap g l).
Proof.
  intros Hg. induction l as [|kv l IH]; cbn [omap list_omap fmap list_fmap]; intros Hnd; [constructor|].
  apply NoDup_cons in Hnd as [Hn Hnd]. specialize (IH Hnd). destruct (g kv) as [k|] eqn:E; [|done].
  apply NoDup_cons. split; [|done]. intros (kv' & Hin & E')%list_elem_of_omap.
  apply Hg in E, E'. subst k. apply Hn. rewrite E'. by apply list_elem_of_fmap_2.
Qed.

Lemma changed_paths_nodup previous current : NoDup (changed_paths previous current).
Proof.
  unfold changed_paths. apply NoDup_app. split; [|split].
  - apply omap_keys_nodup; [|apply NoDup_fst_map_to_list]. intros [k s] k'. cbn.
    destruct (bool_decide _); congruence.
  - intros p H1 H2. apply list_elem_of_omap in H1 as ([k s] & Hin & H), H2 as ([k' s'] & Hin' & H').
    cbn in H, H'. apply elem_of_map_to_list in Hin, Hin'. destruct (bool_decide _); [done|].
    destruct (current !! k') eqn:E; [done|]. simplify_eq.
  - apply omap_keys_nodup; [|apply NoDup_fst_map_to_list]. intros [k s] k'. cbn.
    destruct (current !! k); congruence.
Qed.

Lemma diff_paths previous current :
  map ev_Path (diffWatchedSnapshots previous current) =
  stable_sort str_lt (changed_paths previous current).
Proof.
  unfold diffWatchedSnapshots. rewrite map_map. cbn. apply map_id.
Qed.

Lemma sorted_strict (l : list string) :
  NoDup l → StronglySorted (λ a b, str_lt b a = false) l → StronglySorted (λ a b, str_lt a b = true) l.
Proof.
  intros Hnd. induction 1 as [|x l _ IH Hx]; [constructor|]. apply NoDup_cons in Hnd as [Hn Hnd].
  constructor; [auto|]. rewrite Forall_forall in Hx |- *. intros y Hy. specialize (Hx y Hy).
  destruct (str_lt x y) eqn:E; [done|]. rewrite (str_lt_total x y) in Hn by done. done.
Qed.

(** What a reader of the events does to its own copy of the snapshot. *)
Definition replay (current : snapshot) (s : snapshot) (e : FileEvent) : snapshot :=
  match ev_Op e with
  | EventOpDelete => delete (ev_Path e) s
  | _ => partial_alter (λ _, current !! ev_Path e) (ev_Path e) s
  end.

Lemma replay_lookup current s p q :
  replay current s (diff_event current p) !! q = if decide (p = q) then current !! q else s !! q.
Proof.
  unfold replay, diff_event. cbn [ev_Op ev_Path]. destruct (decide (p = q)) as [->|Hne].
  - destruct (current !! q) eqn:E; [by rewrite lookup_partial_alter_eq|by rewrite lookup_delete_eq].
  - destruct (current !! p); [by rewrite lookup_partial_alter_ne|by rewrite lookup_delete_ne].
Qed.

Lemma replay_all current l s q :
  foldl (replay current) s (map (diff_event current) l) !! q =
  if bool_decide (q ∈ l) then current !! q else s !! q.
Proof.
  revert s. induction l as [|p l IH]; intros s; cbn [map foldl]; [done|].
  rewrite IH, replay_lookup. destruct (decide (p = q)) as [->|Hne].
  - rewrite (bool_decide_eq_true_2 (q ∈ q :: l)) by left. by destruct (bool_decide _).
  - destruct (bool_decide (q ∈ l)) eqn:E.
    + apply bool_decide_eq_true in E. by rewrite (bool_decide_eq_true_2 (q ∈ p :: l)) by (by right).
    + apply bool_decide_eq_false in E. rewrite (bool_decide_eq_false_2 (q ∈ p :: l)); [done|].
      rewrite elem_of_cons. intuition congruence.
Qed.

(** ** Theorems *)

(** C31: The events of a rescan are exactly the difference of the two
    snapshots: one event for every path whose state changed, in the order
    of the paths, a write if the path is there and a deletion if it is
    gone; a reader that replays them on the old snapshot gets the new one.
    The one exception is a new file whose recorded state is the zero value
    (empty, mode 0, modified at the epoch), which is not reported. *)
Theorem snapshot_diff_replays previous current :
  let events := diffWatchedSnapshots previous current in
  StronglySorted (λ a b, str_lt a b = true) (map ev_Path events) ∧
  (∀ p op, mkFileEvent p op ∈ events ↔
     reported previous current p ∧
     op = match current !! p with Some _ => EventOpUpsert | None => EventOpDelete end) ∧
  ((∀ p, previous !! p = None → current !! p ≠ Some zero_state) →
   foldl (replay current) previous events = current).
Proof.
  cbv zeta. rewrite diff_paths.
  assert (∀ p, p ∈ stable_sort str_lt (changed_paths previous current) ↔ reported previous current p)
    as Hin by (intros p; by rewrite stable_sort_elem_of, changed_paths_spec).
  split; [|split].
  - apply sorted_strict; [|apply stable_sort_sorted, _].
    rewrite stable_sort_perm. apply changed_paths_nodup.
  - intros p op. unfold diffWatchedSnapshots. rewrite <-Hin. split.
    + intros H. apply list_elem_of_In, in_map_iff in H as (x & Hx & H). apply list_elem_of_In in H.
      unfold diff_event in Hx. by simplify_eq.
    + intros [H ->]. apply list_elem_of_In, in_map_iff. exists p. split; [done|]. by apply list_elem_of_In.
  - intros Hz. apply map_eq. intros q. unfold diffWatchedSnapshots. rewrite replay_all.
    destruct (bool_decide _) eqn:E; [done|]. apply bool_decide_eq_false in E. rewrite Hin in E.
    unfold reported in E. destruct (decide (previous !! q = current !! q)) as [|Hne]; [done|].
    destruct E. split; [done|]. intros [H1 H2]. by eapply Hz.
Qed.

End Watch.
