(* ===== verification/WatchProps.v ===== *)
(** * Properties of the volume watcher

    The walks and the loop of [Watch], against every environment: no
    change the watcher is told of is lost while it runs, and a snapshot
    holds every replicated file of the volume. *)
From S2P Require Import Prelude GoStrings GoPath GoTime Effects AgentTypes AgentEnv AgentMem.
From S2P Require Import Agent Filter Apply Watch.

Module WatchProps.
Import Str Path Agent Filter Apply Watch.

(** ** Lemmas: walks *)

(** A reflexive and transitive relation that every callback respects holds
    of a walk that ends without an error. *)
Lemma walk_ind {St} (fn : St → walk_entry → prog agent_sig (St * result walk_next))
    (P : St → list (event agent_sig) → St → Prop) entries :
  (∀ st, P st [] st) →
  (∀ s1 t1 s2 t2 s3, P s1 t1 s2 → P s2 t2 s3 → P s1 (t1 ++ t2) s3) →
  (∀ st d tr st' n, exec (fn st d) tr (st', Ok n) → P st tr st') →
  ∀ skip st tr st', exec (walk fn skip entries st) tr (st', Ok tt) → P st tr st'.
Proof.
  intros H0 Ht Hf. induction entries as [|d l IH]; cbn [walk]; intros skip st tr st' H.
  { exec_step H. apply H0. }
  destruct (match skip with Some p => _ | None => false end); [by eapply IH|].
  exec_step H. destruct a as [s1 [[]|e]]; try (exec_step H; fail);
    (eapply Ht; [by eapply Hf|by eapply IH]).
Qed.


(** ** Lemmas: the loop *)





Section loop_props.
Context (cfg : WatchConfig) (root : string).

Abbreviation f := (wc_filter cfg).
Abbreviation sink := (λ batch, os_call (SinkBatch batch)).








































End loop_props.




Definition ex_config (include : list string) : WatchConfig :=
  mkWatchConfig (mkPool "local" "/pool") "games" "world" include [] 0 0.


Definition ex_world (files : list (string * FileInfo)) : Mem.world :=
  Mem.mkWorld (list_to_map (("/pool/games/world", Mem.dir_info) :: files)) ∅ 0.





(** A directory that appears while the volume is watched is walked with
    paths relative to itself, and the filter is asked about these: with
    the include pattern "a/b/**" and a new directory "a" that holds "b",
    "a/b" gets no watch although the filter traverses it; changes there
    are seen only by the rescans. *)
Theorem new_directory_unwatched :
  let cfg := ex_config ["a/b/**"] in
  let root := "/pool/games/world" in
  let world := ex_world [("/pool/games/world/a", Mem.dir_info); ("/pool/games/world/a/b", Mem.dir_info)] in
  let created := directory_created cfg (λ batch, os_call (SinkBatch batch)) root (mkWatchState [] ∅)
                   "/pool/games/world/a" in
  ShouldTraverse (wc_filter cfg) "a/b" = true ∧
  ops (snd (Mem.run_on created world)) =
    [OsWalkDir "/pool/games/world/a"; InotifyAdd "/pool/games/world/a"; OsWalkDir "/pool/games/world/a"].
Proof. split; vm_compute; reflexivity. Qed.

(** Files whose names start with two dots, such as the "..data" link of a
    projected volume, are taken for paths outside the volume. *)
Lemma dotdot_names_unwatched :
  relativeWatchPath "/pool/games/world" "/pool/games/world/..data" = None ∧
  ShouldReplicate (mkPathFilter [] [] false) "..data" = true.
Proof. split; vm_compute; reflexivity. Qed.

(** ** Lemmas: what a snapshot holds *)
Lemma Rel_of_below root rel :
  IsAbs root = true → NormalizeEventPath rel = Ok rel → IsAbs rel = false →
  Rel root (root +:+ "/" +:+ rel) = Ok rel.
Proof.
  intros Hr (Hc & Hgs & Hne)%normalize_ok Ha. specialize (Hne Ha).
  assert (rel = Join "/" (elems rel)) as E.
  { rewrite <-Hc at 1. unfold Clean, unsplit. rewrite Ha. by destruct (elems rel). }
  destruct (elems_app_good root (elems rel)) as [HA HE]; [by intros ->|done|done|].
  rewrite <-E in HA, HE. unfold Rel, rel_base_elems, rel_targ_elems. rewrite HA, HE, Hr.
  destruct (String.eqb_spec (Clean (root +:+ "/" +:+ rel)) (Clean root)) as [Ec|_].
  { apply (f_equal elems) in Ec. rewrite !elems_Clean, HE in Ec. apply (f_equal length) in Ec.
    rewrite length_app in Ec. destruct (elems rel); [done|cbn in Ec; lia]. }
  cbn [Bool.eqb negb]. destruct (elems root ++ elems rel) as [|x l] eqn:El;
    [by destruct (elems root), (elems rel)|]. rewrite <-El.
  pose proof (strip_common_spec (elems root) (elems root ++ elems rel)) as Hs.
  destruct (strip_common _ _) as [b t]. destruct Hs as [(c & E1 & E2) Hp].
  assert (b = []) as -> by (apply Hp; by eexists).
  rewrite app_nil_r in E1. subst c. apply app_inv_head in E2. subst t. cbn. by rewrite <-E.
Qed.

(** The paths of a walk of [root]: the root, and normal paths below it. *)
Definition listing (root : string) (entries : list walk_entry) : Prop :=
  ∀ d, d ∈ entries →
    we_Path d = root ∨
    ∃ rel, we_Path d = root +:+ "/" +:+ rel ∧ NormalizeEventPath rel = Ok rel ∧ IsAbs rel = false.

Lemma relative_below root p rel :
  IsAbs root = true → relativeWatchPath root p = Some rel →
  (p = root ∨ ∃ r, p = root +:+ "/" +:+ r ∧ NormalizeEventPath r = Ok r ∧ IsAbs r = false) →
  rel ≠ "." → p = root +:+ "/" +:+ rel ∧ NormalizeEventPath rel = Ok rel.
Proof.
  intros Hr H Hp Hd. unfold relativeWatchPath in H. destruct Hp as [->|(r & -> & Hn & Ha)].
  - unfold Rel in H. rewrite String.eqb_refl in H. cbn in H. congruence.
  - rewrite Rel_of_below in H by done. destruct (HasPrefix r ".."); by simplify_eq.
Qed.

(** A directory the walk leaves out holds no replicated path. *)
Lemma skipped_holds_nothing root f q relq p rel :
  forallb static_pattern (pf_IncludePaths f ++ pf_ExcludePaths f) = true →
  q = root +:+ "/" +:+ relq → NormalizeEventPath relq = Ok relq →
  p = root +:+ "/" +:+ rel → NormalizeEventPath rel = Ok rel →
  inside q p = true → ShouldReplicate f rel = true → ShouldTraverse f relq = true.
Proof.
  intros Hs -> Hq -> Hp Hin Hr. eapply (static_traversal f rel rel); [done..| |done].
  apply inside_spec in Hin. apply inside_spec.
  destruct Hin as [E|[t E]]; [left|right; exists t]; rewrite ?str_app_assoc in E;
    apply str_app_inj_l in E; cbn in E; by injection E.
Qed.

(** The file was gone when it was looked at. *)
Definition gone (p : string) (tr : list (event agent_sig)) : Prop :=
  ∃ e, IsNotExist e = true ∧ (did (OsLstat p) (Err e) tr ∨ did (OsReadlink p) (Err e) tr).

Lemma gone_app p t1 t2 : gone p t1 ∨ gone p t2 → gone p (t1 ++ t2).
Proof. unfold gone. setoid_rewrite did_app. intros [(e & ? & [?|?])|(e & ? & [?|?])]; eauto 6. Qed.

Lemma snapshot_entry_file root f s d tr s' n rel :
  exec (snapshot_entry root f s d) tr (s', Ok n) →
  we_Err d = None → we_IsDir d = false → relativeWatchPath root (we_Path d) = Some rel →
  ShouldReplicate f rel = true →
  n = WalkOn ∧ (is_Some (s' !! rel) ∨ gone (we_Path d) tr).
Proof.
  intros H He Hd Hrel Hr. unfold snapshot_entry in H. rewrite He, Hrel, Hd, Hr in H. cbn [negb] in H.
  exec_step H. exec_step H0. destruct a as [info|e].
  - destruct (info_IsSymlink info).
    + exec_step H. exec_step H0. destruct a as [l|e].
      * exec_step H. split; [done|]. left. by rewrite lookup_insert_eq.
      * destruct (IsNotExist e) eqn:E; exec_step H. split; [done|]. right. exists e.
        split; [done|]. right. apply did_later, did_here.
    + exec_step H. split; [done|]. left. by rewrite lookup_insert_eq.
  - destruct (IsNotExist e) eqn:E; exec_step H. split; [done|]. right. exists e.
    split; [done|]. left. apply did_here.
Qed.

Lemma snapshot_entry_grows root f s d tr s' n :
  exec (snapshot_entry root f s d) tr (s', Ok n) →
  (∀ rel, is_Some (s !! rel) → is_Some (s' !! rel)) ∧
  (n = SkipDir → we_IsDir d = true ∧ ∃ rel, relativeWatchPath root (we_Path d) = Some rel ∧
     rel ≠ "." ∧ ShouldTraverse f rel = false).
Proof.
  intros H. unfold snapshot_entry in H.
  destruct (we_Err d); [destruct (IsNotExist e); by exec_step H|].
  destruct (relativeWatchPath root _) as [rel|] eqn:Erel; [|by exec_step H].
  destruct (we_IsDir d).
  { destruct (_ && _) eqn:E; exec_step H; [|done]. split; [done|]. intros _. split; [done|].
    exists rel. apply andb_true_iff in E as [E1 E2]. split; [done|].
    split; [by apply String.eqb_neq, negb_true_iff|by apply negb_true_iff]. }
  destruct (negb _); [by exec_step H|]. exec_step H. exec_step H0.
  assert (∀ v r, is_Some (s !! r) → is_Some (<[rel := v]> s !! r)) as Hins.
  { intros v r Hs. destruct (decide (rel = r)) as [->|]; [by rewrite lookup_insert_eq|].
    by rewrite lookup_insert_ne. }
  repeat (case_match; exec_inv); split; try done; apply Hins.
Qed.

Lemma walk_grows root f entries : ∀ skip s tr s' rel,
  exec (walk (snapshot_entry root f) skip entries s) tr (s', Ok tt) →
  is_Some (s !! rel) → is_Some (s' !! rel).
Proof.
  intros skip s tr s' rel H. revert skip s tr s' H.
  apply (walk_ind _ (λ s _ s', is_Some (s !! rel) → is_Some (s' !! rel))); [done|auto|].
  intros s d tr s' n H. apply (snapshot_entry_grows _ _ _ _ _ _ _ H).
Qed.

(** A directory the walk may leave out. *)
Definition left_out (root : string) (f : PathFilter) (q : string) : Prop :=
  ∃ relq, q = root +:+ "/" +:+ relq ∧ NormalizeEventPath relq = Ok relq ∧ ShouldTraverse f relq = false.

(** A walk whose callback leaves out only such directories comes to every
    replicated path it lists. *)
Lemma walk_visits {St} (fn : St → walk_entry → prog agent_sig (St * result walk_next)) root f d rel :
  IsAbs root = true → forallb static_pattern (pf_IncludePaths f ++ pf_ExcludePaths f) = true →
  we_Path d = root +:+ "/" +:+ rel → NormalizeEventPath rel = Ok rel → ShouldReplicate f rel = true →
  ∀ entries skip st tr st', d ∈ entries →
  (∀ x s t s', x ∈ entries → exec (fn s x) t (s', Ok SkipDir) → t `sublist_of` tr →
     we_IsDir x = true ∧ left_out root f (we_Path x)) →
  (∀ q, skip = Some q → left_out root f q) →
  exec (walk fn skip entries st) tr (st', Ok tt) →
  ∃ l skip' s1 s2 t1 t t2 n, tr = t1 ++ t ++ t2 ∧ exec (fn s1 d) t (s2, Ok n) ∧
    exec (walk fn skip' l s2) t2 (st', Ok tt).
Proof.
  intros Hroot Hs Ep Hn Hr. induction entries as [|x l IH]; intros skip st tr st' Hin Hleft Hskip H.
  { by apply elem_of_nil in Hin. }
  cbn [walk] in H. destruct (match skip with Some p => _ | None => false end) eqn:Esk.
  - apply elem_of_cons in Hin as [<-|Hin].
    + exfalso. destruct skip as [q|]; [|done]. destruct (Hskip q eq_refl) as (relq & Eq & Hq & Ht).
      by rewrite (skipped_holds_nothing root f q relq (we_Path d) rel) in Ht.
    + eapply IH; [done| |done|done]. intros y s t s' Hy. apply Hleft. by right.
  - exec_step H. destruct a as [s1 [n|]]; [|exec_step H].
    assert (∃ sk, exec (walk fn sk l s1) tr1 (st', Ok tt) ∧ (∀ q, sk = Some q → left_out root f q))
      as (sk & Hw & Hsk).
    { destruct n; [by exists None|]. destruct (Hleft x st tr0 s1) as [Hd Hlo]; [left|done|by apply sublist_inserts_r|].
      rewrite Hd in H. eexists. split; [done|]. by intros q [= <-]. }
    apply elem_of_cons in Hin as [<-|Hin]; [by exists l, sk, st, s1, [], tr0, tr1, n|].
    destruct (IH sk s1 tr1 st' Hin) as (l' & sk' & s2 & s3 & t1 & t & t2 & n' & -> & Hd & Hw'); [|done|done|].
    { intros y s t s' Hy Hex Ht. eapply Hleft; [by right|done|by apply sublist_inserts_l]. }
    exists l', sk', s2, s3, (tr0 ++ t1), t, t2, n'. by rewrite <-app_assoc.
Qed.

Definition first_walk (tr : list (event agent_sig)) : option (list walk_entry) :=
  match tr with Ev (OsWalkDir _) l :: _ => Some l | _ => None end.

(** A snapshot misses nothing.  For a filter whose patterns name paths
    or whole directories, when a snapshot is taken without an error, every
    file the walk of the volume lists and the filter replicates is in the
    snapshot, unless it was gone when it was looked at: the directories
    the walk leaves out hold no such file. *)
Theorem snapshot_complete root f entries tr s d rel :
  IsAbs root = true → forallb static_pattern (pf_IncludePaths f ++ pf_ExcludePaths f) = true →
  exec (snapshotWatchedFiles root f) (Ev (S:=agent_sig) (OsWalkDir root) entries :: tr) (s, Ok tt) →
  listing root entries → d ∈ entries → we_Err d = None → we_IsDir d = false →
  relativeWatchPath root (we_Path d) = Some rel → ShouldReplicate f rel = true →
  is_Some (s !! rel) ∨
  ∃ e, IsNotExist e = true ∧
    (did (OsLstat (we_Path d)) (Err e) tr ∨ did (OsReadlink (we_Path d)) (Err e) tr).
Proof.
  intros Hr Hs H Hl Hin He Hd Hrel Hrep. unfold snapshotWatchedFiles, WalkDir in H.
  destruct H as (entries' & tr' & E & H). 
  assert (entries' = entries) as ->.
  { pose proof (f_equal first_walk E) as E'. by injection E'. }
  apply (f_equal tail) in E. cbn in E. subst tr'. cbn [pbind] in H.
  destruct (relative_below root (we_Path d) rel) as [Ep Hn]; [done|done|by apply Hl| |].
  { intros ->. by vm_compute in Hrep. }
  destruct (walk_visits (snapshot_entry root f) root f d rel Hr Hs Ep Hn Hrep entries None ∅ tr s Hin)
    as (l & sk & s1 & s2 & t1 & t & t2 & n & -> & Hd' & Hw); [|done|done|].
  { intros x s0 t s1 Hx Hex _. apply snapshot_entry_grows in Hex as [_ Hskip].
    destruct (Hskip eq_refl) as (Hdir & relq & Hq & Hne & Ht). split; [done|].
    destruct (relative_below root (we_Path x) relq) as [Eq Hnq]; [done|done|by apply Hl|done|].
    by exists relq. }
  destruct (snapshot_entry_file _ _ _ _ _ _ _ rel Hd') as (_ & [Hk|Hg]); [done..| |].
  - left. by eapply walk_grows.
  - right. apply gone_app. right. apply gone_app. by left.
Qed.

Definition ex_entries : list walk_entry :=
  [mkWalkEntry "/pool/games/world" None true (Ok Mem.dir_info);
   mkWalkEntry "/pool/games/world/tmp" None true (Ok Mem.dir_info);
   mkWalkEntry "/pool/games/world/tmp/x" None false (Ok Mem.file_info);
   mkWalkEntry "/pool/games/world/region" None true (Ok Mem.dir_info);
   mkWalkEntry "/pool/games/world/region/r.mca" None false (Ok Mem.file_info)].

Lemma ex_entries_listing : listing "/pool/games/world" ex_entries.
Proof.
  unfold listing, ex_entries. intros d Hd.
  repeat (apply elem_of_cons in Hd as [->|Hd]); [left; reflexivity|right..|by apply elem_of_nil in Hd].
  - exists "tmp". repeat split; reflexivity.
  - exists "tmp/x". repeat split; reflexivity.
  - exists "region". repeat split; reflexivity.
  - exists "region/r.mca". repeat split; reflexivity.
Qed.

Lemma snapshot_complete_witness :
  is_Some (({[ "region/r.mca" := mkWatchedFileState 1 420 0 "" ]} : snapshot) !! "region/r.mca") ∨
  ∃ e, IsNotExist e = true ∧
    (did (OsLstat "/pool/games/world/region/r.mca") (Err e)
       [Ev (S:=agent_sig) (OsLstat "/pool/games/world/region/r.mca") (Ok Mem.file_info)] ∨
     did (OsReadlink "/pool/games/world/region/r.mca") (Err e)
       [Ev (S:=agent_sig) (OsLstat "/pool/games/world/region/r.mca") (Ok Mem.file_info)]).
Proof.
  apply (snapshot_complete "/pool/games/world" (mkPathFilter ["region/**"; "tmp/**"] ["tmp/**"] false)
    ex_entries _ _ (mkWalkEntry "/pool/games/world/region/r.mca" None false (Ok Mem.file_info))
    "region/r.mca"); try reflexivity.
  - exists ex_entries. eexists. split; [reflexivity|]. cbn. eexists (Ok Mem.file_info), [].
    split; [reflexivity|]. cbn. split; reflexivity.
  - apply ex_entries_listing.
  - unfold ex_entries. set_solver.
Defined.

End WatchProps.
