(* ===== verification/WatchManager.v ===== *)
(** * The watch manager: [internal/agent/watch_manager.go]

    The agent of the source keeps one watch per volume.  [Start] replaces
    the watch of a volume and starts a goroutine that runs [WatchVolume]
    with a sink which sends every batch to the targets and records the
    outcome; [Stop] cancels it; the statuses are read by the controller.
    The map of watches and the statuses are shared by the handlers and the
    goroutines and guarded by one mutex: every operation here is one
    section under that mutex, and a goroutine reaches it through the call
    [Manager].  A [*managedWatch] is an address of the heap [m_heap], so
    that the code's test whether a watch is still the one in the map is
    the comparison of two addresses. *)
From S2P Require Import Prelude GoStrings GoPath GoTime Effects AgentTypes AgentEnv AgentMem.
From S2P Require Import Agent Filter Apply Shadow Handlers Watch WatchProps.

Module WatchManager.
Import Str Path Agent Filter Apply Shadow Watch WatchProps.

(** ** Sending a batch *)

(** [HTTPBatchSender.SendBatch]; the body is the batch as JSON. *)
Definition SendBatch (target : TargetRef) (batch : EventBatch) : prog agent_sig (result unit) :=
  if is_empty (TrimSpace (tgt_URL target)) then Ret (Err (Errorf "target url is required" []))
  else
    resp <- os_call (HttpPost (TrimRight is_slash (tgt_URL target) +:+ "/replication/sync-batch")
                       (tgt_Token target) batch) ;;
    match resp with
    | PostInvalid e | PostFailed e => Ret (Err e)
    | PostStatus code status body =>
        if (code <? 200)%Z || (300 <=? code)%Z then
          Ret (Err (Errorf "target %s returned %s: %s" [tgt_URL target; status; TrimSpace body]))
        else Ret (Ok tt)
    end.

(** ** The state *)
Record managedWatch : Type := mkManagedWatch {
  mw_cancelled : bool;
  mw_status : WatchStatus;
}.

Record manager : Type := mkManager {
  m_watches : gmap string nat;
  m_heap : gmap nat managedWatch;
  m_next : nat;
}.

Definition NewWatchManager : manager := mkManager ∅ ∅ 0.

Definition watchKey (namespace volume : string) : string := namespace +:+ "/" +:+ volume.

(** [time.ParseDuration] reports an invalid duration with its text. *)
Definition parseOptionalDuration (value0 : string) (fallback : Z) : result Z :=
  let value := TrimSpace value0 in
  if is_empty value then Ok fallback
  else match Time.ParseDuration value with
       | None => Err (Errorf "time: invalid duration %q" [value])
       | Some d => Ok d
       end.

Definition normalizeConsistencyMode (value : string) : string :=
  let v := ToLower (TrimSpace value) in
  if is_empty v || String.eqb v ConsistencyModeShadow then ConsistencyModeShadow
  else if String.eqb v ConsistencyModeLive then ConsistencyModeLive
  else ConsistencyModeShadow.

Definition confirmationThreshold (value targets : Z) : Z :=
  if (value <=? 0)%Z then 0
  else if (0 <? targets)%Z && (targets <? value)%Z then targets
  else value.

Definition defaultConfirmedReplicas (value : option Z) (targets : Z) : Z :=
  match value with
  | None => confirmationThreshold 1 targets
  | Some v => confirmationThreshold v targets
  end.

Definition zero_target (url : string) : TargetStatus := mkTargetStatus url None "" "" 0 0 0.

Definition initialTargetStatuses (targets : list TargetRef) : list TargetStatus :=
  map (λ t, zero_target (tgt_URL t)) targets.

(** The status of a target, appended when there is none: its index, and
    the list. *)
Definition ensureTargetStatus (statuses : list TargetStatus) (url : string)
  : nat * list TargetStatus :=
  match list_find (λ t, ts_URL t = url) statuses with
  | Some (i, _) => (i, statuses)
  | None => (length statuses, statuses ++ [zero_target url])
  end.

(** Writing through the pointer [ensureTargetStatus] returns. *)
Definition with_target (statuses : list TargetStatus) (url : string)
    (g : TargetStatus → TargetStatus) : list TargetStatus :=
  let '(i, l) := ensureTargetStatus statuses url in alter g i l.

(** The statuses handed out are copies: values here, see the notes on
    aliasing in the header of the development. *)
Definition cloneWatchStatus (s : WatchStatus) : WatchStatus := s.

(** ** Handling requests *)

(** What a started watch runs with. *)
Record session : Type := mkSession {
  ss_key : string;
  ss_watch : nat;
  ss_cfg : WatchConfig;
  ss_source : SourceRef;
  ss_targets : list TargetRef;
  ss_ownership : OwnershipPolicy;
  ss_mode : string;
  ss_confirmed : Z;
}.

Fixpoint first_empty_url (i : Z) (targets : list TargetRef) : option Z :=
  match targets with
  | [] => None
  | t :: l => if is_empty (TrimSpace (tgt_URL t)) then Some i else first_empty_url (i + 1) l
  end.

Definition cancel_watch (w : managedWatch) : managedWatch := mkManagedWatch true (mw_status w).

(** The section of [Start] under the lock: the watch of the key is
    cancelled and replaced. *)
Definition install (m : manager) (key : string) (status : WatchStatus) : manager * nat :=
  let heap := match m_watches m !! key with
              | Some a => alter cancel_watch a (m_heap m)
              | None => m_heap m
              end in
  (mkManager (<[key := m_next m]> (m_watches m))
     (<[m_next m := mkManagedWatch false status]> heap) (S (m_next m)), m_next m).

Definition started_status (req : WatchStartRequest) (now : Z) : WatchStatus :=
  mkWatchStatus (ws_Namespace req) (ws_Volume req) (ws_Source req) (ws_Targets req)
    (initialTargetStatuses (ws_Targets req)) (ws_IncludePaths req) (ws_ExcludePaths req)
    (ws_Ownership req) (normalizeConsistencyMode (ws_ConsistencyMode req))
    (defaultConfirmedReplicas (ws_ConfirmedReplicas req) (Z.of_nat (length (ws_Targets req))))
    true now None None 0 "" "" "" 0 0 0.

(** [Start] at time [now]: the new state, the status returned and the
    goroutine to start. *)
Definition Start (pool : Pool) (m : manager) (now : Z) (req : WatchStartRequest)
  : manager * result (WatchStatus * session) :=
  if is_empty (ws_Volume req) then (m, Err (Errorf "volume is required" []))
  else if is_empty (src_WebDAVURL (ws_Source req)) then
    (m, Err (Errorf "source.webdavUrl is required" []))
  else if Nat.eqb (length (ws_Targets req)) 0 then
    (m, Err (Errorf "at least one target is required" []))
  else
    match first_empty_url 0 (ws_Targets req) with
    | Some i => (m, Err (Errorf "targets[%d].url is required" [FormatInt i]))
    | None =>
        match parseOptionalDuration (ws_Debounce req) (5 * Time.Second)%Z with
        | Err e => (m, Err (Wrapf "debounce: %w" [] e))
        | Ok debounce =>
            let key := watchKey (ws_Namespace req) (ws_Volume req) in
            let status := started_status req now in
            let '(m', watch) := install m key status in
            (m', Ok (status,
               mkSession key watch
                 (mkWatchConfig pool (ws_Namespace req) (ws_Volume req) (ws_IncludePaths req)
                    (ws_ExcludePaths req) debounce 0)
                 (ws_Source req) (ws_Targets req) (ws_Ownership req)
                 (wst_ConsistencyMode status) (wst_ConfirmedReplicas status)))
        end
    end.

(** The fields of a status the goroutines and [Stop] write. *)
Definition set_status (s : WatchStatus) (targets : list TargetStatus) (running : bool)
    (stopped lastAt : option Z) (lastCount : Z) (lastGen deliveryError watchError : string)
    (batches events failures : Z) : WatchStatus :=
  mkWatchStatus (wst_Namespace s) (wst_Volume s) (wst_Source s) (wst_Targets s) targets
    (wst_IncludePaths s) (wst_ExcludePaths s) (wst_Ownership s) (wst_ConsistencyMode s)
    (wst_ConfirmedReplicas s) running (wst_StartedAt s) stopped lastAt lastCount lastGen
    deliveryError watchError batches events failures.

Definition stop_status (s : WatchStatus) (now : Z) : WatchStatus :=
  set_status s (wst_TargetStatuses s) false (Some now) (wst_LastBatchAt s)
    (wst_LastBatchEventCount s) (wst_LastBatchGeneration s) (wst_LastDeliveryError s)
    (wst_LastWatchError s) (wst_DeliveredBatchCount s) (wst_DeliveredEventCount s)
    (wst_DeliveryFailureCount s).

Definition set_heap (m : manager) (h : gmap nat managedWatch) : manager :=
  mkManager (m_watches m) h (m_next m).

(** The watch of a key: its address and what is there. *)
Definition find_watch (m : manager) (key : string) : option (nat * managedWatch) :=
  a ← m_watches m !! key; w ← m_heap m !! a; Some (a, w).

Definition Stop (m : manager) (now : Z) (namespace volume : string)
  : manager * option WatchStatus :=
  match find_watch m (watchKey namespace volume) with
  | None => (m, None)
  | Some (a, w) =>
      let status := stop_status (mw_status w) now in
      (set_heap m (<[a := mkManagedWatch true status]> (m_heap m)), Some status)
  end.

Definition Status (m : manager) (namespace volume : string) : option WatchStatus :=
  p ← find_watch m (watchKey namespace volume); Some (cloneWatchStatus (mw_status (snd p))).

(** The statuses of all watches; Go gives them in any order. *)
Definition Statuses (m : manager) : list WatchStatus :=
  omap (λ kv, w ← m_heap m !! snd kv; Some (cloneWatchStatus (mw_status w)))
    (map_to_list (m_watches m)).
(** ** Recording outcomes *)
Section records.
(** [err.Error()] *)
Context (Error : error → string).

Definition delivered_status (s : WatchStatus) (url : string) (events : Z) (generation : string)
    (now : Z) : WatchStatus :=
  set_status s
    (with_target (wst_TargetStatuses s) url (λ t,
       mkTargetStatus (ts_URL t) (Some now) generation "" (wrap64 (ts_DeliveredBatchCount t + 1))
         (wrap64 (ts_DeliveredEventCount t + events)) (ts_DeliveryFailureCount t)))
    (wst_Running s) (wst_StoppedAt s) (Some now) events generation "" (wst_LastWatchError s)
    (wrap64 (wst_DeliveredBatchCount s + 1)) (wrap64 (wst_DeliveredEventCount s + events))
    (wst_DeliveryFailureCount s).

Definition failed_status (s : WatchStatus) (url text : string) : WatchStatus :=
  set_status s
    (with_target (wst_TargetStatuses s) url (λ t,
       mkTargetStatus (ts_URL t) (ts_LastSuccessfulSync t) (ts_LastObservedGeneration t) text
         (ts_DeliveredBatchCount t) (ts_DeliveredEventCount t)
         (wrap64 (ts_DeliveryFailureCount t + 1))))
    (wst_Running s) (wst_StoppedAt s) (wst_LastBatchAt s) (wst_LastBatchEventCount s)
    (wst_LastBatchGeneration s) text (wst_LastWatchError s) (wst_DeliveredBatchCount s)
    (wst_DeliveredEventCount s) (wrap64 (wst_DeliveryFailureCount s + 1)).

Definition unconfirmed_status (s : WatchStatus) (events : Z) (generation : string) (got want : Z)
  : WatchStatus :=
  set_status s (wst_TargetStatuses s) (wst_Running s) (wst_StoppedAt s) None events generation
    ("generation " +:+ generation +:+ " only confirmed on " +:+ FormatInt got +:+ "/" +:+
     FormatInt want +:+ " required replicas")
    (wst_LastWatchError s) (wst_DeliveredBatchCount s) (wst_DeliveredEventCount s)
    (wst_DeliveryFailureCount s).

Definition stopped_status (s : WatchStatus) (e : option error) (now : Z) : WatchStatus :=
  set_status s (wst_TargetStatuses s) false (Some now) (wst_LastBatchAt s)
    (wst_LastBatchEventCount s) (wst_LastBatchGeneration s) (wst_LastDeliveryError s)
    match e with
    | None | Some Canceled => wst_LastWatchError s
    | Some e => Error e
    end
    (wst_DeliveredBatchCount s) (wst_DeliveredEventCount s) (wst_DeliveryFailureCount s).

(** The guard of every record: [if m.watches[key] != watch { return }]. *)
Definition on_current (m : manager) (key : string) (watch : nat)
    (g : WatchStatus → WatchStatus) : manager :=
  if bool_decide (m_watches m !! key = Some watch)
  then set_heap m (alter (λ w, mkManagedWatch (mw_cancelled w) (g (mw_status w))) watch (m_heap m))
  else m.

Definition event_count (batch : EventBatch) : Z := Z.of_nat (length (eb_Events batch)).

Definition recordDeliverySuccess (m : manager) (key : string) (watch : nat) (target : TargetRef)
    (batch : EventBatch) (now : Z) : manager :=
  on_current m key watch (λ s,
    delivered_status s (tgt_URL target) (event_count batch) (eb_Generation batch) now).

Definition recordDeliveryError (m : manager) (key : string) (watch : nat) (target : TargetRef)
    (e : error) : manager :=
  on_current m key watch (λ s, failed_status s (tgt_URL target) (Error e)).

Definition recordUnconfirmedDelivery (m : manager) (key : string) (watch : nat)
    (batch : EventBatch) (got want : Z) : manager :=
  on_current m key watch (λ s,
    unconfirmed_status s (event_count batch) (eb_Generation batch) got want).

Definition recordStopped (m : manager) (key : string) (watch : nat) (e : option error) (now : Z)
  : manager :=
  on_current m key watch (λ s, stopped_status s e now).

Definition record (m : manager) (u : manager_update) : manager :=
  match u with
  | DeliverySuccess key watch target batch now => recordDeliverySuccess m key watch target batch now
  | DeliveryError key watch target e => recordDeliveryError m key watch target e
  | UnconfirmedDelivery key watch batch got want => recordUnconfirmedDelivery m key watch batch got want
  | WatchStopped key watch e now => recordStopped m key watch e now
  end.
End records.

(** ** The goroutine of a watch *)
Section session.
Context (s : session).

(** The targets that took the batch; a failure is recorded and the next
    target tried. *)
Definition send_to (batch : EventBatch) (successes : list TargetRef) (target : TargetRef)
  : prog agent_sig (list TargetRef) :=
  sent <- SendBatch target batch ;;
  match sent with
  | Err e => os_call (Manager (DeliveryError (ss_key s) (ss_watch s) target e)) ;;; Ret successes
  | Ok _ => Ret (successes ++ [target])
  end.

Definition confirm (batch : EventBatch) (_ : unit) (target : TargetRef) : prog agent_sig unit :=
  now <- os_call TimeNow ;;
  os_call (Manager (DeliverySuccess (ss_key s) (ss_watch s) target batch now)).

Definition deliver_batch (batch : EventBatch) : prog agent_sig (result unit) :=
  successes <- fold_prog (ss_targets s) (send_to batch) [] ;;
  let required := confirmationThreshold (ss_confirmed s) (Z.of_nat (length (ss_targets s))) in
  let got := Z.of_nat (length successes) in
  if (got <? required)%Z then
    os_call (Manager (UnconfirmedDelivery (ss_key s) (ss_watch s) batch got required)) ;;;
    Ret (Ok tt)
  else fold_prog successes (confirm batch) tt ;;; Ret (Ok tt).

Definition with_source (batch : EventBatch) : EventBatch :=
  mkEventBatch (eb_Namespace batch) (eb_Volume batch) (eb_Generation batch) (ss_source s)
    (eb_SourceBasePath batch) (ss_ownership s) (eb_DeletesAuthoritative batch) (eb_Events batch).

(** The sink given to [WatchVolume]. *)
Definition sink (batch0 : EventBatch) : prog agent_sig (result unit) :=
  let batch := with_source batch0 in
  if String.eqb (ss_mode s) ConsistencyModeShadow then
    shadowBatch <-! ApplyShadowEventBatch (wc_Pool (ss_cfg s)) batch (wc_filter (ss_cfg s)) ;;
    deliver_batch shadowBatch
  else deliver_batch batch.

(** [run] for a number of rounds of the loop of [WatchVolume]; after the
    last round the goroutine is still running. *)
Definition run (rounds : nat) : prog agent_sig unit :=
  r <- WatchVolume rounds (ss_cfg s) sink ;;
  match r with
  | NextRound _ => Ret tt
  | ReturnErr e =>
      now <- os_call TimeNow ;;
      os_call (Manager (WatchStopped (ss_key s) (ss_watch s) (Some e) now))
  end.
End session.

(** ** The handlers *)
Inductive reply : Type :=
| ErrorReply (code : Z) (e : error)
| StatusReply (s : WatchStatus)
| StatusesReply (l : list WatchStatus).

Definition refuse {B} (method token : string) (r : Handlers.request B) : option reply :=
  if negb (String.eqb (Handlers.rq_Method r) method) then
    Some (ErrorReply 405 (Errorf "method not allowed" []))
  else if negb (Authorize token (Handlers.rq_Authorization r)) then
    Some (ErrorReply 401 (Errorf "unauthorized" []))
  else None.

Definition StartHandler (pool : Pool) (token : string) (m : manager) (now : Z)
    (r : Handlers.request WatchStartRequest) : manager * reply * option session :=
  match refuse "POST" token r with
  | Some e => (m, e, None)
  | None =>
      match Handlers.rq_Body r with
      | Err e => (m, ErrorReply 400 e, None)
      | Ok req =>
          match Start pool m now req with
          | (m', Err e) => (m', ErrorReply 400 e, None)
          | (m', Ok (status, s)) => (m', StatusReply status, Some s)
          end
      end
  end.

Definition StopHandler (token : string) (m : manager) (now : Z)
    (r : Handlers.request WatchStopRequest) : manager * reply :=
  match refuse "POST" token r with
  | Some e => (m, e)
  | None =>
      match Handlers.rq_Body r with
      | Err e => (m, ErrorReply 400 e)
      | Ok req =>
          match Stop m now (wx_Namespace req) (wx_Volume req) with
          | (m', None) => (m', ErrorReply 404 (Errorf "watch not found" []))
          | (m', Some status) => (m', StatusReply status)
          end
      end
  end.

(** [namespace] and [volume] are the parameters of the query. *)
Definition StatusHandler (token : string) (m : manager) (r : Handlers.request unit)
    (namespace volume : string) : reply :=
  match refuse "GET" token r with
  | Some e => e
  | None =>
      if is_empty volume then StatusesReply (Statuses m)
      else match Status m namespace volume with
           | None => ErrorReply 404 (Errorf "watch not found" [])
           | Some status => StatusReply status
           end
  end.

(** ** The manager and its goroutines

    The handlers and the goroutines interleave at their calls and at the
    sections under the mutex.  A goroutine runs some number of rounds of
    its loop; its environment answers its other calls in any way. *)
Record system : Type := mkSystem {
  sy_manager : manager;
  sy_sessions : gmap nat (prog agent_sig unit);
}.

Inductive sys_step (Error : error → string) (pool : Pool) : system → system → Prop :=
| sys_start m ss now req m' status s rounds :
    Start pool m now req = (m', Ok (status, s)) →
    sys_step Error pool (mkSystem m ss) (mkSystem m' (<[ss_watch s := run s rounds]> ss))
| sys_stop m ss now namespace volume :
    sys_step Error pool (mkSystem m ss) (mkSystem (fst (Stop m now namespace volume)) ss)
| sys_record m ss a u k :
    ss !! a = Some (Vis (S:=agent_sig) (Manager u) k) →
    sys_step Error pool (mkSystem m ss) (mkSystem (record Error m u) (<[a := k tt]> ss))
| sys_call m ss a (o : agent_op) k (r : agent_ans o) :
    ss !! a = Some (Vis (S:=agent_sig) o k) → (∀ u, o ≠ Manager u) →
    sys_step Error pool (mkSystem m ss) (mkSystem m (<[a := k r]> ss)).

Definition sys_initial : system := mkSystem NewWatchManager ∅.
Definition sys_reachable (Error : error → string) (pool : Pool) (y : system) : Prop :=
  rtc (sys_step Error pool) sys_initial y.

(** ** Lemmas: the calls of a goroutine *)

(** The updates a goroutine may make: of its own watch, for its own
    targets. *)
Definition own_update (key : string) (a : nat) (targets : list TargetRef) (u : manager_update) : Prop :=
  match u with
  | DeliverySuccess k w t _ _ | DeliveryError k w t _ => k = key ∧ w = a ∧ t ∈ targets
  | UnconfirmedDelivery k w _ _ _ | WatchStopped k w _ _ => k = key ∧ w = a
  end.
Definition own_op (key : string) (a : nat) (targets : list TargetRef) (o : agent_op) : Prop :=
  match o with Manager u => own_update key a targets u | _ => True end.

(** Calls other than the posts of batches and the updates of statuses. *)
Definition local_op (o : agent_op) : Prop :=
  match o with Manager _ | HttpPost _ _ _ => False | _ => True end.

Section calls.
Context (P : agent_op → Prop) (HP : ∀ o, local_op o → P o).

Abbreviation only := (calls_only (S:=agent_sig) P).

Lemma only_call o : local_op o → only (os_call o).
Proof. intros H. apply (calls_only_call (S:=agent_sig)). auto. Qed.

Ltac one_call := lazymatch goal with |- calls_only _ (@call _ ?o) => by apply (only_call o) end.

Lemma only_walk {St} (fn : St → walk_entry → prog agent_sig (St * result walk_next)) l :
  (∀ st d, only (fn st d)) → ∀ skip st, only (walk fn skip l st).
Proof.
  intros Hf. induction l as [|d l IH]; intros skip st; cbn [walk]; calls; auto.
Qed.

Lemma only_WalkDir {St} root (fn : St → walk_entry → prog agent_sig (St * result walk_next)) st :
  (∀ st d, only (fn st d)) → only (WalkDir root fn st).
Proof. intros Hf. unfold WalkDir. calls; [one_call|by apply only_walk]. Qed.

Lemma only_WatchVolume rounds cfg sink : (∀ b, only (sink b)) → only (WatchVolume rounds cfg sink).
Proof.
  intros Hs.
  assert (∀ root f, only (snapshotWatchedFiles root f)) as Hsnap.
  { intros. apply only_WalkDir. intros. unfold snapshot_entry. calls; one_call. }
  assert (∀ root f, only (addRecursiveWatches root f)) as Hadd.
  { intros. unfold addRecursiveWatches. calls. apply only_WalkDir. intros.
    unfold watch_entry. calls; one_call. }
  assert (∀ es, only (send_events cfg sink es)) as Hsend.
  { intros. unfold send_events. calls; [one_call|done]. }
  assert (∀ p, only (flush cfg sink p)) as Hflush by (intros; unfold flush; calls; auto).
  assert (∀ root n st, only (watch_loop cfg sink root n st)) as Hloop.
  { intros root n. induction n as [|n IH]; intros st; cbn [watch_loop]; calls; [|auto].
    unfold watch_round, rescan, watcher_event, path_event, directory_created, collectExistingEvents.
    calls; auto; try one_call. apply only_WalkDir. intros.
    unfold collect_entry, collect_yield. calls; auto. }
  unfold WatchVolume, EnsureVolumePath. calls; auto. all: one_call.
Qed.

Lemma only_shadow pool batch f : only (ApplyShadowEventBatch pool batch f).
Proof.
  assert (∀ l r es out, only (shadow_events l r es out)) as Hes.
  { intros l r es. induction es as [|e es IH]; intros out; cbn [shadow_events]; calls; [|apply IH].
    unfold shadow_event, shadow_upsert, runFullSyncCommand. calls; one_call. }
  unfold ApplyShadowEventBatch, EnsureShadowPath. calls; auto; one_call.
Qed.
End calls.

Ltac own_call :=
  lazymatch goal with
  | |- calls_only _ (@call _ ?o) => apply (calls_only_call (S:=agent_sig) _ o); cbn; auto
  end.

(** The targets that took a batch are targets. *)
Lemma send_to_subset s batch targets : ∀ l tr l',
  exec (fold_prog targets (send_to s batch) l) tr l' → ∀ t, t ∈ l' → t ∈ l ∨ t ∈ targets.
Proof.
  induction targets as [|x targets IH]; intros l tr l' H t Ht; cbn [fold_prog] in H.
  { exec_step H. auto. }
  exec_step H. destruct (IH _ _ _ H t Ht) as [Hin|Hin]; [|right; by right].
  unfold send_to in H0. exec_step H0. destruct a0; exec_inv; [|auto].
  apply elem_of_app in Hin as [|Hin]; [auto|]. apply list_elem_of_singleton in Hin as ->. right. left.
Qed.

(** A goroutine only ever updates its own watch. *)
Lemma run_own s rounds :
  calls_only (S:=agent_sig) (own_op (ss_key s) (ss_watch s) (ss_targets s)) (run s rounds).
Proof.
  set (P := own_op _ _ _).
  assert (∀ o, local_op o → P o) as HP by (by intros []).
  assert (∀ b, calls_only (S:=agent_sig) P (deliver_batch s b)) as Hd.
  { intros b. unfold deliver_batch. apply calls_only_bind_exec.
    - apply calls_only_fold. intros t st Ht. unfold send_to, SendBatch. calls; own_call.
    - intros successes tr H. pose proof (send_to_subset _ _ _ _ _ _ H) as Hin.
      calls; try own_call. apply calls_only_fold. intros t st Ht. unfold confirm. calls; own_call.
      destruct (Hin t Ht) as [Hn|]; [by apply elem_of_nil in Hn|auto]. }
  unfold run. calls; [|own_call..].
  apply only_WatchVolume; [done|]. intros b. unfold sink. calls; [by apply only_shadow|auto..].
Qed.

Lemma exec_some {A} (p : prog agent_sig A) : ∃ tr a, exec p tr a.
Proof.
  induction p as [a|o k IH]; [by exists [], a|].
  destruct (IH (Handlers.some_answer o)) as (tr & a & H).
  exists (Ev (S:=agent_sig) o (Handlers.some_answer o) :: tr), a. exists (Handlers.some_answer o), tr. done.
Qed.

Lemma calls_only_after {A} (P : agent_op → Prop) (o : agent_op) (k : agent_ans o → prog agent_sig A) :
  calls_only (S:=agent_sig) P (Vis (S:=agent_sig) o k) →
  P o ∧ ∀ r, calls_only (S:=agent_sig) P (k r).
Proof.
  intros H. split.
  - destruct (exec_some (k (Handlers.some_answer o))) as (tr & a & Ha).
    specialize (H (Ev (S:=agent_sig) o (Handlers.some_answer o) :: tr) a).
    apply Forall_cons in H as [H _]; [done|]. exists (Handlers.some_answer o), tr. done.
  - intros r tr a Ha. specialize (H (Ev (S:=agent_sig) o r :: tr) a).
    apply Forall_cons in H as [_ H]; [done|]. exists r, tr. done.
Qed.

(** ** Lemmas: statuses *)
Definition sum (l : list Z) : Z := foldr Z.add 0%Z l.

Lemma wrap64_mod z : (wrap64 z mod 2 ^ 64 = z mod 2 ^ 64)%Z.
Proof.
  unfold wrap64. rewrite Zminus_mod_idemp_l. f_equal. lia.
Qed.

Lemma wrap64_eq a b : (a mod 2 ^ 64 = b mod 2 ^ 64)%Z → wrap64 a = wrap64 b.
Proof. intros H. unfold wrap64. by rewrite (Zplus_mod a), (Zplus_mod b), H. Qed.

Lemma map_alter_same {A B} (g : A → B) (f : A → A) (l : list A) i :
  (∀ x, g (f x) = g x) → map g (alter f i l) = map g l.
Proof.
  intros H. revert i. induction l as [|x l IH]; intros [|i]; cbn; [done|done| |].
  - by rewrite H.
  - f_equal. apply IH.
Qed.

Lemma sum_alter {A} (g : A → Z) (f : A → A) (l : list A) i x :
  l !! i = Some x → sum (map g (alter f i l)) = (sum (map g l) + (g (f x) - g x))%Z.
Proof.
  unfold sum. revert i. induction l as [|y l IH]; intros [|i] H; cbn in *; simplify_eq; [lia|].
  etransitivity; [apply (f_equal (Z.add (g y))), (IH i H)|lia].
Qed.

(** A counter that counts what one of its parts counts. *)
Lemma wrap64_count {A} (g : A → Z) (f : A → A) (l : list A) i x d :
  l !! i = Some x → g (f x) = wrap64 (g x + d) →
  wrap64 (wrap64 (sum (map g l)) + d) = wrap64 (sum (map g (alter f i l))).
Proof.
  intros Hi Hf. rewrite (sum_alter g f l i x Hi), Hf. apply wrap64_eq.
  rewrite Zplus_mod, wrap64_mod, (Zplus_mod (sum _)), (Zminus_mod (wrap64 _)), wrap64_mod.
  rewrite <- Zminus_mod, <- !Zplus_mod. f_equal. lia.
Qed.

Lemma with_target_found l url f :
  url ∈ map ts_URL l → ∃ i x, l !! i = Some x ∧ with_target l url f = alter f i l.
Proof.
  intros (x & Hu & Hx)%list_elem_of_In%in_map_iff. apply list_elem_of_In in Hx.
  unfold with_target, ensureTargetStatus. destruct (list_find _ l) as [[i y]|] eqn:E.
  - apply list_find_Some in E as (Hy & _ & _). eauto.
  - apply list_find_None in E. rewrite Forall_forall in E. by apply E in Hx.
Qed.

(** A status as [Start] makes it and the goroutine of the watch keeps it. *)
Record status_ok (s : WatchStatus) : Prop := {
  so_urls : map ts_URL (wst_TargetStatuses s) = map tgt_URL (wst_Targets s);
  so_targets : wst_Targets s ≠ [];
  so_confirmed : (0 ≤ wst_ConfirmedReplicas s ≤ Z.of_nat (length (wst_Targets s)))%Z;
  so_batches : wst_DeliveredBatchCount s = wrap64 (sum (map ts_DeliveredBatchCount (wst_TargetStatuses s)));
  so_events : wst_DeliveredEventCount s = wrap64 (sum (map ts_DeliveredEventCount (wst_TargetStatuses s)));
  so_failures : wst_DeliveryFailureCount s = wrap64 (sum (map ts_DeliveryFailureCount (wst_TargetStatuses s)));
}.

Lemma threshold_bounds v n : (0 ≤ n → 0 ≤ confirmationThreshold v n ∧ (0 < n → confirmationThreshold v n ≤ n))%Z.
Proof. unfold confirmationThreshold. repeat case_match; lia. Qed.

Lemma started_ok req now : ws_Targets req ≠ [] → status_ok (started_status req now).
Proof.
  intros Hne. assert (∀ g, (∀ u, g (zero_target u) = 0%Z) →
    sum (map g (initialTargetStatuses (ws_Targets req))) = 0%Z) as H0.
  { intros g Hg. unfold initialTargetStatuses. generalize (ws_Targets req). clear -Hg.
    induction l as [|t l IH]; cbn; [done|]. rewrite Hg. apply IH. }
  split; cbn; rewrite ?H0 by done; try done.
  - unfold initialTargetStatuses. by rewrite map_map.
  - unfold defaultConfirmedReplicas. destruct (ws_Targets req) as [|t l]; [done|].
    destruct (ws_ConfirmedReplicas req) as [v|];
      match goal with |- context [confirmationThreshold ?a ?b] => pose proof (threshold_bounds a b) end;
      cbn [length] in *; lia.
Qed.

Lemma delivered_ok s url events gen now :
  status_ok s → url ∈ map tgt_URL (wst_Targets s) → status_ok (delivered_status s url events gen now).
Proof.
  intros [Hu Ht Hc Hb He Hf] Hin. rewrite <-Hu in Hin. unfold delivered_status.
  match goal with |- context [with_target ?l ?u ?f] => destruct (with_target_found l u f Hin) as (i & x & Hi & ->) end.
  split; cbn; [by rewrite map_alter_same|done|done|rewrite Hb|rewrite He|].
  - by apply (wrap64_count _ _ _ i x).
  - by apply (wrap64_count _ _ _ i x).
  - by rewrite map_alter_same.
Qed.

Lemma failed_ok s url text :
  status_ok s → url ∈ map tgt_URL (wst_Targets s) → status_ok (failed_status s url text).
Proof.
  intros [Hu Ht Hc Hb He Hf] Hin. rewrite <-Hu in Hin. unfold failed_status.
  match goal with |- context [with_target ?l ?u ?f] => destruct (with_target_found l u f Hin) as (i & x & Hi & ->) end.
  split; cbn; [by rewrite map_alter_same|done|done|by rewrite map_alter_same|by rewrite map_alter_same|rewrite Hf].
  by apply (wrap64_count _ _ _ i x).
Qed.

(** ** The invariant of the manager *)
Definition status_key (s : WatchStatus) : string := watchKey (wst_Namespace s) (wst_Volume s).

Record sys_inv (y : system) : Prop := {
  si_fresh a w : m_heap (sy_manager y) !! a = Some w → a < m_next (sy_manager y);
  si_map key a : m_watches (sy_manager y) !! key = Some a →
    ∃ w, m_heap (sy_manager y) !! a = Some w ∧ status_key (mw_status w) = key;
  si_live a w : m_heap (sy_manager y) !! a = Some w → mw_cancelled w = false →
    m_watches (sy_manager y) !! status_key (mw_status w) = Some a;
  si_status a w : m_heap (sy_manager y) !! a = Some w → status_ok (mw_status w);
  si_session a p : sy_sessions y !! a = Some p →
    ∃ w, m_heap (sy_manager y) !! a = Some w ∧
      calls_only (S:=agent_sig) (own_op (status_key (mw_status w)) a (wst_Targets (mw_status w))) p;
}.

(** What a status keeps when it is updated. *)
Definition same_watch (s s' : WatchStatus) : Prop :=
  wst_Namespace s' = wst_Namespace s ∧ wst_Volume s' = wst_Volume s ∧ wst_Targets s' = wst_Targets s.

Lemma same_key s s' : same_watch s s' → status_key s' = status_key s.
Proof. intros (E1 & E2 & _). unfold status_key. by rewrite E1, E2. Qed.

(** Updating the status at one address. *)
Lemma inv_update m ss a w c s' :
  sys_inv (mkSystem m ss) → m_heap m !! a = Some w → same_watch (mw_status w) s' →
  (mw_cancelled w = true → c = true) → status_ok s' →
  sys_inv (mkSystem (set_heap m (<[a := mkManagedWatch c s']> (m_heap m))) ss).
Proof.
  intros [Hf Hm Hl Hs Hss] Ha Hsame Hc Hok. pose proof (same_key _ _ Hsame) as Hk.
  split; cbn [sy_manager sy_sessions set_heap m_watches m_heap m_next] in *.
  - intros b w' [[<- _]|[_ Hb]]%lookup_insert_Some; eauto.
  - intros key b Hb. destruct (Hm key b Hb) as (w' & Hw' & E). destruct (decide (a = b)) as [->|Hne].
    + eexists. rewrite lookup_insert_eq. split; [done|]. cbn. rewrite Hk. by simplify_eq.
    + exists w'. by rewrite lookup_insert_ne.
  - intros b w' [[<- <-]|[_ Hb]]%lookup_insert_Some; cbn; [|eauto]. intros ->. rewrite Hk. apply Hl; [done|].
    destruct (mw_cancelled w); [by specialize (Hc eq_refl)|done].
  - intros b w' [[<- <-]|[_ Hb]]%lookup_insert_Some; [done|eauto].
  - intros b p Hp. destruct (Hss b p Hp) as (w' & Hw' & Hc'). destruct (decide (a = b)) as [->|Hne].
    + eexists. rewrite lookup_insert_eq. split; [done|]. cbn. rewrite Hk.
      destruct Hsame as (_ & _ & ->). by simplify_eq.
    + exists w'. by rewrite lookup_insert_ne.
Qed.

Lemma inv_session m ss a p p' :
  sys_inv (mkSystem m ss) → ss !! a = Some p →
  (∀ P, calls_only (S:=agent_sig) P p → calls_only (S:=agent_sig) P p') →
  sys_inv (mkSystem m (<[a := p']> ss)).
Proof.
  intros [Hf Hm Hl Hs Hss] Ha Hp. split; cbn [sy_manager sy_sessions] in *; [done..|].
  intros b q [[<- <-]|[_ Hb]]%lookup_insert_Some; [|eauto].
  destruct (Hss a p Ha) as (w & Hw & Hc). eauto.
Qed.

Lemma inv_start pool m ss now req m' status s rounds :
  sys_inv (mkSystem m ss) → Start pool m now req = (m', Ok (status, s)) →
  sys_inv (mkSystem m' (<[ss_watch s := run s rounds]> ss)).
Proof.
  intros [Hf Hm Hl Hs Hss] H. unfold Start in H.
  destruct (is_empty (ws_Volume req)); [done|]. destruct (is_empty (src_WebDAVURL _)); [done|].
  destruct (Nat.eqb_spec (length (ws_Targets req)) 0) as [|Hne]; [done|].
  destruct (first_empty_url 0 (ws_Targets req)); [done|].
  destruct (parseOptionalDuration _ _) as [debounce|]; [|done]. cbn [install] in H. unfold install in H. simplify_eq.
  assert (ws_Targets req ≠ []) as Ht by (by intros E; rewrite E in Hne).
  set (key := watchKey _ _) in *. set (n := m_next m) in *.
  set (heap := match m_watches m !! key with Some a => _ | None => _ end) in *.
  assert (∀ b w, heap !! b = Some w → ∃ w0, m_heap m !! b = Some w0 ∧ mw_status w = mw_status w0 ∧
            (mw_cancelled w = false → mw_cancelled w0 = false ∧ m_watches m !! key ≠ Some b)) as Hheap.
  { intros b w. subst heap. destruct (m_watches m !! key) as [a|] eqn:E.
    - destruct (decide (a = b)) as [->|Hab].
      + rewrite lookup_alter_eq, fmap_Some. intros (w0 & Hw0 & ->). by exists w0.
      + rewrite lookup_alter_ne by done. intros Hb. exists w. split_and!; [done|done|]. intros ?. split; congruence.
    - intros Hb. exists w. split_and!; [done..|]. intros ?. by split. }
  assert (∀ b w0, m_heap m !! b = Some w0 → ∃ w, heap !! b = Some w ∧ mw_status w = mw_status w0) as Hheap'.
  { intros b w0 Hb. subst heap. destruct (m_watches m !! key) as [a|]; [|eauto].
    destruct (decide (a = b)) as [->|Hab].
    - exists (cancel_watch w0). by rewrite lookup_alter_eq, Hb.
    - exists w0. by rewrite lookup_alter_ne. }
  assert (∀ b w, heap !! b = Some w → b < n) as Hlt.
  { intros b w (w0 & Hw0 & _)%Hheap. by eapply Hf. }
  split; cbn [sy_manager sy_sessions m_watches m_heap m_next].
  - intros b w [[<- _]|[_ Hb%Hlt]]%lookup_insert_Some; lia.
  - intros k b [[<- <-]|[Hk Hb]]%lookup_insert_Some.
    + eexists. rewrite lookup_insert_eq. by split.
    + destruct (Hm k b Hb) as (w0 & Hw0 & E). destruct (Hheap' b w0 Hw0) as (w & Hw & Es).
      exists w. rewrite lookup_insert_ne by (apply Hlt in Hw; lia). split; [done|]. by rewrite Es.
  - intros b w [[<- <-]|[_ Hb]]%lookup_insert_Some; [intros _; apply lookup_insert_eq|].
    intros Hc. destruct (Hheap b w Hb) as (w0 & Hw0 & Es & Hc0). destruct (Hc0 Hc) as [Hc1 Hk].
    pose proof (Hl b w0 Hw0 Hc1) as Hin. rewrite Es. rewrite lookup_insert_ne; [done|]. intros E. apply Hk. by rewrite E.
  - intros b w [[<- <-]|[_ Hb]]%lookup_insert_Some; [by apply started_ok|].
    destruct (Hheap b w Hb) as (w0 & Hw0 & -> & _). eauto.
  - intros b p [[<- <-]|[Hne' Hp]]%lookup_insert_Some.
    + eexists. rewrite lookup_insert_eq. split; [done|]. apply (run_own (mkSession _ _ _ _ _ _ _ _)).
    + destruct (Hss b p Hp) as (w0 & Hw0 & Hc). destruct (Hheap' b w0 Hw0) as (w & Hw & Es).
      exists w. rewrite lookup_insert_ne by done. by rewrite Es.
Qed.

Lemma record_form Error m u key a targets w :
  own_update key a targets u → m_heap m !! a = Some w → 
  ∃ g, record Error m u = on_current m key a g ∧ ∀ s, same_watch s (g s) ∧
    (status_ok s → wst_Targets s = targets → status_ok (g s)).
Proof.
  intros Hu Hw. destruct u; cbn in Hu; destruct_and?; subst;
    (eexists; split; [reflexivity|]); intros s; (split; [by repeat split|]); intros Hok Ht.
  - apply delivered_ok; [done|]. rewrite Ht. by apply list_elem_of_In, in_map, list_elem_of_In.
  - apply failed_ok; [done|]. rewrite Ht. by apply list_elem_of_In, in_map, list_elem_of_In.
  - destruct Hok. by split.
  - destruct Hok. by split.
Qed.

Lemma inv_sys_step Error pool y y' : sys_inv y → sys_step Error pool y y' → sys_inv y'.
Proof.
  intros Hi Hs. destruct Hs as [m ss now req m' status s rounds H|m ss now ns vol|m ss a u k Ha|m ss a o k r Ha _].
  - by eapply inv_start.
  - unfold Stop. destruct (find_watch m _) as [[a w]|] eqn:E; [|done]. cbn [fst].
    unfold find_watch in E. destruct (m_watches m !! _) as [a'|] eqn:Ea; cbn in E; [|done].
    destruct (m_heap m !! a') as [w'|] eqn:Ew; cbn in E; simplify_eq.
    apply (inv_update m ss a w); [done|done|by repeat split|done|].
    destruct (si_status _ Hi a w Ew). by split.
  - destruct (si_session _ Hi a _ Ha) as (w & Hw & Hc). cbn [sy_manager] in Hw.
    apply calls_only_after in Hc as [Hu Hk].
    apply (inv_session _ _ a (Vis (S:=agent_sig) (Manager u) k)); [|done|by intros P [_ HP]%calls_only_after].
    cbn in Hu. destruct (record_form Error m u _ _ _ w Hu Hw) as (g & -> & Hg). unfold on_current.
    case_bool_decide; [|done].
    assert (alter (λ w0, mkManagedWatch (mw_cancelled w0) (g (mw_status w0))) a (m_heap m) =
      <[a := mkManagedWatch (mw_cancelled w) (g (mw_status w))]> (m_heap m)) as ->.
    { apply map_eq. intros b. destruct (decide (a = b)) as [->|].
      - by rewrite lookup_alter_eq, lookup_insert_eq, Hw.
      - by rewrite lookup_alter_ne, lookup_insert_ne. }
    destruct (Hg (mw_status w)) as [H1 H2].
    apply (inv_update m ss a w); [done..|]. apply H2; [|done]. by apply (si_status _ Hi a).
  - apply (inv_session _ _ a (Vis (S:=agent_sig) o k)); [done|done|].
    intros P [_ HP]%calls_only_after. apply HP.
Qed.

Lemma sys_invariant Error pool y : sys_reachable Error pool y → sys_inv y.
Proof.
  intros H. unfold sys_reachable in H.
  assert (sys_inv sys_initial) as H0.
  { split; cbn; intros; rewrite lookup_empty in *; discriminate. }
  induction H; [done|]. apply IHrtc. by eapply inv_sys_step.
Qed.

(** A watch that is no longer in the map keeps its status whatever happens. *)
Lemma stale_step Error pool y y' a w :
  sys_inv y → sys_step Error pool y y' →
  (∀ key, m_watches (sy_manager y) !! key ≠ Some a) → m_heap (sy_manager y) !! a = Some w →
  (∀ key, m_watches (sy_manager y') !! key ≠ Some a) ∧ m_heap (sy_manager y') !! a = Some w.
Proof.
  intros Hi Hs Hstale Hw.
  destruct Hs as [m ss now req m' status s rounds H|m ss now ns vol|m ss b u k Hb|m ss b o k r Hb _];
    cbn [sy_manager] in *; [| | |done].
  - pose proof (si_fresh _ Hi a w Hw) as Hlt. cbn in Hlt. unfold Start in H.
    repeat (case_match; [done|]). case_match; [|done].
    unfold install in H. simplify_eq. cbn. split.
    + intros key [[_ ?]|[_ ?]]%lookup_insert_Some; [lia|by eapply Hstale].
    + rewrite lookup_insert_ne by lia. case_match; [|done].
      rewrite lookup_alter_ne; [done|]. intros ->. by eapply Hstale.
  - unfold Stop, find_watch. destruct (m_watches m !! _) as [b|] eqn:Eb; [|done]. cbn.
    destruct (m_heap m !! b) as [w'|] eqn:Ew; [|done]. cbn. split; [done|].
    rewrite lookup_insert_ne; [done|]. intros ->. by eapply Hstale.
  - destruct (si_session _ Hi b _ Hb) as (w' & Hw' & Hc). cbn [sy_manager] in Hw'.
    apply calls_only_after in Hc as [Hu _].
    destruct (record_form Error m u _ _ _ w' Hu Hw') as (g & -> & _). unfold on_current.
    case_bool_decide as E; [|done]. cbn. split; [done|]. rewrite lookup_alter_ne; [done|].
    intros ->. by eapply Hstale.
Qed.

Lemma stale_steps Error pool y y' a w :
  rtc (sys_step Error pool) y y' → sys_inv y →
  (∀ key, m_watches (sy_manager y) !! key ≠ Some a) → m_heap (sy_manager y) !! a = Some w →
  sys_inv y' ∧ (∀ key, m_watches (sy_manager y') !! key ≠ Some a) ∧
  m_heap (sy_manager y') !! a = Some w.
Proof.
  induction 1 as [|y1 y2 y3 Hs _ IH]; [done|]. intros Hi Hst Hw.
  destruct (stale_step _ _ _ _ _ _ Hi Hs Hst Hw). apply IH; [by eapply inv_sys_step|done..].
Qed.

(** ** Theorems *)

(** C8: Whatever the order in which the handlers and the goroutines of an
    agent run, at most one watch per volume is live (not cancelled), and
    every status that can be read is consistent: it has one entry per
    target, in the order of the targets; the required confirmations lie
    between 0 and the number of targets; and the totals of delivered
    batches, delivered events and failures are the sums over the targets,
    as 64-bit integers. *)
Theorem watch_manager_invariant Error pool y :
  sys_reachable Error pool y →
  (∀ a w a' w',
     m_heap (sy_manager y) !! a = Some w → m_heap (sy_manager y) !! a' = Some w' →
     mw_cancelled w = false → mw_cancelled w' = false →
     status_key (mw_status w) = status_key (mw_status w') → a = a') ∧
  (∀ namespace volume s, Status (sy_manager y) namespace volume = Some s → status_ok s).
Proof.
  intros [Hf Hm Hl Hs Hss]%sys_invariant. split.
  - intros a w a' w' Ha Ha' Hc Hc' E. pose proof (Hl a w Ha Hc). pose proof (Hl a' w' Ha' Hc'). congruence.
  - intros ns vol s H. unfold Status, find_watch in H. destruct (m_watches _ !! _) as [a|]; [|done].
    cbn in H. destruct (m_heap _ !! a) as [w|] eqn:E; [|done]. cbn in H. simplify_eq. by eapply Hs.
Qed.

(** C21: A replaced watch is out of the way: once a volume's watch has been
    replaced by a new [Start], the old one is cancelled, and nothing that
    happens later, its own late deliveries and its end included, changes
    its status again or, through it, the status of its successor. *)
Theorem replaced_watch_frozen Error pool m ss now req m' status s rounds a w y' :
  sys_reachable Error pool (mkSystem m ss) →
  Start pool m now req = (m', Ok (status, s)) →
  m_watches m !! ss_key s = Some a → m_heap m !! a = Some w →
  rtc (sys_step Error pool) (mkSystem m' (<[ss_watch s := run s rounds]> ss)) y' →
  m_heap (sy_manager y') !! a = Some (cancel_watch w) ∧
  ∀ u k, sy_sessions y' !! a = Some (Vis (S:=agent_sig) (Manager u) k) →
    record Error (sy_manager y') u = sy_manager y'.
Proof.
  intros Hr HS Ha Hw Hy. pose proof (sys_invariant _ _ _ Hr) as Hi.
  pose proof (inv_start pool m ss now req m' status s rounds Hi HS) as Hi'.
  assert ((∀ key, m_watches m' !! key ≠ Some a) ∧ m_heap m' !! a = Some (cancel_watch w)) as [Hst Hc].
  { pose proof (si_fresh _ Hi a w Hw) as Hlt. cbn in Hlt. unfold Start in HS.
    repeat (case_match; [done|]). case_match; [|done].
    unfold install in HS. simplify_eq. cbn in *. split.
    - intros key [[_ ?]|[Hk Hk']]%lookup_insert_Some; [lia|].
      destruct (si_map _ Hi _ _ Ha) as (w1 & E1 & E2), (si_map _ Hi _ _ Hk') as (w2 & E3 & E4).
      cbn in *. congruence.
    - rewrite lookup_insert_ne by lia. rewrite Ha, lookup_alter_eq, Hw. done. }
  destruct (stale_steps _ _ _ _ a (cancel_watch w) Hy Hi' Hst Hc) as (Hiy & Hsty & Hwy).
  split; [done|]. intros u k Hk. destruct (si_session _ Hiy a _ Hk) as (w' & Hw' & Hu).
  apply calls_only_after in Hu as [Hu _].
  destruct (record_form Error _ u _ _ _ w' Hu Hw') as (g & -> & _). unfold on_current.
  by rewrite bool_decide_eq_false_2.
Qed.

(** ** The outcome of a batch *)

(** Reading a trace: the batches posted, with their answers, and the
    updates recorded. *)
Record post : Type := mkPost {
  po_url : string;
  po_token : string;
  po_batch : EventBatch;
  po_answer : post_answer;
}.

Definition post_of (e : event agent_sig) : option post :=
  match e with
  | Ev o r => match o return agent_ans o → option post with
              | HttpPost url token batch => λ a, Some (mkPost url token batch a)
              | _ => λ _, None
              end r
  end.
Definition posts (tr : list (event agent_sig)) : list post := omap post_of tr.

Definition update_of (e : event agent_sig) : option manager_update :=
  match ev_op (S:=agent_sig) e with Manager u => Some u | _ => None end.
Definition updates (tr : list (event agent_sig)) : list manager_update := omap update_of tr.

(** What an answer to the post of a batch means. *)
Definition post_error (t : TargetRef) (a : post_answer) : option error :=
  match a with
  | PostInvalid e | PostFailed e => Some e
  | PostStatus code status body =>
      if (200 <=? code)%Z && (code <? 300)%Z then None
      else Some (Errorf "target %s returned %s: %s" [tgt_URL t; status; TrimSpace body])
  end.

Definition takers (outcomes : list (TargetRef * post_answer)) : list TargetRef :=
  omap (λ p, match post_error (fst p) (snd p) with None => Some (fst p) | Some _ => None end) outcomes.

Definition failures (s : session) (outcomes : list (TargetRef * post_answer)) : list manager_update :=
  omap (λ p, match post_error (fst p) (snd p) with
             | None => None
             | Some e => Some (DeliveryError (ss_key s) (ss_watch s) (fst p) e)
             end) outcomes.

Definition post_for (batch : EventBatch) (p : TargetRef * post_answer) : post :=
  mkPost (TrimRight is_slash (tgt_URL (fst p)) +:+ "/replication/sync-batch") (tgt_Token (fst p))
    batch (snd p).

Definition success (s : session) (batch : EventBatch) (t : TargetRef) (now : Z) : manager_update :=
  DeliverySuccess (ss_key s) (ss_watch s) t batch now.

Lemma posts_app t1 t2 : posts (t1 ++ t2) = posts t1 ++ posts t2.
Proof. apply omap_app. Qed.

Lemma updates_app t1 t2 : updates (t1 ++ t2) = updates t1 ++ updates t2.
Proof. apply omap_app. Qed.

Lemma SendBatch_spec t batch tr r :
  TrimSpace (tgt_URL t) ≠ "" → exec (SendBatch t batch) tr r →
  ∃ a, posts tr = [post_for batch (t, a)] ∧ updates tr = [] ∧
    r = match post_error t a with None => Ok tt | Some e => Err e end.
Proof.
  intros Hu H. unfold SendBatch in H. rewrite (proj2 (is_empty_false _) Hu) in H.
  exec_step H. exec_step H0. exists a.
  destruct a as [e|e|code status body]; [exec_step H; by split..|]. cbn [post_error].
  assert ((200 <=? code)%Z && (code <? 300)%Z = negb ((code <? 200)%Z || (300 <=? code)%Z)) as -> by lia.
  destruct (_ || _); exec_step H; by split.
Qed.

Lemma send_all_spec s batch targets : ∀ l tr l',
  (∀ t, t ∈ targets → TrimSpace (tgt_URL t) ≠ "") →
  exec (fold_prog targets (send_to s batch) l) tr l' →
  ∃ outcomes, map fst outcomes = targets ∧ posts tr = map (post_for batch) outcomes ∧
    updates tr = failures s outcomes ∧ l' = l ++ takers outcomes.
Proof.
  induction targets as [|t targets IH]; intros l tr l' Hu H; cbn [fold_prog] in H.
  { exec_step H. exists []. by rewrite app_nil_r. }
  exec_step H. apply IH in H as (outcomes & Ef & Ep & Eu & ->); [|intros x Hx; apply Hu; by right].
  unfold send_to in H0. exec_step H0.
  apply SendBatch_spec in H1 as (ans & Ep1 & Eu1 & E1); [|apply Hu; left].
  exists ((t, ans) :: outcomes). cbn [map fst]. split; [by f_equal|].
  rewrite !posts_app, !updates_app, Ep, Eu, Ep1, Eu1. unfold failures, takers. cbn [omap list_omap fst snd].
  destruct (post_error t ans) as [e|]; subst; exec_inv; (split; [done|]); (split; [done|]).
  - done.
  - by rewrite <-app_assoc.
Qed.

Lemma confirm_all_spec s batch l : ∀ tr,
  exec (fold_prog l (confirm s batch) tt) tr tt →
  posts tr = [] ∧ ∃ times, length times = length l ∧ updates tr = zip_with (success s batch) l times.
Proof.
  induction l as [|t l IH]; intros tr H; cbn [fold_prog] in H.
  { exec_step H. split; [done|]. by exists []. }
  exec_step H. destruct a. apply IH in H as (Ep & times & El & Eu).
  unfold confirm in H0. exec_inv. rewrite posts_app, updates_app, Ep, Eu. split; [done|].
  exists (a :: times). cbn [length zip_with]. split; [by rewrite El|done].
Qed.

Lemma local_silent tr :
  Forall (λ e, local_op (ev_op (S:=agent_sig) e)) tr → posts tr = [] ∧ updates tr = [].
Proof.
  induction 1 as [|[o r] tr Ho _ [Ep Eu]]; [done|].
  change (Ev o r :: tr) with ([Ev (S:=agent_sig) o r] ++ tr).
  rewrite posts_app, updates_app, Ep, Eu. by destruct o.
Qed.

Lemma deliver_batch_spec s batch tr r :
  (∀ t, t ∈ ss_targets s → TrimSpace (tgt_URL t) ≠ "") → exec (deliver_batch s batch) tr r →
  r = Ok tt ∧ ∃ outcomes, map fst outcomes = ss_targets s ∧ posts tr = map (post_for batch) outcomes ∧
  let required := confirmationThreshold (ss_confirmed s) (Z.of_nat (length (ss_targets s))) in
  let got := Z.of_nat (length (takers outcomes)) in
  if (got <? required)%Z then
    updates tr = failures s outcomes ++ [UnconfirmedDelivery (ss_key s) (ss_watch s) batch got required]
  else ∃ times, length times = length (takers outcomes) ∧
    updates tr = failures s outcomes ++ zip_with (success s batch) (takers outcomes) times.
Proof.
  intros Hu H. unfold deliver_batch in H. exec_step H.
  apply send_all_spec in H0 as (outcomes & Ef & Ep & Eu & ->); [|done]. cbn [app] in H.
  destruct (_ <? _)%Z eqn:E.
  - exec_inv. split; [done|]. exists outcomes. cbv zeta. rewrite E, posts_app, updates_app, Ep, Eu.
    split; [done|]. split; [by rewrite app_nil_r|done].
  - exec_step H. exec_step H. destruct a. rewrite app_nil_r.
    apply confirm_all_spec in H0 as (Ep1 & times & El & Eu1).
    split; [done|]. exists outcomes. cbv zeta. rewrite E, posts_app, updates_app, Ep, Eu, Ep1, Eu1.
    split; [done|]. split; [by rewrite app_nil_r|]. eauto.
Qed.

(** C7: A generation counts as delivered only when enough replicas have
    it.  For every batch the sink gets, whatever the targets answer: in
    shadow mode nothing is sent unless the shadow took the batch, and then
    the batch of the shadow is sent; the batch is posted once to every
    target, in order; every failure is recorded; if fewer targets took it
    than required the sink records that and no success, otherwise it
    records a success for exactly the targets that took it.  The sink
    returns an error only when the shadow failed. *)
Theorem batch_confirmed s batch tr r :
  (∀ t, t ∈ ss_targets s → TrimSpace (tgt_URL t) ≠ "") → exec (sink s batch) tr r →
  (∃ e, ss_mode s = ConsistencyModeShadow ∧ r = Err e ∧ posts tr = [] ∧ updates tr = []) ∨
  ∃ b outcomes,
    (if String.eqb (ss_mode s) ConsistencyModeShadow
     then ∃ tr1 tr2, tr = tr1 ++ tr2 ∧ exec (ApplyShadowEventBatch (wc_Pool (ss_cfg s)) (with_source s batch)
                                         (wc_filter (ss_cfg s))) tr1 (Ok b)
     else b = with_source s batch) ∧
    r = Ok tt ∧ map fst outcomes = ss_targets s ∧ posts tr = map (post_for b) outcomes ∧
    let required := confirmationThreshold (ss_confirmed s) (Z.of_nat (length (ss_targets s))) in
    let got := Z.of_nat (length (takers outcomes)) in
    if (got <? required)%Z then
      updates tr = failures s outcomes ++ [UnconfirmedDelivery (ss_key s) (ss_watch s) b got required]
    else ∃ times, length times = length (takers outcomes) ∧
      updates tr = failures s outcomes ++ zip_with (success s b) (takers outcomes) times.
Proof.
  intros Hu H. unfold sink in H. destruct (String.eqb_spec (ss_mode s) ConsistencyModeShadow) as [Em|_].
  - apply exec_try in H as [(b & tr1 & tr2 & -> & H1 & H)|(e & H & ->)].
    + right. apply deliver_batch_spec in H as (-> & outcomes & Ef & Ep & Eu); [|done].
      exists b, outcomes. destruct (local_silent tr1) as [E1 E2].
      { by apply (only_shadow local_op (λ _ H, H) _ _ _ _ _ H1). }
      rewrite posts_app, updates_app, E1, E2. split_and!; [by exists tr1, tr2|done..].
    + left. exists e. split; [done|]. split; [done|]. apply local_silent.
      by apply (only_shadow local_op (λ _ H, H) _ _ _ _ _ H).
  - right. apply deliver_batch_spec in H as (-> & outcomes & Ef & Ep & Eu); [|done].
    by exists (with_source s batch), outcomes.
Qed.

Lemma first_empty_url_none targets i :
  first_empty_url i targets = None → ∀ t, t ∈ targets → TrimSpace (tgt_URL t) ≠ "".
Proof.
  revert i. induction targets as [|x l IH]; intros i H t Ht; [by apply elem_of_nil in Ht|].
  cbn in H. destruct (is_empty (TrimSpace (tgt_URL x))) eqn:E; [done|].
  apply elem_of_cons in Ht as [->|Ht]; [by apply is_empty_false|by eapply IH].
Qed.

(** [Start] in every reachable state: a request it refuses changes
    nothing; otherwise every target has an address, the volume's status is
    from then on the one returned, running and with nothing delivered, the
    statuses of all other volumes stay as they were, and the goroutine
    watches the requested volume for the requested targets. *)
Theorem watch_start_spec Error pool m ss now req :
  sys_reachable Error pool (mkSystem m ss) →
  match Start pool m now req with
  | (m', Err _) => m' = m
  | (m', Ok (status, s)) =>
      Status m' (ws_Namespace req) (ws_Volume req) = Some status ∧
      wst_Running status = true ∧ wst_DeliveredBatchCount status = 0%Z ∧
      (∀ ns volume, watchKey ns volume ≠ watchKey (ws_Namespace req) (ws_Volume req) →
         Status m' ns volume = Status m ns volume) ∧
      ss_targets s = ws_Targets req ∧ (∀ t, t ∈ ss_targets s → TrimSpace (tgt_URL t) ≠ "") ∧
      wc_Namespace (ss_cfg s) = ws_Namespace req ∧ wc_Volume (ss_cfg s) = ws_Volume req
  end.
Proof.
  intros Hi%sys_invariant. unfold Start.
  destruct (is_empty (ws_Volume req)); [done|]. destruct (is_empty (src_WebDAVURL _)); [done|].
  destruct (Nat.eqb _ 0); [done|]. destruct (first_empty_url 0 (ws_Targets req)) eqn:Eu; [done|].
  destruct (parseOptionalDuration _ _); [|done]. unfold install. cbn [ss_targets ss_cfg wc_Namespace wc_Volume].
  split_and!; [|done|done| |done| |done|done].
  - unfold Status, find_watch. cbn. rewrite lookup_insert_eq. cbn. rewrite lookup_insert_eq. done.
  - intros ns volume Hne. unfold Status, find_watch. cbn. rewrite lookup_insert_ne by done.
    destruct (m_watches m !! watchKey ns volume) as [b|] eqn:Eb; [|done]. cbn.
    destruct (si_map _ Hi _ _ Eb) as (w & Hw & _). cbn in Hw. pose proof (si_fresh _ Hi _ _ Hw) as Hlt. cbn in Hlt.
    rewrite lookup_insert_ne by lia. destruct (m_watches m !! watchKey (ws_Namespace req) _) as [old|]; [|done].
    destruct (decide (old = b)) as [->|]; [by rewrite lookup_alter_eq, Hw|by rewrite lookup_alter_ne].
  - by eapply first_empty_url_none.
Qed.

(** ** Examples *)
Definition ex_targets : list TargetRef := [mkTargetRef "http://b:8080/" "t"; mkTargetRef "http://c:8080" "t"].
Definition ex_start : WatchStartRequest :=
  mkWatchStartRequest "games" "world" (mkSourceRef "http://a:8081" "" "") ex_targets [] []
    empty_ownership "2s" "live" (Some 2%Z).
Definition ex_pool : Pool := mkPool "local" "/pool".
Definition ex_error (e : error) : string := "failed".

(** The state after [n] starts of the example. *)
Definition ex_started (m : manager) (now : Z) : manager := fst (Start ex_pool m now ex_start).
Definition ex_session (m : manager) (now : Z) : session :=
  match snd (Start ex_pool m now ex_start) with
  | Ok (_, s) => s
  | Err _ => mkSession "" 0 (mkWatchConfig ex_pool "" "" [] [] 0 0) (mkSourceRef "" "" "") []
               empty_ownership "" 0
  end.
Definition ex_m1 : manager := ex_started NewWatchManager 5.
Definition ex_sessions1 : gmap nat (prog agent_sig unit) :=
  <[0 := run (ex_session NewWatchManager 5) 1]> ∅.

Lemma ex_reachable : sys_reachable ex_error ex_pool (mkSystem ex_m1 ex_sessions1).
Proof.
  apply rtc_once. apply (sys_start _ _ NewWatchManager ∅ 5 ex_start ex_m1
    (started_status ex_start 5) (ex_session NewWatchManager 5) 1). vm_compute. reflexivity.
Qed.

Lemma watch_manager_invariant_witness :
  status_ok (stop_status (started_status ex_start 5) 9).
Proof.
  destruct (watch_manager_invariant ex_error ex_pool
    (mkSystem (fst (Stop ex_m1 9 "games" "world")) ex_sessions1)) as [_ H].
  - eapply rtc_r; [apply ex_reachable|]. apply sys_stop.
  - apply (H "games" "world"). vm_compute. reflexivity.
Defined.

Lemma replaced_watch_frozen_witness :
  m_heap (ex_started ex_m1 7) !! 0 = Some (mkManagedWatch true (started_status ex_start 5)).
Proof.
  destruct (replaced_watch_frozen ex_error ex_pool ex_m1 ex_sessions1 7 ex_start (ex_started ex_m1 7)
    (started_status ex_start 7) (ex_session ex_m1 7) 1 0 (mkManagedWatch false (started_status ex_start 5))
    (mkSystem (ex_started ex_m1 7) (<[1 := run (ex_session ex_m1 7) 1]> ex_sessions1))) as [H _].
  - apply ex_reachable.
  - vm_compute. reflexivity.
  - vm_compute. reflexivity.
  - vm_compute. reflexivity.
  - apply rtc_refl.
  - exact H.
Defined.

Lemma watch_start_spec_witness :
  Status (ex_started ex_m1 7) "games" "world" = Some (started_status ex_start 7).
Proof.
  pose proof (watch_start_spec ex_error ex_pool ex_m1 ex_sessions1 7 ex_start ex_reachable) as H.
  exact (proj1 H).
Defined.

(** The first target takes the batch, the second answers with an error. *)
Definition ex_answer (o : op agent_sig) (n : nat) : ans agent_sig o * nat :=
  match o return agent_ans o * nat with
  | HttpPost _ _ _ => (match n with 0 => PostStatus 200 "200 OK" "" | _ => PostStatus 500 "500" "no space" end, S n)
  | o => (Handlers.some_answer o, n)
  end.

Definition ex_batch : EventBatch :=
  mkEventBatch "games" "world" "g1" (mkSourceRef "" "" "") "" empty_ownership false
    [mkFileEvent "a.txt" EventOpUpsert].

Lemma batch_confirmed_witness :
  let s := ex_session NewWatchManager 5 in
  let tr := snd (Effects.run ex_answer (sink s ex_batch) 0) in
  updates tr =
    [DeliveryError "games/world" 0 (mkTargetRef "http://c:8080" "t")
       (Errorf "target %s returned %s: %s" ["http://c:8080"; "500"; "no space"]);
     UnconfirmedDelivery "games/world" 0 (with_source s ex_batch) 1 2].
Proof.
  intros s tr. destruct (batch_confirmed s ex_batch tr (Ok tt)) as [(e & Hm & _)|(b & outcomes & Hb & _ & Ef & Ep & Hu)].
  - intros t Ht. repeat (apply elem_of_cons in Ht as [->|Ht]); [vm_compute; discriminate..|].
    by apply elem_of_nil in Ht.
  - apply (run_self ex_answer (sink s ex_batch) 0).
  - discriminate Hm.
  - assert (map snd outcomes = [PostStatus 200 "200 OK" ""; PostStatus 500 "500" "no space"]) as Es.
    { apply (f_equal (map po_answer)) in Ep. rewrite map_map in Ep. cbn [post_for po_answer] in Ep.
      transitivity (map po_answer (posts tr)); [symmetry; exact Ep|vm_compute; reflexivity]. }
    destruct outcomes as [|[t1 a1] [|[t2 a2] [|]]]; try discriminate.
    vm_compute in Ef, Es. injection Ef as -> ->. injection Es as -> ->.
    change (b = with_source s ex_batch) in Hb. subst b. exact Hu.
Defined.

End WatchManager.
