(* ===== verification/Csi.v ===== *)
(** * The CSI driver: [internal/csi/server.go] and [internal/csi/node.go]

    The driver creates volumes in name only and bind-mounts the directory
    of a volume in the storage pool of the node.  An RPC either succeeds or
    fails with a gRPC code; requests carry the fields the code reads, a
    missing message is a missing field. *)
From S2P Require Import Prelude GoStrings GoPath Effects Api AgentTypes AgentEnv AgentMem.
From S2P Require Import Agent Filter Ownership Apply ApplyProps Replica.

Module Csi.
Import Str Path Api Agent Filter Ownership Apply ApplyProps Replica.

(** ** RPCs *)
Inductive code : Type := InvalidArgument | FailedPrecondition | PermissionDenied | Internal.

Inductive rpc (A : Type) : Type :=
| RpcOk (a : A)
| RpcErr (c : code) (e : error).
Arguments RpcOk {A} a.
Arguments RpcErr {A} c e.

Definition volumeContextStoragePool : string := "storagePool".
Definition volumeContextPVCNamespace : string := "simple-volume.shipstuff.io/pvc-namespace".
Definition volumeContextPVCName : string := "simple-volume.shipstuff.io/pvc-name".
Definition provisionerPVCNamespace : string := "csi.storage.k8s.io/pvc/namespace".
Definition provisionerPVCName : string := "csi.storage.k8s.io/pvc/name".

Record ServerConfig : Type := mkServerConfig {
  sc_Endpoint : string;
  sc_NodeName : string;
  sc_PoolName : string;
  sc_PoolPath : string;
  sc_ValidatePool : bool;
  sc_AllowNonEmptyPool : bool;
}.

Record Server : Type := mkServer {
  nodeName : string;
  poolName : string;
  poolPath : string;
}.

Definition server_pool (s : Server) : Pool := mkPool (poolName s) (poolPath s).

Definition defaultString (value fallback : string) : string :=
  if negb (is_empty value) then value else fallback.

Definition parseEndpoint (endpoint : string) : result (string * string) :=
  if is_empty endpoint then Err (Errorf "endpoint is required" [])
  else if HasPrefix endpoint "unix://" then Ok ("unix", TrimPrefix endpoint "unix://")
  else if HasPrefix endpoint "tcp://" then Ok ("tcp", TrimPrefix endpoint "tcp://")
  else Err (Errorf "unsupported endpoint %q" [endpoint]).

(** [RunServer] up to [net.Listen]: the server and the address to serve
    on. *)
Definition RunServer (cfg : ServerConfig) : prog agent_sig (result (Server * (string * string))) :=
  let impl := mkServer (sc_NodeName cfg) (defaultString (sc_PoolName cfg) "default")
                (defaultString (sc_PoolPath cfg) "/var/lib/simple-volume") in
  _ <-! (if sc_ValidatePool cfg then EnsurePool (server_pool impl) (sc_AllowNonEmptyPool cfg)
         else Ret (Ok tt)) ;;
  match parseEndpoint (sc_Endpoint cfg) with
  | Err e => Ret (Err e)
  | Ok (network, address) =>
      _ <-! (if String.eqb network "unix" then
               os_call (OsRemove address) ;;;
               os_call (OsMkdirAll (Dir address) 493)
             else Ret (Ok tt)) ;;
      Ret (Ok (impl, (network, address)))
  end.


Record CreateVolumeRequest : Type := mkCreateVolumeRequest {
  cv_Name : string;
  cv_RequiredBytes : option Z;
  cv_Parameters : gmap string string;
}.

Record Volume : Type := mkVolume {
  vol_VolumeId : string;
  vol_CapacityBytes : Z;
  vol_VolumeContext : gmap string string;
}.

(** [m[key]] of a missing key is the empty string. *)
Definition get (m : gmap string string) (key : string) : string := default "" (m !! key).

Definition Server_CreateVolume (s : Server) (req : CreateVolumeRequest) : rpc Volume :=
  if is_empty (cv_Name req) then RpcErr InvalidArgument (Errorf "name is required" [])
  else
    let pvcNamespace := TrimSpace (get (cv_Parameters req) provisionerPVCNamespace) in
    let pvcName := TrimSpace (get (cv_Parameters req) provisionerPVCName) in
    if is_empty pvcNamespace || is_empty pvcName then
      RpcErr FailedPrecondition
        (Errorf "PVC metadata is required; configure external-provisioner with --extra-create-metadata" [])
    else
      RpcOk (mkVolume (cv_Name req) (default 0%Z (cv_RequiredBytes req))
        (<[volumeContextStoragePool := poolName s]>
         (<[volumeContextPVCName := pvcName]>
          (<[volumeContextPVCNamespace := pvcNamespace]> ∅)))).


(** The outcome of [Publish]; [ErrNodeNotAuthorized] is compared by
    identity, so it is a case of its own. *)
Inductive published : Type :=
| Published
| NodeNotAuthorized
| PublishErr (e : error).

Definition ErrNodeNotAuthorized : error := Errorf "node is not authorized to mount volume" [].
Definition ErrInvalidMountPath : error := Errorf "invalid mount path" [].

(** [StaticAuthorizer]: per volume and node the path to mount. *)
Definition StaticAuthorizer : Type := gmap string (gmap string string).

Definition Allowed (a : StaticAuthorizer) (volumeHandle node : string) : option string :=
  nodes ← a !! volumeHandle; nodes !! node.

Record NodePublisher : Type := mkNodePublisher {
  np_NodeName : string;
  np_Authorize : string → string → option string;
  np_BindMount : option (string → string → prog agent_sig (result unit));
  np_MakeTarget : option (string → prog agent_sig (result unit));
}.

Record PublishRequest : Type := mkPublishRequest {
  pr_VolumeHandle : string;
  pr_TargetPath : string;
  pr_ReadOnly : bool;
}.

Definition Publish (p : NodePublisher) (req : PublishRequest) : prog agent_sig published :=
  if is_empty (pr_VolumeHandle req) then Ret (PublishErr (Errorf "volume handle is required" []))
  else
    let target := Clean (pr_TargetPath req) in
    if String.eqb target "." || String.eqb target "/" || is_empty target
    then Ret (PublishErr ErrInvalidMountPath)
    else
      match np_Authorize p (pr_VolumeHandle req) (np_NodeName p) with
      | None => Ret NodeNotAuthorized
      | Some source =>
          made <- match np_MakeTarget p with
                  | Some make => make target
                  | None => os_call (OsMkdirAll target 493)
                  end ;;
          match made with
          | Err e => Ret (PublishErr e)
          | Ok _ =>
              match np_BindMount p with
              | None => Ret Published
              | Some mount =>
                  mounted <- mount source target ;;
                  Ret (match mounted with Ok _ => Published | Err e => PublishErr e end)
              end
          end
      end.

Definition bindMount (source target : string) : prog agent_sig (result unit) :=
  _ <-! os_call (OsMkdirAll source 493) ;;
  _ <-! os_call (OsMkdirAll target 493) ;;
  os_call (BindMount source target).

(** The callback of [applyVolumeMountGroup]. *)
Definition group_entry (gid : Z) (d : walk_entry) : prog agent_sig (result unit) :=
  match we_Err d with
  | Some e => Ret (Err e)
  | None =>
      match we_Info d with
      | Err e => Ret (Err e)
      | Ok info =>
          if info_IsSymlink info then Ret (Ok tt)
          else
            _ <-! os_call (OsChown (we_Path d) (-1) gid) ;;
            if info_IsDir info then os_call (OsChmod (we_Path d) (Z.lor (Perm (fi_Mode info)) 504))
            else os_call (OsChmod (we_Path d) (Z.lor (Perm (fi_Mode info)) 432))
      end
  end.

Definition applyVolumeMountGroup (path group : string) : prog agent_sig (result unit) :=
  match ParseInt64 group with
  | None => Ret (Err (Wrapf "invalid volume mount group %q: %w" [group]
                          (Errorf "strconv.ParseInt: parsing %q" [group])))
  | Some gid =>
      entries <- os_call (OsWalkDir path) ;;
      try_each entries (group_entry gid)
  end.

Definition volumePath (s : Server) (volumeID : string) (volumeContext : gmap string string)
  : prog agent_sig (result string) :=
  let namespace := TrimSpace (get volumeContext volumeContextPVCNamespace) in
  if is_empty namespace then
    Ret (Err (Errorf "PVC namespace volume context is required for volume %s" [volumeID]))
  else EnsureVolumePath (mkVolumePath (server_pool s) namespace volumeID "") 493.

Record NodePublishVolumeRequest : Type := mkNodePublishVolumeRequest {
  nv_VolumeId : string;
  nv_TargetPath : string;
  nv_VolumeContext : gmap string string;
  nv_VolumeMountGroup : string;
  nv_Readonly : bool;
}.

(** The publisher a server makes for a volume: it authorizes this node. *)
Definition server_publisher (s : Server) (volumeID source : string) : NodePublisher :=
  mkNodePublisher (nodeName s) (Allowed {[ volumeID := {[ nodeName s := source ]} ]})
    (Some bindMount) None.

(** [source] is the directory of the volume. *)
Definition publish_source (s : Server) (req : NodePublishVolumeRequest) (source : string)
  : prog agent_sig (rpc unit) :=
  grouped <- (if is_empty (nv_VolumeMountGroup req) then Ret (Ok tt)
              else applyVolumeMountGroup source (nv_VolumeMountGroup req)) ;;
  match grouped with
  | Err e => Ret (RpcErr Internal e)
  | Ok _ =>
      published <- Publish (server_publisher s (nv_VolumeId req) source)
                     (mkPublishRequest (nv_VolumeId req) (nv_TargetPath req) (nv_Readonly req)) ;;
      match published with
      | NodeNotAuthorized => Ret (RpcErr PermissionDenied ErrNodeNotAuthorized)
      | PublishErr e => Ret (RpcErr Internal e)
      | Published => Ret (RpcOk tt)
      end
  end.

Definition NodePublishVolume (s : Server) (req : NodePublishVolumeRequest)
  : prog agent_sig (rpc unit) :=
  if is_empty (nv_VolumeId req) then
    Ret (RpcErr InvalidArgument (Errorf "volume id is required" []))
  else if is_empty (nv_TargetPath req) then
    Ret (RpcErr InvalidArgument (Errorf "target path is required" []))
  else
    source <- volumePath s (nv_VolumeId req) (nv_VolumeContext req) ;;
    match source with
    | Err e => Ret (RpcErr Internal e)
    | Ok source => publish_source s req source
    end.


















(** ** Lemmas *)

(** The bits of [g] are set after [| g]. *)
Lemma lor_includes m g : Z.land (Z.lor m g) g = g.
Proof.
  apply Z.bits_inj. intros i. rewrite Z.land_spec, Z.lor_spec.
  by destruct (Z.testbit m i), (Z.testbit g i).
Qed.

Lemma lor_keeps m g : Z.land (Z.lor m g) m = m.
Proof.
  apply Z.bits_inj. intros i. rewrite Z.land_spec, Z.lor_spec.
  by destruct (Z.testbit m i), (Z.testbit g i).
Qed.

(** A program that changes nothing outside [root] and mounts nothing. *)
Definition mountless (root : string) (tr : list (event agent_sig)) : Prop :=
  Forall (λ p, inside root p = true) (mutated tr) ∧ ∀ s t, BindMount s t ∉ ops tr.

Lemma mountless_app root t1 t2 : mountless root t1 → mountless root t2 → mountless root (t1 ++ t2).
Proof.
  intros [H1 H2] [H3 H4]. split; [rewrite mutated_app; by apply Forall_app|].
  intros s t. rewrite ops_app, elem_of_app. intros [?|?]; [by eapply H2|by eapply H4].
Qed.

Lemma group_entry_mountless root gid d tr r :
  exec (group_entry gid d) tr r → inside root (we_Path d) = true → mountless root tr.
Proof.
  intros H Hin. unfold group_entry in H. unfold mountless.
  repeat (case_match; exec_inv); cbn;
    (split; [by repeat constructor|]); intros s t Hs; cbn in Hs; op_cases.
Qed.

Lemma group_mountless root group tr r :
  exec (applyVolumeMountGroup root group) tr r → walks_below tr → mountless root tr.
Proof.
  intros H Hw. unfold applyVolumeMountGroup in H.
  destruct (ParseInt64 group) as [gid|]; [|exec_step H; split; [constructor|by intros s t ?%elem_of_nil]].
  exec_step H. exec_step H0. apply mountless_app.
  - split; [constructor|]. intros s t Hs. cbn in Hs. op_cases.
  - specialize (Hw root a (did_here _ _ _)). rewrite Forall_forall in Hw.
    eapply (exec_try_each_ind (mountless root)); [| | |exact H].
    + split; [constructor|by intros s t ?%elem_of_nil].
    + apply mountless_app.
    + intros d t r' Hd Hex. eapply group_entry_mountless; [done|by apply Hw].
Qed.

(** The authorizer of a server always allows its own node. *)
Lemma server_allows s id source :
  np_Authorize (server_publisher s id source) id (nodeName s) = Some source.
Proof.
  unfold server_publisher, Allowed, StaticAuthorizer. cbn [np_Authorize].
  rewrite (lookup_singleton_eq (M:=gmap string) id). cbn. apply lookup_singleton_eq.
Qed.

Definition mount_ok (e : event agent_sig) : bool :=
  match e with Ev (BindMount _ _) (Ok _) => true | _ => false end.

Lemma did_mount a b tr : did (BindMount a b) (Ok tt) tr → existsb mount_ok tr = true.
Proof. intros H. apply existsb_exists. eexists. split; [by apply list_elem_of_In|done]. Qed.

Lemma bindMount_spec source target tr r :
  exec (bindMount source target) tr r →
  (∀ p, p ∈ mutated tr → p = source ∨ p = target) ∧
  (∀ a b, BindMount a b ∈ ops tr → a = source ∧ b = target) ∧
  (r = Ok tt ↔ did (BindMount source target) (Ok tt) tr).
Proof.
  intros H. unfold bindMount in H. exec_step H; [exec_step H0; exec_step H; [exec_step H0|]|].
  - exec_step H. split_and!; [intros; cbn in *; op_cases; auto..|]. destruct r as [[]|]; [|by split; [|intros ?%did_mount]].
    split; [|done]. intros _. apply did_later, did_later, did_here.
  - exec_step H. split_and!; [intros; cbn in *; op_cases; auto..|]. by split; [|intros ?%did_mount].
  - exec_step H. split_and!; [intros; cbn in *; op_cases; auto..|]. by split; [|intros ?%did_mount].
Qed.

(** A mount target the publisher accepts. *)
Definition mountable (target : string) : Prop := target ≠ "." ∧ target ≠ "/" ∧ target ≠ "".

Lemma publish_spec s id source target ro tr r :
  exec (Publish (server_publisher s id source) (mkPublishRequest id target ro)) tr r →
  (∀ p, p ∈ mutated tr → p = source ∨ p = Clean target) ∧
  (∀ a b, BindMount a b ∈ ops tr → a = source ∧ b = Clean target ∧ mountable (Clean target)) ∧
  (r = Published ↔ did (BindMount source (Clean target)) (Ok tt) tr) ∧ r ≠ NodeNotAuthorized.
Proof.
  assert (∀ e, r = PublishErr e → tr = [] →
    (∀ p, p ∈ mutated tr → p = source ∨ p = Clean target) ∧
    (∀ a b, BindMount a b ∈ ops tr → a = source ∧ b = Clean target ∧ mountable (Clean target)) ∧
    (r = Published ↔ did (BindMount source (Clean target)) (Ok tt) tr) ∧ r ≠ NodeNotAuthorized) as Hnone.
  { intros e -> ->. unfold did. split_and!; [by intros p ?%elem_of_nil|by intros a b ?%elem_of_nil| |done].
    split; [done|by intros ?%elem_of_nil]. }
  intros H. unfold Publish in H. cbn [pr_VolumeHandle pr_TargetPath] in H.
  rewrite server_allows in H. cbn [server_publisher np_BindMount np_MakeTarget] in H.
  destruct (is_empty id); [exec_step H; by eapply Hnone|].
  destruct (_ || _) eqn:E; [exec_step H; by eapply Hnone|]. clear Hnone.
  apply orb_false_iff in E as [[E1%String.eqb_neq E2%String.eqb_neq]%orb_false_iff E3%is_empty_false].
  assert (mountable (Clean target)) as Hm by done.
  exec_step H. exec_step H0. destruct a as [[]|].
  2:{ exec_step H. split_and!; [intros; cbn in *; op_cases; auto..| |done].
      by split; [|intros ?%did_mount]. }
  exec_step H. exec_step H. rewrite app_nil_r. apply bindMount_spec in H0 as (H1 & H2 & H3).
  split_and!.
  - intros p Hp. rewrite mutated_app in Hp. apply elem_of_app in Hp as [Hp|Hp]; [|auto].
    cbn in Hp. op_cases; auto.
  - intros a' b Hab. rewrite ops_app in Hab. apply elem_of_app in Hab as [Hab|Hab]; [cbn in Hab; op_cases|].
    destruct (H2 _ _ Hab). auto.
  - rewrite did_app. destruct a as [[]|].
    + split; [|done]. intros _. right. by apply H3.
    + split; [done|]. intros [Hd%did_mount|Hd%H3]; done.
  - by destruct a.
Qed.

Definition publish_ns (req : NodePublishVolumeRequest) : string :=
  TrimSpace (get (nv_VolumeContext req) volumeContextPVCNamespace).

(** A run that changes only the directory of the volume and the target,
    and mounts at most the one on the other. *)
Record publishes (root target : string) (tr : list (event agent_sig)) (r : rpc unit) : Prop := {
  pb_mutates p : p ∈ mutated tr → inside root p = true ∨ p = target;
  pb_mounts a b : BindMount a b ∈ ops tr → a = root ∧ b = target ∧ mountable target;
  pb_ok : r = RpcOk tt ↔ did (BindMount root target) (Ok tt) tr;
}.

Lemma publishes_error root target tr c e :
  mountless root tr → publishes root target tr (RpcErr c e).
Proof.
  intros [H1 H2]. rewrite Forall_forall in H1. split.
  - auto.
  - intros a b H. by destruct (H2 a b).
  - split; [done|]. intros H. destruct (H2 root target).
    apply list_elem_of_In. eapply (in_map (ev_op (S:=agent_sig)) tr) with (x := Ev _ _).
    by apply list_elem_of_In.
Qed.

Lemma publishes_app root target t1 t2 r :
  mountless root t1 → publishes root target t2 r → publishes root target (t1 ++ t2) r.
Proof.
  intros [H1 H2] [P1 P2 P3]. rewrite Forall_forall in H1. split.
  - intros p. rewrite mutated_app, elem_of_app. intros [?|?]; auto.
  - intros a b. rewrite ops_app, elem_of_app. intros [?|?]; [by destruct (H2 a b)|auto].
  - rewrite P3, did_app. split; [auto|]. intros [H|]; [|done]. destruct (H2 root target).
    apply list_elem_of_In. eapply (in_map (ev_op (S:=agent_sig)) t1) with (x := Ev _ _).
    by apply list_elem_of_In.
Qed.

Lemma mountless_nil root : mountless root [].
Proof. split; [constructor|]. by intros s t ?%elem_of_nil. Qed.

Lemma publishes_volume s req tr r :
  usable (server_pool s) → exec (NodePublishVolume s req) tr r → walks_below tr →
  publishes (volume_root (server_pool s) (publish_ns req) (nv_VolumeId req)) (Clean (nv_TargetPath req)) tr r.
Proof.
  intros Hp H Hw. set (root := volume_root _ _ _). unfold NodePublishVolume in H.
  destruct (is_empty (nv_VolumeId req)); [exec_step H; apply publishes_error, mountless_nil|].
  destruct (is_empty (nv_TargetPath req)); [exec_step H; apply publishes_error, mountless_nil|].
  exec_step H. unfold volumePath in H0. fold (publish_ns req) in H0.
  destruct (is_empty (publish_ns req)).
  { exec_step H0. exec_step H. apply publishes_error, mountless_nil. }
  apply ensure_root in H0 as [[ans ->] Hr]; [|done]. fold root in Hr |- *.
  apply walks_below_app in Hw as [_ Hw]. apply publishes_app.
  { split; [|intros a' b Hab; cbn in Hab; op_cases]. constructor; [|constructor]. apply inside_refl. }
  destruct a as [p|e]; [|exec_step H; apply publishes_error, mountless_nil].
  rewrite (Hr p eq_refl) in H. clear Hr. unfold publish_source in H. exec_step H.
  apply walks_below_app in Hw as [Hw _].
  assert (mountless root tr) as Hg.
  { destruct (is_empty (nv_VolumeMountGroup req)); [exec_step H0; apply mountless_nil|].
    by eapply group_mountless. }
  destruct a as [[]|e]; [|exec_step H; rewrite app_nil_r; by apply publishes_error].
  apply publishes_app; [done|]. clear H0. exec_step H. apply publish_spec in H0 as (H1 & H2 & H3 & H4).
  assert (∀ p, p ∈ mutated tr1 → inside root p = true ∨ p = Clean (nv_TargetPath req)) as H1'.
  { intros q [->| ->]%H1; [left; apply inside_refl|by right]. }
  destruct a as [| |e]; [|by destruct H4|]; exec_step H; rewrite app_nil_r; split; try done.
  - by rewrite <-H3.
  - rewrite <-H3. by split.
Qed.

(** ** Theorems *)

(** C18: Publishing a volume, against every file system: it changes nothing
    outside the directory of the volume and the target path; the only
    mount it ever makes binds exactly that directory, the one the agents
    replicate, to the target, which is then neither the root nor empty;
    and it succeeds exactly if that mount succeeded. *)
Theorem publish_mounts_volume s req tr r :
  usable (server_pool s) → exec (NodePublishVolume s req) tr r → walks_below tr →
  publishes (volume_root (server_pool s) (publish_ns req) (nv_VolumeId req)) (Clean (nv_TargetPath req)) tr r.
Proof. apply publishes_volume. Qed.

(** Every node is authorized: the documents promise that the driver
    refuses to mount a volume on a node that is not authorized for it, but
    the server makes, for each request, an authorizer that knows the volume
    and its own node only, and asks that one; so whatever the volume and
    the node, no request to publish is refused. *)
Theorem no_node_refused s req tr r e :
  exec (NodePublishVolume s req) tr r → r ≠ RpcErr PermissionDenied e.
Proof.
  intros H. unfold NodePublishVolume in H. do 2 (destruct (is_empty _); [by exec_step H|]).
  exec_step H. destruct a as [source|]; [|by exec_step H]. unfold publish_source in H. exec_step H.
  destruct a as [[]|]; [|by exec_step H]. exec_step H. apply publish_spec in H2 as (_ & _ & _ & Hr).
  destruct a as [| |]; by exec_step H.
Qed.

(** The permissions a mounted file gets: group read and write, and for a
    directory also search. *)
Definition group_bits (info : FileInfo) : Z := if info_IsDir info then 504%Z else 432%Z.

Definition group_owned (gid : Z) (tr : list (event agent_sig)) (d : walk_entry) : Prop :=
  ∃ info, we_Info d = Ok info ∧
  (info_IsSymlink info = false →
   ∃ mode, did (OsChown (we_Path d) (-1) gid) (Ok tt) tr ∧
     did (OsChmod (we_Path d) mode) (Ok tt) tr ∧
     Z.land mode (group_bits info) = group_bits info ∧
     Z.land mode (Perm (fi_Mode info)) = Perm (fi_Mode info)).

Lemma group_entry_owned gid d tr : exec (group_entry gid d) tr (Ok tt) → group_owned gid tr d.
Proof.
  intros H. unfold group_entry in H. destruct (we_Err d); [exec_step H|].
  destruct (we_Info d) as [info|] eqn:Ei; [|exec_step H]. exists info. split; [done|].
  destruct (info_IsSymlink info); [done|]. intros _. exec_step H. exec_step H0. destruct a.
  exists (Z.lor (Perm (fi_Mode info)) (group_bits info)). unfold group_bits.
  rewrite lor_includes, lor_keeps.
  destruct (info_IsDir info); exec_step H; (split; [apply did_here|]);
    (split; [apply did_later, did_here|done]).
Qed.

(** When setting the mount group succeeds, the group is a 64-bit
    decimal number, and every file and directory the walk of the volume
    listed, symbolic links apart, was given that group, kept its owner and
    its permissions, and got group read and write (and search, for a
    directory) in addition. *)
Theorem mount_group_owned path group tr :
  exec (applyVolumeMountGroup path group) tr (Ok tt) →
  ∃ gid entries t, ParseInt64 group = Some gid ∧
    tr = Ev (S:=agent_sig) (OsWalkDir path) entries :: t ∧
    Forall (group_owned gid t) entries.
Proof.
  intros H. unfold applyVolumeMountGroup in H.
  destruct (ParseInt64 group) as [gid|]; [|exec_step H]. exec_step H. exec_step H0.
  exists gid, a, tr1. split; [done|]. split; [done|].
  apply exec_try_each_ok in H as (trs & -> & H).
  assert (∀ d t, d ∈ a → exec (group_entry gid d) t (Ok tt) → t ∈ trs → group_owned gid (concat trs) d) as Hmono.
  { intros d t _ Hex Ht. destruct (group_entry_owned _ _ _ Hex) as (info & Hi & Hs). exists info.
    split; [done|]. intros Hn. destruct (Hs Hn) as (mode & H1 & H2 & H3). exists mode. unfold did in *.
    split; [|split; [|done]]; apply list_elem_of_In, in_concat; exists t;
      (split; [by apply list_elem_of_In|by apply list_elem_of_In]). }
  apply Forall_forall. intros d Hd. apply list_elem_of_lookup in Hd as [i Hi].
  destruct (Forall2_lookup_l _ _ _ _ _ H Hi) as (t & Ht & Hex).
  eapply Hmono; [by apply list_elem_of_lookup; eauto|done|by apply list_elem_of_lookup; eauto].
Qed.

(** A volume that was created for a claim is mounted where its claim
    says: publishing the created volume, with the identifier and context
    [CreateVolume] returned and on any server, either fails or mounts the
    directory "<pool>/<namespace of the claim>/<volume name>". *)
Theorem created_volume_publishes s s' req v target group ro tr :
  Server_CreateVolume s req = RpcOk v → usable (server_pool s') →
  k8s_name (get (cv_Parameters req) provisionerPVCNamespace) → k8s_name (cv_Name req) →
  exec (NodePublishVolume s' (mkNodePublishVolumeRequest (vol_VolumeId v) target (vol_VolumeContext v) group ro))
    tr (RpcOk tt) →
  walks_below tr →
  did (BindMount (Clean (poolPath s') +:+ "/" +:+ get (cv_Parameters req) provisionerPVCNamespace +:+
                  "/" +:+ cv_Name req) (Clean target)) (Ok tt) tr.
Proof.
  intros Hc Hp Hns Hname H Hw. unfold Server_CreateVolume in Hc.
  destruct (is_empty (cv_Name req)); [done|]. destruct (_ || _); [done|]. simplify_eq.
  destruct (publishes_volume _ _ _ _ Hp H Hw) as [_ _ Hok]. pose proof (proj1 Hok eq_refl) as Hd.
  cbn [nv_VolumeId nv_TargetPath vol_VolumeId] in Hd.
  assert (publish_ns (mkNodePublishVolumeRequest (cv_Name req) target
    (<[volumeContextStoragePool := poolName s]> (<[volumeContextPVCName :=
       TrimSpace (get (cv_Parameters req) provisionerPVCName)]> (<[volumeContextPVCNamespace :=
       TrimSpace (get (cv_Parameters req) provisionerPVCNamespace)]> ∅))) group ro) =
    get (cv_Parameters req) provisionerPVCNamespace) as Ens.
  { unfold publish_ns, get at 1. cbn [nv_VolumeContext].
    rewrite lookup_insert_ne, lookup_insert_ne, lookup_insert_eq by done. cbn [default from_option id].
    destruct Hns as (_ & Hall & _).
    by rewrite !(TrimSpace_plain (get (cv_Parameters req) provisionerPVCNamespace)). }
  cbn [vol_VolumeContext] in Hd. rewrite Ens in Hd. unfold volume_root, below, volume_elems in Hd.
  by rewrite !safeSegment_k8s in Hd.
Qed.

(** ** Sessions *)













(** ** Examples *)
Definition ex_server : Server := mkServer "node-a" "local" "/pool".
Definition ex_create : CreateVolumeRequest :=
  mkCreateVolumeRequest "pvc-1" (Some 1024%Z)
    {[ provisionerPVCNamespace := "games"; provisionerPVCName := "world" ]}.
Definition ex_publish : NodePublishVolumeRequest :=
  mkNodePublishVolumeRequest "pvc-1" "/var/lib/kubelet/pods/1/mount"
    (match Server_CreateVolume ex_server ex_create with
     | RpcOk v => vol_VolumeContext v | RpcErr _ _ => ∅ end) "1000" false.
Definition ex_files : Mem.world :=
  Mem.mkWorld {[ "/pool/games/pvc-1" := Mem.dir_info; "/pool/games/pvc-1/a" := Mem.file_info ]} ∅ 0.
Definition ex_trace : list (event agent_sig) := snd (Mem.run_on (NodePublishVolume ex_server ex_publish) ex_files).

Lemma ex_server_usable : usable (server_pool ex_server).
Proof. split; [discriminate|reflexivity]. Qed.

Lemma publish_mounts_volume_witness :
  publishes "/pool/games/pvc-1" "/var/lib/kubelet/pods/1/mount" ex_trace (RpcOk tt).
Proof.
  apply (publish_mounts_volume ex_server ex_publish ex_trace (RpcOk tt) ex_server_usable).
  - apply (run_self Mem.handler (NodePublishVolume ex_server ex_publish) ex_files).
  - apply walks_check_ok. vm_compute. reflexivity.
Defined.

Lemma created_volume_publishes_witness :
  did (BindMount "/pool/games/pvc-1" "/var/lib/kubelet/pods/1/mount") (Ok tt) ex_trace.
Proof.
  apply (created_volume_publishes ex_server ex_server ex_create
    (mkVolume "pvc-1" 1024 (nv_VolumeContext ex_publish)) "/var/lib/kubelet/pods/1/mount" "1000" false ex_trace).
  - vm_compute. reflexivity.
  - apply ex_server_usable.
  - repeat split; try discriminate; intros c [= <-]; reflexivity.
  - repeat split; try discriminate; intros c [= <-]; reflexivity.
  - apply (run_self Mem.handler (NodePublishVolume ex_server ex_publish) ex_files).
  - apply walks_check_ok. vm_compute. reflexivity.
Defined.



Lemma mount_group_owned_witness :
  ∃ gid entries t, ParseInt64 "1000" = Some gid ∧
    snd (Mem.run_on (applyVolumeMountGroup "/pool/games/pvc-1" "1000") ex_files) =
      Ev (S:=agent_sig) (OsWalkDir "/pool/games/pvc-1") entries :: t ∧
    Forall (group_owned gid t) entries.
Proof.
  apply (mount_group_owned "/pool/games/pvc-1" "1000").
  apply (run_self Mem.handler (applyVolumeMountGroup "/pool/games/pvc-1" "1000") ex_files).
Defined.

End Csi.
