(* ===== verification/Archive.v ===== *)
(** * Tar archives of a volume: [internal/agent/replication.go]

    [WriteTarArchive] sends a volume as a tar stream, [ExtractTarArchive]
    unpacks one, [clearFullSyncTarget] empties the places a full sync
    fills.  An archive is read as the list of its entries, each with the
    pieces its successive reads return, and the error that ends it if it
    is not the end of the stream; writing one is a sequence of calls of
    the tar writer. *)
From S2P Require Import Prelude GoStrings GoPath GoTime Effects AgentTypes AgentEnv AgentMem.
From S2P Require Import Agent Filter Ownership Apply ApplyProps Watch WatchProps Handlers.

Module Archive.
Import Str Path Agent Filter Ownership Apply ApplyProps Watch WatchProps.

Definition archiveCacheDropInterval : Z := 1024 * 1024.

(** ** Page cache *)
Definition adviseFileRange (path : string) (offset length : Z) : prog agent_sig (result unit) :=
  if (length <=? 0)%Z then Ret (Ok tt)
  else
    r <- os_call (OsFadvise path offset length) ;;
    match r with
    | AdviceFailed e => Ret (Err e)
    | AdviceDone | AdviceUnsupported => Ret (Ok tt)
    end.

(** An error of [Fdatasync] that is [EINVAL] is answered with [Ok]. *)
Definition syncAndAdviseFileRange (path : string) (offset length : Z) : prog agent_sig (result unit) :=
  if (length <=? 0)%Z then Ret (Ok tt)
  else
    r <- os_call (OsSyncRange path offset length) ;;
    match r with
    | AdviceFailed e =>
        s <- os_call (OsFdatasync path) ;;
        match s with
        | Err _ => Ret (Err e)
        | Ok _ => adviseFileRange path offset length
        end
    | AdviceDone | AdviceUnsupported => adviseFileRange path offset length
    end.

(** ** Copying

    The loop both copies share: write every piece and let go of the pages
    behind it whenever enough has been written. *)
Section copy.
Context (write : string → prog agent_sig (result unit)).
Context (release : Z → Z → prog agent_sig (result unit)).

Fixpoint copy_pieces (pieces : list string) (readErr : option error) (offset dropStart : Z)
  : prog agent_sig (result unit) :=
  match pieces with
  | [] =>
      match readErr with
      | Some e => Ret (Err e)
      | None =>
          if (dropStart <? offset)%Z then release dropStart (offset - dropStart)%Z else Ret (Ok tt)
      end
  | buf :: l =>
      if is_empty buf then copy_pieces l readErr offset dropStart
      else
        _ <-! write buf ;;
        let offset := (offset + Z.of_nat (String.length buf))%Z in
        if (archiveCacheDropInterval <=? offset - dropStart)%Z then
          _ <-! release dropStart (offset - dropStart)%Z ;;
          copy_pieces l readErr offset offset
        else copy_pieces l readErr offset dropStart
  end.
End copy.

Definition copyFileToArchive (path : string) : prog agent_sig (result unit) :=
  r <- os_call (OsRead path) ;;
  copy_pieces (λ buf, os_call (TarWrite buf)) (adviseFileRange path)
    (fst (r : list string * option error)) (snd (r : list string * option error)) 0 0.

Definition copyArchiveToFile (path : string) (pieces : list string) (readErr : option error)
  : prog agent_sig (result unit) :=
  copy_pieces (λ buf, os_call (OsWrite path buf)) (syncAndAdviseFileRange path) pieces readErr 0 0.

(** ** Writing *)

(** [tar.FileInfoHeader]: the type and the mode word of a header. *)
Definition ModeSetuid : Z := 2 ^ 23.
Definition ModeSetgid : Z := 2 ^ 22.
Definition ModeSticky : Z := 2 ^ 20.
Definition ModeNamedPipe : Z := 2 ^ 25.
Definition ModeSocket : Z := 2 ^ 24.
Definition ModeDevice : Z := 2 ^ 26.
Definition ModeCharDevice : Z := 2 ^ 21.
Definition has_bit (mode bit : Z) : bool := negb (Z.land mode bit =? 0)%Z.

Definition header_mode (mode : Z) : Z :=
  Perm mode + (if has_bit mode ModeSetuid then 2048 else 0) +
  (if has_bit mode ModeSetgid then 1024 else 0) + (if has_bit mode ModeSticky then 512 else 0).

Definition header_type (mode : Z) : option tar_type :=
  if mode_IsRegular mode then Some TypeReg
  else if has_bit mode ModeDir then Some TypeDir
  else if has_bit mode ModeSymlink then Some TypeSymlink
  else if has_bit mode ModeDevice then
    if has_bit mode ModeCharDevice then Some (TypeOther "3") else Some (TypeOther "4")
  else if has_bit mode ModeNamedPipe then Some (TypeOther "6")
  else None.

Definition FileInfoHeader (info : FileInfo) (link : string) : result tar_header :=
  match header_type (fi_Mode info) with
  | None => Err (Errorf "archive/tar: unsupported file type" [])
  | Some t =>
      Ok (mkTarHeader "" t (if info_IsSymlink info then link else "")
            (if mode_IsRegular (fi_Mode info) then fi_Size info else 0)%Z
            (header_mode (fi_Mode info)) (fi_Uid info) (fi_Gid info) (fi_ModTime info))
  end.

Definition set_name (h : tar_header) (name : string) : tar_header :=
  mkTarHeader name (th_Typeflag h) (th_Linkname h) (th_Size h) (th_Mode h) (th_Uid h) (th_Gid h)
    (th_ModTime h).

(** The header and the contents of one file. *)
Definition archive_file (p archivePath : string) (info : FileInfo) (linkTarget : string)
  : prog agent_sig (result unit) :=
  match FileInfoHeader info linkTarget with
  | Err e => Ret (Err e)
  | Ok h =>
      _ <-! os_call (TarWriteHeader (set_name h archivePath)) ;;
      if negb (mode_IsRegular (fi_Mode info)) then Ret (Ok tt)
      else
        o <- os_call (OsOpen p) ;;
        match o with
        | Err e => if IsNotExist e then Ret (Ok tt) else Ret (Err e)
        | Ok _ =>
            copyErr <- copyFileToArchive p ;;
            closeErr <- os_call (OsClose p) ;;
            match copyErr with
            | Err e => Ret (Err e)
            | Ok _ => Ret closeErr
            end
        end
  end.

(** The callback of [WriteTarArchive]. *)
Definition archive_entry (root : string) (f : PathFilter) (_ : unit) (d : walk_entry)
  : prog agent_sig (unit * result walk_next) :=
  let on := λ r : result unit, (tt, match r with Ok _ => Ok WalkOn | Err e => Err e end) in
  match we_Err d with
  | Some e => if IsNotExist e then Ret (tt, Ok WalkOn) else Ret (tt, Err e)
  | None =>
      if String.eqb (we_Path d) root then Ret (tt, Ok WalkOn)
      else
        match Rel root (we_Path d) with
        | Err e => Ret (tt, Err e)
        | Ok archivePath =>
            st <- os_call (OsLstat (we_Path d)) ;;
            match st with
            | Err e => if IsNotExist e then Ret (tt, Ok WalkOn) else Ret (tt, Err e)
            | Ok info =>
                if info_IsDir info && negb (ShouldTraverse f archivePath) then Ret (tt, Ok SkipDir)
                else if negb (info_IsDir info) && negb (ShouldReplicate f archivePath)
                then Ret (tt, Ok WalkOn)
                else if info_IsSymlink info then
                  lk <- os_call (OsReadlink (we_Path d)) ;;
                  match lk with
                  | Err e => Ret (tt, Err e)
                  | Ok linkTarget =>
                      r <- archive_file (we_Path d) archivePath info linkTarget ;; Ret (on r)
                  end
                else r <- archive_file (we_Path d) archivePath info "" ;; Ret (on r)
            end
        end
  end.

Definition WriteTarArchive (root0 : string) (f : PathFilter) : prog agent_sig (result unit) :=
  let root := Clean root0 in
  r <- WalkDir root (archive_entry root f) tt ;; Ret (snd r).

(** ** Extracting *)
Definition restorePathMetadata (target : string) (h : tar_header) (symlink : bool)
  : prog agent_sig (result unit) :=
  owned <- (if symlink then os_call (OsLchown target (th_Uid h) (th_Gid h))
            else os_call (OsChown target (th_Uid h) (th_Gid h))) ;;
  match owned with
  | Err e => if IsPermission e then
               if negb symlink then
                 _ <-! os_call (OsChmod target (Perm (th_Mode h))) ;;
                 os_call (OsChtimes target (th_ModTime h))
               else Ret (Ok tt)
             else Ret (Err e)
  | Ok _ =>
      if negb symlink then
        _ <-! os_call (OsChmod target (Perm (th_Mode h))) ;;
        os_call (OsChtimes target (th_ModTime h))
      else Ret (Ok tt)
  end.

(** The three cases of the switch. *)
Definition extract_dir (target : string) (h : tar_header) : prog agent_sig (result unit) :=
  _ <-! os_call (OsMkdirAll target (Perm (th_Mode h))) ;;
  restorePathMetadata target h false.

Definition extract_symlink (target : string) (h : tar_header) : prog agent_sig (result unit) :=
  _ <-! os_call (OsMkdirAll (Dir target) 493) ;;
  _ <-! os_call (OsRemoveAll target) ;;
  _ <-! os_call (OsSymlink (th_Linkname h) target) ;;
  restorePathMetadata target h true.

Definition extract_file (target : string) (e : tar_entry) : prog agent_sig (result unit) :=
  _ <-! os_call (OsMkdirAll (Dir target) 493) ;;
  _ <-! os_call (OsCreate target (Perm (th_Mode (te_Header e)))) ;;
  copied <- copyArchiveToFile target (te_Pieces e) (te_Err e) ;;
  match copied with
  | Err err => os_call (OsClose target) ;;; Ret (Err err)
  | Ok _ =>
      _ <-! os_call (OsClose target) ;;
      restorePathMetadata target (te_Header e) false
  end.

Definition extract_entry (root : string) (e : tar_entry) : prog agent_sig (result unit) :=
  match NormalizeEventPath (th_Name (te_Header e)) with
  | Err err => Ret (Err err)
  | Ok rel =>
      let target := join [root; rel] in
      match ensurePathInside root target with
      | Err err => Ret (Err err)
      | Ok _ =>
          match th_Typeflag (te_Header e) with
          | TypeDir => extract_dir target (te_Header e)
          | TypeSymlink => extract_symlink target (te_Header e)
          | TypeReg => extract_file target e
          | TypeOther _ => Ret (Ok tt)
          end
      end
  end.

Definition ExtractTarArchive (root0 : string) (a : tar_stream) : prog agent_sig (result unit) :=
  let root := Clean root0 in
  _ <-! try_each (ta_Entries a) (extract_entry root) ;;
  match ta_Err a with
  | None => Ret (Ok tt)
  | Some e => Ret (Err e)
  end.

(** ** Emptying the target *)

(** The part the two loops share: a directory is emptied by [clear],
    anything else is removed. *)
Definition clear_target (clear : string → prog agent_sig (result unit)) (target : string)
  : prog agent_sig (result unit) :=
  st <- os_call (OsLstat target) ;;
  match st with
  | Err e => if IsNotExist e then Ret (Ok tt) else Ret (Err e)
  | Ok info =>
      if info_IsDir info && negb (info_IsSymlink info) then clear target
      else os_call (OsRemoveAll target)
  end.

(** [fuel] bounds the depth of the directories: a path the kernel accepts
    has fewer than 4096 bytes. *)
Fixpoint clearDirectoryContentsPreservingDirs (fuel : nat) (root : string)
  : prog agent_sig (result unit) :=
  match fuel with
  | O => Ret (Err (Errorf "file name too long" []))
  | S fuel =>
      names <-! os_call (OsReadDir root) ;;
      try_each names (λ name,
        clear_target (clearDirectoryContentsPreservingDirs fuel) (join [root; name]))
  end.

Definition path_max : nat := 4096.

(** The loop over the include patterns, with the paths already seen. *)
Fixpoint clear_includes (targetRoot : string) (seen : gset string) (includes : list string)
  : prog agent_sig (result unit) :=
  match includes with
  | [] => Ret (Ok tt)
  | include :: l =>
      let root := filterStaticPrefix include in
      if is_empty root then clear_includes targetRoot seen l
      else
        match NormalizeEventPath root with
        | Err e => Ret (Err e)
        | Ok clean =>
            if bool_decide (clean ∈ seen) then clear_includes targetRoot seen l
            else
              _ <-! clear_target (clearDirectoryContentsPreservingDirs path_max)
                      (join [targetRoot; clean]) ;;
              clear_includes targetRoot ({[clean]} ∪ seen) l
        end
  end.

Definition clearFullSyncTarget (targetRoot : string) (f : PathFilter) : prog agent_sig (result unit) :=
  if Nat.eqb (length (pf_IncludePaths f)) 0
  then clearDirectoryContentsPreservingDirs path_max targetRoot
  else clear_includes targetRoot ∅ (pf_IncludePaths f).

(** ** The handler *)
Inductive archive_reply : Type :=
| ArchiveError (code : Z) (e : error)
| ArchiveStream (r : result unit).

(** The query parameters; the archive itself is the calls of the tar
    writer, and an error while it is written is only logged. *)
Definition ArchiveHandler (pool : Pool) (token : string) (r : Handlers.request unit)
    (namespace volume : string) (include exclude : list string) : prog agent_sig archive_reply :=
  if negb (String.eqb (Handlers.rq_Method r) "GET") then
    Ret (ArchiveError 405 (Errorf "method not allowed" []))
  else if negb (Authorize token (Handlers.rq_Authorization r)) then
    Ret (ArchiveError 401 (Errorf "unauthorized" []))
  else if is_empty volume then Ret (ArchiveError 400 (Errorf "volume is required" []))
  else
    match ResolveVolumePath (mkVolumePath pool namespace volume "") with
    | Err e => Ret (ArchiveError 400 e)
    | Ok root =>
        st <- os_call (OsStat root) ;;
        match st with
        | Err e => if IsNotExist e then Ret (ArchiveError 404 (Errorf "volume not found" []))
                   else Ret (ArchiveError 500 e)
        | Ok _ =>
            written <- WriteTarArchive root (mkPathFilter include exclude false) ;;
            Ret (ArchiveStream written)
        end
    end.

End Archive.
