(* ===== verification/ArchiveProps.v ===== *)
(** * Properties of the tar archives

    Copies are exact and release every byte once, unpacking stays inside
    its directory, an archive carries every replicated file, and emptying
    a target keeps its directories. *)
From S2P Require Import Prelude GoStrings GoPath GoTime Effects AgentTypes AgentEnv AgentMem.
From S2P Require Import Agent Filter Ownership Apply ApplyProps Shadow Watch WatchProps Archive.

Module ArchiveProps.
Import Str Path Agent Filter Ownership Apply ApplyProps Shadow Watch WatchProps Archive.

(** ** Reading a trace: the data written and the ranges let go *)
Definition output_of (e : event agent_sig) : option string :=
  match ev_op (S:=agent_sig) e with
  | OsWrite _ data | TarWrite data => Some data
  | _ => None
  end.
Definition output (tr : list (event agent_sig)) : string := String.concat "" (omap output_of tr).

Definition range_of (e : event agent_sig) : option (Z * Z) :=
  match ev_op (S:=agent_sig) e with
  | OsFadvise _ offset length => Some (offset, length)
  | _ => None
  end.
Definition ranges (tr : list (event agent_sig)) : list (Z * Z) := omap range_of tr.

(** [l] cuts the interval from [a] to [b] into pieces, in order. *)
Fixpoint tiles (a b : Z) (l : list (Z * Z)) : Prop :=
  match l with
  | [] => a = b
  | (offset, length) :: l' => offset = a ∧ (0 < length)%Z ∧ tiles (offset + length) b l'
  end.

Lemma str_concat_app l1 l2 : String.concat "" (l1 ++ l2) = String.concat "" l1 +:+ String.concat "" l2.
Proof.
  induction l1 as [|x l1 IH]; [done|]. cbn [app]. destruct l1 as [|y l1].
  - cbn. destruct l2; [by rewrite str_app_nil_r|done].
  - change (String.concat "" (x :: (y :: l1) ++ l2)) with (x +:+ "" +:+ String.concat "" ((y :: l1) ++ l2)).
    rewrite IH. change (String.concat "" (x :: y :: l1)) with (x +:+ "" +:+ String.concat "" (y :: l1)).
    by rewrite !str_app_assoc.
Qed.

Lemma output_app t1 t2 : output (t1 ++ t2) = output t1 +:+ output t2.
Proof. unfold output. by rewrite omap_app, str_concat_app. Qed.

Lemma ranges_app t1 t2 : ranges (t1 ++ t2) = ranges t1 ++ ranges t2.
Proof. apply omap_app. Qed.

Lemma str_concat_cons x l : String.concat "" (x :: l) = x +:+ String.concat "" l.
Proof. change (x :: l) with ([x] ++ l). rewrite str_concat_app. by cbn. Qed.

Lemma tiles_app a b c l1 l2 : tiles a b l1 → tiles b c l2 → tiles a c (l1 ++ l2).
Proof.
  revert a. induction l1 as [|[o n] l1 IH]; intros a; cbn [tiles app]; [by intros ->|].
  intros (-> & Hn & H) H2. auto.
Qed.

Definition total (pieces : list string) : Z := Z.of_nat (String.length (String.concat "" pieces)).

Section copy_props.
Context (write : string → prog agent_sig (result unit)) (release : Z → Z → prog agent_sig (result unit)).
Hypothesis write_ok : ∀ buf t, exec (write buf) t (Ok tt) → output t = buf ∧ ranges t = [].
Hypothesis release_ok : ∀ offset length t, (0 < length)%Z → exec (release offset length) t (Ok tt) →
  output t = "" ∧ ranges t = [(offset, length)].

Lemma copy_pieces_ok pieces : ∀ readErr offset dropStart tr,
  (dropStart ≤ offset)%Z → exec (copy_pieces write release pieces readErr offset dropStart) tr (Ok tt) →
  readErr = None ∧ output tr = String.concat "" pieces ∧
  tiles dropStart (offset + total pieces) (ranges tr).
Proof.
  induction pieces as [|buf l IH]; intros readErr offset dropStart tr Hle H; cbn [copy_pieces] in H.
  - destruct readErr; [exec_step H|]. split; [done|]. unfold total. cbn. rewrite Z.add_0_r.
    destruct (Z.ltb_spec dropStart offset) as [Hlt|Hge].
    + apply release_ok in H as [-> ->]; [|lia]. split; [done|]. cbn. lia.
    + exec_step H. cbn. split; [done|lia].
  - unfold total. rewrite str_concat_cons, str_length_app, Nat2Z.inj_add.
    destruct (is_empty buf) eqn:Eb.
    { destruct buf; [|done]. apply IH in H; [|done]. unfold total in H. cbn. done. }
    set (n := Z.of_nat (String.length buf)) in *.
    assert (0 < n)%Z as Hn by (subst n; destruct buf; cbn; [done|lia]).
    exec_step H. destruct a. apply write_ok in H0 as [Eo Er].
    rewrite output_app, ranges_app, Eo, Er. cbn [app].
    destruct (Z.leb_spec archiveCacheDropInterval (offset + n - dropStart)) as [Hd|Hd].
    + exec_step H. destruct a. apply release_ok in H0 as [Eo' Er']; [|lia].
      apply IH in H as (-> & E & Ht); [|lia]. rewrite output_app, ranges_app, Eo', Er', E.
      split; [done|]. split; [done|]. cbn. split; [done|]. split; [lia|].
      replace (dropStart + (offset + n - dropStart))%Z with (offset + n)%Z by lia.
      by rewrite Z.add_assoc.
    + apply IH in H as (-> & E & Ht); [|lia]. rewrite E. split; [done|]. split; [done|].
      by rewrite Z.add_assoc.
Qed.
End copy_props.

Lemma advise_ok path offset length t :
  (0 < length)%Z → exec (adviseFileRange path offset length) t (Ok tt) →
  output t = "" ∧ ranges t = [(offset, length)].
Proof.
  intros Hl H. unfold adviseFileRange in H. destruct (Z.leb_spec length 0) as [|_]; [lia|].
  exec_step H. exec_step H0. by destruct a; exec_step H.
Qed.

Lemma sync_advise_ok path offset length t :
  (0 < length)%Z → exec (syncAndAdviseFileRange path offset length) t (Ok tt) →
  output t = "" ∧ ranges t = [(offset, length)].
Proof.
  intros Hl H. unfold syncAndAdviseFileRange in H. destruct (Z.leb_spec length 0) as [|_]; [lia|].
  exec_step H. exec_step H0. destruct a as [| |e].
  - apply advise_ok in H as [E1 E2]; [|done]. by rewrite output_app, ranges_app, E1, E2.
  - apply advise_ok in H as [E1 E2]; [|done]. by rewrite output_app, ranges_app, E1, E2.
  - exec_step H. exec_step H0. destruct a; [|exec_step H]. apply advise_ok in H as [E1 E2]; [|done]. by rewrite !output_app, !ranges_app, E1, E2.
Qed.

Lemma copyArchiveToFile_ok path pieces readErr tr :
  exec (copyArchiveToFile path pieces readErr) tr (Ok tt) →
  readErr = None ∧ output tr = String.concat "" pieces ∧ tiles 0 (total pieces) (ranges tr).
Proof.
  intros H. apply copy_pieces_ok in H as (H1 & H2 & H3); [by rewrite Z.add_0_l in H3| | |done].
  - intros buf t H'. cbv beta in H'. exec_step H'. unfold output. by cbn.
  - intros. by eapply sync_advise_ok.
Qed.

Lemma copyFileToArchive_ok path tr :
  exec (copyFileToArchive path) tr (Ok tt) →
  ∃ pieces t, tr = Ev (S:=agent_sig) (OsRead path) (pieces, None) :: t ∧
    output t = String.concat "" pieces ∧ tiles 0 (total pieces) (ranges t).
Proof.
  intros H. unfold copyFileToArchive in H. exec_step H. exec_step H0. destruct a as [pieces e].
  apply copy_pieces_ok in H as (H1 & H2 & H3); [cbn in H1; subst e; rewrite Z.add_0_l in H3; eauto| | |done].
  - intros buf t H'. cbv beta in H'. exec_step H'. unfold output. by cbn.
  - intros. by eapply advise_ok.
Qed.

(** ** Theorems *)

(** Unpacking a file writes exactly the bytes of its entry: when the
    copy succeeds, the stream ended normally, the data written, in order,
    are the bytes read, and the ranges handed to the kernel cut the file
    into consecutive pieces, so every byte is released exactly once.  The
    copy into an archive has the same property. *)
Theorem archive_copies_exact :
  (∀ path pieces readErr tr, exec (copyArchiveToFile path pieces readErr) tr (Ok tt) →
     readErr = None ∧ output tr = String.concat "" pieces ∧ tiles 0 (total pieces) (ranges tr)) ∧
  (∀ path tr, exec (copyFileToArchive path) tr (Ok tt) →
     ∃ pieces t, tr = Ev (S:=agent_sig) (OsRead path) (pieces, None) :: t ∧
       output t = String.concat "" pieces ∧ tiles 0 (total pieces) (ranges t)).
Proof. split; [apply copyArchiveToFile_ok|apply copyFileToArchive_ok]. Qed.

(** ** Lemmas: extraction *)
Lemma mutated_only {A} (Q : string → Prop) (p : prog agent_sig A) tr a :
  calls_only (S:=agent_sig) (λ o, Forall Q (mutates o)) p → exec p tr a → Forall Q (mutated tr).
Proof.
  intros H Hex. specialize (H tr a Hex). clear Hex.
  induction H as [|e tr He _ IH]; [constructor|]. apply Forall_app. by split.
Qed.

Section extract_calls.
Context (Q : string → Prop).

Abbreviation only := (calls_only (S:=agent_sig) (λ o, Forall Q (mutates o))).

Ltac one_call :=
  lazymatch goal with
  | |- calls_only _ (@call _ ?o) => apply (calls_only_call (S:=agent_sig) _ o); cbn; by repeat constructor
  end.

Lemma only_advise path offset length : only (adviseFileRange path offset length).
Proof. unfold adviseFileRange. calls; one_call. Qed.

Lemma only_sync path offset length : only (syncAndAdviseFileRange path offset length).
Proof. unfold syncAndAdviseFileRange. calls; try apply only_advise; one_call. Qed.

Lemma only_copy path pieces readErr : Q path → only (copyArchiveToFile path pieces readErr).
Proof.
  intros HQ. unfold copyArchiveToFile. generalize 0%Z at 1 as offset. generalize 0%Z as dropStart.
  induction pieces as [|buf l IH]; intros dropStart offset; cbn [copy_pieces]; calls;
    auto using only_sync; one_call.
Qed.

Lemma only_restore path h symlink : Q path → only (restorePathMetadata path h symlink).
Proof. intros HQ. unfold restorePathMetadata. calls; one_call. Qed.

Lemma only_extract root e :
  (∀ rel, NormalizeEventPath (th_Name (te_Header e)) = Ok rel →
     Q (join [root; rel]) ∧ Q (Dir (join [root; rel]))) →
  only (extract_entry root e).
Proof.
  intros HQ. unfold extract_entry, extract_file, extract_dir, extract_symlink.
  destruct (NormalizeEventPath _) as [rel|]; [|apply calls_only_ret].
  destruct (HQ rel eq_refl) as [H1 H2].
  cbv zeta. calls; auto using only_restore, only_copy; one_call.
Qed.
End extract_calls.

(** Unpacking an archive stays in the directory it is given: whatever
    the archive holds and the file system answers, every path that is
    created, written, removed or given other metadata is that directory
    or lies below it, provided no entry's name normalises to "/".  The
    containment is one of names: links are followed by the system. *)
Theorem extract_confined root a tr r :
  IsAbs root = true → Clean root = root → elems root ≠ [] →
  Forall (λ e, NormalizeEventPath (th_Name (te_Header e)) ≠ Ok "/") (ta_Entries a) →
  exec (ExtractTarArchive root a) tr r →
  Forall (λ p, inside root p = true) (mutated tr).
Proof.
  intros Ha Hc Hne Hnames H. apply mutated_only with (p := ExtractTarArchive root a) (a := r); [|done].
  unfold ExtractTarArchive. rewrite Hc. apply calls_only_try; [|intros _; calls].
  apply calls_only_try_each. intros e He. apply only_extract. intros rel Hrel.
  rewrite Forall_forall in Hnames. specialize (Hnames e He). rewrite Hrel in Hnames. split.
  - by eapply join_normal_inside.
  - eapply Shadow.Dir_join_inside; [done..|]. congruence.
Qed.

(** Two archives that reach outside the directory, entry by entry: one
    whose entry "//" is a link takes the place of the directory itself,
    the other makes a link and then writes through it. *)
Definition ex_header (name : string) (t : tar_type) (link : string) : tar_header :=
  mkTarHeader name t link 0 420 0 0 0.

Theorem extract_follows_links :
  let root := "/pool/games/world" in
  let world := Mem.mkWorld ∅ ∅ 0 in
  let run := λ l, ops (snd (Mem.run_on (ExtractTarArchive root
      (mkTarStream (map (λ h, mkTarEntry h ["x"] None) l) None)) world)) in
  take 3 (run [ex_header "//" TypeSymlink "/etc"]) =
    [OsMkdirAll "/pool/games" 493; OsRemoveAll root; OsSymlink "/etc" root] ∧
  (let l := run [ex_header "a" TypeSymlink "/etc"; ex_header "a/passwd" TypeReg ""] in
   OsSymlink "/etc" "/pool/games/world/a" ∈ l ∧ OsWrite "/pool/games/world/a/passwd" "x" ∈ l).
Proof.
  split; [vm_compute; reflexivity|]. cbv zeta.
  match goal with |- _ ∈ ?l ∧ _ => let v := eval vm_compute in l in change l with v end.
  split; set_solver.
Qed.

(** ** Reading a trace: the archive written *)
Definition tar_op_of (e : event agent_sig) : option (tar_header + string) :=
  match ev_op (S:=agent_sig) e with
  | TarWriteHeader h => Some (inl h)
  | TarWrite data => Some (inr data)
  | _ => None
  end.
Definition tar_ops (tr : list (event agent_sig)) : list (tar_header + string) := omap tar_op_of tr.

(** The data before the first header, and the entries. *)
Fixpoint parse (l : list (tar_header + string)) : string * list (tar_header * string) :=
  match l with
  | [] => ("", [])
  | inl h :: l' => ("", (h, fst (parse l')) :: snd (parse l'))
  | inr data :: l' => (data +:+ fst (parse l'), snd (parse l'))
  end.

(** The entries of the archive a trace writes. *)
Definition archive_of (tr : list (event agent_sig)) : list (tar_header * string) :=
  snd (parse (tar_ops tr)).





Lemma no_tar_parse tr :
  Forall (λ e, match ev_op (S:=agent_sig) e with TarWriteHeader _ | TarWrite _ => False | _ => True end) tr →
  tar_ops tr = [].
Proof.
  induction 1 as [|[o r] tr Ho _ IH]; [done|]. unfold tar_ops in *. cbn. rewrite IH. by destruct o.
Qed.








(** ** Lemmas: reading an archive back *)

(** [Time.Round(time.Second)] *)
Definition round_second (t : Z) : Z := (t + Time.Second / 2) / Time.Second * Time.Second.

(** What is relied on of the tar library: reading an archive gives its
    entries in order, with their data, and with the times rounded to
    seconds; the reads may cut the data anywhere. *)
Definition read_back (h : tar_header) : tar_header :=
  mkTarHeader (th_Name h) (th_Typeflag h) (th_Linkname h) (th_Size h) (th_Mode h) (th_Uid h) (th_Gid h)
    (round_second (th_ModTime h)).












(** ** Examples *)

(** A file system for reading: one file with two pieces. *)
Definition ex_read (o : op agent_sig) (w : Mem.world) : ans agent_sig o * Mem.world :=
  match o return agent_ans o * Mem.world with
  | OsRead _ => ((["ab"; "c"], None), w)
  | OsWalkDir p =>
      ([mkWalkEntry p None true (Ok Mem.dir_info);
        mkWalkEntry (p +:+ "/a") None true (Ok Mem.dir_info);
        mkWalkEntry (p +:+ "/a/f") None false (Ok Mem.file_info)], w)
  | o => Mem.handler o w
  end.

Definition ex_volume : Mem.world :=
  Mem.mkWorld {[ "/pool/ns/v" := Mem.dir_info; "/pool/ns/v/a" := Mem.dir_info;
                 "/pool/ns/v/a/f" := Mem.file_info ]} ∅ 0.

Definition ex_written : list (event agent_sig) :=
  snd (Effects.run ex_read (WriteTarArchive "/pool/ns/v" (mkPathFilter ["a/**"] [] false)) ex_volume).

Definition ex_stream : tar_stream :=
  mkTarStream (map (λ hd, mkTarEntry (read_back (fst hd)) [snd hd] None) (archive_of ex_written)) None.

Definition ex_unpacked : list (event agent_sig) :=
  snd (Mem.run_on (ExtractTarArchive "/pool/ns/w" ex_stream) (Mem.mkWorld ∅ ∅ 0)).


(** The answers to [os.Lstat] and [os.Open] in a trace. *)
Definition lstat_of (e : event agent_sig) : option (string * result FileInfo) :=
  match e with Ev (OsLstat p) r => Some (p, r) | _ => None end.

Lemma did_lstat p r tr : did (OsLstat p) r tr → (p, r) ∈ omap lstat_of tr.
Proof. intros H. apply list_elem_of_omap. by eexists. Qed.



(** ** Lemmas: emptying a directory *)

(** What is relied on of [os.ReadDir]: it lists names. *)
Definition names_good (tr : list (event agent_sig)) : Prop :=
  ∀ p names, did (OsReadDir p) (Ok names) tr → Forall good_elem names.

Lemma names_good_app t1 t2 : names_good (t1 ++ t2) ↔ names_good t1 ∧ names_good t2.
Proof. unfold names_good. setoid_rewrite did_app. naive_solver. Qed.

Definition readdir_of (e : event agent_sig) : option (string * result (list string)) :=
  match e with Ev (OsReadDir p) r => Some (p, r) | _ => None end.

Definition not_directory (info : FileInfo) : Prop := info_IsDir info = false ∨ info_IsSymlink info = true.

(** Only things that were seen not to be directories are removed, and only
    inside [root]. *)
Definition keeps_dirs (root : string) (tr : list (event agent_sig)) : Prop :=
  ∀ p, p ∈ mutated tr → inside root p = true ∧
    ∃ info, did (OsLstat p) (Ok info) tr ∧ not_directory info.

(** A listed path is gone, was removed, or is a directory that was listed
    in turn. *)
Definition cleared (p : string) (tr : list (event agent_sig)) : Prop :=
  (∃ e, IsNotExist e = true ∧ did (OsLstat p) (Err e) tr) ∨ did (OsRemoveAll p) (Ok tt) tr ∨
  (∃ names, did (OsReadDir p) (Ok names) tr).
Definition all_cleared (tr : list (event agent_sig)) : Prop :=
  ∀ p names name, did (OsReadDir p) (Ok names) tr → name ∈ names → cleared (join [p; name]) tr.

Lemma keeps_dirs_nil root : keeps_dirs root [].
Proof. by intros p Hp%elem_of_nil. Qed.

Lemma keeps_dirs_app root t1 t2 : keeps_dirs root t1 → keeps_dirs root t2 → keeps_dirs root (t1 ++ t2).
Proof.
  intros H1 H2 p. rewrite mutated_app, elem_of_app. setoid_rewrite did_app.
  intros [Hp|Hp]; [destruct (H1 p Hp) as (? & info & ? & ?)|destruct (H2 p Hp) as (? & info & ? & ?)]; eauto 6.
Qed.

Lemma keeps_dirs_cons root (e : event agent_sig) t :
  mutates (ev_op (S:=agent_sig) e) = [] → keeps_dirs root t → keeps_dirs root (e :: t).
Proof.
  intros He H. apply (keeps_dirs_app root [e]); [|done]. intros p Hp. unfold mutated in Hp. cbn in Hp.
  rewrite He in Hp. by apply elem_of_nil in Hp.
Qed.

Lemma cleared_app p t1 t2 : cleared p t1 ∨ cleared p t2 → cleared p (t1 ++ t2).
Proof. unfold cleared. setoid_rewrite did_app. naive_solver. Qed.

Lemma all_cleared_app t1 t2 : all_cleared t1 → all_cleared t2 → all_cleared (t1 ++ t2).
Proof.
  intros H1 H2 p names name. rewrite did_app. intros [H|H] Hn; apply cleared_app; [left|right]; eauto.
Qed.

Lemma no_readdir_cleared t :
  Forall (λ e, match ev_op (S:=agent_sig) e with OsReadDir _ => False | _ => True end) t → all_cleared t.
Proof. rewrite Forall_forall. intros H p names name Hd. by apply H in Hd. Qed.

Lemma keeps_dirs_mono root p t : inside root p = true → keeps_dirs p t → keeps_dirs root t.
Proof. intros Hin H q Hq. destruct (H q Hq) as [Hi ?]. split; [by eapply inside_trans|done]. Qed.

Definition absolute_dir (p : string) : Prop := IsAbs p = true ∧ Clean p = p ∧ elems p ≠ [].

Lemma join_name_dir root name :
  absolute_dir root → good_elem name →
  absolute_dir (join [root; name]) ∧ inside root (join [root; name]) = true.
Proof.
  intros (Ha & Hc & Hne) Hn. assert (Forall good_elem [name]) as Hg by (constructor; [done|constructor]).
  pose proof (join_good root [name] Hne Hg) as E. cbn [Join] in E. rewrite Hc in E.
  rewrite E by done. destruct (elems_app_good root [name]) as [HA HE]; [by intros ->|done|done|]. cbn [Join] in HA, HE.
  split; [|apply inside_app]. split; [by rewrite HA|]. split.
  - unfold Clean. rewrite HA, HE, Ha. rewrite unsplit_app by done. cbn [Join].
    f_equal. by rewrite <-Clean_abs.
  - rewrite HE. by destruct (elems root).
Qed.

Definition clears (clear : string → prog agent_sig (result unit)) : Prop := ∀ p tr r,
  exec (clear p) tr r → absolute_dir p → names_good tr →
  keeps_dirs p tr ∧ (r = Ok tt → all_cleared tr ∧ ∃ names, did (OsReadDir p) (Ok names) tr).

Lemma clear_target_ok clear p tr r :
  clears clear → exec (clear_target clear p) tr r → absolute_dir p → names_good tr →
  keeps_dirs p tr ∧ (r = Ok tt → all_cleared tr ∧ cleared p tr).
Proof.
  intros Hclear H Hd Hg. unfold clear_target in H. exec_step H. exec_step H0.
  apply names_good_app in Hg as [_ Hg]. change ([?x] ++ tr1) with (x :: tr1) in *.
  destruct a as [info|e].
  2:{ destruct (IsNotExist e) eqn:E; exec_step H;
        (split; [apply keeps_dirs_cons; [done|apply keeps_dirs_nil]|]); [|done].
      intros _. split; [|left; exists e; split; [done|apply did_here]].
      apply no_readdir_cleared. by repeat constructor. }
  destruct (info_IsDir info && negb (info_IsSymlink info)) eqn:E.
  - destruct (Hclear _ _ _ H Hd Hg) as [Hk Hok]. split; [by apply keeps_dirs_cons|]. intros Hr.
    destruct (Hok Hr) as [Hc [ns Hns]]. split.
    + apply (all_cleared_app [_]); [apply no_readdir_cleared; by repeat constructor|done].
    + right. right. exists ns. by apply did_later.
  - exec_step H. split.
    + intros q Hq. unfold mutated in Hq. cbn in Hq. apply elem_of_cons in Hq as [->|Hq]; [|by apply elem_of_nil in Hq].
      split; [apply inside_refl|]. exists info. split; [apply did_here|]. unfold not_directory.
      destruct (info_IsDir info), (info_IsSymlink info); auto.
    + intros ->. split; [apply no_readdir_cleared; by repeat constructor|].
      right. left. apply did_later, did_here.
Qed.

Lemma names_good_part t trs : t ∈ trs → names_good (concat trs) → names_good t.
Proof.
  intros Ht Hg p ns Hp. eapply Hg. unfold did in *. apply list_elem_of_In, in_concat. exists t.
  by split; apply list_elem_of_In.
Qed.

Lemma cleared_part p t trs : t ∈ trs → cleared p t → cleared p (concat trs).
Proof.
  intros (l1 & l2 & ->)%list_elem_of_split Hc. rewrite concat_app. apply cleared_app. right.
  apply cleared_app. by left.
Qed.

Lemma all_cleared_concat trs : (∀ t, t ∈ trs → all_cleared t) → all_cleared (concat trs).
Proof.
  induction trs as [|t trs IH]; intros H; cbn [concat]; [apply no_readdir_cleared; constructor|].
  apply all_cleared_app; [apply H; left|]. apply IH. intros t' Ht. apply H. by right.
Qed.

Lemma clear_dir_ok fuel : clears (clearDirectoryContentsPreservingDirs fuel).
Proof.
  induction fuel as [|fuel IH]; intros root tr r H Hroot Hg; cbn [clearDirectoryContentsPreservingDirs] in H.
  { exec_step H. by split; [apply keeps_dirs_nil|]. }
  exec_step H; [|exec_step H; by split; [apply keeps_dirs_cons, keeps_dirs_nil|]].
  exec_step H0. rename a into names. apply names_good_app in Hg as [Hg1 Hg].
  pose proof (Hg1 _ _ (did_here _ _ _)) as Hnames. rewrite Forall_forall in Hnames.
  assert (∀ name t r', name ∈ names → names_good t →
    exec (clear_target (clearDirectoryContentsPreservingDirs fuel) (join [root; name])) t r' →
    keeps_dirs root t ∧ (r' = Ok tt → all_cleared t ∧ cleared (join [root; name]) t)) as Hbody.
  { intros name t r' Hn Hgt Hex. destruct (join_name_dir root name Hroot (Hnames name Hn)) as [Hd Hin].
    destruct (clear_target_ok _ _ _ _ IH Hex Hd Hgt) as [Hk Hok]. split; [by eapply keeps_dirs_mono|done]. }
  split.
  - apply keeps_dirs_cons; [done|]. revert Hg.
    eapply (exec_try_each_ind (λ t, names_good t → keeps_dirs root t)); [| | |exact H].
    + intros _. apply keeps_dirs_nil.
    + intros t1 t2 H1 H2 [? ?]%names_good_app. apply keeps_dirs_app; auto.
    + intros name t r' Hn Hex Hgt. by eapply Hbody.
  - intros ->. split; [|exists names; apply did_here].
    apply exec_try_each_ok in H as (trs & -> & Htrs).
    assert (∀ name t, name ∈ names → t ∈ trs →
      exec (clear_target (clearDirectoryContentsPreservingDirs fuel) (join [root; name])) t (Ok tt) →
      all_cleared t ∧ cleared (join [root; name]) t) as Hone.
    { intros name t Hn Ht Hex. eapply (Hbody name t); [done| |done|done]. by eapply names_good_part. }
    assert (∀ t, t ∈ trs → all_cleared t) as Hall.
    { intros t Ht. apply list_elem_of_lookup in Ht as Hl. destruct Hl as [i Hi].
      destruct (Forall2_lookup_r _ _ _ _ _ Htrs Hi) as (name & Hname & Hex).
      eapply Hone; [by apply list_elem_of_lookup; eauto|done|done]. }
    intros p ns name [Hp|Hp]%elem_of_cons Hname.
    + pose proof (f_equal (λ e, omap readdir_of [e]) Hp) as E. cbn in E. injection E as -> ->.
      apply list_elem_of_lookup in Hname as Hl. destruct Hl as [i Hi].
      destruct (Forall2_lookup_l _ _ _ _ _ Htrs Hi) as (t & Ht & Hex).
      apply (cleared_app _ [_]). right. apply (cleared_part _ t); [by apply list_elem_of_lookup; eauto|].
      eapply Hone; [done|by apply list_elem_of_lookup; eauto|done].
    + apply (cleared_app _ [_]). right. eapply (all_cleared_concat trs Hall); done.
Qed.

Lemma join_normal_dir root p c :
  absolute_dir root → NormalizeEventPath p = Ok c → absolute_dir (join [root; c]).
Proof.
  intros (Ha & Hc & Hne) Hn. assert (root ≠ "") as H0 by (by intros ->).
  rewrite (normalize_join root p c H0 Hn), Ha. apply normalize_ok in Hn as (_ & Hg & _).
  assert (Forall good_elem (elems root ++ elems c)) as Hall.
  { apply Forall_app. split; [by apply elems_abs_good|done]. }
  assert (clean_form true (elems root ++ elems c)) as Hf by (by exists 0, (elems root ++ elems c)).
  split; [by rewrite IsAbs_unsplit|]. split; [by apply Clean_unsplit|].
  rewrite elems_unsplit by done. by destruct (elems root).
Qed.

Lemma clear_includes_ok root includes : ∀ seen tr r,
  exec (clear_includes root seen includes) tr r → absolute_dir root → names_good tr →
  keeps_dirs root tr ∧ (r = Ok tt → all_cleared tr).
Proof.
  induction includes as [|include l IH]; intros seen tr r H Hroot Hg; cbn [clear_includes] in H.
  { exec_step H. split; [apply keeps_dirs_nil|]. intros _. apply no_readdir_cleared. constructor. }
  destruct (is_empty _); [by eapply IH|].
  destruct (NormalizeEventPath (filterStaticPrefix include)) as [c|] eqn:En;
    [|exec_step H; by split; [apply keeps_dirs_nil|]].
  destruct (bool_decide _); [by eapply IH|].
  pose proof (join_normal_dir root _ c Hroot En) as Hd.
  assert (inside root (join [root; c]) = true) as Hin by (destruct Hroot as (? & ? & ?); by eapply join_normal_inside).
  exec_step H.
  - apply names_good_app in Hg as [Hg1 Hg2]. destruct a.
    destruct (clear_target_ok _ _ _ _ (clear_dir_ok _) H0 Hd Hg1) as [Hk Hok].
    destruct (IH _ _ _ H Hroot Hg2) as [Hk2 Hok2].
    split; [apply keeps_dirs_app; [by eapply keeps_dirs_mono|done]|].
    intros Hr. apply all_cleared_app; [by apply Hok|auto].
  - destruct (clear_target_ok _ _ _ _ (clear_dir_ok _) H Hd Hg) as [Hk _].
    split; [by eapply keeps_dirs_mono|done].
Qed.

Lemma clear_ok root f tr r :
  absolute_dir root → names_good tr → exec (clearFullSyncTarget root f) tr r →
  keeps_dirs root tr ∧ (r = Ok tt → all_cleared tr).
Proof.
  intros Hroot Hg H. unfold clearFullSyncTarget in H. destruct (Nat.eqb _ 0).
  - destruct (clear_dir_ok _ _ _ _ H Hroot Hg) as [Hk Hok]. split; [done|]. intros Hr. by apply Hok.
  - by eapply clear_includes_ok.
Qed.

(** C25: Emptying the target of a full sync keeps its directories: against
    every file system, only paths below the target are removed, and each
    only after it was seen to be no directory (or to be a link), so that
    no directory is ever removed; and when it ends without an error, every
    name listed on the way was gone, was removed, or is a directory that
    was emptied in turn. *)
Theorem clear_keeps_directories root f tr r :
  absolute_dir root → names_good tr → exec (clearFullSyncTarget root f) tr r →
  keeps_dirs root tr ∧ (r = Ok tt → all_cleared tr).
Proof. apply clear_ok. Qed.

(** ** Fuel *)

(** What is relied on of the kernel: it looks up no path of 4096 bytes or
    more ([PATH_MAX]). *)
Definition paths_limited (tr : list (event agent_sig)) : Prop :=
  ∀ p info, did (OsLstat p) (Ok info) tr → String.length p < path_max.

Lemma paths_limited_app t1 t2 : paths_limited (t1 ++ t2) ↔ paths_limited t1 ∧ paths_limited t2.
Proof. unfold paths_limited. setoid_rewrite did_app. naive_solver. Qed.

Lemma try_each_mono {A} (P : list (event agent_sig) → Prop) (l : list A) body body' tr r :
  (∀ t1 t2, P (t1 ++ t2) → P t1 ∧ P t2) →
  (∀ x t r', x ∈ l → P t → exec (body x) t r' → exec (body' x) t r') →
  P tr → exec (S:=agent_sig) (try_each l body) tr r → exec (try_each l body') tr r.
Proof.
  intros Happ. revert tr. induction l as [|x l IH]; intros tr Hb HP H; [done|]. cbn [try_each] in *.
  apply exec_try in H as [(a & t1 & t2 & -> & H1 & H2)|(e & H1 & ->)].
  - destruct (Happ _ _ HP) as [P1 P2]. apply exec_try. left. exists a, t1, t2. split; [done|].
    split; [by apply Hb; [left|..]|]. apply IH; [|done|done]. intros y t r' Hy. apply Hb. by right.
  - apply exec_try. right. exists e. split; [|done]. by apply Hb; [left|..].
Qed.

Lemma join_name_longer root name :
  absolute_dir root → good_elem name → String.length root < String.length (join [root; name]).
Proof.
  intros (Ha & Hc & Hne) Hn. assert (Forall good_elem [name]) as Hg by (constructor; [done|constructor]).
  pose proof (join_good root [name] Hne Hg) as E. cbn [Join] in E. rewrite E, Hc by done.
  rewrite !str_length_app. cbn. lia.
Qed.

(** C33: The bound on the depth is no restriction: on every run in which the
    kernel accepts only paths shorter than 4096 bytes, emptying a
    directory with any larger bound does exactly what it does with the
    bound 4096; the recursion ends because every step makes the path
    longer. *)
Theorem clear_fuel_enough fuel root tr r :
  absolute_dir root → String.length root < path_max → path_max ≤ fuel →
  names_good tr → paths_limited tr →
  exec (clearDirectoryContentsPreservingDirs fuel root) tr r ↔
  exec (clearDirectoryContentsPreservingDirs path_max root) tr r.
Proof.
  assert (∀ f1 f2 root tr r, absolute_dir root → String.length root < path_max →
    path_max ≤ String.length root + f1 → path_max ≤ String.length root + f2 → 
    names_good tr → paths_limited tr →
    exec (clearDirectoryContentsPreservingDirs f1 root) tr r →
    exec (clearDirectoryContentsPreservingDirs f2 root) tr r) as Hmain.
  { clear. induction f1 as [|f1 IH]; intros f2 root tr r Hd Hlt H1 H2 Hg Hp H; [lia|].
    destruct f2 as [|f2]; [lia|]. cbn [clearDirectoryContentsPreservingDirs] in *.
    apply exec_try in H as [(names & t1 & t2 & -> & He & H)|(e & He & ->)]; apply exec_try; [left|right; eauto].
    exists names, t1, t2. split; [done|]. split; [done|].
    apply names_good_app in Hg as [Hg1 Hg]. apply paths_limited_app in Hp as [_ Hp].
    apply (exec_call (S:=agent_sig) (OsReadDir root)) in He as ->. pose proof (Hg1 _ _ (did_here _ _ _)) as Hnames. rewrite Forall_forall in Hnames.
    eapply (try_each_mono (λ t, names_good t ∧ paths_limited t)); [| |by split|done].
    - intros t1 t3 [[? ?]%names_good_app [? ?]%paths_limited_app]. by repeat split.
    - intros name t r' Hn [Hgt Hpt] Hex. specialize (Hnames name Hn).
      pose proof (join_name_longer root name Hd Hnames) as Hlong.
      destruct (join_name_dir root name Hd Hnames) as [Hd' _].
      unfold clear_target in *. apply exec_bind in Hex as (st & ta & tb & -> & Hst & Hex).
      apply exec_bind. exists st, ta, tb. split; [done|]. split; [done|].
      destruct st as [info|]; [|done]. destruct (_ && _); [|done].
      apply (exec_call (S:=agent_sig) (OsLstat _)) in Hst as ->. apply names_good_app in Hgt as [_ Hgt].
      pose proof (Hpt _ _ (did_here _ _ _)) as Hlen. apply paths_limited_app in Hpt as [_ Hpt].
      apply IH; [done|done|lia|lia|done|done|done]. }
  intros Hd Hlt Hf Hg Hp. split; apply Hmain; try done; lia.
Qed.

(** A small directory: a file, a link and a directory with a file. *)
Definition ex_target : Mem.world :=
  Mem.mkWorld {[ "/pool/ns/v" := Mem.dir_info; "/pool/ns/v/a" := Mem.file_info;
                 "/pool/ns/v/d" := Mem.dir_info; "/pool/ns/v/d/b" := Mem.file_info ]} ∅ 0.
Definition ex_cleared : list (event agent_sig) :=
  snd (Mem.run_on (clearFullSyncTarget "/pool/ns/v" (mkPathFilter ["d/**"] [] false)) ex_target).

Lemma did_readdir p r tr : did (OsReadDir p) r tr → (p, r) ∈ omap readdir_of tr.
Proof. intros H. apply list_elem_of_omap. by eexists. Qed.

Lemma ex_dir : absolute_dir "/pool/ns/v".
Proof. repeat split; discriminate. Qed.

Lemma ex_names : names_good ex_cleared.
Proof.
  intros p names Hd%did_readdir. vm_compute in Hd. repeat (apply elem_of_cons in Hd as [Hd|Hd]);
    [injection Hd as -> ->; repeat constructor; discriminate|by apply elem_of_nil in Hd].
Qed.

Lemma clear_keeps_directories_witness :
  keeps_dirs "/pool/ns/v" ex_cleared ∧ all_cleared ex_cleared.
Proof.
  destruct (clear_keeps_directories "/pool/ns/v" (mkPathFilter ["d/**"] [] false) ex_cleared (Ok tt)) as [H1 H2].
  - apply ex_dir.
  - apply ex_names.
  - apply (run_self Mem.handler (clearFullSyncTarget "/pool/ns/v" (mkPathFilter ["d/**"] [] false)) ex_target).
  - split; [exact H1|apply H2; reflexivity].
Defined.

Definition ex_cleared_dir : list (event agent_sig) :=
  snd (Mem.run_on (clearDirectoryContentsPreservingDirs path_max "/pool/ns/v") ex_target).

Lemma clear_fuel_enough_witness :
  exec (clearDirectoryContentsPreservingDirs (S path_max) "/pool/ns/v") ex_cleared_dir (Ok tt).
Proof.
  apply (clear_fuel_enough (S path_max) "/pool/ns/v" ex_cleared_dir (Ok tt)).
  - apply ex_dir.
  - apply Nat.ltb_lt. vm_compute. reflexivity.
  - lia.
  - intros p names Hd%did_readdir. vm_compute in Hd. repeat (apply elem_of_cons in Hd as [Hd|Hd]);
      [injection Hd as -> ->; repeat constructor; discriminate..|by apply elem_of_nil in Hd].
  - intros p info Hd%did_lstat. vm_compute in Hd. repeat (apply elem_of_cons in Hd as [Hd|Hd]);
      [injection Hd as -> ->; apply Nat.ltb_lt; vm_compute; reflexivity..|by apply elem_of_nil in Hd].
  - apply (run_self Mem.handler (clearDirectoryContentsPreservingDirs path_max "/pool/ns/v") ex_target).
Defined.

Lemma extract_confined_witness :
  Forall (λ p, inside "/pool/ns/w" p = true) (mutated ex_unpacked).
Proof.
  apply (extract_confined "/pool/ns/w" ex_stream ex_unpacked (Ok tt)).
  - reflexivity.
  - reflexivity.
  - discriminate.
  - repeat constructor; discriminate.
  - apply (run_self Mem.handler (ExtractTarArchive "/pool/ns/w" ex_stream) (Mem.mkWorld ∅ ∅ 0)).
Defined.

Lemma archive_copies_exact_witness :
  let tr := snd (Mem.run_on (copyArchiveToFile "/pool/ns/v/f" ["ab"; ""; "c"] None) ex_target) in
  output tr = "abc" ∧ tiles 0 3 (ranges tr).
Proof.
  intros tr. destruct archive_copies_exact as [H _].
  destruct (H "/pool/ns/v/f" ["ab"; ""; "c"] None tr) as (_ & E & Ht); [|by split].
  apply (run_self Mem.handler (copyArchiveToFile "/pool/ns/v/f" ["ab"; ""; "c"] None) ex_target).
Defined.

End ArchiveProps.
