(* ===== verification/ArchiveSync.v ===== *)
(** * A full sync by archive: [internal/agent/replication.go]

    [applyAgentArchiveFullSync] fetches the archive of a volume from the
    agent of the source, empties the target and unpacks the archive into
    it; [archiveURLFromSource] and [agentURLFromWebDAV] make the address it
    asks, out of the WebDAV address of the source.  Nothing in the program
    calls it at present. *)
From S2P Require Import Prelude GoStrings GoPath GoUrl GoTime Effects AgentTypes AgentEnv AgentMem.
From S2P Require Import Agent Filter Ownership Apply ApplyProps Watch WatchProps Replica Handlers Archive ArchiveProps.

Module ArchiveSync.
Import Str Path Agent Filter Ownership Apply ApplyProps Replica Archive ArchiveProps.

Definition agentURLFromWebDAV (webdavURL : string) : result string :=
  u <-? Url.Parse (TrimSpace webdavURL) ;;
  let invalid := Err (Errorf "invalid source.webdavUrl %q" [webdavURL]) in
  if is_empty (Url.u_Scheme u) || is_empty (Url.u_Host u) then invalid
  else
    let host := Url.Hostname u in
    if is_empty host then invalid
    else Ok (Url.URL_String
           (Url.mkURL (Url.u_Scheme u) (Url.u_Opaque u) (Url.u_User u) (Url.JoinHostPort host "8080") ""
              (Url.u_RawPath u) (Url.u_OmitHost u) (Url.u_ForceQuery u) "" "" (Url.u_RawFragment u))).

(** The query: [parts] are the namespace and, if there is one, the volume. *)
Definition archive_query (q : gmap string (list string)) (sourceVolume : string) (f : PathFilter)
  : gmap string (list string) :=
  let '(namespace, volume) := Url.Cut (Trim is_slash sourceVolume) "/" in
  let q := Url.values_set q "namespace" namespace in
  let q := match volume with Some volume => Url.values_set q "volume" volume | None => q end in
  let q := foldl (λ q include, Url.values_add q "include" include) q (pf_IncludePaths f) in
  foldl (λ q exclude, Url.values_add q "exclude" exclude) q (pf_ExcludePaths f).

Definition archiveURLFromSource (source : SourceRef) (sourceVolume : string) (f : PathFilter) : result string :=
  agentURL <-? agentURLFromWebDAV (src_WebDAVURL source) ;;
  u <-? Url.Parse (TrimRight is_slash agentURL +:+ "/replication/archive") ;;
  Ok (Url.URL_String (Url.with_query u (Url.Encode (archive_query (Url.Query u) sourceVolume f)))).

Definition applyAgentArchiveFullSync (source : SourceRef) (token sourceVolume targetRoot : string) (f : PathFilter)
  : prog agent_sig (result unit) :=
  match archiveURLFromSource source sourceVolume f with
  | Err e => Ret (Err e)
  | Ok archiveURL =>
      resp <- os_call (HttpGet archiveURL ("Bearer " +:+ token)) ;;
      match resp with
      | GetInvalid e | GetFailed e => Ret (Err e)
      | GetStatus code status head body =>
          if ((code <? 200) || (300 <=? code))%Z then
            Ret (Err (Errorf "%s returned %s: %s" [archiveURL; status; TrimSpace head]))
          else
            _ <-! clearFullSyncTarget targetRoot f ;;
            ExtractTarArchive targetRoot body
      end
  end.

(** ** What is asked for *)

Lemma TrimSpace_web host port : Url.web_host host port →
  TrimSpace (Url.web_url host port "") = Url.web_url host port "".
Proof.
  intros Hw. rewrite <-(str_app_nil_r (Url.web_url host port "")). apply TrimSpace_below; [|done|done].
  apply Url.web_bytes; [done| |done|done]. intros c. Url.each_byte c; intros H; try discriminate H; done.
Qed.

Lemma agent_url host port : Url.web_host host port →
  agentURLFromWebDAV (Url.web_url host port "") = Ok (Url.web_url host "8080" "").
Proof.
  intros Hw. unfold agentURLFromWebDAV. rewrite TrimSpace_web by done.
  pose proof (Url.parse_web_path host port "" None Hw) as Hp. cbn [default] in Hp. rewrite str_app_nil_r in Hp.
  rewrite Hp by auto. cbn [rbind]. rewrite Url.web_Hostname by done.
  unfold Url.web. cbn [Url.u_Scheme Url.u_Host is_empty orb].
  destruct (is_empty (Url.host_port host port)) eqn:E.
  { apply is_empty_spec, str_app_eq_nil in E as [E _]. by destruct Hw. }
  destruct (is_empty host) eqn:Eh; [apply is_empty_spec in Eh; by destruct Hw|].
  assert (Url.JoinHostPort host "8080" = Url.host_port host "8080") as ->.
  { unfold Url.JoinHostPort. by rewrite (Url.bytes_without Url.host_byte ":" host) by (done || apply Hw). }
  cbn [Url.u_Opaque Url.u_User Url.u_RawPath Url.u_OmitHost Url.u_ForceQuery Url.u_RawFragment].
  fold (Url.web host "8080" "" false ""). f_equal.
  assert (Url.web_host host "8080") as Hw' by (destruct Hw; by split).
  rewrite Url.web_String by (done || by left). by rewrite str_app_nil_r.
Qed.

(** The archive asked for is that of the volume, with the filter: from the
    WebDAV address of an agent the address of its archive endpoint is
    made, and its query is read back as the namespace, the volume and the
    patterns, whatever bytes these contain. *)
Theorem archive_url_correct host port source namespace volume f :
  Url.web_host host port → src_WebDAVURL source = Url.web_url host port "" →
  has_byte "/" namespace = false →
  Trim is_slash (namespace +:+ "/" +:+ volume) = namespace +:+ "/" +:+ volume →
  ∃ q, archiveURLFromSource source (namespace +:+ "/" +:+ volume) f =
         Ok (Url.web_url host "8080" "/replication/archive" +:+ "?" +:+ q) ∧
    let v := Url.ParseQuery q in
    Url.values_get v "namespace" = namespace ∧ Url.values_get v "volume" = volume ∧
    Url.values_all v "include" = pf_IncludePaths f ∧ Url.values_all v "exclude" = pf_ExcludePaths f.
Proof.
  intros Hw Hs Hns Ht. unfold archiveURLFromSource. rewrite Hs, agent_url by done. cbn [rbind].
  assert (Url.web_host host "8080") as Hw' by (destruct Hw; by split).
  assert (TrimRight is_slash (Url.web_url host "8080" "") +:+ "/replication/archive" =
          Url.web_url host "8080" "/replication/archive") as ->.
  { rewrite TrimRight_id; [unfold Url.web_url; by rewrite str_app_nil_r, str_app_assoc|].
    intros c. unfold Url.web_url, Url.host_port. rewrite str_app_nil_r, !last_byte_app; [by intros [= <-]|..]; try done;
      by intros [? ?]%str_app_eq_nil. }
  pose proof (Url.parse_web_path host "8080" "/replication/archive" None Hw') as Hp. cbn [default] in Hp.
  rewrite str_app_nil_r in Hp. rewrite Hp by auto. cbn [rbind]. clear Hp.
  change (Url.Query (Url.web host "8080" "/replication/archive" false "")) with (∅ : gmap string (list string)).
  change (Url.with_query (Url.web host "8080" "/replication/archive" false "") ?q)
    with (Url.web host "8080" "/replication/archive" false q).
  unfold archive_query. rewrite Ht. change ("/" +:+ volume) with (String "/" volume).
  rewrite Url.Cut_app by done. set (v := foldl _ _ (pf_ExcludePaths f)).
  assert (∀ k, Url.values_all v k =
    if decide (k = "namespace") then [namespace] else if decide (k = "volume") then [volume]
    else if decide (k = "include") then pf_IncludePaths f else if decide (k = "exclude") then pf_ExcludePaths f else []) as Hv.
  { intros k. unfold v. rewrite !Url.values_all_adds, !Url.values_all_set. change (Url.values_all ∅ k) with (@nil string).
    repeat (destruct (decide _) as [->|_]; [rewrite ?app_nil_r; done|]). done. }
  exists (Url.Encode v). split.
  - rewrite Url.web_String by (done || by right). destruct (is_empty (Url.Encode v)) eqn:E; [|done].
    apply is_empty_spec in E. pose proof (Url.query_back v "namespace") as H. rewrite E, Hv in H. discriminate.
  - cbv zeta. rewrite !Url.values_get_all, !Url.query_back, !Hv. done.
Qed.

(** ** What is done with the answer *)

(** A full sync by archive changes nothing unless the source answered
    with an archive; then it changes only paths below the target (if no
    entry is named after the root), removing no directory before it
    unpacks; and it succeeds only if everything that was to be removed was
    removed and the whole archive was unpacked without an error. *)
Theorem archive_sync_guarded source token sourceVolume root f tr r :
  absolute_dir root → names_good tr →
  exec (applyAgentArchiveFullSync source token sourceVolume root f) tr r →
  (mutated tr = [] ∧ is_ok r = false) ∨
  ∃ url code status head a tr1 tr2,
    archiveURLFromSource source sourceVolume f = Ok url ∧ (200 ≤ code < 300)%Z ∧
    tr = Ev (S:=agent_sig) (HttpGet url ("Bearer " +:+ token)) (GetStatus code status head a) :: tr1 ++ tr2 ∧
    keeps_dirs root tr1 ∧
    (Forall (λ e, NormalizeEventPath (th_Name (te_Header e)) ≠ Ok "/") (ta_Entries a) →
     Forall (λ p, inside root p = true) (mutated tr)) ∧
    (r = Ok tt → all_cleared tr1 ∧ exec (ExtractTarArchive root a) tr2 (Ok tt)).
Proof.
  intros Hroot Hg H. unfold applyAgentArchiveFullSync in H.
  destruct (archiveURLFromSource source sourceVolume f) as [url|e]; [|exec_step H; left; by split].
  exec_step H. exec_step H0. destruct a as [e|e|code status head a]; [exec_step H; left; by split..|].
  destruct ((code <? 200) || (300 <=? code))%Z eqn:Ec; [exec_step H; left; by split|]. right.
  apply orb_false_iff in Ec as [E1%Z.ltb_ge E2%Z.leb_gt]. apply names_good_app in Hg as [_ Hg].
  assert (∀ t, keeps_dirs root t → Forall (λ p, inside root p = true) (mutated t)) as Hkept.
  { intros t Hk. apply Forall_forall. intros p Hp. by apply Hk. }
  exists url, code, status, head, a. apply exec_try in H as [([] & tr2 & tr3 & -> & Hcl & Hex)|(e & Hcl & ->)].
  - apply names_good_app in Hg as [Hg _]. apply clear_ok in Hcl as [Hk Hok]; [|done..].
    exists tr2, tr3. do 2 (split; [done|]). split; [done|]. split; [done|]. split.
    + intros Hn. change (mutated _) with (mutated (tr2 ++ tr3)). rewrite mutated_app. apply Forall_app.
      split; [auto|]. destruct Hroot as (Ha & Hc & Hne). by eapply extract_confined.
    + intros ->. split; [auto|]. done.
  - apply clear_ok in Hcl as [Hk _]; [|done..]. exists tr1, []. rewrite app_nil_r.
    do 2 (split; [done|]). split; [done|]. split; [done|]. split; [|done]. intros _. exact (Hkept _ Hk).
Qed.

End ArchiveSync.
