(* ===== verification/Claims.v ===== *)
(** * Claims, their annotations and the pods that use them

    The helpers of [internal/controller/replication_controller.go] and
    [internal/controller/failover_controller.go] that read one
    Kubernetes object: the annotations of a claim, whether a pod uses a
    claim, which agents and nodes are ready. *)
From S2P Require Import Prelude GoStrings GoTime Labels Kube.

Module Claims.
Import Str Labels.

Definition AnnotationReplicationEnabled : string := LabelPrefix +:+ "/replication-enabled".
Definition AnnotationFailoverEnabled : string := LabelPrefix +:+ "/failover-enabled".
Definition AnnotationFailoverGracePeriod : string := LabelPrefix +:+ "/failover-grace-period".
Definition AnnotationFailoverMaxStaleness : string := LabelPrefix +:+ "/failover-max-staleness".
Definition AnnotationFailoverNodePriority : string := LabelPrefix +:+ "/failover-node-priority".
Definition AnnotationActiveNode : string := LabelPrefix +:+ "/active-node".
Definition AnnotationPreviousActiveNode : string := LabelPrefix +:+ "/previous-active-node".
Definition AnnotationSelectedNode : string := "volume.kubernetes.io/selected-node".

(** [ReplicationControllerConfig] *)
Record ReplicationControllerConfig : Type := mkControllerConfig {
  cfg_Namespace : string;
  cfg_StorageClassName : string;
  cfg_TokenSecretName : string;
  cfg_TokenSecretKey : string;
  cfg_ReconcileInterval : Z;
  cfg_FailoverTimeout : Z;
  cfg_HTTPTimeout : Z;
  cfg_AgentLabelSelector : string;
}.

(** Reading a Go map: the zero value for a missing key. *)
Definition annotation (m : gmap string string) (key : string) : string :=
  default EmptyString (m !! key).

(** [truthy] *)
Definition truthy (value : string) : bool :=
  let v := ToLower (TrimSpace value) in
  bool_decide (v ∈ ["1"; "t"; "true"; "y"; "yes"; "on"]).

(** [csvAnnotation] *)
Definition csvAnnotation (value : string) : list string :=
  filter (λ part, part ≠ "") (map TrimSpace (Split ","%char value)).

(** [replicationEnabled] *)
Definition replicationEnabled (pvc : PersistentVolumeClaim) (storageClass : string) : bool :=
  match pvc_StorageClassName pvc with
  | None => false
  | Some name =>
      if negb (String.eqb name storageClass) then false
      else truthy (annotation (pvc_Annotations pvc) AnnotationReplicationEnabled)
  end.

(** [failoverEnabled] *)
Definition failoverEnabled (pvc : PersistentVolumeClaim) (storageClass : string) : bool :=
  if negb (replicationEnabled pvc storageClass) then false
  else truthy (annotation (pvc_Annotations pvc) AnnotationFailoverEnabled).

(** [failoverGracePeriod] *)
Definition failoverGracePeriod (pvc : PersistentVolumeClaim) : Z :=
  let value := TrimSpace (annotation (pvc_Annotations pvc) AnnotationFailoverGracePeriod) in
  if String.eqb value "" then Time.Minute
  else match Time.ParseDuration value with
       | None => Time.Minute
       | Some duration => if (duration <? 0)%Z then Time.Minute else duration
       end.

(** [failoverMaxStaleness] *)
Definition failoverMaxStaleness (pvc : PersistentVolumeClaim) : Z :=
  let value := TrimSpace (annotation (pvc_Annotations pvc) AnnotationFailoverMaxStaleness) in
  if String.eqb value "" then (2 * Time.Minute)%Z
  else match Time.ParseDuration value with
       | None => (2 * Time.Minute)%Z
       | Some duration => if (duration <? 0)%Z then (2 * Time.Minute)%Z else duration
       end.

(** [failoverNodePriority] *)
Definition failoverNodePriority (pvc : PersistentVolumeClaim) : list string :=
  csvAnnotation (annotation (pvc_Annotations pvc) AnnotationFailoverNodePriority).

(** [volumeKey] *)
Definition volumeKey (namespace volume : string) : string := namespace +:+ "/" +:+ volume.

(** [pvcKey] *)
Definition pvcKey (pvc : PersistentVolumeClaim) : string :=
  pvc_Namespace pvc +:+ "/" +:+ pvc_Name pvc.

(** The loop over [spec.Volumes] of [podUsesClaim] and
    [podSpecUsesClaim]. *)
Definition volumes_use_claim (volumes : list PodVolume) (claim : string) : bool :=
  existsb (λ v, match vol_ClaimName v with
                | Some name => String.eqb name claim
                | None => false
                end) volumes.

Section pods.
Context {Q : Type}.

(** [podUsesClaim] *)
Definition podUsesClaim (pod : Pod Q) (claim : string) : bool :=
  volumes_use_claim (pod_Volumes pod) claim.

(** [podsUsingClaim] *)
Definition podsUsingClaim (pods : list (Pod Q)) (claim : string) : list (Pod Q) :=
  filter (λ pod, podUsesClaim pod claim = true) pods.

(** [podReady] *)
Definition podReady (pod : Pod Q) : bool :=
  existsb (λ c, String.eqb (fst c) "Ready" && String.eqb (snd c) "True") (pod_Conditions pod).

(** The guard of the loop of [readyAgentPods]. *)
Definition agent_usable (pod : Pod Q) : bool :=
  String.eqb (pod_Phase pod) PodRunning && negb (String.eqb (pod_NodeName pod) "") &&
  negb (String.eqb (pod_PodIP pod) "") && podReady pod.

(** [readyAgentPods]: a later pod replaces an earlier one of its node. *)
Definition readyAgentPods (pods : list (Pod Q)) : gmap string (Pod Q) :=
  foldl (λ out pod, if agent_usable pod then <[pod_NodeName pod := pod]> out else out) ∅ pods.

(** [readyNodeSet] *)
Definition node_ready (node : Node Q) : bool :=
  negb (node_Unschedulable node) &&
  existsb (λ c, String.eqb (fst c) "Ready" && String.eqb (snd c) "True") (node_Conditions node).

Definition readyNodeSet (nodes : list (Node Q)) : gmap string bool :=
  foldl (λ out node, if node_ready node then <[node_Name node := true]> out else out) ∅ nodes.

(** [m[k]] of a Go map to booleans. *)
Definition flag (m : gmap string bool) (k : string) : bool := default false (m !! k).

(** [activeNodeFromPods] *)
Definition activeNodeFromPods (pods : list (Pod Q)) (promotedNode : string) : string :=
  match find (λ pod, negb (String.eqb (pod_NodeName pod) "") &&
                     negb (String.eqb (pod_NodeName pod) promotedNode)) pods with
  | Some pod => pod_NodeName pod
  | None => ""
  end.

(** The condition of [healthyClaimPodNode]. *)
Definition pod_healthy (readyNodes : gmap string bool) (pod : Pod Q) : bool :=
  String.eqb (pod_Phase pod) PodRunning && negb (String.eqb (pod_NodeName pod) "") &&
  flag readyNodes (pod_NodeName pod).

(** [healthyClaimPodNode] *)
Definition healthyClaimPodNode (pods : list (Pod Q)) (readyNodes : gmap string bool) : string :=
  match find (pod_healthy readyNodes) pods with
  | Some pod => pod_NodeName pod
  | None => ""
  end.

(** [hasHealthyClaimPod] *)
Definition hasHealthyClaimPod (pods : list (Pod Q)) (readyNodes : gmap string bool) : bool :=
  negb (String.eqb (healthyClaimPodNode pods readyNodes) "").

(** ** Lemmas *)
Lemma hasHealthyClaimPod_spec pods readyNodes :
  hasHealthyClaimPod pods readyNodes = existsb (pod_healthy readyNodes) pods.
Proof.
  unfold hasHealthyClaimPod, healthyClaimPodNode.
  induction pods as [|pod pods IH]; simpl; [done|].
  destruct (pod_healthy readyNodes pod) eqn:E; [|exact IH].
  unfold pod_healthy in E. bool_hyps. by rewrite H1.
Qed.

Lemma readyNodeSet_spec nodes n :
  flag (readyNodeSet nodes) n = true ↔
  ∃ node, node ∈ nodes ∧ node_Name node = n ∧ node_ready node = true.
Proof.
  unfold readyNodeSet, flag. induction nodes as [|node nodes IH] using rev_ind.
  - simpl. split; [done|]. by intros (? & ?%elem_of_nil & _).
  - rewrite foldl_snoc. split.
    + destruct (node_ready node) eqn:E.
      * destruct (decide (node_Name node = n)) as [<-|Hne]; [set_solver|].
        rewrite lookup_insert_ne by done. set_solver.
      * set_solver.
    + intros (x & [Hx| ->%list_elem_of_singleton]%elem_of_app & Hn & Hr).
      * destruct (node_ready node); [|apply IH; eauto].
        destruct (decide (node_Name node = n)) as [<-|Hne]; [by rewrite lookup_insert_eq|].
        rewrite lookup_insert_ne by done. apply IH. eauto.
      * rewrite Hr, Hn. by rewrite lookup_insert_eq.
Qed.

Lemma readyAgentPods_spec pods n pod :
  readyAgentPods pods !! n = Some pod →
  pod ∈ pods ∧ pod_NodeName pod = n ∧ agent_usable pod = true.
Proof.
  unfold readyAgentPods. induction pods as [|p pods IH] using rev_ind; [done|].
  rewrite foldl_snoc. destruct (agent_usable p) eqn:E; [|set_solver].
  rewrite lookup_insert_Some. set_solver.
Qed.

Lemma podsUsingClaim_spec pods claim pod :
  pod ∈ podsUsingClaim pods claim ↔ pod ∈ pods ∧ podUsesClaim pod claim = true.
Proof. unfold podsUsingClaim. rewrite list_elem_of_filter. tauto. Qed.

Lemma activeNodeFromPods_ne pods n : n ≠ "" → activeNodeFromPods pods n ≠ n.
Proof.
  unfold activeNodeFromPods. intros Hn.
  destruct (find _ pods) as [p|] eqn:E; [|done].
  apply find_some in E as [_ E]. bool_hyps. by apply String.eqb_neq.
Qed.

End pods.

Lemma failoverGracePeriod_nonneg pvc : (0 ≤ failoverGracePeriod pvc)%Z.
Proof.
  unfold failoverGracePeriod, Time.Minute, Time.Second. split_ifs; [lia|].
  destruct (Time.ParseDuration _); [|lia]. destruct (Z.ltb_spec z 0); lia.
Qed.

End Claims.
