(* ===== verification/Resources.v ===== *)
(** * Resource requests and the free resources of the nodes

    The last part of [internal/controller/failover_controller.go]: sums
    of the CPU and memory requests of pods, what is left of a node's
    allocatable resources, and whether the requests of a claim's pods
    fit on a node.  Quantities are those of the Kubernetes libraries
    (see Kube.v); the Go maps are updated in place, here the updated map
    is returned. *)
From S2P Require Import Prelude Kube.

Module Resources.
Abbreviation ResourceList Q := (gmap string Q) (only parsing).

Section ops.
Context {Q : Type} `{!QuantityOps Q}.

Definition counted_resources : list string := [ResourceCPU; ResourceMemory].

(** [addResourceList] *)
Definition addResourceList (target source : ResourceList Q) : ResourceList Q :=
  foldl (λ target name,
    match source !! name with
    | None => target
    | Some quantity =>
        if q_is_zero quantity then target
        else <[name := q_add (default q_zero (target !! name)) quantity]> target
    end) target counted_resources.

(** [subtractResourceList] *)
Definition subtractResourceList (target source : ResourceList Q) : ResourceList Q :=
  foldl (λ target name,
    match source !! name with
    | None => target
    | Some quantity =>
        if q_is_zero quantity then target
        else match target !! name with
             | None => target
             | Some current => <[name := q_sub current quantity]> target
             end
    end) target counted_resources.

(** [maxResourceList] *)
Definition maxResourceList (target source : ResourceList Q) : ResourceList Q :=
  foldl (λ target name,
    match source !! name with
    | None => target
    | Some quantity =>
        if q_is_zero quantity then target
        else if (q_cmp (default q_zero (target !! name)) quantity <? 0)%Z
             then <[name := quantity]> target else target
    end) target counted_resources.

(** [podRequest] *)
Definition podRequest (pod : Pod Q) : ResourceList Q :=
  let out := foldl (λ out c, addResourceList out (ctr_Requests c)) ∅ (pod_Containers pod) in
  foldl (λ out c, maxResourceList out (ctr_Requests c)) out (pod_InitContainers pod).

(** [failoverWorkloadRequests] *)
Definition failoverWorkloadRequests (pods : list (Pod Q)) : ResourceList Q :=
  foldl (λ out pod, addResourceList out (podRequest pod)) ∅ pods.

(** The part of a node's allocatable resources that is counted. *)
Definition node_allocatable (node : Node Q) : ResourceList Q :=
  foldl (λ available name,
    match node_Allocatable node !! name with
    | Some quantity => <[name := quantity]> available
    | None => available
    end) ∅ counted_resources.

(** The guard of the second loop of [nodeAvailableResources]. *)
Definition pod_occupies (pod : Pod Q) : bool :=
  negb (String.eqb (pod_NodeName pod) "" || String.eqb (pod_Phase pod) PodSucceeded ||
        String.eqb (pod_Phase pod) PodFailed).

Definition take_pod (out : gmap string (ResourceList Q)) (pod : Pod Q) : gmap string (ResourceList Q) :=
  if negb (pod_occupies pod) then out
  else match out !! pod_NodeName pod with
       | None => out
       | Some available =>
           <[pod_NodeName pod := subtractResourceList available (podRequest pod)]> out
       end.

(** The first loop of [nodeAvailableResources]. *)
Definition allocatable_by_node (nodes : list (Node Q)) : gmap string (ResourceList Q) :=
  foldl (λ out node, <[node_Name node := node_allocatable node]> out) ∅ nodes.

(** [nodeAvailableResources] *)
Definition nodeAvailableResources (nodes : list (Node Q)) (pods : list (Pod Q))
  : gmap string (ResourceList Q) :=
  foldl take_pod (allocatable_by_node nodes) pods.

(** [len(m) == 0] *)
Definition no_entries {A : Type} (m : gmap string A) : bool := Nat.eqb (size m) 0.

(** The body of the loop of [nodeFitsRequests]. *)
Definition resource_fits (requests nodeAvailable : ResourceList Q) (name : string) : bool :=
  match requests !! name with
  | None => true
  | Some requested =>
      if q_is_zero requested then true
      else match nodeAvailable !! name with
           | None => true
           | Some free => if q_is_zero free then true else negb (q_cmp free requested <? 0)%Z
           end
  end.

(** [nodeFitsRequests] *)
Definition nodeFitsRequests (node : string) (requests : ResourceList Q)
    (available : gmap string (ResourceList Q)) : bool :=
  if no_entries requests || no_entries available then true
  else match available !! node with
       | None => true
       | Some nodeAvailable =>
           if no_entries nodeAvailable then true
           else forallb (resource_fits requests nodeAvailable) counted_resources
       end.

End ops.

(** ** Specification

    The amount a list gives for a resource, nothing for a missing one. *)
Section laws.
Context {Q : Type} `{!QuantityOps Q} `{!QuantityLaws Q}.

Definition amount (l : ResourceList Q) (name : string) : Z :=
  match l !! name with Some q => q_val q | None => 0%Z end.

Definition total {A} (f : A → Z) (l : list A) : Z := foldr (λ x n, (f x + n)%Z) 0%Z l.

(** What one pod counts for: its containers together, or its largest
    init container. *)
Definition pod_demand (name : string) (pod : Pod Q) : Z :=
  foldl (λ m c, Z.max m (amount (ctr_Requests c) name))
        (total (λ c, amount (ctr_Requests c) name) (pod_Containers pod))
        (pod_InitContainers pod).

(** What the pods of a node use. *)
Definition node_usage (node name : string) (pods : list (Pod Q)) : Z :=
  total (λ pod, if pod_occupies pod && String.eqb (pod_NodeName pod) node
                then pod_demand name pod else 0%Z) pods.

(** ** Lemmas *)

(** The loops over the counted resources treat each one on its own. *)
Lemma loop_lookup (step : ResourceList Q → string → ResourceList Q)
    (u : string → option Q → option Q) t name :
  (∀ t n m, step t n !! m = if decide (n = m) then u n (t !! n) else t !! m) →
  name ∈ counted_resources → foldl step t counted_resources !! name = u name (t !! name).
Proof.
  intros Hstep Hn. unfold counted_resources. cbn [foldl].
  rewrite !Hstep. unfold counted_resources in Hn.
  rewrite elem_of_cons, list_elem_of_singleton in Hn.
  by destruct Hn as [-> | ->].
Qed.

Lemma add_lookup (t s : ResourceList Q) name :
  name ∈ counted_resources →
  addResourceList t s !! name =
  match s !! name with
  | Some q => if q_is_zero q then t !! name
              else Some (q_add (default q_zero (t !! name)) q)
  | None => t !! name
  end.
Proof.
  apply (loop_lookup _ (λ n o, match s !! n with
    | Some q => if q_is_zero q then o else Some (q_add (default q_zero o) q)
    | None => o end)).
  intros t' n m. destruct (s !! n) as [q|]; [destruct (q_is_zero q)|]; destruct (decide (n = m));
    subst; try done; [by rewrite lookup_insert_eq|by rewrite lookup_insert_ne].
Qed.

Lemma sub_lookup (t s : ResourceList Q) name :
  name ∈ counted_resources →
  subtractResourceList t s !! name =
  match s !! name with
  | Some q => if q_is_zero q then t !! name else (λ c, q_sub c q) <$> t !! name
  | None => t !! name
  end.
Proof.
  apply (loop_lookup _ (λ n o, match s !! n with
    | Some q => if q_is_zero q then o else (λ c, q_sub c q) <$> o
    | None => o end)).
  intros t' n m. destruct (s !! n) as [q|]; [destruct (q_is_zero q)|];
    [|destruct (t' !! n) eqn:E|]; destruct (decide (n = m)); subst; try done;
    [by rewrite lookup_insert_eq|by rewrite lookup_insert_ne].
Qed.

Lemma max_lookup (t s : ResourceList Q) name :
  name ∈ counted_resources →
  maxResourceList t s !! name =
  match s !! name with
  | Some q => if q_is_zero q then t !! name
              else if (q_cmp (default q_zero (t !! name)) q <? 0)%Z then Some q else t !! name
  | None => t !! name
  end.
Proof.
  apply (loop_lookup _ (λ n o, match s !! n with
    | Some q => if q_is_zero q then o
                else if (q_cmp (default q_zero o) q <? 0)%Z then Some q else o
    | None => o end)).
  intros t' n m. destruct (s !! n) as [q|]; [destruct (q_is_zero q); [|destruct (_ <? 0)%Z]|];
    destruct (decide (n = m)); subst; try done;
    [by rewrite lookup_insert_eq|by rewrite lookup_insert_ne].
Qed.

Lemma allocatable_lookup (node : Node Q) name :
  name ∈ counted_resources → node_allocatable node !! name = node_Allocatable node !! name.
Proof.
  intros Hn. unfold node_allocatable.
  rewrite (loop_lookup _ (λ n o, match node_Allocatable node !! n with
                                 | Some q => Some q | None => o end)); [|clear Hn|done].
  - rewrite lookup_empty. by destruct (node_Allocatable node !! name).
  - intros t n m. destruct (node_Allocatable node !! n); destruct (decide (n = m)); subst;
      try done; [by rewrite lookup_insert_eq|by rewrite lookup_insert_ne].
Qed.

Lemma amount_default (l : ResourceList Q) name :
  q_val (default q_zero (l !! name)) = amount l name.
Proof. unfold amount. destruct (l !! name); [done|apply q_val_zero]. Qed.

Lemma amount_add (t s : ResourceList Q) name :
  name ∈ counted_resources →
  amount (addResourceList t s) name = (amount t name + amount s name)%Z.
Proof.
  intros Hn. unfold amount at 1 3. rewrite add_lookup by done.
  destruct (s !! name) as [q|]; [|unfold amount; lia].
  destruct (q_is_zero q) eqn:E.
  - apply q_is_zero_val in E. rewrite E. unfold amount. lia.
  - rewrite q_val_add, amount_default. done.
Qed.

Lemma amount_max (t s : ResourceList Q) name :
  name ∈ counted_resources → (0 ≤ amount t name)%Z →
  amount (maxResourceList t s) name = Z.max (amount t name) (amount s name).
Proof.
  intros Hn Ht. pose proof (amount_default t name) as Hd.
  unfold amount at 1 3. rewrite max_lookup by done.
  destruct (s !! name) as [q|]; [|unfold amount in *; lia].
  destruct (q_is_zero q) eqn:E.
  - apply q_is_zero_val in E. rewrite E. unfold amount in *. lia.
  - destruct (Z.ltb_spec (q_cmp (default q_zero (t !! name)) q) 0) as [H|H].
    + apply q_cmp_lt in H. lia.
    + assert (¬ (q_val (default q_zero (t !! name)) < q_val q)%Z)
        by (rewrite <-q_cmp_lt; lia). unfold amount in *. lia.
Qed.

(** No container of the pod asks for a negative amount. *)
Definition requests_nonneg (pod : Pod Q) : Prop :=
  ∀ c name, c ∈ pod_Containers pod ++ pod_InitContainers pod → (0 ≤ amount (ctr_Requests c) name)%Z.

Lemma total_nonneg {A} (f : A → Z) l : (∀ x, x ∈ l → (0 ≤ f x)%Z) → (0 ≤ total f l)%Z.
Proof.
  induction l as [|x l IH]; intros H; simpl; [lia|].
  assert (0 ≤ f x)%Z by (apply H; left). assert (0 ≤ total f l)%Z by (apply IH; intros; apply H; by right).
  lia.
Qed.

Lemma amount_add_all {A} (f : A → ResourceList Q) name l : ∀ t,
  name ∈ counted_resources →
  amount (foldl (λ t x, addResourceList t (f x)) t l) name =
  (amount t name + total (λ x, amount (f x) name) l)%Z.
Proof.
  induction l as [|x l IH]; intros t Hn; simpl; [lia|].
  rewrite IH, amount_add by done. lia.
Qed.

Lemma amount_max_all name (l : list (Container Q)) : ∀ t,
  name ∈ counted_resources → (0 ≤ amount t name)%Z →
  amount (foldl (λ t c, maxResourceList t (ctr_Requests c)) t l) name =
  foldl (λ m c, Z.max m (amount (ctr_Requests c) name)) (amount t name) l.
Proof.
  induction l as [|c l IH]; intros t Hn Ht; simpl; [done|].
  rewrite IH, amount_max by (rewrite ?amount_max; done || lia). done.
Qed.

Lemma amount_empty name : amount ∅ name = 0%Z.
Proof. done. Qed.

Lemma podRequest_amount pod name :
  name ∈ counted_resources → requests_nonneg pod →
  amount (podRequest pod) name = pod_demand name pod.
Proof.
  intros Hn Hpos. unfold podRequest, pod_demand.
  assert (amount (foldl (λ out c, addResourceList out (ctr_Requests c)) ∅ (pod_Containers pod)) name
          = total (λ c, amount (ctr_Requests c) name) (pod_Containers pod)) as E
    by (by rewrite (amount_add_all (λ c, ctr_Requests c)), amount_empty).
  rewrite amount_max_all, E; [done..|]. rewrite E. apply total_nonneg.
  intros c Hc. apply Hpos. apply elem_of_app. by left.
Qed.

Lemma total_ext {A} (f g : A → Z) l : (∀ x, x ∈ l → f x = g x) → total f l = total g l.
Proof.
  induction l as [|x l IH]; intros H; simpl; [done|]. rewrite IH, (H x); [done|left|].
  intros y Hy. apply H. by right.
Qed.

Lemma workload_amount pods name :
  name ∈ counted_resources → Forall requests_nonneg pods →
  amount (failoverWorkloadRequests pods) name = total (pod_demand name) pods.
Proof.
  intros Hn Hpos. unfold failoverWorkloadRequests.
  rewrite amount_add_all, amount_empty, Z.add_0_l by done. apply total_ext.
  intros pod Hp. rewrite Forall_forall in Hpos. auto using podRequest_amount.
Qed.

(** What is left of a resource the node reports. *)
Definition reports (available : gmap string (ResourceList Q)) (node name : string) (q : Z) : Prop :=
  ∃ l v, available !! node = Some l ∧ l !! name = Some v ∧ q_val v = q.

Lemma take_pod_reports out pod node name q :
  name ∈ counted_resources → requests_nonneg pod →
  reports out node name (q + if pod_occupies pod && String.eqb (pod_NodeName pod) node
                             then pod_demand name pod else 0)%Z ↔
  reports (take_pod out pod) node name q.
Proof.
  intros Hn Hpos. unfold take_pod. destruct (pod_occupies pod); cbn [negb andb].
  2: { by rewrite Z.add_0_r. }
  destruct (String.eqb_spec (pod_NodeName pod) node) as [<-|Hne].
  - pose proof (podRequest_amount pod name Hn Hpos) as Hd. unfold amount in Hd.
    unfold reports. destruct (out !! pod_NodeName pod) as [l|] eqn:El.
    2: { rewrite El. split; intros (? & ? & ? & _); discriminate. }
    rewrite lookup_insert_eq. split.
    + intros (l' & v & [= <-] & Hv & Hq). exists (subtractResourceList l (podRequest pod)).
      rewrite sub_lookup by done.
      destruct (podRequest pod !! name) as [r|].
      * destruct (q_is_zero r) eqn:E.
        -- apply q_is_zero_val in E. exists v. split; [done|]. split; [done|lia].
        -- rewrite Hv. simpl. eexists. split; [done|]. split; [done|].
           rewrite q_val_sub. lia.
      * exists v. split; [done|]. split; [done|lia].
    + intros (l' & v & [= <-] & Hv & Hq). rewrite sub_lookup in Hv by done. exists l.
      destruct (podRequest pod !! name) as [r|].
      * destruct (q_is_zero r) eqn:E.
        -- apply q_is_zero_val in E. exists v. split; [done|]. split; [done|lia].
        -- destruct (l !! name) as [w|] eqn:Ew; [|done]. injection Hv as <-.
           rewrite q_val_sub in Hq. exists w. split; [done|]. split; [done|lia].
      * exists v. split; [done|]. split; [done|lia].
  - rewrite Z.add_0_r. unfold reports. destruct (out !! pod_NodeName pod); [|done].
    by rewrite lookup_insert_ne.
Qed.

Lemma take_pods_reports pods : ∀ out node name q,
  name ∈ counted_resources → Forall requests_nonneg pods →
  reports out node name (q + node_usage node name pods) ↔
  reports (foldl take_pod out pods) node name q.
Proof.
  induction pods as [|pod pods IH]; intros out node name q Hn Hpos; simpl.
  - by rewrite Z.add_0_r.
  - apply Forall_cons in Hpos as [Hp Hpos]. rewrite <-IH, <-take_pod_reports by done.
    unfold node_usage. simpl. by rewrite <-Z.add_assoc, (Z.add_comm (total _ _)).
Qed.

Lemma nodes_lookup (nodes : list (Node Q)) node :
  NoDup (map node_Name nodes) → node ∈ nodes →
  allocatable_by_node nodes !! node_Name node = Some (node_allocatable node).
Proof.
  unfold allocatable_by_node.
  induction nodes as [|x nodes IH] using rev_ind; intros Hnd Hin; [by apply elem_of_nil in Hin|].
  rewrite foldl_snoc. rewrite map_app in Hnd. apply NoDup_app in Hnd as (Hnd & Hx & _).
  apply elem_of_app in Hin as [Hin| ->%list_elem_of_singleton].
  - rewrite lookup_insert_ne; [auto|]. intros E. apply (Hx (node_Name node)).
    + apply list_elem_of_In, in_map, list_elem_of_In, Hin.
    + rewrite <-E. left.
  - by rewrite lookup_insert_eq.
Qed.

Lemma take_pod_dom out pod : dom (take_pod out pod) = dom out.
Proof.
  unfold take_pod. destruct (negb _); [done|]. destruct (out !! pod_NodeName pod) eqn:E; [|done].
  apply dom_insert_lookup_L. eauto.
Qed.

Lemma take_pods_dom pods : ∀ out, dom (foldl take_pod out pods) = dom out.
Proof. induction pods as [|p l IH]; intros out; simpl; [done|]. by rewrite IH, take_pod_dom. Qed.

Lemma size_pos {A} (m : gmap string A) k x : m !! k = Some x → no_entries m = false.
Proof.
  intros H. unfold no_entries. apply Nat.eqb_neq. intros E%map_size_empty_inv. subst. done.
Qed.

Lemma no_entries_lookup {A} (m : gmap string A) k : no_entries m = true → m !! k = None.
Proof. unfold no_entries. intros H%Nat.eqb_eq%map_size_empty_inv. by subst. Qed.

(** [nodeFitsRequests], resource by resource. *)
Lemma fits_spec node requests (available : gmap string (ResourceList Q)) :
  nodeFitsRequests node requests available = true ↔
  ∀ name, name ∈ counted_resources →
    amount requests name = 0%Z ∨
    ∀ free, reports available node name free → free = 0%Z ∨ (amount requests name ≤ free)%Z.
Proof.
  assert (∀ l name, available !! node = Some l →
    resource_fits requests l name = true ↔
    amount requests name = 0%Z ∨
    ∀ free, reports available node name free → free = 0%Z ∨ (amount requests name ≤ free)%Z) as Hone.
  { intros l name El. unfold resource_fits, amount, reports.
    destruct (requests !! name) as [r|]; [|naive_solver].
    destruct (q_is_zero r) eqn:Er; [apply q_is_zero_val in Er; naive_solver|].
    assert (q_val r ≠ 0%Z) as Hr by (rewrite <-q_is_zero_val; congruence).
    destruct (l !! name) as [v|] eqn:Ev; [|naive_solver].
    destruct (q_is_zero v) eqn:Ez; [apply q_is_zero_val in Ez; naive_solver|].
    assert (q_val v ≠ 0%Z) as Hv by (rewrite <-q_is_zero_val; congruence).
    rewrite negb_true_iff, Z.ltb_ge.
    assert ((0 ≤ q_cmp v r)%Z ↔ ¬ (q_val v < q_val r)%Z) as ->
      by (rewrite <-q_cmp_lt; lia).
    split; [intros H; right; intros ? (? & ? & ? & ? & <-); simplify_eq; lia|].
    intros [?|H]; [done|]. destruct (H (q_val v)); [eauto|done|lia]. }
  unfold nodeFitsRequests. destruct (no_entries requests) eqn:Er.
  { split; [|done]. intros _ name _. left. unfold amount. by rewrite no_entries_lookup. }
  destruct (no_entries available) eqn:Ea.
  { split; [|done]. intros _ name _. right. intros free (l & v & H & _).
    by rewrite no_entries_lookup in H. }
  cbn [orb]. destruct (available !! node) as [l|] eqn:El.
  2: { split; [|done]. intros _ name _. right. intros free (l & v & H & _). congruence. }
  destruct (no_entries l) eqn:Ell.
  { split; [|done]. intros _ name _. right. intros free (l' & v & H & Hv & _).
    assert (l' = l) as -> by congruence. by rewrite no_entries_lookup in Hv. }
  rewrite forallb_forall. setoid_rewrite <-list_elem_of_In.
  split; intros H name Hn; by eapply Hone, H.
Qed.

(** The controller's resource accounting.  A node admits the pods of a
    claim exactly when, for CPU and for memory, the pods ask for nothing,
    or the node does not report the resource, or what is allocatable
    minus what the pods bound to the node use is exactly zero (the code
    takes that for "unknown"), or it covers the request; a pod counts for
    the larger of the sum of its containers and its largest init
    container, and finished pods count for nothing. *)
Theorem node_fits_accounting nodes node allPods claimPods :
  NoDup (map node_Name nodes) → node ∈ nodes →
  Forall requests_nonneg allPods → Forall requests_nonneg claimPods →
  nodeFitsRequests (node_Name node) (failoverWorkloadRequests claimPods)
    (nodeAvailableResources nodes allPods) = true ↔
  ∀ name, name ∈ [ResourceCPU; ResourceMemory] →
    let wanted := total (pod_demand name) claimPods in
    wanted = 0%Z ∨
    ∀ q, node_Allocatable node !! name = Some q →
      let free := (q_val q - node_usage (node_Name node) name allPods)%Z in
      free = 0%Z ∨ (wanted ≤ free)%Z.
Proof.
  intros Hnd Hin Hall Hclaim. rewrite fits_spec. apply forall_proper. intros name.
  assert (∀ n, name ∈ counted_resources →
    reports (nodeAvailableResources nodes allPods) (node_Name node) name n ↔
    ∃ q, node_Allocatable node !! name = Some q ∧
         (q_val q - node_usage (node_Name node) name allPods = n)%Z) as Hrep.
  { intros n Hn. unfold nodeAvailableResources. rewrite <-take_pods_reports by done.
    unfold reports. rewrite nodes_lookup by done. rewrite <-(allocatable_lookup node name) by done.
    split; [intros (l & v & [= <-] & Hv & E); exists v; split; [done|lia]|].
    intros (v & Hv & E). eexists _, v. split; [done|]. split; [done|lia]. }
  split; intros H Hn; specialize (H Hn); cbv zeta in *;
    rewrite workload_amount in * by done; (destruct H as [H|H]; [by left|right]).
  - intros q Hq. apply H, Hrep; eauto.
  - intros free (q & Hq & <-)%Hrep; [auto|done].
Qed.

End laws.

(** A cluster to evaluate the accounting on: one node with 4 units of
    CPU, 3 of them in use. *)
Definition example_pod (node : string) (cpu : Z) : Pod Z :=
  mkPod "ns" "p" 0 node [] [] [mkContainer [] None {[ResourceCPU := cpu]}] None PodRunning "" [].
Definition example_node : Node Z := mkNode "n1" ∅ false [] {[ResourceCPU := 4%Z]}.

Lemma node_fits_accounting_witness :
  nodeFitsRequests "n1" (failoverWorkloadRequests [example_pod "" 2])
    (nodeAvailableResources [example_node] [example_pod "n1" 3]) = false.
Proof.
  assert (∀ n z, (0 ≤ z)%Z → Forall requests_nonneg [example_pod n z]) as Hpos.
  { intros n z Hz. repeat constructor. intros c name Hc.
    apply list_elem_of_singleton in Hc as ->. unfold amount. cbn [ctr_Requests].
    destruct (decide (name = ResourceCPU)) as [->|Hne].
    - by rewrite lookup_singleton_eq.
    - by rewrite lookup_singleton_ne. }
  apply not_true_is_false. intros H.
  assert (NoDup (map node_Name [example_node])) as Hnd by (apply NoDup_singleton).
  assert (example_node ∈ [example_node]) as Hin by left.
  destruct (proj1 (node_fits_accounting [example_node] example_node [example_pod "n1" 3]
    [example_pod "" 2] Hnd Hin (Hpos "n1" 3%Z ltac:(lia)) (Hpos "" 2%Z ltac:(lia))) H ResourceCPU) as [H0|H0];
    [left|vm_compute in H0; discriminate|].
  destruct (H0 4%Z eq_refl) as [H1|H1]; vm_compute in H1; [discriminate|by apply H1].
Defined.

(** A node whose CPU is used up to the last unit is accepted as a
    target for any request. *)
Theorem exhausted_node_fits (cpu : Z) :
  nodeFitsRequests "n1" (failoverWorkloadRequests [example_pod "" cpu])
    (nodeAvailableResources [example_node] [example_pod "n1" 4]) = true.
Proof.
  apply fits_spec. intros name Hn. right. intros free (l & v & Hl & Hv & Hf).
  vm_compute in Hl. injection Hl as <-. left. rewrite <-Hf.
  unfold counted_resources in Hn. rewrite elem_of_cons, list_elem_of_singleton in Hn.
  destruct Hn as [-> | ->]; vm_compute in Hv; [by injection Hv as <-|discriminate].
Qed.

End Resources.
