(* ===== verification/Failover.v ===== *)
(** * The failover controller

    [internal/controller/failover_controller.go]: which node a claim
    fails over to, and the reconciliation of one claim and of all
    claims.  The maps the controller shares with the replication
    controller under [mu] are the record [shared]; the programs reach
    them through the calls [FreshnessOf], [DemotedOf] and
    [RecordDemoted].  The map [seen] belongs to the reconcile loop alone
    and is passed along. *)
From S2P Require Import Prelude GoStrings GoTime Labels Effects Kube Claims Resources.

Module Failover.
Import Str Labels Claims Resources.

(** ** The state behind the mutex *)
Record shared : Type := mkShared {
  sh_freshness : gmap string (gmap string ReplicaFreshness);
  sh_demoted : gmap string (gmap string bool);
}.

(** [RecordReplicaFreshness] *)
Definition RecordReplicaFreshness (namespace volume node : string) (lastSuccessfulSync : Z)
    (healthy : bool) (c : shared) : shared :=
  if String.eqb volume "" || String.eqb node "" || Time.IsZero lastSuccessfulSync then c
  else
    let key := volumeKey namespace volume in
    let nodes := default ∅ (sh_freshness c !! key) in
    mkShared (<[key := <[node := mkFreshness lastSuccessfulSync healthy]> nodes]> (sh_freshness c))
             (sh_demoted c).

(** [ShouldBackupBeforeRestore] *)
Definition ShouldBackupBeforeRestore (namespace volume node : string) (c : shared) : bool :=
  flag (default ∅ (sh_demoted c !! volumeKey namespace volume)) node.

(** [MarkRestored] *)
Definition MarkRestored (namespace volume node : string) (c : shared) : shared :=
  match sh_demoted c !! volumeKey namespace volume with
  | None => c
  | Some nodes =>
      let nodes' := delete node nodes in
      mkShared (sh_freshness c)
        (if no_entries nodes' then delete (volumeKey namespace volume) (sh_demoted c)
         else <[volumeKey namespace volume := nodes']> (sh_demoted c))
  end.

(** [recordDemoted] *)
Definition recordDemoted (pvc : PersistentVolumeClaim) (node : string) (c : shared) : shared :=
  if String.eqb node "" || String.eqb (pvc_VolumeName pvc) "" then c
  else
    let key := volumeKey (pvc_Namespace pvc) (pvc_VolumeName pvc) in
    let nodes := default ∅ (sh_demoted c !! key) in
    mkShared (sh_freshness c) (<[key := <[node := true]> nodes]> (sh_demoted c)).

(** [freshnessForPVC] and [demotedForPVC] copy the inner map. *)
Definition freshnessForPVC (pvc : PersistentVolumeClaim) (c : shared) : gmap string ReplicaFreshness :=
  default ∅ (sh_freshness c !! volumeKey (pvc_Namespace pvc) (pvc_VolumeName pvc)).

Definition demotedForPVC (pvc : PersistentVolumeClaim) (c : shared) : gmap string bool :=
  default ∅ (sh_demoted c !! volumeKey (pvc_Namespace pvc) (pvc_VolumeName pvc)).

(** ** Choosing the target *)
Record FailoverCandidate : Type := mkFailoverCandidate {
  fc_Node : string;
  fc_Freshness : ReplicaFreshness;
}.

Record FailoverDecision : Type := mkFailoverDecision {
  fd_Promote : bool;
  fd_TargetNode : string;
  fd_Reason : string;
}.

Definition zero_freshness : ReplicaFreshness := mkFreshness 0 false.

Section select.
Context {Q : Type} `{!QuantityOps Q}.

(** The nodes of the pods that use the claim. *)
Definition blocked_nodes (pods : list (Pod Q)) : gmap string bool :=
  foldl (λ blocked pod, if negb (String.eqb (pod_NodeName pod) "")
                        then <[pod_NodeName pod := true]> blocked else blocked) ∅ pods.

(** The body of the second loop of [failoverCandidates]. *)
Definition candidate_of (blocked readyNodes : gmap string bool)
    (freshness : gmap string ReplicaFreshness) (demoted : gmap string bool)
    (maxStaleness now : Z) (requests : ResourceList Q) (available : gmap string (ResourceList Q))
    (node : string) : option FailoverCandidate :=
  if negb (flag readyNodes node) || flag blocked node || flag demoted node then None
  else
    let replica := default zero_freshness (freshness !! node) in
    if negb (fr_Healthy replica) || Time.IsZero (fr_LastSuccessfulSync replica) then None
    else if (0 <? maxStaleness)%Z &&
            (maxStaleness <? Time.Sub now (fr_LastSuccessfulSync replica))%Z then None
    else if negb (nodeFitsRequests node requests available) then None
    else Some (mkFailoverCandidate node replica).

(** [failoverCandidates]; the order of a Go map's keys is arbitrary,
    here it is that of [map_to_list]. *)
Definition failoverCandidates (pods : list (Pod Q)) (agents : gmap string (Pod Q))
    (readyNodes : gmap string bool) (freshness : gmap string ReplicaFreshness)
    (demoted : gmap string bool) (maxStaleness now : Z)
    (requests : ResourceList Q) (available : gmap string (ResourceList Q))
  : list FailoverCandidate :=
  omap (candidate_of (blocked_nodes pods) readyNodes freshness demoted maxStaleness now
          requests available)
       (map fst (map_to_list agents)).

(** The comparison of [SelectFailoverTargetFromCandidates]. *)
Definition fresher_candidate (a b : FailoverCandidate) : bool :=
  if Time.Equal (fr_LastSuccessfulSync (fc_Freshness a)) (fr_LastSuccessfulSync (fc_Freshness b))
  then str_lt (fc_Node a) (fc_Node b)
  else Time.After (fr_LastSuccessfulSync (fc_Freshness a)) (fr_LastSuccessfulSync (fc_Freshness b)).

(** [SelectFailoverTargetFromCandidates] *)
Definition SelectFailoverTargetFromCandidates (candidates : list FailoverCandidate)
    (priority : list string) : FailoverDecision :=
  let byNode : gmap string FailoverCandidate :=
    foldl (λ m c, <[fc_Node c := c]> m) ∅ candidates in
  match find (λ node, bool_decide (is_Some (byNode !! node))) priority with
  | Some node => mkFailoverDecision true node "PreferredFreshReplicaNode"
  | None =>
      match stable_sort fresher_candidate candidates with
      | [] => mkFailoverDecision false "" "NoReadyReplicaNode"
      | c :: _ => mkFailoverDecision true (fc_Node c) "FreshReplicaNode"
      end
  end.

(** [SelectFailoverTarget] *)
Definition SelectFailoverTarget (pods : list (Pod Q)) (agents : gmap string (Pod Q))
    (readyNodes : gmap string bool) (freshness : gmap string ReplicaFreshness)
    (maxStaleness now : Z) : FailoverDecision :=
  SelectFailoverTargetFromCandidates
    (failoverCandidates pods agents readyNodes freshness ∅ maxStaleness now ∅ ∅) [].

(** The test both loops of [initialActiveNode] make of an agent's node. *)
Definition node_usable (agents : gmap string (Pod Q)) (readyNodes : gmap string bool)
    (requests : ResourceList Q) (available : gmap string (ResourceList Q)) (node : string) : bool :=
  bool_decide (is_Some (agents !! node)) && flag readyNodes node &&
  nodeFitsRequests node requests available.

(** [initialActiveNode] *)
Definition initialActiveNode (agents : gmap string (Pod Q)) (readyNodes : gmap string bool)
    (priority : list string) (requests : ResourceList Q)
    (available : gmap string (ResourceList Q)) : string :=
  match find (node_usable agents readyNodes requests available) priority with
  | Some node => node
  | None =>
      let nodes := filter (λ node, flag readyNodes node && nodeFitsRequests node requests available = true)
                          (map fst (map_to_list agents)) in
      match stable_sort str_lt nodes with
      | [] => ""
      | node :: _ => node
      end
  end.

End select.

(** ** Workloads that want the claim *)

(** [statefulSetVolumeClaimMatches] *)
Definition statefulSetVolumeClaimMatches (statefulSet : Workload) (claim : string) : bool :=
  existsb (λ template,
    String.eqb template claim ||
    HasPrefix claim (template +:+ "-" +:+ wl_Name statefulSet +:+ "-"))
    (wl_ClaimTemplates statefulSet).

(** [desiredReplicas] *)
Definition desiredReplicas (replicas : option Z) (defaultValue : Z) : Z :=
  match replicas with None => defaultValue | Some n => n end.

(** [podTemplateUsesClaim] *)
Definition podTemplateUsesClaim (w : Workload) (claim : string) : bool :=
  volumes_use_claim (wl_TemplateVolumes w) claim.

(** The condition of each of the four loops of
    [claimHasDesiredConsumer]. *)
Definition workload_wants (kind : workload_kind) (claim : string) (w : Workload) : bool :=
  match kind with
  | Deployments | ReplicaSets =>
      (0 <? desiredReplicas (wl_Replicas w) 1)%Z && podTemplateUsesClaim w claim
  | StatefulSets =>
      (0 <? desiredReplicas (wl_Replicas w) 1)%Z &&
      (podTemplateUsesClaim w claim || statefulSetVolumeClaimMatches w claim)
  | DaemonSets => podTemplateUsesClaim w claim
  end.

(** ** Programs *)
Section progs.
Context {Q : Type} `{!QuantityOps Q}.
Abbreviation ctl A := (prog (ctl_sig Q) A).
Abbreviation do_call o := (ctl_call Q o).

(** [claimHasDesiredConsumer] *)
Fixpoint workloads_want (kinds : list workload_kind) (pvc : PersistentVolumeClaim)
  : ctl (result bool) :=
  match kinds with
  | [] => Ret (Ok false)
  | kind :: kinds' =>
      items <-! do_call (ListWorkloads kind (pvc_Namespace pvc)) ;;
      if existsb (workload_wants kind (pvc_Name pvc)) items then Ret (Ok true)
      else workloads_want kinds' pvc
  end.

Definition claimHasDesiredConsumer (pvc : PersistentVolumeClaim) (usingClaim : list (Pod Q))
  : ctl (result bool) :=
  if Nat.ltb 0 (length usingClaim) then Ret (Ok true)
  else workloads_want [Deployments; StatefulSets; ReplicaSets; DaemonSets] pvc.

(** The annotations both promotion functions set. *)
Definition set_active (targetNode previousActive : string) (m : gmap string string)
  : gmap string string :=
  let m := <[AnnotationActiveNode := targetNode]> m in
  if negb (String.eqb previousActive "") then <[AnnotationPreviousActiveNode := previousActive]> m
  else m.

(** [promotePVCState] *)
Definition promotePVCState (pvc : PersistentVolumeClaim) (targetNode previousActive : string)
  : ctl (result unit) :=
  latestPVC <-! do_call (GetPVC (pvc_Namespace pvc) (pvc_Name pvc)) ;;
  let annotations := delete AnnotationSelectedNode
                       (set_active targetNode previousActive (pvc_Annotations latestPVC)) in
  let updatedPVC := mkPVC (pvc_Namespace latestPVC) (pvc_Name latestPVC) annotations
                      (pvc_StorageClassName latestPVC) (pvc_VolumeName latestPVC) in
  if negb (bool_decide (pvc_Annotations latestPVC = annotations)) then
    _ <-! do_call (UpdatePVC updatedPVC) ;; Ret (Ok tt)
  else Ret (Ok tt).

(** [promoteStorageState] *)
Definition promoteStorageState (pvc : PersistentVolumeClaim) (targetNode previousActive : string)
  : ctl (result unit) :=
  if String.eqb (pvc_VolumeName pvc) "" then
    Ret (Err (Errorf "pvc %s/%s has no bound volume" [pvc_Namespace pvc; pvc_Name pvc]))
  else
    pv <-! do_call (GetPV (pvc_VolumeName pvc)) ;;
    let annotations := set_active targetNode previousActive (pv_Annotations pv) in
    _ <-! (if negb (bool_decide (pv_Annotations pv = annotations)) then
             do_call (UpdatePV (mkPV (pv_Name pv) annotations))
           else Ret (Ok tt)) ;;
    promotePVCState pvc targetNode previousActive.

(** [recordActiveNode] *)
Definition recordActiveNode (pvc : PersistentVolumeClaim) (targetNode previousActive : string)
  : ctl (result unit) :=
  if String.eqb (pvc_VolumeName pvc) "" then promotePVCState pvc targetNode previousActive
  else promoteStorageState pvc targetNode previousActive.

(** The patch [reconcileNodeLabels] computes for one node. *)
Definition label_patch_for (roleLabel candidateLabel activeNode : string)
    (candidateNodes : gmap string bool) (node : Node Q) : label_patch :=
  let patchLabels : label_patch := ∅ in
  let patchLabels :=
    if String.eqb (node_Name node) activeNode && negb (String.eqb activeNode "") then
      if negb (String.eqb (annotation (node_Labels node) roleLabel) "active")
      then <[roleLabel := Some "active"]> patchLabels else patchLabels
    else if bool_decide (is_Some (node_Labels node !! roleLabel))
         then <[roleLabel := None]> patchLabels else patchLabels in
  if flag candidateNodes (node_Name node) then
    if negb (String.eqb (annotation (node_Labels node) candidateLabel) "true")
    then <[candidateLabel := Some "true"]> patchLabels else patchLabels
  else if bool_decide (is_Some (node_Labels node !! candidateLabel))
       then <[candidateLabel := None]> patchLabels else patchLabels.

Definition candidate_set (candidates : list FailoverCandidate) : gmap string bool :=
  foldl (λ m c, <[fc_Node c := true]> m) ∅ candidates.

(** [reconcileNodeLabels] *)
Definition reconcileNodeLabels (pvc : PersistentVolumeClaim) (activeNode : string)
    (candidates : list FailoverCandidate) : ctl (result unit) :=
  nodes <-! do_call ListNodes ;;
  let roleLabel := RoleLabel (pvc_Namespace pvc) (pvc_Name pvc) in
  let candidateLabel := CandidateLabel (pvc_Namespace pvc) (pvc_Name pvc) in
  try_each nodes (λ node,
    let patch := label_patch_for roleLabel candidateLabel activeNode (candidate_set candidates) node in
    if no_entries patch then Ret (Ok tt)
    else do_call (PatchNode (node_Name node) patch)).

(** [promoteNodeLabel] *)
Definition promoteNodeLabel (pvc : PersistentVolumeClaim) (targetNode : string) : ctl (result unit) :=
  reconcileNodeLabels pvc targetNode [].

(** [c.recordDemoted(pvc, node)] as a call. *)
Definition record_demoted_call (pvc : PersistentVolumeClaim) (node : string) : ctl unit :=
  if String.eqb node "" || String.eqb (pvc_VolumeName pvc) "" then Ret tt
  else do_call (RecordDemoted (volumeKey (pvc_Namespace pvc) (pvc_VolumeName pvc)) node).

(** The last loop of [reconcilePVC]. *)
Definition evict (pvc : PersistentVolumeClaim) (target : string) (pod : Pod Q) : ctl (result unit) :=
  if String.eqb (pod_NodeName pod) "" || String.eqb (pod_NodeName pod) target then Ret (Ok tt)
  else
    record_demoted_call pvc (pod_NodeName pod) ;;;
    err <- do_call (DeletePod (pod_Namespace pod) (pod_Name pod)) ;;
    match err with
    | Err e => if IsNotFound e then Ret (Ok tt) else Ret (Err e)
    | Ok _ => Ret (Ok tt)
    end.

Definition first_nonempty (a b : string) : string := if String.eqb a "" then b else a.

(** The active node [reconcilePVC] settles on: the node of a healthy pod,
    else the recorded one, else the scheduler's, else a first choice. *)
Definition claim_active_node (pvc : PersistentVolumeClaim) (agents : gmap string (Pod Q))
    (readyNodes : gmap string bool) (usingClaim : list (Pod Q)) (requests : ResourceList Q)
    (available : gmap string (ResourceList Q)) (hasDemand : bool) : string :=
  let activeNode := healthyClaimPodNode usingClaim readyNodes in
  let activeNode := first_nonempty activeNode
                      (TrimSpace (annotation (pvc_Annotations pvc) AnnotationActiveNode)) in
  let activeNode := first_nonempty activeNode
                      (TrimSpace (annotation (pvc_Annotations pvc) AnnotationSelectedNode)) in
  if String.eqb activeNode "" && hasDemand
  then initialActiveNode agents readyNodes (failoverNodePriority pvc) requests available
  else activeNode.

(** The end of [reconcilePVC], from the decision on. *)
Definition promote_claim (pvc : PersistentVolumeClaim) (usingClaim : list (Pod Q))
    (candidates : list FailoverCandidate) (activeNode : string) (seen : gmap string Z)
  : ctl (gmap string Z * result unit) :=
  let decision := SelectFailoverTargetFromCandidates candidates (failoverNodePriority pvc) in
  if negb (fd_Promote decision) then
    Ret (seen, Err (Errorf "failover blocked: %s" [fd_Reason decision]))
  else
    let target := fd_TargetNode decision in
    let previousActive := activeNodeFromPods usingClaim target in
    let previousActive :=
      if String.eqb previousActive "" && negb (String.eqb activeNode "") &&
         negb (String.eqb activeNode target) then activeNode else previousActive in
    _ <-[seen] promoteStorageState pvc target previousActive ;;
    _ <-[seen] promoteNodeLabel pvc target ;;
    _ <-[seen] try_each usingClaim (evict pvc target) ;;
    Ret (delete (pvcKey pvc) seen, Ok tt).

(** The part of [reconcilePVC] that keeps the timer of the outage. *)
Definition failover_if_due (pvc : PersistentVolumeClaim) (usingClaim : list (Pod Q))
    (readyNodes : gmap string bool) (candidates : list FailoverCandidate) (activeNode : string)
    (hasDemand : bool) (now : Z) (seen : gmap string Z) : ctl (gmap string Z * result unit) :=
  if negb hasDemand then Ret (delete (pvcKey pvc) seen, Ok tt)
  else if hasHealthyClaimPod usingClaim readyNodes then Ret (delete (pvcKey pvc) seen, Ok tt)
  else
    match seen !! pvcKey pvc with
    | None => Ret (<[pvcKey pvc := now]> seen, Ok tt)
    | Some firstSeen =>
        if (Time.Sub now firstSeen <? failoverGracePeriod pvc)%Z then Ret (seen, Ok tt)
        else promote_claim pvc usingClaim candidates activeNode seen
    end.

(** [reconcilePVC] *)
Definition reconcilePVC (pvc : PersistentVolumeClaim) (agents : gmap string (Pod Q))
    (readyNodes : gmap string bool) (available : gmap string (ResourceList Q)) (now : Z)
    (seen : gmap string Z) : ctl (gmap string Z * result unit) :=
  pods <-[seen] do_call (ListPods (pvc_Namespace pvc) "") ;;
  let usingClaim := podsUsingClaim pods (pvc_Name pvc) in
  let key := volumeKey (pvc_Namespace pvc) (pvc_VolumeName pvc) in
  freshness <- do_call (FreshnessOf key) ;;
  demoted <- do_call (DemotedOf key) ;;
  let requests := failoverWorkloadRequests usingClaim in
  let candidates := failoverCandidates usingClaim agents readyNodes freshness demoted
                      (failoverMaxStaleness pvc) now requests available in
  hasDemand <-[seen] claimHasDesiredConsumer pvc usingClaim ;;
  let activeNode := claim_active_node pvc agents readyNodes usingClaim requests available hasDemand in
  _ <-[seen] (if negb (String.eqb activeNode "") then recordActiveNode pvc activeNode ""
              else Ret (Ok tt)) ;;
  _ <-[seen] reconcileNodeLabels pvc activeNode candidates ;;
  failover_if_due pvc usingClaim readyNodes candidates activeNode hasDemand now seen.

(** [Reconcile]; the error of one claim is logged and the next claim is
    tried. *)
Definition Reconcile (cfg : ReplicationControllerConfig) (now : Z) (seen : gmap string Z)
  : ctl (gmap string Z * result unit) :=
  pvcs <-[seen] do_call ListPVCs ;;
  agentPods <-[seen] do_call (ListPods (cfg_Namespace cfg) (cfg_AgentLabelSelector cfg)) ;;
  nodes <-[seen] do_call ListNodes ;;
  let readyNodes := readyNodeSet nodes in
  let agents := readyAgentPods agentPods in
  allPods <-[seen] do_call (ListPods "" "") ;;
  let available := nodeAvailableResources nodes allPods in
  seen' <- fold_prog pvcs (λ seen pvc,
    if negb (failoverEnabled pvc (cfg_StorageClassName cfg)) then Ret seen
    else r <- reconcilePVC pvc agents readyNodes available now seen ;; Ret (fst r)) seen ;;
  Ret (seen', Ok tt).

End progs.

(** ** Eligibility, stated without the code *)
Section eligibility.
Context {Q : Type} `{!QuantityOps Q}.

(** A node that may take over the claim at time [now], whose replica was
    last synchronised at [t]. *)
Record eligible (pods : list (Pod Q)) (agents : gmap string (Pod Q))
    (readyNodes : gmap string bool) (freshness : gmap string ReplicaFreshness)
    (demoted : gmap string bool) (maxStaleness now : Z)
    (requests : ResourceList Q) (available : gmap string (ResourceList Q))
    (node : string) (t : Z) : Prop := {
  el_agent : is_Some (agents !! node);
  el_ready : flag readyNodes node = true;
  el_unused pod : pod ∈ pods → pod_NodeName pod ≠ "" → pod_NodeName pod ≠ node;
  el_not_demoted : flag demoted node = false;
  el_fresh : freshness !! node = Some (mkFreshness t true);
  el_synced : t ≠ 0%Z;
  el_recent : (0 < maxStaleness → Time.Sub now t ≤ maxStaleness)%Z;
  el_fits : nodeFitsRequests node requests available = true;
}.

Lemma blocked_nodes_spec (pods : list (Pod Q)) n :
  flag (blocked_nodes pods) n = true ↔
  ∃ pod, pod ∈ pods ∧ pod_NodeName pod ≠ "" ∧ pod_NodeName pod = n.
Proof.
  unfold blocked_nodes, flag. induction pods as [|p pods IH] using rev_ind.
  - split; [done|]. by intros (? & ?%elem_of_nil & _).
  - rewrite foldl_snoc. setoid_rewrite elem_of_app. setoid_rewrite list_elem_of_singleton.
    destruct (String.eqb_spec (pod_NodeName p) "") as [E|E]; cbn [negb].
    + rewrite IH. naive_solver.
    + destruct (decide (pod_NodeName p = n)) as [<-|Hne].
      * rewrite lookup_insert_eq. naive_solver.
      * rewrite lookup_insert_ne by done. rewrite IH. naive_solver.
Qed.

Section context.
Context (pods : list (Pod Q)) (agents : gmap string (Pod Q)).
Context (readyNodes : gmap string bool) (freshness : gmap string ReplicaFreshness).
Context (demoted : gmap string bool) (maxStaleness now : Z).
Context (requests : ResourceList Q) (available : gmap string (ResourceList Q)).
Abbreviation candidates :=
  (failoverCandidates pods agents readyNodes freshness demoted maxStaleness now requests available).
Abbreviation eligible_at :=
  (eligible pods agents readyNodes freshness demoted maxStaleness now requests available).

Lemma candidate_of_spec node c :
  is_Some (agents !! node) →
  candidate_of (blocked_nodes pods) readyNodes freshness demoted maxStaleness now
    requests available node = Some c ↔
  ∃ t, c = mkFailoverCandidate node (mkFreshness t true) ∧ eligible_at node t.
Proof.
  intros Hag. unfold candidate_of.
  destruct (flag readyNodes node) eqn:Er; cbn [negb orb].
  2: { split; [done|]. intros (t & _ & []). congruence. }
  destruct (flag (blocked_nodes pods) node) eqn:Eb; cbn [orb].
  { split; [done|]. intros (t & _ & []).
    apply blocked_nodes_spec in Eb as (pod & Hp & Hne & He). by destruct (el_unused0 pod). }
  destruct (flag demoted node) eqn:Ed; cbn [orb].
  { split; [done|]. intros (t & _ & []). congruence. }
  destruct (freshness !! node) as [[t h]|] eqn:Ef; cbn [default from_option id fr_Healthy fr_LastSuccessfulSync].
  2: { split; [done|]. intros (t & _ & []). congruence. }
  destruct h; cbn [negb orb]; [|split; [done|]; intros (t' & _ & []); congruence].
  unfold Time.IsZero. destruct (Z.eqb_spec t 0) as [Ez|Ez].
  { split; [done|]. intros (t' & _ & []). congruence. }
  destruct (Z.ltb_spec 0 maxStaleness) as [Hm|Hm], (Z.ltb_spec maxStaleness (Time.Sub now t)) as [Hs|Hs];
    cbn [andb]; try (split; [done|]; intros (t' & _ & []);
                     assert (t' = t) as -> by congruence; lia);
    (destruct (nodeFitsRequests node requests available) eqn:Efit; cbn [negb];
     [|split; [done|]; intros (t' & _ & []); congruence]);
    (split;
     [ intros [= <-]; exists t; split; [done|]; split; try done;
       try lia; intros pod Hp Hne E; assert (flag (blocked_nodes pods) node = true)
           by (apply blocked_nodes_spec; eauto); congruence
     | intros (t' & -> & []); congruence ]).
Qed.

Lemma candidates_spec c :
  c ∈ candidates ↔
  ∃ t, c = mkFailoverCandidate (fc_Node c) (mkFreshness t true) ∧ eligible_at (fc_Node c) t.
Proof.
  unfold failoverCandidates. rewrite list_elem_of_omap. split.
  - intros (node & Hin & Hc). apply list_elem_of_In, in_map_iff in Hin as ([n p] & <- & Hin).
    apply list_elem_of_In, elem_of_map_to_list in Hin.
    apply candidate_of_spec in Hc as (t & -> & He); [|by eauto]. by exists t.
  - intros (t & Hc & He). pose proof (el_agent _ _ _ _ _ _ _ _ _ _ _ He) as [p Hp].
    exists (fc_Node c). split.
    + apply list_elem_of_In, in_map_iff. exists (fc_Node c, p). split; [done|].
      by apply list_elem_of_In, elem_of_map_to_list.
    + apply candidate_of_spec; [by eauto|]. by exists t.
Qed.

Lemma candidates_nodup : NoDup (map fc_Node candidates).
Proof.
  unfold failoverCandidates.
  assert (∀ l, (∀ n, n ∈ l → is_Some (agents !! n)) → NoDup l →
    NoDup (map fc_Node (omap (candidate_of (blocked_nodes pods) readyNodes freshness demoted
      maxStaleness now requests available) l))) as H.
  { induction l as [|n l IH]; intros Hag Hnd; [constructor|]. apply NoDup_cons in Hnd as [Hn Hnd].
    cbn [omap list_omap]. destruct (candidate_of _ _ _ _ _ _ _ _ n) as [c|] eqn:E;
      [|apply IH; [intros; apply Hag; by right|done]].
    apply candidate_of_spec in E as (t & -> & _); [|apply Hag; left].
    cbn [map fc_Node]. apply NoDup_cons. split; [|apply IH; [intros; apply Hag; by right|done]].
    intros Hin. apply list_elem_of_In, in_map_iff in Hin as (c & Ec & Hin).
    apply list_elem_of_In, list_elem_of_omap in Hin as (m & Hm & Hc).
    apply candidate_of_spec in Hc as (t' & -> & _); [|apply Hag; by right]. simpl in Ec. by subst m. }
  apply H.
  - intros n Hn. apply list_elem_of_In, in_map_iff in Hn as ([m p] & <- & Hn).
    apply list_elem_of_In, elem_of_map_to_list in Hn. eauto.
  - apply NoDup_fst_map_to_list.
Qed.

End context.
End eligibility.

(** ** Lemmas: the choice *)
#[export] Instance fresher_candidate_order : LessOrder fresher_candidate.
Proof.
  unfold fresher_candidate, Time.Equal, Time.After. split.
  - intros a b. rewrite Z.eqb_sym.
    destruct (Z.eqb_spec (fr_LastSuccessfulSync (fc_Freshness b)) (fr_LastSuccessfulSync (fc_Freshness a)));
      [apply str_lt_asym|]. rewrite Z.ltb_lt, Z.ltb_ge. lia.
  - intros a b c.
    destruct (Z.eqb_spec (fr_LastSuccessfulSync (fc_Freshness b)) (fr_LastSuccessfulSync (fc_Freshness a))),
      (Z.eqb_spec (fr_LastSuccessfulSync (fc_Freshness c)) (fr_LastSuccessfulSync (fc_Freshness b))),
      (Z.eqb_spec (fr_LastSuccessfulSync (fc_Freshness c)) (fr_LastSuccessfulSync (fc_Freshness a)));
      rewrite ?Z.ltb_ge; try lia. apply less_ge_trans.
Qed.

Lemma by_node_lookup candidates node :
  is_Some (foldl (λ m c, <[fc_Node c := c]> m) (∅ : gmap string FailoverCandidate) candidates !! node)
  ↔ ∃ c, c ∈ candidates ∧ fc_Node c = node.
Proof.
  induction candidates as [|c l IH] using rev_ind.
  - split; [intros [? ?]; done|]. by intros (? & ?%elem_of_nil & _).
  - rewrite foldl_snoc. setoid_rewrite elem_of_app. setoid_rewrite list_elem_of_singleton.
    destruct (decide (fc_Node c = node)) as [<-|Hne].
    + rewrite lookup_insert_eq. naive_solver.
    + rewrite lookup_insert_ne by done. rewrite IH. naive_solver.
Qed.

(** What the selection returns, case by case. *)
Lemma select_cases candidates priority :
  let known node := ∃ c, c ∈ candidates ∧ fc_Node c = node in
  let d := SelectFailoverTargetFromCandidates candidates priority in
  (∃ pre node post, priority = pre ++ node :: post ∧ known node ∧ (∀ m, m ∈ pre → ¬ known m) ∧
     d = mkFailoverDecision true node "PreferredFreshReplicaNode") ∨
  ((∀ m, m ∈ priority → ¬ known m) ∧
   ((candidates = [] ∧ d = mkFailoverDecision false "" "NoReadyReplicaNode") ∨
    ∃ c, c ∈ candidates ∧ d = mkFailoverDecision true (fc_Node c) "FreshReplicaNode" ∧
         ∀ c', c' ∈ candidates → c' = c ∨ fresher_candidate c' c = false)).
Proof.
  intros known d. subst d. unfold SelectFailoverTargetFromCandidates.
  set (m := foldl _ _ _).
  assert (∀ n, is_Some (m !! n) ↔ known n) as Hm by (intros; apply by_node_lookup).
  destruct (find _ priority) as [node|] eqn:E.
  - left. induction priority as [|p l IH]; [done|]. simpl in E.
    destruct (bool_decide (is_Some (m !! p))) eqn:Ep.
    + injection E as ->. exists [], node, l. split; [done|]. split; [|split; [set_solver|done]].
      apply Hm. by apply bool_decide_eq_true in Ep.
    + destruct (IH E) as (pre & n & post & -> & H1 & H2 & H3).
      exists (p :: pre), n, post. split; [done|]. split; [done|]. split; [|done].
      intros x [->|Hx]%elem_of_cons; [|auto]. rewrite <-Hm. by apply bool_decide_eq_false in Ep.
  - right. split.
    { intros x Hx. rewrite <-Hm. apply list_elem_of_In in Hx.
      pose proof (find_none _ _ E x Hx) as F. by apply bool_decide_eq_false in F. }
    destruct (stable_sort fresher_candidate candidates) as [|c l] eqn:Es.
    + left. by apply stable_sort_nil in Es.
    + right. exists c. apply stable_sort_head in Es as [H1 H2]; [|apply _]. eauto.
Qed.

End Failover.
