(* ===== verification/ReplState.v ===== *)
(** * The state the replication controller's goroutines share

    The maps of [ReplicationController] in
    [internal/controller/replication_controller.go] and each critical
    section on them, as a function of the state. *)
From S2P Require Import Prelude GoStrings Kube.

Module ReplState.
Import Str.

Record repl_state : Type := mkReplState {
  rs_startedWatches : gmap string string;
  rs_completedSyncs : gset string;
  rs_runningSyncs : gset string;
  rs_lastScheduledOn : gmap string string;
  rs_lastActiveNode : gmap string string;
  rs_activeEpoch : gmap string Z;
}.

Definition repl_start : repl_state := mkReplState ∅ ∅ ∅ ∅ ∅ ∅.

(** [m[k]] of a map to strings or integers. *)
Definition string_at (m : gmap string string) (k : string) : string := default EmptyString (m !! k).
Definition int_at (m : gmap string Z) (k : string) : Z := default 0%Z (m !! k).

(** [noteActiveNode]; the epoch is an [int64]. *)
Definition noteActiveNode (key activeNode : string) (c : repl_state) : Z * repl_state :=
  let previous := string_at (rs_lastActiveNode c) key in
  let c1 :=
    if negb (String.eqb previous "") && negb (String.eqb previous activeNode) then
      mkReplState (delete key (rs_startedWatches c))
        (filter (λ syncKey, HasPrefix syncKey (key +:+ ":") = false) (rs_completedSyncs c))
        (rs_runningSyncs c) (rs_lastScheduledOn c) (rs_lastActiveNode c)
        (<[key := wrap64 (int_at (rs_activeEpoch c) key + 1)]> (rs_activeEpoch c))
    else c in
  let c2 := mkReplState (rs_startedWatches c1) (rs_completedSyncs c1) (rs_runningSyncs c1)
              (rs_lastScheduledOn c1) (<[key := activeNode]> (rs_lastActiveNode c1))
              (rs_activeEpoch c1) in
  (int_at (rs_activeEpoch c2) key, c2).

(** [isCurrentActiveEpoch] *)
Definition isCurrentActiveEpoch (key activeNode : string) (epoch : Z) (c : repl_state) : bool :=
  String.eqb (string_at (rs_lastActiveNode c) key) activeNode &&
  (int_at (rs_activeEpoch c) key =? epoch)%Z.

(** [tryStartVolumeFullSync] *)
Definition tryStartVolumeFullSync (volumeKey syncKey : string) (c : repl_state) : bool * repl_state :=
  let prefix := volumeKey +:+ ":" in
  if existsb (λ key, HasPrefix key prefix) (elements (rs_runningSyncs c)) then (false, c)
  else (true, mkReplState (rs_startedWatches c) (rs_completedSyncs c)
                ({[syncKey]} ∪ rs_runningSyncs c) (rs_lastScheduledOn c)
                (rs_lastActiveNode c) (rs_activeEpoch c)).

(** The deferred function of [runFullSync]. *)
Definition end_sync (syncKey : string) (c : repl_state) : repl_state :=
  mkReplState (rs_startedWatches c) (rs_completedSyncs c) (rs_runningSyncs c ∖ {[syncKey]})
    (rs_lastScheduledOn c) (rs_lastActiveNode c) (rs_activeEpoch c).

(** The assignments of single map entries. *)
Definition set_completed (syncKey : string) (c : repl_state) : repl_state :=
  mkReplState (rs_startedWatches c) ({[syncKey]} ∪ rs_completedSyncs c) (rs_runningSyncs c)
    (rs_lastScheduledOn c) (rs_lastActiveNode c) (rs_activeEpoch c).

Definition set_started (key signature : string) (c : repl_state) : repl_state :=
  mkReplState (<[key := signature]> (rs_startedWatches c)) (rs_completedSyncs c)
    (rs_runningSyncs c) (rs_lastScheduledOn c) (rs_lastActiveNode c) (rs_activeEpoch c).

Definition set_scheduled (scheduleKey today : string) (c : repl_state) : repl_state :=
  mkReplState (rs_startedWatches c) (rs_completedSyncs c) (rs_runningSyncs c)
    (<[scheduleKey := today]> (rs_lastScheduledOn c)) (rs_lastActiveNode c) (rs_activeEpoch c).

(** The critical sections as answers to calls: [None] for a call that is
    not one. *)
Definition shared_answer (Q : Type) (o : ctl_op) (c : repl_state) : option (ctl_ans Q o * repl_state) :=
  match o return option (ctl_ans Q o * repl_state) with
  | NoteActiveNode key node => Some (noteActiveNode key node c)
  | IsCurrentActiveEpoch key node epoch => Some (isCurrentActiveEpoch key node epoch c, c)
  | CompletedSync syncKey => Some (bool_decide (syncKey ∈ rs_completedSyncs c), c)
  | SetCompletedSync syncKey => Some (tt, set_completed syncKey c)
  | StartedWatch key => Some (string_at (rs_startedWatches c) key, c)
  | SetStartedWatch key signature => Some (tt, set_started key signature c)
  | TryStartSync volumeKey syncKey => Some (tryStartVolumeFullSync volumeKey syncKey c)
  | EndSync syncKey => Some (tt, end_sync syncKey c)
  | LastScheduledOn key => Some (string_at (rs_lastScheduledOn c) key, c)
  | SetLastScheduledOn key today => Some (tt, set_scheduled key today c)
  | _ => None
  end.

(** ** Epochs *)

(** The state after a sequence of critical sections. *)
Definition shared_next (c : repl_state) (o : ctl_op) : repl_state :=
  match shared_answer unit o c with Some (_, c') => c' | None => c end.

Definition epoch_at (c : repl_state) (key : string) : Z := int_at (rs_activeEpoch c) key.
Definition active_at (c : repl_state) (key : string) : string := string_at (rs_lastActiveNode c) key.

Lemma note_epoch key node c key' :
  let '(e, c') := noteActiveNode key node c in
  e = epoch_at c' key ∧
  (key' = key → active_at c' key' = node ∧
     epoch_at c' key' = if negb (String.eqb (active_at c key) "") && negb (String.eqb (active_at c key) node)
                        then wrap64 (epoch_at c key + 1) else epoch_at c key) ∧
  (key' ≠ key → active_at c' key' = active_at c key' ∧ epoch_at c' key' = epoch_at c key').
Proof.
  unfold noteActiveNode, epoch_at, active_at, int_at, string_at. cbv zeta. split; [done|].
  set (b := negb _ && negb _). split.
  - intros ->. cbn. rewrite lookup_insert_eq. split; [done|].
    destruct b; cbn; [by rewrite lookup_insert_eq|done].
  - intros Hne. cbn. rewrite lookup_insert_ne by done.
    destruct b; cbn; [by rewrite lookup_insert_ne|done].
Qed.

(** Any critical section leaves the active node and the epoch of a volume
    alone, or notes another active node and opens the next epoch. *)
Lemma shared_next_epoch c o key :
  (active_at (shared_next c o) key = active_at c key ∧ epoch_at (shared_next c o) key = epoch_at c key ∧
   ∀ node, o = NoteActiveNode key node → node = active_at c key) ∨
  (∃ node, o = NoteActiveNode key node ∧ active_at (shared_next c o) key = node ∧
     epoch_at (shared_next c o) key =
       if String.eqb (active_at c key) "" then epoch_at c key else wrap64 (epoch_at c key + 1)).
Proof.
  unfold shared_next. destruct o; cbn [shared_answer]; try (left; split_and!; [done..|congruence]).
  - pose proof (note_epoch key0 activeNode c key) as H.
    destruct (noteActiveNode key0 activeNode c) as [e c'] eqn:E. destruct H as (_ & Hs & Ho).
    destruct (decide (key = key0)) as [<-|Hne].
    + destruct (Hs eq_refl) as [H1 H2].
      destruct (String.eqb_spec (active_at c key) activeNode) as [Ea|Ea].
      * left. rewrite H1, H2. cbn. rewrite andb_false_r. split_and!; try done. congruence.
      * right. exists activeNode. rewrite H1, H2. split_and!; try done.
        cbn [negb]. rewrite andb_true_r. by destruct (String.eqb _ "").
    + destruct (Ho Hne) as [H1 H2]. left. split_and!; try done. congruence.
  - unfold tryStartVolumeFullSync. left. destruct (existsb _ _); split_and!; try done; congruence.
Qed.

Lemma epochs_grow ops : ∀ c key e,
  (0 ≤ e < epoch_at c key)%Z → (epoch_at c key + Z.of_nat (length ops) ≤ int64_max)%Z →
  (e < epoch_at (foldl shared_next c ops) key)%Z.
Proof.
  induction ops as [|o ops IH]; intros c key e He Hmax; cbn [foldl length] in *; [lia|].
  apply IH; destruct (shared_next_epoch c o key) as [(_ & -> & _)|(node & _ & _ & ->)]; try lia;
    destruct (String.eqb _ ""); try lia; rewrite wrap64_id; unfold in_int64, int64_min, int64_max in *; lia.
Qed.

Lemma other_node_opens_epoch ops1 ops2 key node other e : ∀ c,
  node ≠ "" → other ≠ node → (0 ≤ e)%Z → active_at c key = node → epoch_at c key = e →
  (e + Z.of_nat (length ops1) + Z.of_nat (length ops2) + 1 ≤ int64_max)%Z →
  (e < epoch_at (foldl shared_next c (ops1 ++ NoteActiveNode key other :: ops2)) key)%Z.
Proof.
  induction ops1 as [|o ops1 IH]; intros c Hn Ho Hpos Ha He Hmax; cbn [foldl app length] in *.
  - destruct (shared_next_epoch c (NoteActiveNode key other) key)
      as [(_ & _ & H)|(n & _ & _ & H)]; [by rewrite Ha in H; destruct Ho; apply H|].
    rewrite Ha, (proj2 (String.eqb_neq node "") Hn), He in H.
    rewrite wrap64_id in H by (unfold in_int64, int64_min, int64_max in *; lia).
    apply epochs_grow; lia.
  - destruct (shared_next_epoch c o key) as [(H1 & H2 & _)|(n & _ & _ & H)].
    + apply IH; try done; [congruence..|lia].
    + rewrite Ha, (proj2 (String.eqb_neq node "") Hn), He in H.
      rewrite wrap64_id in H by (unfold in_int64, int64_min, int64_max in *; lia).
      apply epochs_grow; [lia|]. rewrite length_app. cbn [length]. lia.
Qed.

(** A goroutine that noted an active node and later finds it current
    under the epoch it was given can rely on it: if meanwhile any other
    node was noted for the volume, even if the first node came back, the
    check fails (as long as the 64-bit epoch does not overflow). *)
Theorem stale_epoch_detected c key node other e c1 ops1 ops2 :
  node ≠ "" → other ≠ node → noteActiveNode key node c = (e, c1) → (0 ≤ e)%Z →
  (e + Z.of_nat (length ops1) + Z.of_nat (length ops2) + 1 ≤ int64_max)%Z →
  isCurrentActiveEpoch key node e
    (foldl shared_next c1 (ops1 ++ NoteActiveNode key other :: ops2)) = false.
Proof.
  intros Hn Ho Hnote Hpos Hmax.
  pose proof (note_epoch key node c key) as H. rewrite Hnote in H. destruct H as (He & H & _).
  destruct (H eq_refl) as [Ha _].
  pose proof (other_node_opens_epoch ops1 ops2 key node other e c1 Hn Ho Hpos Ha (eq_sym He) Hmax) as Hlt.
  unfold isCurrentActiveEpoch. fold (epoch_at (foldl shared_next c1 (ops1 ++ NoteActiveNode key other :: ops2)) key).
  apply andb_false_iff. right. apply Z.eqb_neq. lia.
Qed.

Lemma stale_epoch_detected_witness :
  let '(e, c1) := noteActiveNode "games/pv-1" "n1" repl_start in
  isCurrentActiveEpoch "games/pv-1" "n1" e c1 = true ∧
  isCurrentActiveEpoch "games/pv-1" "n1" e
    (foldl shared_next c1 ([] ++ NoteActiveNode "games/pv-1" "n2" :: [NoteActiveNode "games/pv-1" "n1"])) = false.
Proof.
  destruct (noteActiveNode "games/pv-1" "n1" repl_start) as [e c1] eqn:E.
  assert (e = 0%Z) as -> by (vm_compute in E; congruence).
  split; [vm_compute in E; injection E as <-; vm_compute; reflexivity|].
  apply (stale_epoch_detected repl_start _ _ _ _ _ [] [NoteActiveNode "games/pv-1" "n1"]);
    [discriminate|discriminate|exact E|lia|vm_compute; discriminate].
Defined.

End ReplState.
