(* ===== verification/Repl.v ===== *)
(** * The replication controller

    [internal/controller/replication_controller.go]: what should be
    replicated where, the reconciliation of one volume, the full
    synchronisation of its targets, and the manual trigger.  Each access
    to the state shared between goroutines is one call (the critical
    sections are in ReplState.v), each request to an agent is one call;
    the closure given to [go c.runFullSync] is a [sync_job]. *)
From S2P Require Import Prelude GoStrings GoUrl GoTime Labels Effects AgentTypes Kube Claims Resources Failover.

Module Repl.
Import Str Labels Claims Failover.

Definition AnnotationIncludePaths : string := LabelPrefix +:+ "/replication-include-paths".
Definition AnnotationExcludePaths : string := LabelPrefix +:+ "/replication-exclude-paths".
Definition AnnotationPruneExcluded : string := LabelPrefix +:+ "/replication-prune-excluded".
Definition AnnotationDebounce : string := LabelPrefix +:+ "/replication-debounce".
Definition AnnotationFullSyncOnStart : string := LabelPrefix +:+ "/replication-full-sync-on-start".
Definition AnnotationFullSyncSchedule : string := LabelPrefix +:+ "/replication-full-sync-schedule".
Definition AnnotationRequiredPaths : string := LabelPrefix +:+ "/replication-required-paths".
Definition AnnotationConsistencyMode : string := LabelPrefix +:+ "/replication-consistency-mode".
Definition AnnotationConfirmedReplicas : string := LabelPrefix +:+ "/replication-confirmed-replicas".
Definition AnnotationReplicationOwnerUID : string := LabelPrefix +:+ "/replication-owner-uid".
Definition AnnotationReplicationOwnerGID : string := LabelPrefix +:+ "/replication-owner-gid".
Definition AnnotationReplicationFileMode : string := LabelPrefix +:+ "/replication-file-mode".
Definition AnnotationReplicationDirMode : string := LabelPrefix +:+ "/replication-dir-mode".

(** The defaults [NewReplicationController] fills in. *)
Definition with_defaults (cfg : ReplicationControllerConfig) : ReplicationControllerConfig :=
  let str d s := if String.eqb s "" then d else s in
  let dur d t := if (t <=? 0)%Z then d else t in
  mkControllerConfig
    (str "simple-volume-system" (cfg_Namespace cfg))
    (str "simple-volume" (cfg_StorageClassName cfg))
    (str "simple-volume-sync-token" (cfg_TokenSecretName cfg))
    (str "token" (cfg_TokenSecretKey cfg))
    (dur (30 * Time.Second)%Z (cfg_ReconcileInterval cfg))
    (dur (10 * Time.Second)%Z (cfg_FailoverTimeout cfg))
    (dur Time.Hour (cfg_HTTPTimeout cfg))
    (str "app.kubernetes.io/component=node" (cfg_AgentLabelSelector cfg)).

(** ** Reading annotations *)

(** [replicationConsistencyMode] *)
Definition replicationConsistencyMode (annotations : gmap string string) : string :=
  let mode := ToLower (TrimSpace (annotation annotations AnnotationConsistencyMode)) in
  if String.eqb mode "" || String.eqb mode ConsistencyModeShadow then ConsistencyModeShadow
  else if String.eqb mode ConsistencyModeLive then ConsistencyModeLive
  else ConsistencyModeShadow.

(** [confirmedReplicas] *)
Definition confirmedReplicas (annotations : gmap string string) : Z :=
  let value := TrimSpace (annotation annotations AnnotationConfirmedReplicas) in
  if String.eqb value "" then 1
  else match Atoi value with
       | None => 1
       | Some parsed => if (parsed <? 0)%Z then 1 else parsed
       end.

(** [confirmationThreshold] *)
Definition confirmationThreshold (value targets : Z) : Z :=
  if (value <=? 0)%Z then 0
  else if (0 <? targets)%Z && (targets <? value)%Z then targets
  else value.

(** [parseSingleCronNumber] *)
Definition parseSingleCronNumber (field : string) (min max : Z) : option Z :=
  match Atoi field with
  | None => None
  | Some value => if (value <? min)%Z || (max <? value)%Z then None else Some value
  end.

(** [shouldRunScheduledFullSync]; [zone] is the local offset from UTC in
    seconds. *)
Definition shouldRunScheduledFullSync (zone : Z) (schedule : string) (now : Z) : bool :=
  match Fields schedule with
  | [f0; f1; _; _; _] =>
      match parseSingleCronNumber f0 0 59 with
      | None => false
      | Some minute =>
          match parseSingleCronNumber f1 0 23 with
          | None => false
          | Some hour =>
              (Time.clock_minute zone now =? minute)%Z && (Time.clock_hour zone now =? hour)%Z
          end
      end
  | _ => false
  end.

(** [parseOptionalInt64Annotation] *)
Definition parseOptionalInt64Annotation (annotations : gmap string string) (key : string)
  : result (option Z) :=
  let value := TrimSpace (annotation annotations key) in
  if String.eqb value "" then Ok None
  else match ParseInt64 value with
       | Some parsed =>
           if (parsed <? 0)%Z then Err (Errorf "%s must be a non-negative integer" [key])
           else Ok (Some parsed)
       | None => Err (Errorf "%s must be a non-negative integer" [key])
       end.

(** [parseOptionalModeAnnotation] *)
Definition parseOptionalModeAnnotation (annotations : gmap string string) (key : string)
  : result (option Z) :=
  let value := TrimSpace (annotation annotations key) in
  if String.eqb value "" then Ok None
  else match ParseUint 8 32 value with
       | Some parsed =>
           if (4095 <? parsed)%Z then Err (Errorf "%s must be an octal mode such as 0664" [key])
           else Ok (Some parsed)
       | None => Err (Errorf "%s must be an octal mode such as 0664" [key])
       end.

(** [ownershipPolicyFromAnnotations] *)
Definition ownershipPolicyFromAnnotations (annotations : gmap string string)
  : result OwnershipPolicy :=
  uid <-? parseOptionalInt64Annotation annotations AnnotationReplicationOwnerUID ;;
  gid <-? parseOptionalInt64Annotation annotations AnnotationReplicationOwnerGID ;;
  fileMode <-? parseOptionalModeAnnotation annotations AnnotationReplicationFileMode ;;
  dirMode <-? parseOptionalModeAnnotation annotations AnnotationReplicationDirMode ;;
  Ok (mkOwnershipPolicy uid gid fileMode dirMode).

(** [mergeOwnershipPolicy] *)
Definition mergeOwnershipPolicy (base override : OwnershipPolicy) : OwnershipPolicy :=
  let pick (o b : option Z) := match o with Some _ => o | None => b end in
  mkOwnershipPolicy (pick (own_UID override) (own_UID base))
    (pick (own_GID override) (own_GID base))
    (pick (own_FileMode override) (own_FileMode base))
    (pick (own_DirMode override) (own_DirMode base)).

(** ** Ownership of the active pod *)
Section ownership.
Context {Q : Type}.

(** [claimVolumeNames] *)
Definition claimVolumeNames (pod : Pod Q) (claim : string) : gmap string bool :=
  foldl (λ out v, match vol_ClaimName v with
                  | Some name => if String.eqb name claim then <[vol_Name v := true]> out else out
                  | None => out
                  end) ∅ (pod_Volumes pod).

(** [containerMountsAnyVolume] *)
Definition containerMountsAnyVolume (container : Container Q) (volumeNames : gmap string bool) : bool :=
  existsb (flag volumeNames) (ctr_VolumeMounts container).

(** The loop over the containers: a later container only fills what is
    still missing, and the loop stops once both are known. *)
Fixpoint infer_from_containers (claimVolumes : gmap string bool) (containers : list (Container Q))
    (policy : OwnershipPolicy) : OwnershipPolicy :=
  match containers with
  | [] => policy
  | c :: rest =>
      match ctr_SecurityContext c with
      | Some sc =>
          if negb (containerMountsAnyVolume c claimVolumes)
          then infer_from_containers claimVolumes rest policy
          else
            let uid := match own_UID policy with None => sc_RunAsUser sc | u => u end in
            let gid := match own_GID policy with None => sc_RunAsGroup sc | g => g end in
            let policy' := mkOwnershipPolicy uid gid (own_FileMode policy) (own_DirMode policy) in
            match uid, gid with
            | Some _, Some _ => policy'
            | _, _ => infer_from_containers claimVolumes rest policy'
            end
      | None => infer_from_containers claimVolumes rest policy
      end
  end.

(** [inferOwnershipFromPod] *)
Definition inferOwnershipFromPod (pod : Pod Q) (claim : string) : OwnershipPolicy :=
  let claimVolumes := claimVolumeNames pod claim in
  if Resources.no_entries claimVolumes then empty_ownership
  else
    let policy :=
      match pod_SecurityContext pod with
      | None => empty_ownership
      | Some sc =>
          mkOwnershipPolicy (sc_RunAsUser sc)
            (match sc_RunAsGroup sc with Some g => Some g | None => sc_FSGroup sc end) None None
      end in
    match own_UID policy, own_GID policy with
    | Some _, Some _ => policy
    | _, _ => infer_from_containers claimVolumes (pod_InitContainers pod ++ pod_Containers pod) policy
    end.

End ownership.

(** ** Addresses and signatures *)

(** [agentHTTPURL], [agentWebDAVURL], [agentHTTPURLFromWebDAV] *)
Definition agentHTTPURL (ip : string) : string := "http://" +:+ ip +:+ ":8080".
Definition agentWebDAVURL (ip : string) : string := "http://" +:+ ip +:+ ":8081".
Definition agentHTTPURLFromWebDAV (webdavURL : string) : string :=
  ReplaceFirst webdavURL ":8081" ":8080".

(** [optionalInt64String], [optionalModeString], [ownershipSignature] *)
Definition optionalInt64String (value : option Z) : string :=
  match value with None => EmptyString | Some v => FormatInt v end.
Definition optionalModeString (value : option Z) : string :=
  match value with None => EmptyString | Some v => FormatOctal v end.
Definition ownershipSignature (policy : OwnershipPolicy) : string :=
  Join "," ["uid=" +:+ optionalInt64String (own_UID policy);
            "gid=" +:+ optionalInt64String (own_GID policy);
            "fileMode=" +:+ optionalModeString (own_FileMode policy);
            "dirMode=" +:+ optionalModeString (own_DirMode policy)].

(** The text of one target in [signature]. *)
Definition target_signature (t : DesiredTarget) : string :=
  dt_Node t +:+ "=" +:+ tgt_URL (dt_Ref t) +:+ ":" +:+ tgt_Token (dt_Ref t) +:+ ",".

(** [DesiredReplication.signature] *)
Definition signature (d : DesiredReplication) : string :=
  dr_SourceURL d +:+ "|" +:+ foldr (λ t s, target_signature t +:+ s) EmptyString (dr_Targets d) +:+
  "|" +:+ Join "," (dr_IncludePaths d) +:+ "|" +:+ Join "," (dr_ExcludePaths d) +:+ "|" +:+
  FormatBool (dr_PruneExcluded d) +:+ "|" +:+ ownershipSignature (dr_Ownership d) +:+ "|" +:+
  dr_Debounce d +:+ "|" +:+ dr_ConsistencyMode d +:+ "|" +:+ FormatInt (dr_ConfirmedReplicas d).

(** [targetRefs] *)
Definition targetRefs (targets : list DesiredTarget) : list TargetRef := map dt_Ref targets.

(** [fmt.Sprintf("epoch=%d:%s", epoch, desired.signature())] *)
Definition epoch_signature (epoch : Z) (d : DesiredReplication) : string :=
  "epoch=" +:+ FormatInt epoch +:+ ":" +:+ signature d.

(** ** Programs *)
Section progs.
Context {Q : Type} `{!QuantityOps Q}.
Abbreviation ctl A := (prog (ctl_sig Q) A).
Abbreviation do_call o := (ctl_call Q o).

(** The key of a volume in the shared maps. *)
Definition desired_key (d : DesiredReplication) : string := dr_Namespace d +:+ "/" +:+ dr_Volume d.

(** The text of a response that is not 2xx. *)
Definition response_error (url : string) (resp : http_response) : error :=
  Errorf "%s returned %s: %s"
    [url; hr_Status resp;
     match hr_Body resp with BodyText s => TrimSpace (str_take 512 s) | _ => EmptyString end].

Definition status_failed (resp : http_response) : bool :=
  (hr_StatusCode resp <? 200)%Z || (300 <=? hr_StatusCode resp)%Z.

(** [postJSON] *)
Definition postJSON (url token : string) (payload : agent_request) : ctl (result unit) :=
  resp <-! do_call (HttpDo url ("Bearer " +:+ token) payload) ;;
  if status_failed resp then Ret (Err (response_error url resp)) else Ret (Ok tt).

(** [postJSONDecode] into a [ShadowPrepareResponse]. *)
Definition postJSONDecode (url token : string) (payload : agent_request)
  : ctl (result ShadowPrepareResponse) :=
  resp <-! do_call (HttpDo url ("Bearer " +:+ token) payload) ;;
  if status_failed resp then Ret (Err (response_error url resp))
  else match hr_Body resp with
       | BodyShadow out => Ret (Ok out)
       | _ => Ret (Err (Errorf "decode response" []))
       end.

(** [secretToken] and [syncToken]; the call reads one key of a secret. *)
Definition secretToken (namespace name key label : string) : ctl (result string) :=
  secret <- do_call (GetSecretKey namespace name key) ;;
  match secret with
  | Err e => if IsNotFound e then Ret (Err (Errorf "%s secret %s/%s not found" [label; namespace; name]))
             else Ret (Err e)
  | Ok data =>
      let token := TrimSpace data in
      if String.eqb token "" then
        Ret (Err (Errorf "%s secret %s/%s key %s is empty" [label; namespace; name; key]))
      else Ret (Ok token)
  end.

Definition syncToken (cfg : ReplicationControllerConfig) : ctl (result string) :=
  secretToken (cfg_Namespace cfg) (cfg_TokenSecretName cfg) (cfg_TokenSecretKey cfg) "sync token".

(** The test of the loop of [activePodForPVC]. *)
Definition active_candidate (claim : string) (pod : Pod Q) : bool :=
  String.eqb (pod_Phase pod) PodRunning && negb (String.eqb (pod_NodeName pod) "") &&
  podUsesClaim pod claim.

(** [activePodForPVC]: the oldest candidate.  [sort.Slice] sorts short
    lists by insertion, so pods of one age keep their order. *)
Definition activePodForPVC (namespace claim : string) : ctl (result (option (Pod Q))) :=
  pods <-! do_call (ListPods namespace "") ;;
  let candidates := filter (λ pod, active_candidate claim pod = true) pods in
  match stable_sort (λ a b, (pod_CreationTimestamp a <? pod_CreationTimestamp b)%Z) candidates with
  | [] => Ret (Ok None)
  | pod :: _ => Ret (Ok (Some pod))
  end.

(** The targets of a volume: every ready agent but the active node's. *)
Definition desired_targets (agents : gmap string (Pod Q)) (activeNode token : string)
  : list DesiredTarget :=
  stable_sort (λ a b, str_lt (dt_Node a) (dt_Node b))
    (map (λ kv, mkDesiredTarget (fst kv) (mkTargetRef (agentHTTPURL (pod_PodIP (snd kv))) token))
         (filter (λ kv, fst kv ≠ activeNode) (map_to_list agents))).

(** The struct literal of [DesiredReplications]. *)
Definition desired_of (pvc : PersistentVolumeClaim) (activeNode : string) (source : Pod Q)
    (targets : list DesiredTarget) (ownership : OwnershipPolicy) : DesiredReplication :=
  let a := annotation (pvc_Annotations pvc) in
  mkDesiredReplication (pvc_Namespace pvc) (pvc_Name pvc) (pvc_VolumeName pvc) activeNode
    (agentWebDAVURL (pod_PodIP source)) targets
    (csvAnnotation (a AnnotationIncludePaths)) (csvAnnotation (a AnnotationExcludePaths))
    (truthy (a AnnotationPruneExcluded)) (csvAnnotation (a AnnotationRequiredPaths))
    ownership (TrimSpace (a AnnotationDebounce)) (truthy (a AnnotationFullSyncOnStart))
    (TrimSpace (a AnnotationFullSyncSchedule))
    (replicationConsistencyMode (pvc_Annotations pvc)) (confirmedReplicas (pvc_Annotations pvc)).

(** The body of the loop of [DesiredReplications]: [None] is [continue]. *)
Definition desired_for (cfg : ReplicationControllerConfig) (token : string)
    (agents : gmap string (Pod Q)) (pvc : PersistentVolumeClaim)
  : ctl (result (option DesiredReplication)) :=
  if negb (replicationEnabled pvc (cfg_StorageClassName cfg)) then Ret (Ok None)
  else if String.eqb (pvc_VolumeName pvc) "" then Ret (Ok None)
  else
    activePod <-! activePodForPVC (pvc_Namespace pvc) (pvc_Name pvc) ;;
    let '(activeNode, ownership) :=
      match activePod with
      | Some pod => (pod_NodeName pod, inferOwnershipFromPod pod (pvc_Name pvc))
      | None => (TrimSpace (annotation (pvc_Annotations pvc) AnnotationActiveNode), empty_ownership)
      end in
    match ownershipPolicyFromAnnotations (pvc_Annotations pvc) with
    | Err e => Ret (Err (Wrapf "pvc %s/%s ownership annotations: %w" [pvc_Namespace pvc; pvc_Name pvc] e))
    | Ok annotationOwnership =>
        if String.eqb activeNode "" then Ret (Ok None)
        else match agents !! activeNode with
             | None => Ret (Ok None)
             | Some source =>
                 let targets := desired_targets agents activeNode token in
                 match targets with
                 | [] => Ret (Ok None)
                 | _ => Ret (Ok (Some (desired_of pvc activeNode source targets
                                         (mergeOwnershipPolicy ownership annotationOwnership))))
                 end
             end
    end.

Fixpoint desired_loop (cfg : ReplicationControllerConfig) (token : string)
    (agents : gmap string (Pod Q)) (pvcs : list PersistentVolumeClaim)
  : ctl (result (list DesiredReplication)) :=
  match pvcs with
  | [] => Ret (Ok [])
  | pvc :: pvcs' =>
      item <-! desired_for cfg token agents pvc ;;
      rest <-! desired_loop cfg token agents pvcs' ;;
      Ret (Ok (match item with Some d => d :: rest | None => rest end))
  end.

Definition desired_before (a b : DesiredReplication) : bool :=
  if String.eqb (dr_Namespace a) (dr_Namespace b) then str_lt (dr_ClaimName a) (dr_ClaimName b)
  else str_lt (dr_Namespace a) (dr_Namespace b).

(** [DesiredReplications] *)
Definition DesiredReplications (cfg : ReplicationControllerConfig) (token : string)
  : ctl (result (list DesiredReplication)) :=
  pvcs <-! do_call ListPVCs ;;
  agentPods <-! do_call (ListPods (cfg_Namespace cfg) (cfg_AgentLabelSelector cfg)) ;;
  out <-! desired_loop cfg token (readyAgentPods agentPods) pvcs ;;
  Ret (Ok (stable_sort desired_before out)).

(** [c.failover.RecordReplicaFreshness(...)] as a call. *)
Definition record_freshness_call (namespace volume node : string) (t : Z) (healthy : bool) : ctl unit :=
  if String.eqb volume "" || String.eqb node "" || Time.IsZero t then Ret tt
  else do_call (RecordFreshness (volumeKey namespace volume) node t healthy).

(** [recordWatchFreshness] *)
Definition recordWatchFreshness (d : DesiredReplication) (status : WatchStatus) : ctl unit :=
  let nodesByURL : gmap string string :=
    foldl (λ m t, <[tgt_URL (dt_Ref t) := dt_Node t]> m) ∅ (dr_Targets d) in
  fold_prog (wst_TargetStatuses status) (λ _ ts,
    let node := default EmptyString (nodesByURL !! ts_URL ts) in
    match ts_LastSuccessfulSync ts with
    | None => Ret tt
    | Some t =>
        if String.eqb node "" then Ret tt
        else record_freshness_call (dr_Namespace d) (dr_Volume d) node t
               (String.eqb (ts_LastError ts) "")
    end) tt.

(** [stopWatch] *)
Definition stopWatch (agentURL token namespace volume : string) : ctl (result unit) :=
  let url := TrimRight is_slash agentURL +:+ "/replication/watch/stop" in
  let auth := if negb (String.eqb token "") then "Bearer " +:+ token else EmptyString in
  resp <-! do_call (HttpDo url auth (PostWatchStop (mkWatchStopRequest namespace volume))) ;;
  if (hr_StatusCode resp =? 404)%Z then Ret (Ok tt)
  else if status_failed resp then Ret (Err (response_error url resp))
  else Ret (Ok tt).

(** [stopReplicaWatches]; errors are logged. *)
Definition stopReplicaWatches (d : DesiredReplication) (token : string) : ctl unit :=
  fold_prog (dr_Targets d) (λ _ t,
    stopWatch (tgt_URL (dt_Ref t)) token (dr_Namespace d) (dr_Volume d) ;;; Ret tt) tt.

(** The base address of the source's agent. *)
Definition source_agent (d : DesiredReplication) : string :=
  TrimRight is_slash (agentHTTPURLFromWebDAV (dr_SourceURL d)).

(** [startWatch] *)
Definition startWatch (d : DesiredReplication) (token : string) : ctl (result unit) :=
  postJSON (source_agent d +:+ "/replication/watch/start") token
    (PostWatchStart (mkWatchStartRequest (dr_Namespace d) (dr_Volume d)
       (mkSourceRef (dr_SourceURL d) "" "") (targetRefs (dr_Targets d))
       (dr_IncludePaths d) (dr_ExcludePaths d) (dr_Ownership d) (dr_Debounce d)
       (dr_ConsistencyMode d) (Some (dr_ConfirmedReplicas d)))).

(** [startWatchAndRemember] *)
Definition startWatchAndRemember (d : DesiredReplication) (token sig : string) : ctl (result unit) :=
  _ <-! startWatch d token ;;
  do_call (SetStartedWatch (desired_key d) sig) ;;; Ret (Ok tt).

Definition no_watch_status : WatchStatus :=
  mkWatchStatus "" "" (mkSourceRef "" "" "") [] [] [] [] empty_ownership "" 0 false 0 None None 0
    "" "" "" 0 0 0.

(** [watchStatus] *)
Definition status_query (namespace volume : string) : string :=
  "namespace=" +:+ Url.QueryEscape namespace +:+ "&volume=" +:+ Url.QueryEscape volume.

Definition watchStatus (d : DesiredReplication) (token : string) : ctl (result WatchStatus) :=
  let url := source_agent d +:+ "/replication/watch/status?" +:+ status_query (dr_Namespace d) (dr_Volume d) in
  resp <-! do_call (HttpDo url ("Bearer " +:+ token)
                     (GetWatchStatus (dr_Namespace d) (dr_Volume d))) ;;
  if (hr_StatusCode resp =? 404)%Z then Ret (Ok no_watch_status)
  else if status_failed resp then Ret (Err (response_error url resp))
  else match hr_Body resp with
       | BodyStatus status => Ret (Ok status)
       | _ => Ret (Err (Errorf "decode response" []))
       end.

(** [ensureWatchStarted] *)
Definition ensureWatchStarted (d : DesiredReplication) (token sig : string) : ctl (result unit) :=
  started <- do_call (StartedWatch (desired_key d)) ;;
  alreadyStarted <-
    (if String.eqb started sig then
       status <- watchStatus d token ;;
       match status with
       | Err _ => Ret false
       | Ok status =>
           if negb (wst_Running status) then Ret false
           else recordWatchFreshness d status ;;; Ret true
       end
     else Ret false) ;;
  if negb alreadyStarted then
    stopReplicaWatches d token ;;; startWatchAndRemember d token sig
  else Ret (Ok tt).

(** [prepareShadow] *)
Definition prepareShadow (d : DesiredReplication) (token : string)
  : ctl (result ShadowPrepareResponse) :=
  out <-! postJSONDecode (source_agent d +:+ "/replication/shadow/prepare") token
            (PostShadowPrepare (mkShadowPrepareRequest (dr_Namespace d) (dr_Volume d)
               (dr_IncludePaths d) (dr_ExcludePaths d) (dr_PruneExcluded d) (dr_RequiredPaths d))) ;;
  if String.eqb (TrimSpace (spr_SourceBasePath out)) "" then
    Ret (Err (Errorf "shadow prepare returned empty sourceBasePath" []))
  else Ret (Ok out).

(** One round of the loop of [fullSyncTargets]; the state is the number
    of successes and the errors so far. *)
Definition sync_target (d : DesiredReplication) (token sourceBasePath : string)
    (st : Z * list error) (t : DesiredTarget) : ctl (Z * list error) :=
  backupExisting <- do_call (BackupNeeded (volumeKey (dr_Namespace d) (dr_Volume d)) (dt_Node t)) ;;
  r <- postJSON (TrimRight is_slash (tgt_URL (dt_Ref t)) +:+ "/replication/full-sync") token
         (PostFullSync (mkFullSyncRequest (dr_Namespace d) (dr_Volume d)
            (mkSourceRef (dr_SourceURL d) "" "") sourceBasePath (dr_IncludePaths d)
            (dr_ExcludePaths d) (dr_PruneExcluded d) (dr_RequiredPaths d) (dr_Ownership d)
            backupExisting)) ;;
  match r with
  | Err e => Ret (fst st, snd st ++ [e])
  | Ok _ =>
      now <- do_call TimeNow ;;
      record_freshness_call (dr_Namespace d) (dr_Volume d) (dt_Node t) now true ;;;
      (if backupExisting : bool
       then do_call (ClearDemoted (volumeKey (dr_Namespace d) (dr_Volume d)) (dt_Node t))
       else Ret tt) ;;;
      Ret (fst st + 1, snd st)%Z
  end.

(** [fullSyncTargets] *)
Definition fullSyncTargets (d : DesiredReplication) (token : string) : ctl (result unit) :=
  sourceBasePath <-!
    (if String.eqb (dr_ConsistencyMode d) ConsistencyModeShadow then
       resp <-! prepareShadow d token ;; Ret (Ok (spr_SourceBasePath resp))
     else Ret (Ok EmptyString)) ;;
  st <- fold_prog (dr_Targets d) (sync_target d token sourceBasePath) (0%Z, []) ;;
  let required := confirmationThreshold (dr_ConfirmedReplicas d) (Z.of_nat (length (dr_Targets d))) in
  if (fst st <? required)%Z then Ret (Err (Joinf "full sync failed: %s" (snd st)))
  else Ret (Ok tt).

(** The closures given to [runFullSync]. *)
Definition on_success (job : sync_job) : ctl unit :=
  let d := job_desired job in
  match job_kind job with
  | SyncStartup epoch sig =>
      current <- do_call (IsCurrentActiveEpoch (desired_key d) (dr_ActiveNode d) epoch) ;;
      if negb current then Ret tt
      else
        do_call (SetCompletedSync (job_syncKey job)) ;;;
        startWatchAndRemember d (job_token job) sig ;;; Ret tt
  | SyncManual epoch =>
      do_call (IsCurrentActiveEpoch (desired_key d) (dr_ActiveNode d) epoch) ;;; Ret tt
  | SyncScheduled scheduleKey today => do_call (SetLastScheduledOn scheduleKey today)
  end.

(** [runFullSync]; the deferred function runs last. *)
Definition runFullSync (job : sync_job) : ctl unit :=
  r <- fullSyncTargets (job_desired job) (job_token job) ;;
  (match r with Ok _ => on_success job | Err _ => Ret tt end) ;;;
  do_call (EndSync (job_syncKey job)).

(** [reconcileOne] *)
Definition reconcileOne (zone : Z) (d : DesiredReplication) (token : string) (now : Z)
  : ctl (result unit) :=
  let key := desired_key d in
  epoch <- do_call (NoteActiveNode key (dr_ActiveNode d)) ;;
  let sig := epoch_signature epoch d in
  let syncKey := key +:+ ":" +:+ sig in
  done <- (if dr_FullSync d then do_call (CompletedSync syncKey) else Ret true) ;;
  if negb done then
    started <- do_call (TryStartSync key syncKey) ;;
    (if started : bool then
       stopReplicaWatches d token ;;;
       do_call (GoRunFullSync (mkSyncJob syncKey d token (SyncStartup epoch sig)))
     else Ret tt) ;;;
    Ret (Ok tt)
  else
    _ <-! ensureWatchStarted d token sig ;;
    if shouldRunScheduledFullSync zone (dr_FullSchedule d) now then
      let scheduleKey := key +:+ ":" +:+ dr_FullSchedule d in
      let today := Time.format_day zone now in
      last <- do_call (LastScheduledOn scheduleKey) ;;
      let syncKey := scheduleKey +:+ ":" +:+ today in
      if negb (String.eqb last today) then
        started <- do_call (TryStartSync key syncKey) ;;
        (if started : bool then
           do_call (GoRunFullSync (mkSyncJob syncKey d token (SyncScheduled scheduleKey today)))
         else Ret tt) ;;;
        Ret (Ok tt)
      else Ret (Ok tt)
    else Ret (Ok tt).

(** [ReplicationController.Reconcile], after its failover part. *)
Definition reconcile_all (cfg : ReplicationControllerConfig) (zone now : Z) : ctl (result unit) :=
  token <-! syncToken cfg ;;
  desired <-! DesiredReplications cfg token ;;
  fold_prog desired (λ _ d, reconcileOne zone d token now ;;; Ret tt) tt ;;; Ret (Ok tt).

Definition ReconcileReplication (cfg : ReplicationControllerConfig) (zone : Z) (seen : gmap string Z)
  : ctl (gmap string Z * result unit) :=
  now <- do_call TimeNow ;;
  r <- Failover.Reconcile cfg now seen ;;
  out <- reconcile_all cfg zone now ;;
  Ret (fst r, out).

Record ManualFullSyncResponse : Type := mkManualResponse {
  mr_Namespace : string;
  mr_ClaimName : string;
  mr_Volume : string;
  mr_ActiveNode : string;
  mr_Targets : Z;
  mr_Started : bool;
  mr_Reason : string;
}.

(** [TriggerFullSync] *)
Definition TriggerFullSync (cfg : ReplicationControllerConfig) (namespace0 claimName0 : string)
  : ctl (result ManualFullSyncResponse) :=
  let namespace := TrimSpace namespace0 in
  let claimName := TrimSpace claimName0 in
  if String.eqb namespace "" || String.eqb claimName "" then
    Ret (Err (Errorf "namespace and claimName are required" []))
  else
    token <-! syncToken cfg ;;
    desired <-! DesiredReplications cfg token ;;
    match find (λ d, String.eqb (dr_Namespace d) namespace && String.eqb (dr_ClaimName d) claimName)
            desired with
    | None => Ret (Err (Errorf "replication target %s/%s not found" [namespace; claimName]))
    | Some item =>
        let key := desired_key item in
        epoch <- do_call (NoteActiveNode key (dr_ActiveNode item)) ;;
        let syncKey := key +:+ ":manual" in
        let resp := mkManualResponse (dr_Namespace item) (dr_ClaimName item) (dr_Volume item)
                      (dr_ActiveNode item) (Z.of_nat (length (dr_Targets item))) in
        started <- do_call (TryStartSync key syncKey) ;;
        if negb started then Ret (Ok (resp false "already-running"))
        else
          now <- do_call TimeNow ;;
          do_call (GoRunFullSync (mkSyncJob syncKey item token (SyncManual epoch))) ;;;
          Ret (Ok (resp true "started"))
    end.

End progs.

End Repl.
