(* ===== verification/KubeMem.v ===== *)
(** * A concrete cluster for the controller's programs

    An in-memory API server, enough to run the controller on examples.
    Nothing is proved about it: it only shows that the behaviour the
    theorems speak of can be produced. *)
From S2P Require Import Prelude Effects AgentTypes Kube Failover ReplState.

Module Cluster.

Record cluster : Type := mkCluster {
  k_pods : list (Pod Z);
  k_nodes : list (Node Z);
  k_pvcs : list PersistentVolumeClaim;
  k_pvs : list PersistentVolume;
  k_shared : Failover.shared;
  k_now : Z;
  k_repl : ReplState.repl_state;
}.

Definition patch_node (name : string) (patch : gmap string (option string)) (n : Node Z) : Node Z :=
  if String.eqb (node_Name n) name
  then mkNode (node_Name n)
         (merge (λ p l, match p with Some o => o | None => l end) patch (node_Labels n))
         (node_Unschedulable n) (node_Conditions n) (node_Allocatable n)
  else n.

Definition of_option {A} (what : string) (o : option A) : result A :=
  match o with Some a => Ok a | None => Err (ApiNotFound what) end.

Definition set_shared (w : cluster) (s : Failover.shared) : cluster :=
  mkCluster (k_pods w) (k_nodes w) (k_pvcs w) (k_pvs w) s (k_now w) (k_repl w).

Definition set_repl (w : cluster) (c : ReplState.repl_state) : cluster :=
  mkCluster (k_pods w) (k_nodes w) (k_pvcs w) (k_pvs w) (k_shared w) (k_now w) c.

(** Every agent answers 200 with an empty body. *)
Definition handler (o : op (ctl_sig Z)) (w : cluster) : ans (ctl_sig Z) o * cluster :=
  match o return ctl_ans Z o * cluster with
  | ListPVCs => (Ok (k_pvcs w), w)
  | ListPods ns _ =>
      (Ok (filter (λ p, ns = "" ∨ pod_Namespace p = ns) (k_pods w)), w)
  | ListNodes => (Ok (k_nodes w), w)
  | ListWorkloads _ _ => (Ok [], w)
  | GetPV name => (of_option name (find (λ v, String.eqb (pv_Name v) name) (k_pvs w)), w)
  | UpdatePV pv =>
      (Ok tt, mkCluster (k_pods w) (k_nodes w) (k_pvcs w)
        (map (λ v, if String.eqb (pv_Name v) (pv_Name pv) then pv else v) (k_pvs w))
        (k_shared w) (k_now w) (k_repl w))
  | GetPVC ns name =>
      (of_option name (find (λ c, String.eqb (pvc_Namespace c) ns && String.eqb (pvc_Name c) name)
                         (k_pvcs w)), w)
  | UpdatePVC pvc =>
      (Ok tt, mkCluster (k_pods w) (k_nodes w)
        (map (λ c, if String.eqb (pvc_Namespace c) (pvc_Namespace pvc) &&
                      String.eqb (pvc_Name c) (pvc_Name pvc) then pvc else c) (k_pvcs w))
        (k_pvs w) (k_shared w) (k_now w) (k_repl w))
  | PatchNode name patch =>
      (Ok tt, mkCluster (k_pods w) (map (patch_node name patch) (k_nodes w)) (k_pvcs w) (k_pvs w)
        (k_shared w) (k_now w) (k_repl w))
  | DeletePod ns name =>
      (Ok tt, mkCluster (filter (λ p, ¬ (pod_Namespace p = ns ∧ pod_Name p = name)) (k_pods w))
        (k_nodes w) (k_pvcs w) (k_pvs w) (k_shared w) (k_now w) (k_repl w))
  | GetSecretKey _ _ _ => (Ok "token", w)
  | HttpDo _ _ _ => (Ok (mkHttpResponse 200 "200 OK" (BodyText "")), w)
  | TimeNow => (k_now w, w)
  | FreshnessOf key => (default ∅ (Failover.sh_freshness (k_shared w) !! key), w)
  | DemotedOf key => (default ∅ (Failover.sh_demoted (k_shared w) !! key), w)
  | RecordDemoted key node =>
      (tt, set_shared w (Failover.mkShared (Failover.sh_freshness (k_shared w))
             (<[key := <[node := true]> (default ∅ (Failover.sh_demoted (k_shared w) !! key))]>
                (Failover.sh_demoted (k_shared w)))))
  | RecordFreshness key node t healthy =>
      (tt, set_shared w (Failover.mkShared
             (<[key := <[node := mkFreshness t healthy]>
                         (default ∅ (Failover.sh_freshness (k_shared w) !! key))]>
                (Failover.sh_freshness (k_shared w)))
             (Failover.sh_demoted (k_shared w))))
  | ClearDemoted key node =>
      (tt, set_shared w (Failover.mkShared (Failover.sh_freshness (k_shared w))
             (<[key := delete node (default ∅ (Failover.sh_demoted (k_shared w) !! key))]>
                (Failover.sh_demoted (k_shared w)))))
  | BackupNeeded key node =>
      (default false (default ∅ (Failover.sh_demoted (k_shared w) !! key) !! node), w)
  | NoteActiveNode key node =>
      let '(e, c) := ReplState.noteActiveNode key node (k_repl w) in (e, set_repl w c)
  | IsCurrentActiveEpoch key node epoch =>
      (ReplState.isCurrentActiveEpoch key node epoch (k_repl w), w)
  | CompletedSync k => (bool_decide (k ∈ ReplState.rs_completedSyncs (k_repl w)), w)
  | SetCompletedSync k => (tt, set_repl w (ReplState.set_completed k (k_repl w)))
  | StartedWatch k => (ReplState.string_at (ReplState.rs_startedWatches (k_repl w)) k, w)
  | SetStartedWatch k v => (tt, set_repl w (ReplState.set_started k v (k_repl w)))
  | TryStartSync vk sk =>
      let '(b, c) := ReplState.tryStartVolumeFullSync vk sk (k_repl w) in (b, set_repl w c)
  | EndSync sk => (tt, set_repl w (ReplState.end_sync sk (k_repl w)))
  | LastScheduledOn k => (ReplState.string_at (ReplState.rs_lastScheduledOn (k_repl w)) k, w)
  | SetLastScheduledOn k v => (tt, set_repl w (ReplState.set_scheduled k v (k_repl w)))
  | GoRunFullSync _ => (tt, w)
  | InClusterConfig | NewForConfig => (Ok tt, w)
  | RunSelect => (Some Canceled, w)
  end.

Definition run_on {A} (p : prog (ctl_sig Z) A) (w : cluster)
  : A * cluster * list (event (ctl_sig Z)) := run handler p w.

End Cluster.
