(* ===== verification/FailoverProps.v ===== *)
(** * What the failover controller guarantees

    The choice of the target, the effects of one reconciliation against
    every behaviour of the Kubernetes API, the grace period over several
    reconciliations, and the bookkeeping of demoted nodes. *)
From S2P Require Import Prelude GoStrings GoTime Labels Effects Kube Claims Resources Failover ReplState KubeMem.

Module FailoverProps.
Import Str Labels Claims Resources Failover ReplState KubeMem.

(** ** The choice of the target *)
Section choice.
Context {Q : Type} `{!QuantityOps Q}.

(** C28: The failover decision.  A node is promoted exactly when some node
    is eligible; the promoted node is eligible; it is the first eligible
    node of the priority list when that list has one; otherwise no
    eligible node was synchronised later, and among equally fresh nodes
    it has the least name. *)
Theorem failover_target_correct (pods : list (Pod Q)) agents readyNodes freshness demoted
    maxStaleness now requests available priority :
  let ok := eligible pods agents readyNodes freshness demoted maxStaleness now requests available in
  let d := SelectFailoverTargetFromCandidates
             (failoverCandidates pods agents readyNodes freshness demoted maxStaleness now
                requests available) priority in
  (fd_Promote d = true ↔ ∃ n t, ok n t) ∧
  (fd_Promote d = true → ∃ t, ok (fd_TargetNode d) t ∧
     ((∃ pre post, priority = pre ++ fd_TargetNode d :: post ∧
         ∀ m, m ∈ pre → ∀ t', ¬ ok m t') ∨
      ((∀ m, m ∈ priority → ∀ t', ¬ ok m t') ∧
       ∀ m t', ok m t' → (t' < t)%Z ∨
         t' = t ∧ (m = fd_TargetNode d ∨ str_lt (fd_TargetNode d) m = true)))).
Proof.
  intros ok d.
  assert (Hk : ∀ n, (∃ c, c ∈ failoverCandidates pods agents readyNodes freshness demoted
            maxStaleness now requests available ∧ fc_Node c = n) ↔ ∃ t, ok n t).
  { intros n. setoid_rewrite candidates_spec. split.
    - intros (c & (t & _ & H) & <-). eauto.
    - intros (t & H). exists (mkFailoverCandidate n (mkFreshness t true)). eauto. }
  assert (∀ m, ¬ (∃ c, c ∈ failoverCandidates pods agents readyNodes freshness demoted
            maxStaleness now requests available ∧ fc_Node c = m) → ∀ t', ¬ ok m t') as Hno.
  { intros m H t' Ht. apply H, Hk. eauto. }
  destruct (select_cases (failoverCandidates pods agents readyNodes freshness demoted
    maxStaleness now requests available) priority)
    as [(pre & n & post & Hp & Hn & Hpre & E)|[Hpri [[Hc E]|(c & Hc & E & Hbest)]]];
    fold d in E; rewrite E; cbn [fd_Promote fd_TargetNode].
  - apply Hk in Hn as [t Ht]. split; [split; eauto|]. intros _. exists t. split; [done|].
    left. exists pre, post. split; [done|]. eauto.
  - split; [|done]. split; [done|]. intros (n & t & Ht).
    destruct (proj2 (Hk n)) as (c & Hin & _); [eauto|]. rewrite Hc in Hin.
    by apply elem_of_nil in Hin.
  - pose proof Hc as (t & Ec & Ht)%candidates_spec. split; [split; eauto|]. intros _.
    exists t. split; [done|]. right. split; [eauto|]. intros m t' Hm.
    destruct (Hbest (mkFailoverCandidate m (mkFreshness t' true))) as [Heq|Hf].
    { apply candidates_spec. eauto. }
    { right. rewrite <-Heq in Ec. cbn in Ec. injection Ec as ->. rewrite <-Heq. cbn. eauto. }
    rewrite Ec in Hf. unfold fresher_candidate, Time.Equal, Time.After in Hf.
    cbn [fc_Freshness fr_LastSuccessfulSync fc_Node] in Hf.
    destruct (Z.eqb_spec t' t) as [->|Hne].
    + right. split; [done|]. destruct (str_lt (fc_Node c) m) eqn:El; [by right|].
      left. by apply str_lt_total.
    + left. apply Z.ltb_ge in Hf. lia.
Qed.

(** The order in which the candidates are listed (a Go map has none)
    does not matter. *)
Theorem failover_target_order_independent c1 c2 priority :
  NoDup (map fc_Node c1) → c1 ≡ₚ c2 →
  SelectFailoverTargetFromCandidates c1 priority = SelectFailoverTargetFromCandidates c2 priority.
Proof.
  intros Hnd HP. unfold SelectFailoverTargetFromCandidates.
  assert (stable_sort fresher_candidate c1 = stable_sort fresher_candidate c2) as ->.
  { apply stable_sort_unique; [apply _| |done]. intros a b Ha Hb.
    unfold fresher_candidate, Time.Equal, Time.After. rewrite Z.eqb_sym.
    destruct (Z.eqb_spec (fr_LastSuccessfulSync (fc_Freshness b)) (fr_LastSuccessfulSync (fc_Freshness a)))
      as [_|Hne]; [|rewrite !Z.ltb_ge; lia].
    intros H1 H2. pose proof (str_lt_total _ _ H1 H2) as Hn.
    apply list_elem_of_lookup_1 in Ha as [i Ha], Hb as [j Hb].
    assert (i = j) as ->; [|congruence].
    eapply (NoDup_lookup (map fc_Node c1)); [done|rewrite list_lookup_fmap, Ha; done|].
    rewrite list_lookup_fmap, Hb. simpl. by rewrite Hn. }
  assert (∀ n, bool_decide (is_Some (foldl (λ m c, <[fc_Node c := c]> m) (∅ : gmap string FailoverCandidate) c1 !! n))
             = bool_decide (is_Some (foldl (λ m c, <[fc_Node c := c]> m) (∅ : gmap string FailoverCandidate) c2 !! n))) as Hf.
  { intros n. apply bool_decide_ext. rewrite !by_node_lookup. by setoid_rewrite HP. }
  assert (∀ (f g : string → bool) l, (∀ x, f x = g x) → find f l = find g l) as Hfind.
  { intros f g l Hfg. induction l as [|x l IH]; simpl; [done|]. by rewrite Hfg, IH. }
  by rewrite (Hfind _ _ _ Hf).
Qed.

Lemma failover_target_order_independent_witness :
  let a := mkFailoverCandidate "a" (mkFreshness 7 true) in
  let b := mkFailoverCandidate "b" (mkFreshness 9 true) in
  SelectFailoverTargetFromCandidates [a; b] [] = SelectFailoverTargetFromCandidates [b; a] [] ∧
  fd_TargetNode (SelectFailoverTargetFromCandidates [a; b] []) = "b".
Proof.
  split; [|reflexivity]. apply failover_target_order_independent.
  - apply (bool_decide_unpack _). vm_compute. exact I.
  - apply Permutation_swap.
Defined.

End choice.

(** ** Labels *)

(** The labels of a node after a JSON merge patch. *)
Definition apply_patch (patch : label_patch) (labels : gmap string string) : gmap string string :=
  merge (λ p l, match p with Some o => o | None => l end) patch labels.

Lemma apply_patch_lookup patch labels k :
  apply_patch patch labels !! k = match patch !! k with Some o => o | None => labels !! k end.
Proof.
  unfold apply_patch. rewrite lookup_merge. unfold diag_None.
  by destruct (patch !! k), (labels !! k).
Qed.

Lemma role_candidate_distinct namespace name : RoleLabel namespace name ≠ CandidateLabel namespace name.
Proof.
  unfold RoleLabel, CandidateLabel. intros E.
  apply str_app_inj_l, str_app_inj_l, str_app_inj_l in E. discriminate.
Qed.

Lemma candidate_set_spec cs n : flag (candidate_set cs) n = bool_decide (n ∈ map fc_Node cs).
Proof.
  unfold candidate_set, flag. induction cs as [|c cs IH] using rev_ind; [done|].
  rewrite foldl_snoc, map_app. destruct (decide (fc_Node c = n)) as [<-|Hne].
  - rewrite lookup_insert_eq. symmetry. apply bool_decide_eq_true. set_solver.
  - rewrite lookup_insert_ne, IH by done. apply bool_decide_ext. set_solver.
Qed.

Section progs.
Context {Q : Type} `{!QuantityOps Q}.

(** The labels of one node after its patch. *)
Lemma label_patch_correct role cand active candidates (node : Node Q) :
  role ≠ cand →
  let after := apply_patch (label_patch_for role cand active (candidate_set candidates) node)
                 (node_Labels node) in
  after !! role = (if bool_decide (node_Name node = active ∧ active ≠ "") then Some "active" else None) ∧
  after !! cand = (if bool_decide (node_Name node ∈ map fc_Node candidates) then Some "true" else None) ∧
  ∀ k, k ≠ role → k ≠ cand → after !! k = node_Labels node !! k.
Proof.
  intros Hrc after. subst after. unfold label_patch_for, annotation. rewrite candidate_set_spec.
  assert (String.eqb (node_Name node) active && negb (String.eqb active "")
          = bool_decide (node_Name node = active ∧ active ≠ "")) as ->.
  { symmetry. destruct (String.eqb_spec (node_Name node) active), (String.eqb_spec active "");
      [apply bool_decide_eq_false|apply bool_decide_eq_true|apply bool_decide_eq_false..]; tauto. }
  generalize (bool_decide (node_Name node = active ∧ active ≠ "")) as ba,
    (bool_decide (node_Name node ∈ map fc_Node candidates)) as bc. intros ba bc.
  assert (∀ key v, (if negb (String.eqb (default "" (node_Labels node !! key)) v) then True else
    node_Labels node !! key = Some v ∨ v = "")) as Hval.
  { intros key v. destruct (String.eqb_spec (default "" (node_Labels node !! key)) v); [|done].
    simpl. destruct (node_Labels node !! key); simpl in *; subst; auto. }
  pose proof (Hval role "active") as Hr. pose proof (Hval cand "true") as Hc. clear Hval.
  destruct ba, bc; rewrite ?apply_patch_lookup;
  repeat match goal with
  | H : context [if negb ?b then _ else _] |- _ => destruct b eqn:?; cbn [negb] in *
  | |- context [if negb ?b then _ else _] => destruct b eqn:?; cbn [negb] in *
  | |- context [if bool_decide ?P then _ else _] => destruct (bool_decide P) eqn:?
  end;
  split_and!; intros; rewrite ?apply_patch_lookup, ?lookup_insert_eq;
  rewrite ?lookup_insert_ne, ?lookup_insert_eq, ?lookup_empty by done; try done;
  repeat match goal with
  | H : bool_decide (is_Some _) = false |- _ =>
      apply bool_decide_eq_false, eq_None_not_Some in H
  | H : _ ∨ "active" = "" |- _ => destruct H as [H|H]; [|discriminate]
  | H : _ ∨ "true" = "" |- _ => destruct H as [H|H]; [|discriminate]
  end; congruence.
Qed.

Lemma try_each_inv {A} (l : list A) (body : A → prog (ctl_sig Q) (result unit)) tr :
  exec (try_each l body) tr (Ok tt) →
  ∀ x, x ∈ l → ∃ tr1 tr2 tr3, tr = tr1 ++ tr2 ++ tr3 ∧ exec (body x) tr2 (Ok tt).
Proof.
  revert tr. induction l as [|y l IH]; intros tr H x Hx; [by apply elem_of_nil in Hx|].
  cbn [try_each] in H. exec_step H. destruct a.
  apply elem_of_cons in Hx as [->|Hx]; [by exists [], tr0, tr1|].
  destruct (IH _ H x Hx) as (t1 & t2 & t3 & -> & Hb).
  exists (tr0 ++ t1), t2, t3. by rewrite <-app_assoc.
Qed.

(** The API acknowledged, in the calls of [tr], labels that make
    [active] the only active node of the claim. *)
Definition labelled (pvc : PersistentVolumeClaim) (active : string) (candidates : list FailoverCandidate)
    (nodes : list (Node Q)) (tr : list (event (ctl_sig Q))) : Prop :=
  let role := RoleLabel (pvc_Namespace pvc) (pvc_Name pvc) in
  let cand := CandidateLabel (pvc_Namespace pvc) (pvc_Name pvc) in
  cdid ListNodes (Ok nodes) tr ∧
  ∀ node, node ∈ nodes → ∃ patch,
    (patch = ∅ ∨ cdid (PatchNode (node_Name node) patch) (Ok tt) tr) ∧
    let after := apply_patch patch (node_Labels node) in
    after !! role = (if bool_decide (node_Name node = active ∧ active ≠ "") then Some "active" else None) ∧
    after !! cand = (if bool_decide (node_Name node ∈ map fc_Node candidates) then Some "true" else None) ∧
    ∀ k, k ≠ role → k ≠ cand → after !! k = node_Labels node !! k.

Lemma reconcileNodeLabels_labelled pvc active candidates tr :
  exec (reconcileNodeLabels (Q:=Q) pvc active candidates) tr (Ok tt) →
  ∃ nodes, labelled pvc active candidates nodes tr.
Proof.
  unfold reconcileNodeLabels. intros H. exec_step H. rename a into nodes. exec_step H0.
  exists nodes. split; [left|]. intros node Hn.
  exists (label_patch_for (RoleLabel (pvc_Namespace pvc) (pvc_Name pvc))
    (CandidateLabel (pvc_Namespace pvc) (pvc_Name pvc)) active (candidate_set candidates) node).
  split; [|apply label_patch_correct, role_candidate_distinct].
  destruct (try_each_inv _ _ _ H node Hn) as (t1 & t2 & t3 & -> & Hb). cbv zeta in Hb.
  destruct (no_entries _) eqn:E.
  - left. unfold no_entries in E. by apply Nat.eqb_eq, map_size_empty_inv in E.
  - right. exec_step Hb. right. apply cdid_app. right. left.
Qed.

(** ** Annotations *)

(** The claim and its volume name [target] as the active node: they did
    when they were read, or the API acknowledged the update. *)
Definition stored (pvc : PersistentVolumeClaim) (target previous : string)
    (tr : list (event (ctl_sig Q))) : Prop :=
  pvc_VolumeName pvc ≠ "" ∧
  (∃ pv, cdid (GetPV (pvc_VolumeName pvc)) (Ok pv) tr ∧
     let annotations := set_active target previous (pv_Annotations pv) in
     (pv_Annotations pv = annotations ∨ cdid (UpdatePV (mkPV (pv_Name pv) annotations)) (Ok tt) tr)) ∧
  (∃ latest, cdid (GetPVC (pvc_Namespace pvc) (pvc_Name pvc)) (Ok latest) tr ∧
     let annotations := delete AnnotationSelectedNode
                          (set_active target previous (pvc_Annotations latest)) in
     (pvc_Annotations latest = annotations ∨
      cdid (UpdatePVC (mkPVC (pvc_Namespace latest) (pvc_Name latest) annotations
              (pvc_StorageClassName latest) (pvc_VolumeName latest))) (Ok tt) tr)).

Lemma stored_app pvc target previous tr1 tr2 :
  stored pvc target previous tr1 → stored pvc target previous (tr1 ++ tr2).
Proof.
  intros (H & (pv & H1 & H2) & (l & H3 & H4)). split; [done|].
  split; [exists pv|exists l]; (split; [by apply cdid_app; left|]).
  - destruct H2 as [?|?]; [by left|right; by apply cdid_app; left].
  - destruct H4 as [?|?]; [by left|right; by apply cdid_app; left].
Qed.

Lemma promoteStorageState_stored pvc target previous tr :
  exec (promoteStorageState (Q:=Q) pvc target previous) tr (Ok tt) → stored pvc target previous tr.
Proof.
  unfold promoteStorageState, promotePVCState. intros H.
  destruct (String.eqb_spec (pvc_VolumeName pvc) "") as [E|E]; [by destruct H as [_ ?]|].
  split; [done|]. exec_step H. rename a into pv. exec_step H. exec_step H. rename a0 into latest.
  exec_step H0. exec_step H2. cbn [app]. split.
  - exists pv. split; [left|]. destruct (bool_decide_reflect
      (pv_Annotations pv = set_active target previous (pv_Annotations pv))); [by left|].
    right. cbn [negb] in H1. exec_step H1. right. destruct a. left.
  - exists latest. split; [right; apply cdid_app; right; left|].
    destruct (bool_decide_reflect (pvc_Annotations latest =
      delete AnnotationSelectedNode (set_active target previous (pvc_Annotations latest)))); [by left|].
    right. cbn [negb] in H. exec_inv. right. apply cdid_app. right. right. destruct a0. left.
Qed.

Lemma set_active_lookup target previous m :
  set_active target previous m !! AnnotationActiveNode = Some target ∧
  (previous ≠ "" → set_active target previous m !! AnnotationPreviousActiveNode = Some previous).
Proof.
  unfold set_active. destruct (String.eqb_spec previous ""); cbn [negb].
  - by rewrite lookup_insert_eq.
  - by rewrite lookup_insert_ne, !lookup_insert_eq.
Qed.

End progs.

(** ** One reconciliation of one claim *)
Definition not_delete (o : ctl_op) : Prop := match o with DeletePod _ _ => False | _ => True end.
Ltac no_delete_call :=
  lazymatch goal with
  | |- @calls_only _ _ ?P (@call ?S ?o) => exact (@calls_only_call S P o I)
  end.

Section round.
Context {Q : Type} `{!QuantityOps Q}.

Lemma workloads_want_no_delete kinds pvc :
  calls_only (S:=ctl_sig Q) not_delete (workloads_want kinds pvc).
Proof.
  induction kinds as [|k kinds IH]; cbn [workloads_want]; [apply calls_only_ret|].
  apply calls_only_try; [no_delete_call|]. intros items.
  destruct (existsb _ items); [apply calls_only_ret|apply IH].
Qed.

Lemma claimHasDesiredConsumer_no_delete pvc pods :
  calls_only (S:=ctl_sig Q) not_delete (claimHasDesiredConsumer pvc pods).
Proof.
  unfold claimHasDesiredConsumer. destruct (Nat.ltb _ _);
    [apply calls_only_ret|apply workloads_want_no_delete].
Qed.

Lemma promotePVCState_no_delete pvc target previous :
  calls_only (S:=ctl_sig Q) not_delete (promotePVCState pvc target previous).
Proof.
  unfold promotePVCState. apply calls_only_try; [no_delete_call|]. intros latest.
  destruct (negb _); [|apply calls_only_ret].
  apply calls_only_try; [no_delete_call|]. intros _. apply calls_only_ret.
Qed.

Lemma promoteStorageState_no_delete pvc target previous :
  calls_only (S:=ctl_sig Q) not_delete (promoteStorageState pvc target previous).
Proof.
  unfold promoteStorageState. destruct (String.eqb _ ""); [apply calls_only_ret|].
  apply calls_only_try; [no_delete_call|]. intros pv.
  apply calls_only_try; [destruct (negb _); auto with sv; no_delete_call|].
  intros _. apply promotePVCState_no_delete.
Qed.

Lemma recordActiveNode_no_delete pvc target previous :
  calls_only (S:=ctl_sig Q) not_delete (recordActiveNode pvc target previous).
Proof.
  unfold recordActiveNode.
  destruct (String.eqb _ ""); [apply promotePVCState_no_delete|apply promoteStorageState_no_delete].
Qed.

Lemma reconcileNodeLabels_no_delete pvc active candidates :
  calls_only (S:=ctl_sig Q) not_delete (reconcileNodeLabels pvc active candidates).
Proof.
  unfold reconcileNodeLabels. apply calls_only_try; [no_delete_call|]. intros nodes.
  apply calls_only_try_each. intros node _. cbv zeta.
  destruct (no_entries _); [apply calls_only_ret|no_delete_call].
Qed.

(** ** Evictions *)
Lemma evict_inv pvc target (pod : Pod Q) tr r ns n (d : ctl_ans Q (DeletePod ns n)) tr1 tr2 :
  exec (evict pvc target pod) tr r → tr = tr1 ++ Ev (S:=ctl_sig Q) (DeletePod ns n) d :: tr2 →
  pod_Namespace pod = ns ∧ pod_Name pod = n ∧ pod_NodeName pod ≠ "" ∧ pod_NodeName pod ≠ target ∧
  (pvc_VolumeName pvc ≠ "" →
   cdid (RecordDemoted (volumeKey (pvc_Namespace pvc) (pvc_VolumeName pvc)) (pod_NodeName pod)) tt tr1).
Proof.
  unfold evict, record_demoted_call.
  destruct (String.eqb_spec (pod_NodeName pod) "") as [E1|E1]; cbn [orb].
  { intros [-> _]. by destruct tr1. }
  destruct (String.eqb_spec (pod_NodeName pod) target) as [E2|E2].
  { intros [-> _]. by destruct tr1. }
  intros H E. exec_step H. exec_step H. exec_step H1. rename tr4 into rest.
  assert (rest = []) as -> by (by destruct a0 as [|e]; [|destruct (IsNotFound e)]; destruct H).
  destruct (String.eqb_spec (pvc_VolumeName pvc) "") as [E3|E3]; exec_step H0; cbn [app] in E.
  - destruct tr1 as [|x tr1]; [|by destruct tr1].
    cbn [app] in E. simplify_eq. done.
  - destruct a. destruct tr1 as [|x [|y tr1]]; cbn [app] in E;
      [simplify_eq|simplify_eq|by destruct tr1].
    split_and!; try done. intros _. left.
Qed.

Lemma evictions_inv pvc target (pods : list (Pod Q)) : ∀ tr r ns n (d : ctl_ans Q (DeletePod ns n)) tr1 tr2,
  exec (try_each pods (evict pvc target)) tr r →
  tr = tr1 ++ Ev (S:=ctl_sig Q) (DeletePod ns n) d :: tr2 →
  ∃ pod, pod ∈ pods ∧
    pod_Namespace pod = ns ∧ pod_Name pod = n ∧ pod_NodeName pod ≠ "" ∧ pod_NodeName pod ≠ target ∧
    (pvc_VolumeName pvc ≠ "" →
     cdid (RecordDemoted (volumeKey (pvc_Namespace pvc) (pvc_VolumeName pvc)) (pod_NodeName pod)) tt tr1).
Proof.
  induction pods as [|pod pods IH]; intros tr r ns n d tr1 tr2 H E; cbn [try_each] in H.
  { destruct H as [-> _]. by destruct tr1. }
  apply exec_try in H as [([] & t1 & t2 & -> & H1 & H2)|(e & H & ->)].
  - apply app_eq_inv in E as [(k & E1 & E2)|(k & E1 & E2)].
    + destruct k as [|x k]; cbn [app] in E2.
      * rewrite app_nil_r in E1. subst t1.
        destruct (IH _ _ ns n d [] tr2 H2 (eq_sym E2)) as (p & Hp & ? & ? & ? & ? & Hd).
        exists p. split; [by right|]. split_and!; try done.
        intros Hv. specialize (Hd Hv). by apply elem_of_nil in Hd.
      * injection E2 as <- ->. exists pod. split; [left|]. by eapply evict_inv.
    + destruct (IH _ _ ns n d k tr2 H2 E2) as (p & Hp & ? & ? & ? & ? & Hd).
      exists p. split; [by right|]. split_and!; try done. intros Hv. subst tr1.
      apply cdid_app. right. auto.
  - exists pod. split; [left|]. by eapply evict_inv.
Qed.

End round.

(** ** The claim's state machine

    What one reconciliation of a claim amounts to, without its calls:
    the timer of the outage ([seen] at the claim's key) and the trace. *)
Section machine.
Context {Q : Type} `{!QuantityOps Q}.
Context (pvc : PersistentVolumeClaim) (agents : gmap string (Pod Q)).
Context (readyNodes : gmap string bool) (available : gmap string (ResourceList Q)) (now : Z).

Abbreviation trace := (list (event (ctl_sig Q))).
Definition quiet (tr : trace) : Prop := Forall (λ e, not_delete (ev_op (S:=ctl_sig Q) e)) tr.

(** First of all the API listed the pods of the claim's namespace, and
    [users] are those that use the claim. *)
Definition observed (users : list (Pod Q)) (tr : trace) : Prop :=
  ∃ pods rest, tr = Ev (S:=ctl_sig Q) (ListPods (pvc_Namespace pvc) "") (Ok pods) :: rest ∧
               users = podsUsingClaim pods (pvc_Name pvc).

Definition healthy (users : list (Pod Q)) : Prop := ∃ pod, pod ∈ users ∧ pod_healthy readyNodes pod = true.

(** A pod uses the claim or a listed workload asks for it. *)
Definition wanted (users : list (Pod Q)) (tr : trace) : Prop :=
  users ≠ [] ∨
  ∃ kind items w, cdid (ListWorkloads kind (pvc_Namespace pvc)) (Ok items) tr ∧ w ∈ items ∧
                  workload_wants kind (pvc_Name pvc) w = true.

(** The node the claim moves to, and that it may. *)
Definition may_move_to (users : list (Pod Q)) (target : string) (tr : trace) : Prop :=
  let key := volumeKey (pvc_Namespace pvc) (pvc_VolumeName pvc) in
  ∃ freshness demoted t,
    cdid (FreshnessOf key) freshness tr ∧ cdid (DemotedOf key) demoted tr ∧
    eligible users agents readyNodes freshness demoted (failoverMaxStaleness pvc) now
      (failoverWorkloadRequests users) available target t.

Inductive claim_round (seen : gmap string Z) (tr : trace) : gmap string Z → result unit → Prop :=
| round_error e :
    quiet tr → claim_round seen tr seen (Err e)
| round_settled users :
    quiet tr → observed users tr → (users = [] ∨ healthy users) →
    claim_round seen tr (delete (pvcKey pvc) seen) (Ok tt)
| round_outage users :
    quiet tr → observed users tr → wanted users tr → ¬ healthy users →
    seen !! pvcKey pvc = None →
    claim_round seen tr (<[pvcKey pvc := now]> seen) (Ok tt)
| round_waiting users firstSeen :
    quiet tr → observed users tr → wanted users tr → ¬ healthy users →
    seen !! pvcKey pvc = Some firstSeen →
    (Time.Sub now firstSeen < failoverGracePeriod pvc)%Z →
    claim_round seen tr seen (Ok tt)
| round_promoted users firstSeen target previous nodes before evictions r :
    tr = before ++ evictions → quiet before → observed users before → wanted users before →
    ¬ healthy users → seen !! pvcKey pvc = Some firstSeen →
    (failoverGracePeriod pvc ≤ Time.Sub now firstSeen)%Z →
    may_move_to users target before →
    stored pvc target previous before → labelled pvc target [] nodes before →
    exec (try_each users (evict pvc target)) evictions r →
    claim_round seen tr (match r with Ok _ => delete (pvcKey pvc) seen | Err _ => seen end) r.

Lemma quiet_app tr1 tr2 : quiet (tr1 ++ tr2) ↔ quiet tr1 ∧ quiet tr2.
Proof. apply Forall_app. Qed.

Lemma quiet_call o r : not_delete o → quiet [Ev (S:=ctl_sig Q) o r].
Proof. intros H. by repeat constructor. Qed.

Lemma observed_app users tr1 tr2 : observed users tr1 → observed users (tr1 ++ tr2).
Proof. intros (pods & rest & -> & ->). by eexists pods, _. Qed.

(** The answer of a leading pod list. *)
Definition listed_pods (tr : trace) : option (list (Pod Q)) :=
  match tr with
  | Ev (ListPods _ _) (Ok pods) :: _ => Some pods
  | _ => None
  end.

Lemma observed_unique users users' tr : observed users tr → observed users' tr → users = users'.
Proof.
  intros (p & rest & E & ->) (p' & rest' & E' & ->).
  assert (listed_pods tr = Some p) as H by (by rewrite E).
  assert (listed_pods tr = Some p') as H' by (by rewrite E'). congruence.
Qed.

Lemma labelled_mono active candidates nodes tr tr' :
  (∀ e, e ∈ tr → e ∈ tr') →
  labelled (Q:=Q) pvc active candidates nodes tr → labelled pvc active candidates nodes tr'.
Proof.
  intros Hsub [H1 H2]. split; [by apply Hsub|]. intros node Hn.
  destruct (H2 node Hn) as (patch & [->|Hp] & H); [exists ∅; auto|].
  exists patch. split; [right; by apply Hsub|done].
Qed.

Lemma stored_mono target previous tr tr' :
  (∀ e, e ∈ tr → e ∈ tr') → stored (Q:=Q) pvc target previous tr → stored pvc target previous tr'.
Proof.
  intros Hsub (H & (pv & H1 & H2) & (l & H3 & H4)). split; [done|]. unfold cdid in *.
  split; [exists pv|exists l]; split; naive_solver.
Qed.

(** Whether the claim is wanted, as the calls told. *)
Lemma claimHasDesiredConsumer_spec users tr b :
  exec (claimHasDesiredConsumer pvc users) tr (Ok b) →
  if b then wanted users tr else users = [].
Proof.
  unfold claimHasDesiredConsumer. destruct users as [|u users].
  - cbn [length Nat.ltb Nat.leb].
    assert (∀ kinds tr, exec (workloads_want kinds pvc) tr (Ok b) →
              if b then wanted [] tr else True) as H.
    { induction kinds as [|k kinds IH]; intros tr' H; cbn [workloads_want] in H.
      { destruct H as [_ [= ->]]. done. }
      exec_step H. exec_step H0. destruct (existsb _ a) eqn:E.
      - exec_step H. right. apply existsb_exists in E as (w & Hw & Hm).
        exists k, a, w. split; [left|]. split; [by apply list_elem_of_In|done].
      - specialize (IH _ H). destruct b; [|done].
        destruct IH as [?|(kind & items & w & H1 & H2)]; [done|]. right.
        exists kind, items, w. split; [by right|done]. }
    intros Hex. specialize (H _ _ Hex). by destruct b.
  - cbn. intros [_ [= ->]]. by left.
Qed.

(** The end of a reconciliation. *)
Lemma promote_claim_round seen tr0 tr users candidates activeNode seen' r firstSeen :
  quiet tr0 → observed users tr0 → wanted users tr0 → ¬ healthy users →
  seen !! pvcKey pvc = Some firstSeen → (failoverGracePeriod pvc ≤ Time.Sub now firstSeen)%Z →
  (fd_Promote (SelectFailoverTargetFromCandidates candidates (failoverNodePriority pvc)) = true →
   may_move_to users
     (fd_TargetNode (SelectFailoverTargetFromCandidates candidates (failoverNodePriority pvc))) tr0) →
  exec (promote_claim pvc users candidates activeNode seen) tr (seen', r) →
  claim_round seen (tr0 ++ tr) seen' r.
Proof.
  intros Hq Hobs Hw Hnh Hs Hg Hmove H. unfold promote_claim in H.
  set (d := SelectFailoverTargetFromCandidates _ _) in *.
  destruct (fd_Promote d) eqn:Ed; cbn [negb] in H.
  2: { destruct H as [-> [= -> ->]]. rewrite app_nil_r. by apply round_error. }
  specialize (Hmove eq_refl). cbv zeta in H. set (prev := if _ && _ && _ then _ else _) in H.
  apply exec_keep in H as [([] & tr1 & tr' & -> & H1 & H)|(e & H & [= -> ->])].
  2: { apply round_error, quiet_app. split; [done|]. by eapply promoteStorageState_no_delete. }
  pose proof (promoteStorageState_stored _ _ _ _ H1) as Hst.
  apply promoteStorageState_no_delete in H1.
  apply exec_keep in H as [([] & tr2 & tr'' & -> & H2 & H)|(e & H & [= -> ->])].
  2: { apply round_error. rewrite !quiet_app. split; [done|]. split; [done|].
       by eapply reconcileNodeLabels_no_delete. }
  destruct (reconcileNodeLabels_labelled _ _ _ _ H2) as [nodes Hlab].
  apply reconcileNodeLabels_no_delete in H2.
  assert (∀ evs r', exec (try_each users (evict pvc (fd_TargetNode d))) evs r' →
    claim_round seen (tr0 ++ tr1 ++ tr2 ++ evs)
      (match r' with Ok _ => delete (pvcKey pvc) seen | Err _ => seen end) r') as Hfin.
  { intros evs r' Hev.
    eapply (round_promoted _ _ users firstSeen (fd_TargetNode d) prev nodes (tr0 ++ tr1 ++ tr2));
      [by rewrite <- !app_assoc| | | |done|done|done| | | |done].
    - by rewrite !quiet_app.
    - by apply observed_app.
    - destruct Hw as [?|(k & i & w & Hk & ?)]; [by left|right]. exists k, i, w.
      split; [apply cdid_app; by left|done].
    - destruct Hmove as (f & dm & t & Hf & Hd & He). exists f, dm, t.
      split; [apply cdid_app; by left|]. split; [apply cdid_app; by left|done].
    - eapply stored_mono, Hst. intros e He. rewrite !elem_of_app. auto.
    - eapply labelled_mono, Hlab. intros e He. rewrite !elem_of_app. auto. }
  apply exec_keep in H as [([] & evs & tl & -> & H & [-> [= -> ->]])|(e & H & [= -> ->])].
  - rewrite app_nil_r. by apply Hfin in H.
  - by apply Hfin in H.
Qed.

Lemma failover_if_due_round seen tr0 tr users (freshness : gmap string ReplicaFreshness)
    (demoted : gmap string bool) activeNode (hasDemand : bool) seen' r :
  let key := volumeKey (pvc_Namespace pvc) (pvc_VolumeName pvc) in
  quiet tr0 → observed users tr0 → (if hasDemand then wanted users tr0 else users = []) →
  cdid (FreshnessOf key) freshness tr0 → cdid (DemotedOf key) demoted tr0 →
  exec (failover_if_due pvc users readyNodes
          (failoverCandidates users agents readyNodes freshness demoted (failoverMaxStaleness pvc)
             now (failoverWorkloadRequests users) available)
          activeNode hasDemand now seen) tr (seen', r) →
  claim_round seen (tr0 ++ tr) seen' r.
Proof.
  intros key Hq Hobs Hdem Hfresh Hdemoted H. unfold failover_if_due in H.
  destruct hasDemand; cbn [negb] in H.
  2: { destruct H as [-> [= -> ->]]. rewrite app_nil_r. eapply round_settled; [done|done|by left]. }
  rewrite hasHealthyClaimPod_spec in H. destruct (existsb _ users) eqn:Eh.
  { destruct H as [-> [= -> ->]]. rewrite app_nil_r. eapply round_settled; [done|done|right].
    apply existsb_exists in Eh as (p & Hp & Hh). exists p. split; [by apply list_elem_of_In|done]. }
  assert (¬ healthy users) as Hnh.
  { intros (p & Hp%list_elem_of_In & Hh). apply not_true_iff_false in Eh. apply Eh.
    apply existsb_exists. eauto. }
  destruct (seen !! pvcKey pvc) as [firstSeen|] eqn:Es.
  2: { destruct H as [-> [= -> ->]]. rewrite app_nil_r. by eapply round_outage. }
  destruct (Z.ltb_spec (Time.Sub now firstSeen) (failoverGracePeriod pvc)) as [Hlt|Hge].
  { destruct H as [-> [= -> ->]]. rewrite app_nil_r. by eapply round_waiting. }
  eapply promote_claim_round; [done..| |done]. intros Hp.
  destruct (select_cases (failoverCandidates users agents readyNodes freshness demoted
      (failoverMaxStaleness pvc) now (failoverWorkloadRequests users) available)
      (failoverNodePriority pvc))
    as [(pre & n & post & _ & (c & Hc & <-) & _ & E)|[_ [[_ E]|(c & Hc & E & _)]]];
    rewrite E in Hp |- *; try done;
    apply candidates_spec in Hc as (t & _ & Hc); by exists freshness, demoted, t.
Qed.

Lemma reconcilePVC_round seen tr seen' r :
  exec (reconcilePVC pvc agents readyNodes available now seen) tr (seen', r) →
  claim_round seen tr seen' r.
Proof.
  unfold reconcilePVC. intros H.
  apply exec_keep in H as [(pods & tr1 & tr' & -> & H1 & H)|(e & H & [= -> ->])].
  2: { exec_step H. apply round_error. by apply quiet_call. }
  apply exec_bind in H as (freshness & tr2 & tr3 & -> & H2 & H).
  apply exec_bind in H as (demoted & tr4 & tr5 & -> & H3 & H).
  exec_step H1. exec_step H2. exec_step H3. cbv zeta in H.
  match goal with |- claim_round _ (?a ++ ?b ++ ?c ++ ?d) _ _ =>
    replace (a ++ b ++ c ++ d) with ((a ++ b ++ c) ++ d) by (by rewrite <- !app_assoc);
    set (tr0 := a ++ b ++ c)
  end.
  assert (quiet tr0) as Hq0 by (by repeat constructor).
  apply exec_keep in H as [(demand & tr1 & tr' & -> & H1 & H)|(e & H & [= -> ->])].
  2: { apply round_error, quiet_app. split; [done|]. by eapply claimHasDesiredConsumer_no_delete. }
  pose proof (claimHasDesiredConsumer_spec _ _ _ H1) as Hdem.
  apply claimHasDesiredConsumer_no_delete in H1.
  apply exec_keep in H as [([] & tr2 & tr'' & -> & H2 & H)|(e & H & [= -> ->])].
  2: { apply round_error. rewrite !quiet_app. split; [done|]. split; [done|].
       destruct (negb _); [by eapply recordActiveNode_no_delete|by destruct H]. }
  assert (quiet tr2) as Hq2.
  { destruct (negb _); [by eapply recordActiveNode_no_delete|].
    destruct H2 as [-> _]. constructor. }
  apply exec_keep in H as [([] & tr3 & rest & -> & H3 & H)|(e & H & [= -> ->])].
  2: { apply round_error. rewrite !quiet_app. split_and!; try done.
       by eapply reconcileNodeLabels_no_delete. }
  apply reconcileNodeLabels_no_delete in H3.
  replace (tr0 ++ tr1 ++ tr2 ++ tr3 ++ rest) with ((tr0 ++ tr1 ++ tr2 ++ tr3) ++ rest)
    by (by rewrite <- !app_assoc).
  eapply failover_if_due_round; [by rewrite !quiet_app| | | | |exact H].
  - by eexists pods, _.
  - destruct demand; [|done].
    destruct Hdem as [?|(k & i & w & Hk & ?)]; [by left|right]. exists k, i, w.
    split; [|done]. unfold cdid in *. rewrite !elem_of_app. auto.
  - right. left.
  - right. right. left.
Qed.

End machine.

(** ** Theorems about one reconciliation *)

(** C1: Whatever the cluster answers, a reconciliation deletes a pod only
    when, before that call, it saw that no pod using the claim is running
    on a ready node although the claim is wanted, the outage was first
    seen at least the grace period ago, an eligible node was chosen, the
    claim and its volume were annotated with it, every node was labelled
    so that it alone is active, and the pod's own node was recorded as
    demoted; and the pod uses the claim and is bound to another node. *)
Theorem failover_eviction_safe {Q} `{!QuantityOps Q} pvc agents readyNodes available now seen
    (tr1 tr2 : list (event (ctl_sig Q))) ns n d res :
  exec (reconcilePVC pvc agents readyNodes available now seen)
    (tr1 ++ Ev (S:=ctl_sig Q) (DeletePod ns n) d :: tr2) res →
  ∃ users firstSeen target previous nodes pod,
    observed pvc users tr1 ∧ wanted pvc users tr1 ∧ ¬ healthy readyNodes users ∧
    seen !! pvcKey pvc = Some firstSeen ∧
    (failoverGracePeriod pvc ≤ Time.Sub now firstSeen)%Z ∧
    may_move_to pvc agents readyNodes available now users target tr1 ∧
    stored pvc target previous tr1 ∧ labelled pvc target [] nodes tr1 ∧
    pod ∈ users ∧ pod_Namespace pod = ns ∧ pod_Name pod = n ∧
    pod_NodeName pod ≠ "" ∧ pod_NodeName pod ≠ target ∧
    cdid (RecordDemoted (volumeKey (pvc_Namespace pvc) (pvc_VolumeName pvc)) (pod_NodeName pod)) tt tr1.
Proof.
  destruct res as [seen' r]. intros H%reconcilePVC_round.
  assert (∀ tr, quiet (Q:=Q) tr → tr = tr1 ++ Ev (S:=ctl_sig Q) (DeletePod ns n) d :: tr2 → False) as Hq.
  { intros tr Hq ->. unfold quiet in Hq. rewrite Forall_app, Forall_cons in Hq.
    by destruct Hq as (_ & [] & _). }
  inversion H; subst; try (exfalso; by eapply Hq).
  match goal with E : _ ++ _ = _ ++ _ |- _ => symmetry in E; rename E into Etr end.
  assert (∃ k, tr1 = before ++ k ∧ evictions = k ++ Ev (S:=ctl_sig Q) (DeletePod ns n) d :: tr2)
    as (k & -> & Eev).
  { apply app_eq_inv in Etr as [(k & E1 & E2)|(k & E1 & E2)]; [|eauto].
    destruct k as [|x k]; cbn [app] in E2.
    - exists []. rewrite app_nil_r in *. auto.
    - injection E2 as <- ->. exfalso. match goal with Hb : quiet before |- _ => rename Hb into Hb' end.
      subst before. unfold quiet in Hb'. rewrite Forall_app, Forall_cons in Hb'.
      by destruct Hb' as (_ & [] & _). }
  match goal with He : exec (try_each _ _) evictions _ |- _ =>
    destruct (evictions_inv _ _ _ _ _ _ _ _ _ _ He Eev) as (pod & Hp & ? & ? & ? & ? & Hd) end.
  match goal with Hs : stored _ _ _ before |- _ => pose proof Hs as (Hv & _) end.
  assert (∀ e, e ∈ before → e ∈ before ++ k) as Hin by (intros; apply elem_of_app; by left).
  exists users, firstSeen, target, previous, nodes, pod. split_and!; try done.
  - by apply observed_app.
  - match goal with Hw : wanted _ _ before |- _ =>
      destruct Hw as [?|(kd & i & w & Hk & ?)]; [by left|right; exists kd, i, w; split; [by apply Hin|done]] end.
  - match goal with Hm : may_move_to _ _ _ _ _ _ _ before |- _ =>
      destruct Hm as (f & dm & t & Hf & Hd' & He); exists f, dm, t;
      split; [by apply Hin|split; [by apply Hin|done]] end.
  - by eapply stored_mono.
  - by eapply labelled_mono.
  - apply cdid_app. right. auto.
Qed.

(** An outage to run the controller on: the claim's pod was on "n1",
    which is gone; "n2" holds a replica synchronised 20 seconds ago. *)
Definition ex_pvc : PersistentVolumeClaim := mkPVC "games" "world" ∅ (Some "simple-volume") "pv-1".
Definition ex_pod : Pod Z :=
  mkPod "games" "server-0" 0 "n1" [mkPodVolume "data" (Some "world")] [] [] None PodRunning "10.0.0.9" [].
Definition ex_agent : Pod Z :=
  mkPod "simple-volume" "agent-n2" 0 "n2" [] [] [] None PodRunning "10.0.0.2" [("Ready", "True")].
Definition ex_cluster : Cluster.cluster :=
  Cluster.mkCluster [ex_pod; ex_agent]
    [mkNode "n1" {[RoleLabel "games" "world" := "active"]} false [("Ready", "Unknown")] ∅;
     mkNode "n2" ∅ false [("Ready", "True")] ∅]
    [ex_pvc] [mkPV "pv-1" ∅]
    (mkShared {["games/pv-1" := {["n2" := mkFreshness (80 * Time.Second) true]}]} ∅) 0 ReplState.repl_start.
Definition ex_now : Z := 100 * Time.Second.
Definition ex_seen : gmap string Z := {["games/world" := 20 * Time.Second]}%Z.
Definition ex_round : prog (ctl_sig Z) (gmap string Z * result unit) :=
  reconcilePVC ex_pvc {["n2" := ex_agent]} {["n2" := true]} ∅ ex_now ex_seen.

Definition is_delete (e : event (ctl_sig Z)) : bool :=
  match ev_op e with DeletePod _ _ => true | _ => false end.

Definition ex_trace : list (event (ctl_sig Z)) := snd (Cluster.run_on ex_round ex_cluster).
Definition ex_result : gmap string Z * result unit := fst (fst (Cluster.run_on ex_round ex_cluster)).

Definition ex_before : list (event (ctl_sig Z)) := filter (λ e, is_delete e = false) ex_trace.

Lemma ex_runs : exec ex_round ex_trace ex_result.
Proof. unfold ex_trace, ex_result, Cluster.run_on. exact (run_self Cluster.handler ex_round ex_cluster). Qed.

Lemma failover_eviction_safe_witness :
  (∃ d, ex_trace = ex_before ++ [Ev (S:=ctl_sig Z) (DeletePod "games" "server-0") d]) ∧
  ∃ users target, observed (Q:=Z) ex_pvc users ex_before ∧ ¬ healthy {["n2" := true]} users ∧
    may_move_to ex_pvc {["n2" := ex_agent]} {["n2" := true]} ∅ ex_now users target ex_before.
Proof.
  assert (Etr : ex_trace = ex_before ++ [Ev (S:=ctl_sig Z) (DeletePod "games" "server-0") (Ok tt)])
    by (vm_compute; reflexivity).
  split; [by exists (Ok tt)|].
  pose proof ex_runs as H. rewrite Etr in H.
  destruct (failover_eviction_safe _ _ _ _ _ _ _ _ _ _ _ _ H)
    as (users & fs & target & prev & nodes & pod & H1 & H2 & H3 & H4 & H5 & H6 & _).
  exists users, target. exact (conj H1 (conj H3 H6)).
Defined.

(** A relabelling that succeeds leaves, among the nodes the API
    listed, the active-role label of the claim on the active node alone
    and its candidate label on the candidates alone, and every other
    label as it was; with no active node nobody keeps the role. *)
Theorem active_label_unique {Q} `{!QuantityOps Q} pvc active candidates (tr : list (event (ctl_sig Q))) :
  exec (reconcileNodeLabels pvc active candidates) tr (Ok tt) →
  ∃ nodes, labelled pvc active candidates nodes tr.
Proof. apply reconcileNodeLabels_labelled. Qed.

Lemma active_label_unique_witness :
  ∃ nodes, labelled (Q:=Z) ex_pvc "n2" [] nodes
             (snd (Cluster.run_on (reconcileNodeLabels ex_pvc "n2" []) ex_cluster)).
Proof.
  apply active_label_unique. unfold Cluster.run_on.
  assert (Ok tt = fst (fst (run Cluster.handler (reconcileNodeLabels ex_pvc "n2" []) ex_cluster)))
    as -> by (vm_compute; reflexivity).
  exact (run_self Cluster.handler _ ex_cluster).
Defined.

(** ** Several reconciliations

    A history of reconciliations of any claims, each with the cluster it
    saw; the timers are carried from one to the next. *)
Section history.
Context {Q : Type} `{!QuantityOps Q}.

Record round : Type := mkRound {
  rd_pvc : PersistentVolumeClaim;
  rd_agents : gmap string (Pod Q);
  rd_ready : gmap string bool;
  rd_available : gmap string (ResourceList Q);
  rd_now : Z;
  rd_trace : list (event (ctl_sig Q));
  rd_result : result unit;
}.

Inductive history : list round → gmap string Z → Prop :=
| history_start : history [] ∅
| history_round h seen rd seen' :
    history h seen →
    exec (reconcilePVC (rd_pvc rd) (rd_agents rd) (rd_ready rd) (rd_available rd) (rd_now rd) seen)
      (rd_trace rd) (seen', rd_result rd) →
    history (h ++ [rd]) seen'.

Definition saw_outage (rd : round) : Prop :=
  ∃ users, observed (rd_pvc rd) users (rd_trace rd) ∧ wanted (rd_pvc rd) users (rd_trace rd) ∧
           ¬ healthy (rd_ready rd) users.

Definition saw_recovery (rd : round) : Prop :=
  rd_result rd = Ok tt ∧
  ∃ users, observed (rd_pvc rd) users (rd_trace rd) ∧ healthy (rd_ready rd) users.

(** A running timer stands for an outage seen at that time and no
    recovery seen since. *)
Lemma timer_meaning h seen key t :
  history h seen → seen !! key = Some t →
  ∃ h1 rd0 h2, h = h1 ++ rd0 :: h2 ∧ pvcKey (rd_pvc rd0) = key ∧ rd_now rd0 = t ∧ saw_outage rd0 ∧
    ∀ rd, rd ∈ h2 → pvcKey (rd_pvc rd) = key → ¬ saw_recovery rd.
Proof.
  intros Hh. revert t. induction Hh as [|h seen rd seen' Hh IH Hex]; intros t Ht; [done|].
  apply reconcilePVC_round in Hex.
  assert (seen !! key = Some t → (pvcKey (rd_pvc rd) = key → ¬ saw_recovery rd) →
    ∃ h1 rd0 h2, h ++ [rd] = h1 ++ rd0 :: h2 ∧ pvcKey (rd_pvc rd0) = key ∧ rd_now rd0 = t ∧
      saw_outage rd0 ∧ ∀ rd, rd ∈ h2 → pvcKey (rd_pvc rd) = key → ¬ saw_recovery rd) as Hkeep.
  { intros Hs Hnr. destruct (IH t Hs) as (h1 & rd0 & h2 & -> & H1 & H2 & H3 & H4).
    exists h1, rd0, (h2 ++ [rd]). rewrite <-app_assoc. split_and!; try done.
    intros x [Hx| ->%list_elem_of_singleton]%elem_of_app; auto. }
  destruct (decide (pvcKey (rd_pvc rd) = key)) as [Hk|Hk].
  2: { apply Hkeep; [|done]. inversion Hex; subst; try done.
       - by rewrite lookup_delete_ne in Ht.
       - by rewrite lookup_insert_ne in Ht.
       - destruct (rd_result rd); [by rewrite lookup_delete_ne in Ht|done]. }
  assert (∀ users, observed (rd_pvc rd) users (rd_trace rd) → ¬ healthy (rd_ready rd) users →
    ¬ saw_recovery rd) as Hno.
  { intros users Ho Hn (_ & users' & Ho' & Hh'). by rewrite (observed_unique _ _ _ _ Ho' Ho) in Hh'. }
  inversion Hex as [e Hq E1 E2|users Hq Ho Hs E1 E2|users Hq Ho Hw Hn Hs E1 E2
    |users fs Hq Ho Hw Hn Hs Hg E1 E2
    |users fs target prev nodes before evs r Etr Hq Ho Hw Hn Hs Hg Hm Hst Hl Hev E1 E2]; subst.
  - apply Hkeep; [done|]. intros _ [E _]. congruence.
  - by rewrite lookup_delete_eq in Ht.
  - rewrite lookup_insert_eq in Ht. injection Ht as <-.
    exists h, rd, []. split_and!; try done; [|by intros ? ?%elem_of_nil]. by exists users.
  - apply Hkeep; [done|]. intros _. by eapply Hno.
  - destruct (rd_result rd) as [|e] eqn:Er; [by rewrite lookup_delete_eq in Ht|].
    apply Hkeep; [done|]. intros _ [E _]. congruence.
Qed.

(** A round that fails leaves the timers alone, even one that found a
    healthy pod: the labels are brought up to date before the timer is
    reset, so a recovery seen while a node cannot be labelled does not
    count, and the grace period of the next outage starts with the last
    one. *)
Lemma failed_round_keeps_timer pvc (agents : gmap string (Pod Q)) readyNodes available now seen tr seen' e :
  exec (reconcilePVC pvc agents readyNodes available now seen) tr (seen', Err e) → seen' = seen.
Proof.
  intros H. unfold reconcilePVC in H.
  apply exec_keep in H as [(pods & t1 & t2 & -> & _ & H)|(? & _ & [= -> _])]; [|done]. cbv zeta in H.
  do 2 apply exec_bind in H as (? & ? & ? & -> & _ & H).
  do 3 (apply exec_keep in H as [(? & ? & ? & -> & _ & H)|(? & _ & [= -> _])]; [|done]).
  unfold failover_if_due in H. destruct (negb _); [by destruct H as [_ [= _]]|].
  destruct (hasHealthyClaimPod _ _); [by destruct H as [_ [= _]]|].
  destruct (seen !! pvcKey pvc); [|by destruct H as [_ [= _]]]. destruct (_ <? _)%Z; [by destruct H as [_ [= _]]|].
  unfold promote_claim in H. cbv zeta in H. destruct (negb _); [by destruct H as [_ [= -> _]]|].
  do 3 (apply exec_keep in H as [(? & ? & ? & -> & _ & H)|(? & _ & [= -> _])]; [|done]). by destruct H as [_ [= _]].
Qed.

(** The grace period over time.  In any history of reconciliations,
    of this and of other claims, a pod is deleted only in a round that
    comes after an earlier round of the same claim which saw the outage,
    at least the grace period before, with no round of the claim between
    the two that saw a healthy pod. *)
Theorem failover_respects_grace h seen rd seen' ns n d :
  history h seen →
  exec (reconcilePVC (rd_pvc rd) (rd_agents rd) (rd_ready rd) (rd_available rd) (rd_now rd) seen)
    (rd_trace rd) (seen', rd_result rd) →
  cdid (DeletePod ns n) d (rd_trace rd) →
  saw_outage rd ∧
  ∃ h1 rd0 h2, h = h1 ++ rd0 :: h2 ∧ pvcKey (rd_pvc rd0) = pvcKey (rd_pvc rd) ∧ saw_outage rd0 ∧
    (failoverGracePeriod (rd_pvc rd) ≤ Time.Sub (rd_now rd) (rd_now rd0))%Z ∧
    ∀ r, r ∈ h2 → pvcKey (rd_pvc r) = pvcKey (rd_pvc rd) → ¬ saw_recovery r.
Proof.
  intros Hh Hex Hd%list_elem_of_split. destruct Hd as (tr1 & tr2 & Etr). apply reconcilePVC_round in Hex.
  assert (¬ quiet (rd_trace rd)) as Hq.
  { rewrite Etr. unfold quiet. rewrite Forall_app, Forall_cons. by intros (_ & [] & _). }
  inversion Hex as [e Hq' E1 E2|users Hq' Ho Hs E1 E2|users Hq' Ho Hw Hn Hs E1 E2
    |users fs Hq' Ho Hw Hn Hs Hg E1 E2
    |users fs target prev nodes before evs r Ebe Hq' Ho Hw Hn Hs Hg Hm Hst Hl Hev E1 E2];
    try done.
  split.
  { exists users. rewrite Ebe. split; [by apply observed_app|]. split; [|done].
    destruct Hw as [?|(k & i & w & Hk & ?)]; [by left|right]. exists k, i, w.
    split; [apply cdid_app; by left|done]. }
  destruct (timer_meaning h seen _ fs Hh Hs) as (h1 & rd0 & h2 & -> & H1 & <- & H3 & H4).
  exists h1, rd0, h2. by split_and!.
Qed.

End history.

(** The outage of [ex_round] seen 80 seconds before. *)
Definition ex_first : prog (ctl_sig Z) (gmap string Z * result unit) :=
  reconcilePVC ex_pvc {["n2" := ex_agent]} {["n2" := true]} ∅ (20 * Time.Second)%Z ∅.
Definition ex_rd0 : round (Q:=Z) :=
  mkRound ex_pvc {["n2" := ex_agent]} {["n2" := true]} ∅ (20 * Time.Second)
    (snd (run Cluster.handler ex_first ex_cluster))
    (snd (fst (fst (run Cluster.handler ex_first ex_cluster)))).
Definition ex_rd : round (Q:=Z) :=
  mkRound ex_pvc {["n2" := ex_agent]} {["n2" := true]} ∅ ex_now ex_trace (snd ex_result).

Lemma ex_history : history [ex_rd0] ex_seen.
Proof.
  assert (ex_seen = fst (fst (fst (run Cluster.handler ex_first ex_cluster)))) as ->
    by (vm_compute; reflexivity).
  apply (history_round [] ∅ ex_rd0); [constructor|].
  cbn [rd_pvc rd_agents rd_ready rd_available rd_now rd_trace rd_result ex_rd0].
  rewrite <-surjective_pairing. exact (run_self Cluster.handler ex_first ex_cluster).
Qed.

Lemma failover_respects_grace_witness :
  cdid (DeletePod "games" "server-0") (Ok tt) (rd_trace ex_rd) ∧
  ∃ h1 rd0 h2, [ex_rd0] = h1 ++ rd0 :: h2 ∧ saw_outage rd0 ∧
    (failoverGracePeriod ex_pvc ≤ Time.Sub ex_now (rd_now rd0))%Z.
Proof.
  assert (Hd : cdid (DeletePod "games" "server-0") (Ok tt) (rd_trace ex_rd)).
  { assert (Etr : ex_trace = ex_before ++ [Ev (S:=ctl_sig Z) (DeletePod "games" "server-0") (Ok tt)])
      by (vm_compute; reflexivity).
    unfold ex_rd. cbn [rd_trace]. rewrite Etr. apply cdid_app. right. left. }
  split; [exact Hd|].
  destruct (failover_respects_grace [ex_rd0] ex_seen ex_rd (fst ex_result) _ _ _ ex_history
    ltac:(unfold ex_rd; cbn [rd_pvc rd_agents rd_ready rd_available rd_now rd_trace rd_result];
          rewrite <-surjective_pairing; exact ex_runs) Hd)
    as (_ & h1 & rd0 & h2 & H1 & _ & H2 & H3 & _).
  exists h1, rd0, h2. exact (conj H1 (conj H2 H3)).
Defined.

(** ** Which claims a reconciliation of the cluster touches *)
Section reconcile.
Context {Q : Type} `{!QuantityOps Q}.

(** A loop over the claims: every event belongs to the reconciliation of
    one claim of the list that is enabled. *)
Lemma reconcile_loop_inv cfg (agents : gmap string (Pod Q)) readyNodes available now pvcs :
  ∀ seen tr seen' e,
  exec (fold_prog pvcs (λ seen pvc,
    if negb (failoverEnabled pvc (cfg_StorageClassName cfg)) then Ret seen
    else r <- reconcilePVC pvc agents readyNodes available now seen ;; Ret (fst r)) seen) tr seen' →
  e ∈ tr →
  ∃ pvc seen1 tr1 res, pvc ∈ pvcs ∧ failoverEnabled pvc (cfg_StorageClassName cfg) = true ∧
    exec (reconcilePVC pvc agents readyNodes available now seen1) tr1 res ∧ e ∈ tr1.
Proof.
  induction pvcs as [|pvc pvcs IH]; intros seen tr seen' e H He; cbn [fold_prog] in H.
  { destruct H as [-> _]. by apply elem_of_nil in He. }
  apply exec_bind in H as (s1 & t1 & t2 & -> & H1 & H2).
  apply elem_of_app in He as [He|He].
  - destruct (failoverEnabled pvc _) eqn:E; cbn [negb] in H1.
    2: { destruct H1 as [-> _]. by apply elem_of_nil in He. }
    apply exec_bind in H1 as (res & t3 & t4 & -> & H3 & [-> _]). rewrite app_nil_r in He.
    exists pvc, seen, t3, res. split_and!; try done. left.
  - destruct (IH _ _ _ _ H2 He) as (p & s & t & r & Hp & Hen & Hex & Hin).
    exists p, s, t, r. split_and!; try done. by right.
Qed.

(** A reconciliation of the whole cluster deletes pods, writes
    volumes and claims and patches nodes only while it reconciles a
    listed claim that has both replication and failover switched on and
    the controller's storage class. *)
Theorem reconcile_touches_enabled_claims cfg now seen (tr : list (event (ctl_sig Q))) res e :
  exec (Reconcile cfg now seen) tr res → e ∈ tr →
  match ev_op e with
  | DeletePod _ _ | UpdatePV _ | UpdatePVC _ | PatchNode _ _ | RecordDemoted _ _ => True
  | _ => False
  end →
  ∃ pvcs pvc agents readyNodes available seen1 tr1 res1,
    cdid ListPVCs (Ok pvcs) tr ∧ pvc ∈ pvcs ∧
    pvc_StorageClassName pvc = Some (cfg_StorageClassName cfg) ∧
    truthy (annotation (pvc_Annotations pvc) AnnotationReplicationEnabled) = true ∧
    truthy (annotation (pvc_Annotations pvc) AnnotationFailoverEnabled) = true ∧
    exec (reconcilePVC pvc agents readyNodes available now seen1) tr1 res1 ∧ e ∈ tr1.
Proof.
  unfold Reconcile. intros H He Hop.
  assert (∀ o r, e ∈ [Ev (S:=ctl_sig Q) o r] →
    match o with
    | DeletePod _ _ | UpdatePV _ | UpdatePVC _ | PatchNode _ _ | RecordDemoted _ _ => False
    | _ => True
    end → False) as Hno.
  { intros o r ->%list_elem_of_singleton. cbn in Hop. by destruct o. }
  apply exec_keep in H as [(pvcs & t1 & t2 & -> & H1 & H)|(er & H & ->)];
    [|exec_step H; exfalso; by eapply Hno].
  exec_step H1. apply elem_of_app in He as [He|He]; [exfalso; by eapply Hno|].
  apply exec_keep in H as [(pods & t3 & t4 & -> & H1 & H)|(er & H & ->)];
    [|exec_step H; exfalso; by eapply Hno].
  exec_step H1. apply elem_of_app in He as [He|He]; [exfalso; by eapply Hno|].
  apply exec_keep in H as [(nodes & t5 & t6 & -> & H1 & H)|(er & H & ->)];
    [|exec_step H; exfalso; by eapply Hno].
  exec_step H1. apply elem_of_app in He as [He|He]; [exfalso; by eapply Hno|].
  apply exec_keep in H as [(allPods & t7 & t8 & -> & H1 & H)|(er & H & ->)];
    [|exec_step H; exfalso; by eapply Hno].
  exec_step H1. apply elem_of_app in He as [He|He]; [exfalso; by eapply Hno|].
  apply exec_bind in H as (seen2 & t9 & t10 & -> & H1 & [-> _]). rewrite app_nil_r in He.
  destruct (reconcile_loop_inv _ _ _ _ _ _ _ _ _ _ H1 He)
    as (pvc & s & t & r & Hp & Hen & Hex & Hin).
  unfold failoverEnabled, replicationEnabled in Hen.
  destruct (pvc_StorageClassName pvc) as [c|] eqn:Ec; [|done].
  destruct (String.eqb_spec c (cfg_StorageClassName cfg)) as [->|]; [|done]. cbn [negb] in Hen.
  destruct (truthy (annotation (pvc_Annotations pvc) AnnotationReplicationEnabled)) eqn:Et; [|done].
  exists pvcs, pvc, (readyAgentPods pods), (readyNodeSet nodes),
    (nodeAvailableResources nodes allPods), s, t, r.
  split_and!; try done. left.
Qed.

End reconcile.

Definition ex_cfg : ReplicationControllerConfig :=
  mkControllerConfig "simple-volume" "simple-volume" "token" "token" 0 0 0 "app=agent".
Definition ex_enabled : PersistentVolumeClaim :=
  mkPVC "games" "world"
    {[AnnotationReplicationEnabled := "true"; AnnotationFailoverEnabled := " Yes "]}
    (Some "simple-volume") "pv-1".
Definition ex_cluster2 : Cluster.cluster :=
  Cluster.mkCluster [ex_pod; ex_agent] (Cluster.k_nodes ex_cluster) [ex_enabled]
    (Cluster.k_pvs ex_cluster) (Cluster.k_shared ex_cluster) 0 ReplState.repl_start.
Definition ex_reconcile : prog (ctl_sig Z) (gmap string Z * result unit) :=
  Reconcile ex_cfg ex_now ex_seen.

Lemma reconcile_touches_enabled_claims_witness :
  let tr := snd (run Cluster.handler ex_reconcile ex_cluster2) in
  cdid (DeletePod "games" "server-0") (Ok tt) tr ∧
  ∃ pvcs pvc, cdid ListPVCs (Ok pvcs) tr ∧ pvc ∈ pvcs ∧
    truthy (annotation (pvc_Annotations pvc) AnnotationFailoverEnabled) = true.
Proof.
  intros tr.
  assert (Hd : cdid (DeletePod "games" "server-0") (Ok tt) tr).
  { assert (Etr : tr = filter (λ e, is_delete e = false) tr ++
      [Ev (S:=ctl_sig Z) (DeletePod "games" "server-0") (Ok tt)]) by (vm_compute; reflexivity).
    rewrite Etr. apply cdid_app. right. left. }
  split; [exact Hd|].
  destruct (reconcile_touches_enabled_claims ex_cfg ex_now ex_seen tr _ _
    (run_self Cluster.handler ex_reconcile ex_cluster2) Hd I)
    as (pvcs & pvc & ag & rn & av & s & t & r & H1 & H2 & _ & _ & H3 & _).
  exists pvcs, pvc. exact (conj H1 (conj H2 H3)).
Defined.

(** ** Demoted nodes

    The operations on the shared maps, in the order the mutex
    serialises them. *)
Inductive shared_op : Type :=
| OpFreshness (namespace volume node : string) (t : Z) (ok : bool)
| OpDemote (pvc : PersistentVolumeClaim) (node : string)
| OpRestored (namespace volume node : string).

Definition shared_step (c : shared) (o : shared_op) : shared :=
  match o with
  | OpFreshness ns v n t ok => RecordReplicaFreshness ns v n t ok c
  | OpDemote pvc n => recordDemoted pvc n c
  | OpRestored ns v n => MarkRestored ns v n c
  end.

(** Specification: the last operation that concerned the replica. *)
Definition demoted_by (key node : string) (before : bool) (o : shared_op) : bool :=
  match o with
  | OpFreshness _ _ _ _ _ => before
  | OpDemote pvc n =>
      if bool_decide (volumeKey (pvc_Namespace pvc) (pvc_VolumeName pvc) = key ∧ n = node ∧
                      n ≠ "" ∧ pvc_VolumeName pvc ≠ "") then true else before
  | OpRestored ns v n =>
      if bool_decide (volumeKey ns v = key ∧ n = node) then false else before
  end.

(** Specification: the last freshness recorded of the replica. *)
Definition freshness_by (key node : string) (before : option ReplicaFreshness) (o : shared_op)
  : option ReplicaFreshness :=
  match o with
  | OpFreshness ns v n t ok =>
      if bool_decide (volumeKey ns v = key ∧ n = node ∧ v ≠ "" ∧ n ≠ "" ∧ t ≠ 0%Z)
      then Some (mkFreshness t ok) else before
  | _ => before
  end.

Definition demoted_at (c : shared) (key node : string) : bool :=
  flag (default ∅ (sh_demoted c !! key)) node.
Definition freshness_at (c : shared) (key node : string) : option ReplicaFreshness :=
  default ∅ (sh_freshness c !! key) !! node.

Lemma flag_insert m k b n : flag (<[k := b]> m) n = if decide (k = n) then b else flag m n.
Proof.
  unfold flag. destruct (decide (k = n)) as [->|]; [by rewrite lookup_insert_eq|].
  by rewrite lookup_insert_ne.
Qed.

Lemma flag_delete m k n : flag (delete k m) n = if decide (k = n) then false else flag m n.
Proof.
  unfold flag. destruct (decide (k = n)) as [->|]; [by rewrite lookup_delete_eq|].
  by rewrite lookup_delete_ne.
Qed.

Lemma demoted_step c o key node :
  demoted_at (shared_step c o) key node = demoted_by key node (demoted_at c key node) o.
Proof.
  unfold demoted_at. destruct o as [ns v n t ok|pvc n|ns v n]; cbn [shared_step demoted_by].
  - unfold RecordReplicaFreshness. by destruct (_ || _).
  - unfold recordDemoted.
    destruct (String.eqb_spec n ""), (String.eqb_spec (pvc_VolumeName pvc) ""); cbn [orb];
      try (rewrite bool_decide_eq_false_2 by naive_solver; done).
    set (k := volumeKey _ _). cbn [sh_demoted]. destruct (decide (k = key)) as [<-|Hne].
    + rewrite lookup_insert_eq. cbn [default from_option id]. rewrite flag_insert.
      destruct (decide (n = node)).
      * by rewrite bool_decide_eq_true_2 by naive_solver.
      * by rewrite bool_decide_eq_false_2 by naive_solver.
    + rewrite lookup_insert_ne by done. by rewrite bool_decide_eq_false_2 by naive_solver.
  - unfold MarkRestored. set (k := volumeKey ns v).
    destruct (decide (k = key)) as [<-|Hne].
    + destruct (sh_demoted c !! k) as [nodes|] eqn:E.
      2: { rewrite E. cbn [default from_option]. by destruct (bool_decide _). }
      cbn [sh_demoted default from_option id].
      transitivity (flag (delete n nodes) node).
      { destruct (no_entries (delete n nodes)) eqn:Ee.
        - rewrite lookup_delete_eq. cbn [default from_option]. unfold flag.
          by rewrite (no_entries_lookup _ _ Ee).
        - by rewrite lookup_insert_eq. }
      rewrite flag_delete. destruct (decide (n = node)).
      * by rewrite bool_decide_eq_true_2 by naive_solver.
      * by rewrite bool_decide_eq_false_2 by naive_solver.
    + rewrite bool_decide_eq_false_2 by naive_solver.
      destruct (sh_demoted c !! k); [|done]. cbn [sh_demoted].
      destruct (no_entries _); [by rewrite lookup_delete_ne|by rewrite lookup_insert_ne].
Qed.

Lemma freshness_step c o key node :
  freshness_at (shared_step c o) key node = freshness_by key node (freshness_at c key node) o.
Proof.
  unfold freshness_at. destruct o as [ns v n t ok|pvc n|ns v n]; cbn [shared_step freshness_by].
  - unfold RecordReplicaFreshness, Time.IsZero.
    destruct (String.eqb_spec v ""), (String.eqb_spec n ""), (Z.eqb_spec t 0); cbn [orb];
      try (rewrite bool_decide_eq_false_2 by naive_solver; done).
    set (k := volumeKey _ _). cbn [sh_freshness]. destruct (decide (k = key)) as [<-|Hne].
    + rewrite lookup_insert_eq. cbn [default from_option id]. destruct (decide (n = node)) as [->|].
      * rewrite lookup_insert_eq. by rewrite bool_decide_eq_true_2 by naive_solver.
      * rewrite lookup_insert_ne by done. by rewrite bool_decide_eq_false_2 by naive_solver.
    + rewrite lookup_insert_ne by done. by rewrite bool_decide_eq_false_2 by naive_solver.
  - unfold recordDemoted. by destruct (_ || _).
  - unfold MarkRestored. by destruct (sh_demoted c !! _).
Qed.

(** C29: The bookkeeping of replicas.  However the operations of the two
    controllers interleave, a replica is to be backed up before it is
    restored exactly when its node was demoted and not restored since,
    and the freshness failover reads is the last one recorded for the
    replica; neither is disturbed by other volumes or nodes. *)
Theorem replica_bookkeeping ops namespace volume node pvc :
  let c := foldl shared_step (mkShared ∅ ∅) ops in
  let key := volumeKey namespace volume in
  ShouldBackupBeforeRestore namespace volume node c = foldl (demoted_by key node) false ops ∧
  (volumeKey (pvc_Namespace pvc) (pvc_VolumeName pvc) = key →
   flag (demotedForPVC pvc c) node = foldl (demoted_by key node) false ops ∧
   freshnessForPVC pvc c !! node = foldl (freshness_by key node) None ops).
Proof.
  intros c key.
  assert (demoted_at c key node = foldl (demoted_by key node) false ops ∧
          freshness_at c key node = foldl (freshness_by key node) None ops) as [H1 H2].
  { subst c. induction ops as [|o ops IH] using rev_ind; [done|].
    rewrite !foldl_snoc. destruct IH as [IH1 IH2]. by rewrite demoted_step, freshness_step, IH1, IH2. }
  split; [exact H1|]. intros Hk. unfold demotedForPVC, freshnessForPVC. rewrite Hk. auto.
Qed.

End FailoverProps.
