(* ===== verification/ReplProps.v ===== *)
(** * What the replication controller guarantees

    The outcome of a full synchronisation, when a watch may start, what
    is replicated where, and the interleaving of the controller's
    goroutines on their shared state. *)
From S2P Require Import Prelude GoStrings GoTime Labels Effects AgentTypes Kube Claims Resources Failover ReplState Repl KubeMem.

Module ReplProps.
Import Str Labels Claims Failover ReplState Repl.

(** ** Full synchronisation of the targets *)
Section full_sync.
Context {Q : Type} `{!QuantityOps Q}.
Abbreviation trace := (list (event (ctl_sig Q))).

(** The request sent to one target. *)
Definition sync_request (d : DesiredReplication) (base : string) (backup : bool) : agent_request :=
  PostFullSync (mkFullSyncRequest (dr_Namespace d) (dr_Volume d)
    (mkSourceRef (dr_SourceURL d) "" "") base (dr_IncludePaths d) (dr_ExcludePaths d)
    (dr_PruneExcluded d) (dr_RequiredPaths d) (dr_Ownership d) backup).

(** The calls made for one target, and whether it acknowledged: it is
    asked to keep a backup exactly when it was demoted, and only an
    acknowledgement makes it fresh and restored. *)
Inductive target_calls (d : DesiredReplication) (token base : string) (t : DesiredTarget)
  : trace → bool → Prop :=
| target_refused backup (answer : result http_response) :
    match answer with Ok resp => status_failed resp = true | Err _ => True end →
    target_calls d token base t
      [Ev (S:=ctl_sig Q) (BackupNeeded (volumeKey (dr_Namespace d) (dr_Volume d)) (dt_Node t)) backup;
       Ev (S:=ctl_sig Q) (HttpDo (TrimRight is_slash (tgt_URL (dt_Ref t)) +:+ "/replication/full-sync")
             ("Bearer " +:+ token) (sync_request d base backup)) answer] false
| target_synced (backup : bool) resp now fresh restored :
    status_failed resp = false →
    fresh = (if String.eqb (dr_Volume d) "" || String.eqb (dt_Node t) "" || Time.IsZero now then []
             else [Ev (S:=ctl_sig Q)
                     (RecordFreshness (volumeKey (dr_Namespace d) (dr_Volume d)) (dt_Node t) now true) tt]) →
    restored = (if backup
                then [Ev (S:=ctl_sig Q)
                        (ClearDemoted (volumeKey (dr_Namespace d) (dr_Volume d)) (dt_Node t)) tt]
                else []) →
    target_calls d token base t
      ([Ev (S:=ctl_sig Q) (BackupNeeded (volumeKey (dr_Namespace d) (dr_Volume d)) (dt_Node t)) backup;
        Ev (S:=ctl_sig Q) (HttpDo (TrimRight is_slash (tgt_URL (dt_Ref t)) +:+ "/replication/full-sync")
              ("Bearer " +:+ token) (sync_request d base backup)) (Ok resp);
        Ev (S:=ctl_sig Q) TimeNow now] ++ fresh ++ restored) true.

Lemma postJSON_inv url token payload (tr : trace) r :
  exec (postJSON url token payload) tr r →
  ∃ answer : result http_response,
    tr = [Ev (S:=ctl_sig Q) (HttpDo url ("Bearer " +:+ token) payload) answer] ∧
    is_ok r = match answer with Ok resp => negb (status_failed resp) | Err _ => false end.
Proof.
  unfold postJSON. intros H.
  apply exec_try in H as [(resp & t1 & t2 & -> & H1 & H)|(e & H & ->)].
  - exec_step H1. exists (Ok resp). destruct (status_failed resp); destruct H as [-> ->]; done.
  - exec_step H. by exists (Err e).
Qed.

Lemma sync_target_inv d token base st t (tr : trace) st' :
  exec (sync_target d token base st t) tr st' →
  ∃ ok, target_calls d token base t tr ok ∧ fst st' = (fst st + if ok then 1 else 0)%Z.
Proof.
  unfold sync_target. intros H.
  apply exec_bind in H as (backup & t1 & t2 & -> & H1 & H). exec_step H1.
  apply exec_bind in H as (r & t3 & t4 & -> & H1 & H).
  apply postJSON_inv in H1 as (answer & -> & Hr). destruct r as [[]|e].
  - destruct answer as [resp|]; [|done]. symmetry in Hr. cbn [is_ok] in Hr.
    apply negb_true_iff in Hr.
    apply exec_bind in H as (now & t5 & t6 & -> & H1 & H). exec_step H1.
    apply exec_bind in H as ([] & t7 & t8 & -> & H1 & H).
    apply exec_bind in H as ([] & t9 & t10 & -> & H2 & H). destruct H as [-> ->].
    exists true. split; [|done]. rewrite app_nil_r. eapply (target_synced _ _ _ _ backup); [done|..].
    + unfold record_freshness_call in H1. destruct (_ || _); [by destruct H1|by exec_step H1].
    + destruct backup; [by exec_step H2|by destruct H2].
  - destruct H as [-> ->]. exists false. split; [|cbn; lia]. apply target_refused.
    destruct answer as [resp|]; [|done]. cbn in Hr. by destruct (status_failed resp).
Qed.

(** One call list and one verdict per target, in order. *)
Inductive all_targets (d : DesiredReplication) (token base : string)
  : list DesiredTarget → trace → list bool → Prop :=
| all_none : all_targets d token base [] [] []
| all_more t ts seg tr ok oks :
    target_calls d token base t seg ok → all_targets d token base ts tr oks →
    all_targets d token base (t :: ts) (seg ++ tr) (ok :: oks).

Definition acks (oks : list bool) : Z := Z.of_nat (length (filter (λ b, b = true) oks)).

Lemma sync_loop_inv d token base ts : ∀ st (tr : trace) st',
  exec (fold_prog ts (sync_target d token base) st) tr st' →
  ∃ oks, all_targets d token base ts tr oks ∧ fst st' = (fst st + acks oks)%Z.
Proof.
  induction ts as [|t ts IH]; intros st tr st' H; cbn [fold_prog] in H.
  - destruct H as [-> ->]. exists []. split; [constructor|]. unfold acks. cbn. lia.
  - apply exec_bind in H as (st1 & t1 & t2 & -> & H1 & H2).
    apply sync_target_inv in H1 as (ok & Hc & E). apply IH in H2 as (oks & Ha & E2).
    exists (ok :: oks). split; [by constructor|]. rewrite E2, E. unfold acks.
    destruct ok; [rewrite filter_cons_True by done|rewrite filter_cons_False by done]; cbn; lia.
Qed.

Lemma prepareShadow_inv d token (tr : trace) r :
  exec (prepareShadow d token) tr r →
  ∃ url auth req answer, tr = [Ev (S:=ctl_sig Q) (HttpDo url auth (PostShadowPrepare req)) answer] ∧
    match r with
    | Ok out => ∃ resp, answer = Ok resp ∧ status_failed resp = false ∧
                        hr_Body resp = BodyShadow out ∧ TrimSpace (spr_SourceBasePath out) ≠ ""
    | Err _ => True
    end.
Proof.
  unfold prepareShadow, postJSONDecode. intros H.
  apply exec_try in H as [(out & t3 & t4 & -> & H1 & H2)|(e & H & ->)].
  - apply exec_try in H1 as [(resp & t7 & t8 & -> & H1 & H3)|(e & _ & E)]; [|done].
    exec_step H1. destruct (status_failed resp) eqn:Es; [by destruct H3|].
    destruct (hr_Body resp) as [o|o|o] eqn:Eb; [|by destruct H3|by destruct H3].
    destruct H3 as [-> [= ->]].
    destruct (String.eqb_spec (TrimSpace (spr_SourceBasePath o)) ""); destruct H2 as [-> ->];
      eexists _, _, _, _; (split; [done|]); [done|]. by exists resp.
  - apply exec_try in H as [(resp & t7 & t8 & -> & H1 & H3)|(e' & H & [= <-])].
    + exec_step H1. assert (t8 = []) as ->; [|by eexists _, _, _, _].
      destruct (status_failed resp); [by destruct H3|]. destruct (hr_Body resp); by destruct H3.
    + exec_step H. by eexists _, _, _, _.
Qed.

(** C5: A full synchronisation.  In shadow mode it first has the source
    prepare a snapshot and does nothing more when that fails or names no
    path; then every target is asked once, in order, to copy from that
    path, with a backup exactly when it was demoted; it succeeds exactly
    when at least the configured number of replicas acknowledged (capped
    by the number of targets), and only targets that acknowledged are
    recorded as fresh and as restored. *)
Theorem full_sync_outcome d token (tr : trace) r :
  exec (fullSyncTargets d token) tr r →
  let shadow := String.eqb (dr_ConsistencyMode d) ConsistencyModeShadow in
  (shadow = true ∧ is_ok r = false ∧ ∃ url auth req answer, tr = [Ev (S:=ctl_sig Q) (HttpDo url auth (PostShadowPrepare req)) answer]) ∨
  ∃ pre base targets_tr oks,
    tr = pre ++ targets_tr ∧
    (if shadow then
       ∃ url auth req resp out, pre = [Ev (S:=ctl_sig Q) (HttpDo url auth (PostShadowPrepare req)) (Ok resp)] ∧
         status_failed resp = false ∧ hr_Body resp = BodyShadow out ∧
         spr_SourceBasePath out = base ∧ TrimSpace base ≠ ""
     else pre = [] ∧ base = "") ∧
    all_targets d token base (dr_Targets d) targets_tr oks ∧
    (is_ok r = true ↔
     (confirmationThreshold (dr_ConfirmedReplicas d) (Z.of_nat (length (dr_Targets d))) ≤ acks oks)%Z).
Proof.
  unfold fullSyncTargets. intros H.
  assert (∀ base t, exec (st <- fold_prog (dr_Targets d) (sync_target d token base) (0%Z, []) ;;
     let required := confirmationThreshold (dr_ConfirmedReplicas d) (Z.of_nat (length (dr_Targets d))) in
     if (fst st <? required)%Z then Ret (Err (Joinf "full sync failed: %s" (snd st)))
     else Ret (Ok tt)) t r →
     ∃ oks, all_targets d token base (dr_Targets d) t oks ∧
       (is_ok r = true ↔ (confirmationThreshold (dr_ConfirmedReplicas d)
          (Z.of_nat (length (dr_Targets d))) ≤ acks oks)%Z)) as Hloop.
  { intros base t Hl. apply exec_bind in Hl as (st & t1 & t2 & -> & H1 & H2).
    apply sync_loop_inv in H1 as (oks & Ha & E). exists oks. cbn in E. cbv zeta in H2.
    destruct (Z.ltb_spec (fst st) (confirmationThreshold (dr_ConfirmedReplicas d)
      (Z.of_nat (length (dr_Targets d))))); destruct H2 as [-> ->]; rewrite app_nil_r;
      (split; [done|]); cbn [is_ok]; split; try done; lia. }
  destruct (String.eqb (dr_ConsistencyMode d) ConsistencyModeShadow).
  - apply exec_try in H as [(base & t1 & t2 & -> & H1 & H)|(e & H & ->)].
    + right. apply exec_try in H1 as [(out & t3 & t4 & -> & H1 & [-> [= ->]])|(e & _ & E)]; [|done].
      apply prepareShadow_inv in H1 as (url & auth & req & answer & -> & resp & -> & H2 & H3 & H4).
      apply Hloop in H as (oks & Ha & Hr). rewrite app_nil_r.
      eexists _, _, t2, oks. split; [done|]. split; [|done]. by exists url, auth, req, resp, out.
    + left. split; [done|]. split; [done|].
      apply exec_try in H as [(out & t3 & t4 & -> & _ & [_ E])|(e' & H & [= <-])]; [done|].
      apply prepareShadow_inv in H as (url & auth & req & answer & -> & _). by eexists _, _, _, _.
  - right. apply exec_try in H as [(base & t1 & t2 & -> & [-> [= ->]] & H')|(e & [_ E] & _)]; [|done].
    apply Hloop in H' as (oks & Ha & Hr). by exists [], "", t2, oks.
Qed.

End full_sync.

(** ** Goroutines

    The controller's goroutines interleave at their calls.  A thread is
    the reconcile loop or a manual trigger ([RMain]), or one
    [runFullSync] ([RJob]); a call on the shared maps is answered by the
    critical section of ReplState.v, any other call by anything at all. *)
Section system.
Context {Q : Type} `{!QuantityOps Q}.
Abbreviation ctl A := (prog (ctl_sig Q) A).

Inductive role : Type := RMain | RJob (job : sync_job).

Record system : Type := mkSystem {
  sys_state : repl_state;
  sys_threads : list (role * ctl unit);
}.

Inductive step : system → system → Prop :=
| step_shared st ts i rl o k r st' :
    ts !! i = Some (rl, Vis (S:=ctl_sig Q) o k) → shared_answer Q o st = Some (r, st') →
    step (mkSystem st ts) (mkSystem st' (<[i := (rl, k r)]> ts))
| step_environment st ts i rl o k (r : ctl_ans Q o) :
    ts !! i = Some (rl, Vis (S:=ctl_sig Q) o k) → shared_answer Q o st = None →
    (∀ job, o ≠ GoRunFullSync job) →
    step (mkSystem st ts) (mkSystem st (<[i := (rl, k r)]> ts))
| step_go st ts i rl job k :
    ts !! i = Some (rl, Vis (S:=ctl_sig Q) (GoRunFullSync job) k) →
    step (mkSystem st ts) (mkSystem st (<[i := (rl, k tt)]> ts ++ [(RJob job, runFullSync job)]))
| step_tick st ts cfg zone now :
    step (mkSystem st ts) (mkSystem st (ts ++ [(RMain, reconcile_all cfg zone now ;;; Ret tt)]))
| step_manual st ts cfg namespace claim :
    step (mkSystem st ts) (mkSystem st (ts ++ [(RMain, TriggerFullSync cfg namespace claim ;;; Ret tt)])).

Inductive reachable : system → Prop :=
| reachable_start : reachable (mkSystem repl_start [])
| reachable_step s s' : reachable s → step s s' → reachable s'.

(** *** Programs that neither start nor end a synchronisation *)
Definition neutral_op (o : ctl_op) : bool :=
  match o with TryStartSync _ _ | EndSync _ | GoRunFullSync _ => false | _ => true end.

Fixpoint neutral {A} (p : ctl A) : Prop :=
  match p with
  | Ret _ => True
  | Vis o k => neutral_op o = true ∧ ∀ r, neutral (k r)
  end.

Lemma neutral_bind {A B} (p : ctl A) (f : A → ctl B) :
  neutral p → (∀ a, neutral (f a)) → neutral (pbind p f).
Proof. intros Hp Hf. induction p as [a|o k IH]; simpl in *; [done|]. destruct Hp. split; auto. Qed.

Lemma neutral_try {A B} (p : ctl (result A)) (f : A → ctl (result B)) :
  neutral p → (∀ a, neutral (f a)) → neutral (try_bind p f).
Proof. intros Hp Hf. apply neutral_bind; [done|]. by intros []. Qed.

Lemma neutral_fold {A St} (l : list A) (body : St → A → ctl St) s :
  (∀ s x, neutral (body s x)) → neutral (fold_prog l body s).
Proof. intros H. revert s. induction l; intros s; simpl; [done|]. by apply neutral_bind. Qed.

Ltac neutral_solve :=
  repeat first
  [ progress intros
  | apply neutral_try
  | apply neutral_bind
  | apply neutral_fold
  | match goal with
    | |- neutral (if ?b then _ else _) => destruct b
    | |- neutral (match ?x with _ => _ end) => destruct x
    | |- neutral (let _ := _ in _) => cbv zeta
    | |- neutral (call _) => split; [reflexivity|done]
    | |- neutral (Ret _) => exact I
    end
  | done ].

Lemma postJSON_neutral url token payload : neutral (postJSON url token payload).
Proof. unfold postJSON. neutral_solve. Qed.

Lemma record_freshness_neutral ns v n t h : neutral (record_freshness_call ns v n t h).
Proof. unfold record_freshness_call. neutral_solve. Qed.

Lemma stopReplicaWatches_neutral d token : neutral (stopReplicaWatches d token).
Proof. unfold stopReplicaWatches, stopWatch. neutral_solve. Qed.

Lemma startWatchAndRemember_neutral d token sig : neutral (startWatchAndRemember d token sig).
Proof.
  unfold startWatchAndRemember, startWatch. apply neutral_try; [apply postJSON_neutral|]. neutral_solve.
Qed.

Lemma fullSyncTargets_neutral d token : neutral (fullSyncTargets d token).
Proof.
  unfold fullSyncTargets, prepareShadow, postJSONDecode, sync_target.
  pose proof postJSON_neutral. pose proof record_freshness_neutral. neutral_solve; auto.
Qed.

Lemma ensureWatchStarted_neutral d token sig : neutral (ensureWatchStarted d token sig).
Proof.
  unfold ensureWatchStarted, watchStatus, recordWatchFreshness.
  pose proof stopReplicaWatches_neutral. pose proof startWatchAndRemember_neutral.
  pose proof record_freshness_neutral. neutral_solve; auto.
Qed.

Lemma desired_loop_neutral cfg token agents pvcs : neutral (desired_loop cfg token agents pvcs).
Proof.
  induction pvcs as [|pvc pvcs IH]; cbn [desired_loop]; [exact I|].
  apply neutral_try; [|neutral_solve].
  unfold desired_for, activePodForPVC. neutral_solve.
Qed.

Lemma DesiredReplications_neutral cfg token : neutral (DesiredReplications cfg token).
Proof. unfold DesiredReplications. pose proof desired_loop_neutral. neutral_solve; auto. Qed.

Lemma syncToken_neutral cfg : neutral (syncToken cfg).
Proof. unfold syncToken, secretToken. neutral_solve. Qed.

(** *** Threads and the synchronisation they are responsible for *)
Abbreviation token_t := (option (string * string)).

(** A main thread claims a volume with [TryStartSync] and hands the claim
    to the job it starts. *)
Fixpoint main_ok {A} (p : ctl A) (K : token_t) : Prop :=
  match p with
  | Ret _ => K = None
  | Vis o k =>
      match o as o' return (ctl_ans Q o' → token_t → Prop) → Prop with
      | TryStartSync vk sk => λ next,
          K = None ∧ HasPrefix sk (vk +:+ ":") = true ∧ next false None ∧ next true (Some (vk, sk))
      | GoRunFullSync job => λ next,
          K = Some (desired_key (job_desired job), job_syncKey job) ∧ next tt None
      | EndSync _ => λ _, False
      | _ => λ next, ∀ r, next r K
      end (λ r K', main_ok (k r) K')
  end.

(** A job gives its claim back at its very end. *)
Fixpoint job_ok (sk : string) (p : ctl unit) : Prop :=
  match p with
  | Ret _ => False
  | Vis o k =>
      match o as o' return (ctl_ans Q o' → Prop) → (ctl_ans Q o' → ctl unit) → Prop with
      | EndSync sk' => λ _ k, sk' = sk ∧ k tt = Ret tt
      | TryStartSync _ _ | GoRunFullSync _ => λ _ _, False
      | _ => λ next _, ∀ r, next r
      end (λ r, job_ok sk (k r)) k
  end.

Definition thread_ok (t : role * ctl unit) (K : token_t) : Prop :=
  match fst t with
  | RMain => main_ok (snd t) K
  | RJob job =>
      K = Some (desired_key (job_desired job), job_syncKey job) ∧ job_ok (job_syncKey job) (snd t) ∧
      HasPrefix (job_syncKey job) (desired_key (job_desired job) +:+ ":") = true ∨
      K = None ∧ snd t = Ret tt
  end.

Lemma main_ok_bind {A B} (p : ctl A) (f : A → ctl B) K :
  neutral p → (∀ a, main_ok (f a) K) → main_ok (pbind p f) K.
Proof.
  intros Hp Hf. induction p as [a|o k IH]; [apply Hf|]. destruct Hp as [Ho Hk].
  assert (∀ r, main_ok (pbind (k r) f) K) as H by auto.
  destruct o; try discriminate; exact H.
Qed.

Lemma main_ok_then {A B} (p : ctl A) (f : A → ctl B) K :
  main_ok p K → (∀ a, main_ok (f a) None) → main_ok (pbind p f) K.
Proof.
  intros Hp Hf. revert K Hp. induction p as [a|o k IH]; intros K Hp; [by simpl in Hp; subst; apply Hf|].
  destruct o; cbn in *; try (intros r; apply IH; apply Hp).
  - destruct Hp as (? & ? & ? & ?). split_and!; auto.
  - done.
  - destruct Hp. split; auto.
Qed.

Lemma main_ok_fold {A St} (l : list A) (body : St → A → ctl St) s :
  (∀ s x, main_ok (body s x) None) → main_ok (fold_prog l body s) None.
Proof. intros H. revert s. induction l; intros s; simpl; [done|]. by apply main_ok_then. Qed.

Lemma job_ok_bind {A} (p : ctl A) (f : A → ctl unit) sk :
  neutral p → (∀ a, job_ok sk (f a)) → job_ok sk (pbind p f).
Proof.
  intros Hp Hf. induction p as [a|o k IH]; [apply Hf|]. destruct Hp as [Ho Hk].
  assert (∀ r, job_ok sk (pbind (k r) f)) as H by auto.
  destruct o; try discriminate; exact H.
Qed.

Lemma runFullSync_ok job : job_ok (job_syncKey job) (runFullSync job).
Proof.
  unfold runFullSync. apply job_ok_bind; [apply fullSyncTargets_neutral|]. intros r.
  apply job_ok_bind; [|by intros _].
  destruct r; [|exact I]. unfold on_success. destruct (job_kind job); neutral_solve.
Qed.

Lemma sync_key_prefix key rest : HasPrefix (key +:+ ":" +:+ rest) (key +:+ ":") = true.
Proof. rewrite <-str_app_assoc. apply HasPrefix_app. Qed.

Lemma reconcileOne_ok zone d token now : main_ok (reconcileOne zone d token now) None.
Proof.
  unfold reconcileOne. apply main_ok_bind; [by split|]. intros epoch. cbv zeta.
  apply main_ok_bind; [destruct (dr_FullSync d); by split|]. intros done.
  destruct done; cbn [negb].
  - apply main_ok_bind; [apply ensureWatchStarted_neutral|]. intros [[]|e]; [|done].
    destruct (shouldRunScheduledFullSync _ _ _); [|done].
    apply main_ok_bind; [by split|]. intros last. destruct (negb _); [|done].
    cbn. split; [done|]. split; [rewrite !str_app_assoc; apply sync_key_prefix|]. done.
  - cbn [call pbind main_ok]. split; [done|]. split; [apply sync_key_prefix|]. split; [done|].
    apply main_ok_then; [|done].
    apply main_ok_bind; [apply stopReplicaWatches_neutral|]. intros _. cbn. done.
Qed.

Lemma main_ok_try {A B} (p : ctl (result A)) (f : A → ctl (result B)) :
  neutral p → (∀ a, main_ok (f a) None) → main_ok (try_bind p f) None.
Proof. intros Hp Hf. apply main_ok_bind; [done|]. by intros []. Qed.

Lemma reconcile_all_ok cfg zone now : main_ok (reconcile_all cfg zone now) None.
Proof.
  unfold reconcile_all. apply main_ok_try; [apply syncToken_neutral|]. intros token.
  apply main_ok_try; [apply DesiredReplications_neutral|]. intros desired.
  apply main_ok_then; [|done]. apply main_ok_fold. intros _ d.
  apply main_ok_then; [apply reconcileOne_ok|done].
Qed.

Lemma TriggerFullSync_ok cfg namespace claim : main_ok (TriggerFullSync cfg namespace claim) None.
Proof.
  unfold TriggerFullSync. cbv zeta. destruct (_ || _); [done|].
  apply main_ok_try; [apply syncToken_neutral|]. intros token.
  apply main_ok_try; [apply DesiredReplications_neutral|]. intros desired.
  destruct (find _ desired) as [item|]; [|done].
  apply main_ok_bind; [by split|]. intros epoch.
  cbn. split; [done|]. split; [apply (sync_key_prefix _ "manual")|]. done.
Qed.

(** *** The invariant: the running set is what the threads claim *)
Definition claims (toks : list token_t) : list (string * string) := omap id toks.

Record claims_inv (running : gset string) (cs : list (string * string)) : Prop := {
  inv_volumes : NoDup (map fst cs);
  inv_keys : NoDup (map snd cs);
  inv_running sk : sk ∈ running ↔ sk ∈ map snd cs;
  inv_prefix vk sk : (vk, sk) ∈ cs → HasPrefix sk (vk +:+ ":") = true;
}.

Definition system_inv (s : system) : Prop :=
  ∃ toks, Forall2 thread_ok (sys_threads s) toks ∧
          claims_inv (rs_runningSyncs (sys_state s)) (claims toks).

Lemma claims_inv_perm running cs cs' : cs ≡ₚ cs' → claims_inv running cs → claims_inv running cs'.
Proof.
  intros HP [H1 H2 H3 H4]. split.
  - by rewrite <-HP.
  - by rewrite <-HP.
  - intros sk. by rewrite H3, HP.
  - intros vk sk. rewrite <-HP. apply H4.
Qed.

(** Replacing the claim of one thread. *)
Lemma claims_split toks i K :
  toks !! i = Some K →
  ∃ rest, claims toks ≡ₚ match K with Some c => [c] | None => [] end ++ rest ∧
    ∀ K', claims (<[i := K']> toks) ≡ₚ match K' with Some c => [c] | None => [] end ++ rest.
Proof.
  intros Hi. exists (claims (take i toks) ++ claims (drop (S i) toks)).
  assert (∀ K', claims (take i toks ++ K' :: drop (S i) toks) ≡ₚ
            match K' with Some c => [c] | None => [] end ++
            claims (take i toks) ++ claims (drop (S i) toks)) as H.
  { intros K'. unfold claims. rewrite omap_app. cbn [omap list_omap id].
    destruct K' as [c|]; cbn [id]; [|done]. rewrite <-Permutation_middle. done. }
  split.
  - rewrite <-(take_drop_middle toks i K Hi) at 1. apply H.
  - intros K'. rewrite insert_take_drop by (by eapply lookup_lt_Some). apply H.
Qed.

Lemma shared_neutral o st (r : ctl_ans Q o) st' :
  neutral_op o = true → shared_answer Q o st = Some (r, st') → rs_runningSyncs st' = rs_runningSyncs st.
Proof.
  destruct o; cbn; intros Hn H; try discriminate; try (injection H as <- <-; reflexivity).
  unfold noteActiveNode in H. injection H as <- <-. cbn. by destruct (_ && _).
Qed.

Lemma main_ok_neutral {A} o (k : ctl_ans Q o → ctl A) K r :
  neutral_op o = true → main_ok (Vis (S:=ctl_sig Q) o k) K → main_ok (k r) K.
Proof. destruct o; try discriminate; intros _ H; apply H. Qed.

Lemma job_ok_neutral o (k : ctl_ans Q o → ctl unit) sk r :
  neutral_op o = true → job_ok sk (Vis (S:=ctl_sig Q) o k) → job_ok sk (k r).
Proof. destruct o; try discriminate; intros _ H; apply H. Qed.

Lemma thread_neutral rl o k K r :
  neutral_op o = true → thread_ok (rl, Vis (S:=ctl_sig Q) o k) K → thread_ok (rl, k r) K.
Proof.
  intros Hn. destruct rl as [|job]; unfold thread_ok; cbn [fst snd].
  - by apply main_ok_neutral.
  - intros [(HK & Hj & Hp)|[_ H]]; [|discriminate]. left. split; [done|]. split; [|done].
    by eapply job_ok_neutral.
Qed.

Lemma claim_taken running cs vk sk :
  claims_inv running cs → HasPrefix sk (vk +:+ ":") = true →
  existsb (λ key, HasPrefix key (vk +:+ ":")) (elements running) = false →
  claims_inv ({[sk]} ∪ running) ((vk, sk) :: cs).
Proof.
  intros [H1 H2 H3 H4] Hp Hfree.
  assert (∀ k, k ∈ running → HasPrefix k (vk +:+ ":") = false) as Hno.
  { intros k Hk. apply not_true_is_false. intros F. apply not_true_iff_false in Hfree.
    apply Hfree, existsb_exists. exists k. split; [|done]. apply list_elem_of_In. by apply elem_of_elements. }
  split.
  - cbn [map fst]. apply NoDup_cons. split; [|done].
    intros Hin. apply list_elem_of_In, in_map_iff in Hin as ([v s] & E & Hin). cbn in E. subst v.
    apply list_elem_of_In in Hin. specialize (H4 _ _ Hin). rewrite Hno in H4; [done|].
    apply H3. apply list_elem_of_In, in_map_iff. exists (vk, s). split; [done|by apply list_elem_of_In].
  - cbn [map snd]. apply NoDup_cons. split; [|done]. intros Hin. apply H3 in Hin.
    apply Hno in Hin. congruence.
  - intros s. cbn [map snd]. rewrite elem_of_union, elem_of_singleton, elem_of_cons, H3. done.
  - intros v s [[= -> ->]|Hin]%elem_of_cons; [done|auto].
Qed.

Lemma claim_released running vk sk cs :
  claims_inv running ((vk, sk) :: cs) → claims_inv (running ∖ {[sk]}) cs.
Proof.
  intros [H1 H2 H3 H4]. cbn [map fst snd] in *.
  apply NoDup_cons in H1 as [_ H1]. apply NoDup_cons in H2 as [Hn H2]. split; [done..| |].
  - intros s. rewrite elem_of_difference, elem_of_singleton, H3, elem_of_cons. split.
    + intros [[->|?] ?]; done.
    + intros Hs. split; [by right|]. intros ->. done.
  - intros v s Hin. apply H4. by right.
Qed.

(** One thread moves on and keeps, takes or gives up a claim. *)
Lemma inv_move st' ts toks i rl p q K K' :
  Forall2 thread_ok ts toks → ts !! i = Some (rl, p) → toks !! i = Some K →
  thread_ok (rl, q) K' → claims_inv (rs_runningSyncs st') (claims (<[i := K']> toks)) →
  system_inv (mkSystem st' (<[i := (rl, q)]> ts)).
Proof.
  intros HF Hi HK Hok Hc. exists (<[i := K']> toks). cbn [sys_threads sys_state].
  split; [|done]. by apply Forall2_insert.
Qed.

Lemma inv_keep st st' ts toks i rl o k K r :
  Forall2 thread_ok ts toks → claims_inv (rs_runningSyncs st) (claims toks) →
  ts !! i = Some (rl, Vis (S:=ctl_sig Q) o k) → toks !! i = Some K →
  neutral_op o = true → rs_runningSyncs st' = rs_runningSyncs st →
  system_inv (mkSystem st' (<[i := (rl, k r)]> ts)).
Proof.
  intros HF Hc Hi HK Hn Hr. eapply inv_move; [done|done|done| |].
  - eapply thread_neutral; [done|]. by eapply (Forall2_lookup_lr _ _ _ _ _ _ HF Hi HK).
  - rewrite list_insert_id by done. by rewrite Hr.
Qed.

Lemma inv_add st ts p :
  main_ok p None → system_inv (mkSystem st ts) → system_inv (mkSystem st (ts ++ [(RMain, p)])).
Proof.
  intros Hp (toks & HF & Hc). exists (toks ++ [None]). cbn [sys_threads sys_state] in *. split.
  - apply Forall2_app; [done|]. by constructor; [|constructor].
  - unfold claims in *. rewrite omap_app. cbn [omap list_omap id]. by rewrite app_nil_r.
Qed.

Lemma inv_shared st ts i rl o k r st' :
  system_inv (mkSystem st ts) → ts !! i = Some (rl, Vis (S:=ctl_sig Q) o k) →
  shared_answer Q o st = Some (r, st') →
  system_inv (mkSystem st' (<[i := (rl, k r)]> ts)).
Proof.
  intros (toks & HF & Hc) Hi Hsh. cbn [sys_threads sys_state] in *.
  destruct (Forall2_lookup_l _ _ _ _ _ HF Hi) as (K & HK & Hok).
  destruct (neutral_op o) eqn:En; [by eapply inv_keep; eauto using shared_neutral|].
  destruct (claims_split toks i K HK) as (rest & Hsplit & Hset).
  destruct o; try discriminate; cbn [shared_answer] in Hsh.
  - destruct rl as [|job]; [|by destruct Hok as [(_ & [] & _)|[_ ?]]].
    destruct Hok as (-> & Hp & Hfalse & Htrue).
    unfold tryStartVolumeFullSync in Hsh. destruct (existsb _ _) eqn:E; injection Hsh as <- <-.
    + eapply inv_move; [done|done|done|exact Hfalse|]. by rewrite list_insert_id.
    + eapply inv_move; [done|done|done|exact Htrue|]. cbn [rs_runningSyncs].
      eapply claims_inv_perm; [by rewrite Hset|]. apply claim_taken; [|done|done].
      by eapply claims_inv_perm.
  - injection Hsh as <- <-.
    destruct rl as [|job]; [by destruct Hok|]. destruct Hok as [(-> & [-> Hk] & Hp)|[_ ?]]; [|done].
    eapply (inv_move _ _ _ _ _ _ _ _ None); [done|done|done|by right|]. cbn [rs_runningSyncs end_sync].
    eapply claims_inv_perm; [by rewrite Hset|]. eapply claim_released.
    by eapply claims_inv_perm.
Qed.

Lemma inv_go st ts i rl job k :
  system_inv (mkSystem st ts) → ts !! i = Some (rl, Vis (S:=ctl_sig Q) (GoRunFullSync job) k) →
  system_inv (mkSystem st (<[i := (rl, k tt)]> ts ++ [(RJob job, runFullSync job)])).
Proof.
  intros (toks & HF & Hc) Hi. cbn [sys_threads sys_state] in *.
  destruct (Forall2_lookup_l _ _ _ _ _ HF Hi) as (K & HK & Hok).
  destruct (claims_split toks i K HK) as (rest & Hsplit & Hset).
  destruct rl as [|j]; [|by destruct Hok as [(_ & [] & _)|[_ ?]]].
  destruct Hok as [-> Hnext]. set (c := (desired_key (job_desired job), job_syncKey job)) in *.
  exists (<[i := None]> toks ++ [Some c]). cbn [sys_threads sys_state]. split.
  - apply Forall2_app; [by apply Forall2_insert|]. constructor; [|constructor]. left. split; [done|].
    split; [apply runFullSync_ok|]. eapply (inv_prefix _ _ Hc). rewrite Hsplit. left.
  - eapply claims_inv_perm; [|exact Hc]. unfold claims at 2. rewrite omap_app.
    fold (claims (<[i := None]> toks)). rewrite Hset, Hsplit. cbn. by rewrite Permutation_app_comm.
Qed.

Lemma reachable_inv s : reachable s → system_inv s.
Proof.
  induction 1 as [|s s' _ IH Hs].
  - exists []. split; [constructor|]. split; cbn; try constructor; try done.
    + set_solver.
    + set_solver.
  - destruct Hs.
    + by eapply inv_shared.
    + destruct IH as (toks & HF & Hc). cbn [sys_threads sys_state] in *.
      destruct (Forall2_lookup_l _ _ _ _ _ HF H) as (K & HK & _).
      eapply inv_keep; try done. by destruct o; try done; destruct (H1 job).
    + by eapply inv_go.
    + apply inv_add; [|done]. apply main_ok_then; [apply reconcile_all_ok|done].
    + apply inv_add; [|done]. apply main_ok_then; [apply TriggerFullSync_ok|done].
Qed.

(** C4: However the goroutines of the controller interleave, and whatever
    the cluster and the agents answer, no volume ever has two full
    synchronisations under way; and the set of running synchronisations
    never leaks: when every goroutine has finished it is empty, so that
    the next one can start. *)
Theorem one_full_sync_per_volume s :
  reachable s →
  (∀ i j job1 job2 p1 p2,
     sys_threads s !! i = Some (RJob job1, p1) → sys_threads s !! j = Some (RJob job2, p2) →
     p1 ≠ Ret tt → p2 ≠ Ret tt → i ≠ j →
     desired_key (job_desired job1) ≠ desired_key (job_desired job2)) ∧
  ((∀ i rl p, sys_threads s !! i = Some (rl, p) → p = Ret tt) →
   rs_runningSyncs (sys_state s) = ∅).
Proof.
  intros (toks & HF & Hc)%reachable_inv. split.
  - intros i j job1 job2 p1 p2 Hi Hj H1 H2 Hij Heq.
    destruct (Forall2_lookup_l _ _ _ _ _ HF Hi) as (K1 & HK1 & [(-> & _)|[_ ?]]); [|done].
    destruct (Forall2_lookup_l _ _ _ _ _ HF Hj) as (K2 & HK2 & [(-> & _)|[_ ?]]); [|done].
    destruct (claims_split toks i _ HK1) as (rest & Hsplit & Hset).
    pose proof (inv_volumes _ _ Hc) as Hnd. rewrite Hsplit in Hnd. cbn in Hnd.
    apply NoDup_cons in Hnd as [Hn _]. apply Hn. rewrite Heq.
    assert ((desired_key (job_desired job2), job_syncKey job2) ∈ claims (<[i := None]> toks)) as Hin.
    { unfold claims. apply list_elem_of_omap. exists (Some (desired_key (job_desired job2), job_syncKey job2)).
      split; [|done]. apply (list_elem_of_lookup_2 _ j). by rewrite list_lookup_insert_ne. }
    rewrite Hset in Hin. apply list_elem_of_In, (in_map fst), list_elem_of_In in Hin. done.
  - intros Hdone. assert (claims toks = []) as E.
    { assert (Forall (λ K, K = None) toks) as HN.
      { apply Forall_lookup. intros i K HK.
        destruct (Forall2_lookup_r _ _ _ _ _ HF HK) as ([rl p] & Hi & Hok).
        specialize (Hdone _ _ _ Hi) as ->. destruct rl; [by destruct Hok|].
        by destruct Hok as [(_ & [] & _)|[-> _]]. }
      clear -HN. induction HN as [|K toks -> _ IH]; [done|]. exact IH. }
    rewrite E in Hc. apply set_eq. intros sk. rewrite (inv_running _ _ Hc). set_solver.
Qed.

End system.

(** A volume with one replica, for the examples. *)
Definition ex_pvc : PersistentVolumeClaim :=
  mkPVC "games" "world"
    {[AnnotationReplicationEnabled := "true"; AnnotationActiveNode := "n1";
      AnnotationConsistencyMode := "live"]}
    (Some "simple-volume") "pv-1".
Definition ex_agent (node ip : string) : Pod Z :=
  mkPod "simple-volume-system" ("agent-" +:+ node) 0 node [] [] [] None PodRunning ip [("Ready", "True")].
Definition ex_cfg : ReplicationControllerConfig :=
  with_defaults (mkControllerConfig "" "" "" "" 0 0 0 "").
Definition ex_cluster : Cluster.cluster :=
  Cluster.mkCluster [ex_agent "n1" "10.0.0.1"; ex_agent "n2" "10.0.0.2"] [] [ex_pvc] [] (mkShared ∅ ∅)
    (100 * Time.Second) repl_start.

Definition ex_desired : DesiredReplication :=
  mkDesiredReplication "games" "world" "pv-1" "n1" "http://10.0.0.1:8081"
    [mkDesiredTarget "n2" (mkTargetRef "http://10.0.0.2:8080" "token")]
    [] [] false [] empty_ownership "" true "" ConsistencyModeLive 1.

Lemma full_sync_outcome_witness :
  ∃ tr oks, exec (fullSyncTargets (Q:=Z) ex_desired "token") tr (Ok tt) ∧
    all_targets (Q:=Z) ex_desired "token" "" (dr_Targets ex_desired) tr oks ∧ (1 ≤ acks oks)%Z.
Proof.
  set (p := fullSyncTargets (Q:=Z) ex_desired "token").
  assert (Hex : exec p (snd (run Cluster.handler p ex_cluster)) (Ok tt)).
  { assert (Ok tt = fst (fst (run Cluster.handler p ex_cluster))) as -> by (vm_compute; reflexivity).
    exact (run_self Cluster.handler p ex_cluster). }
  destruct (full_sync_outcome ex_desired "token" (snd (run Cluster.handler p ex_cluster)) (Ok tt) Hex)
    as [(Hs & _)|(pre & base & ttr & oks & Etr & [-> ->] & Ha & Hr)]; [discriminate|].
  exists (snd (run Cluster.handler p ex_cluster)), oks. split; [exact Hex|].
  rewrite Etr. split; [exact Ha|]. apply Hr. reflexivity.
Defined.

(** Running one thread of a system by one call, with the answers of a
    cluster. *)
Definition is_go (o : ctl_op) : option sync_job :=
  match o with GoRunFullSync job => Some job | _ => None end.

Definition advance (i : nat) (ws : Cluster.cluster * system (Q:=Z)) : Cluster.cluster * system (Q:=Z) :=
  let '(w, mkSystem st ts) := ws in
  match ts !! i with
  | Some (rl, Vis o k) =>
      match shared_answer Z o st with
      | Some (r, st') => (w, mkSystem st' (<[i := (rl, k r)]> ts))
      | None =>
          let '(r, w') := Cluster.handler o w in
          let ts' := <[i := (rl, k r)]> ts in
          match is_go o with
          | Some job => (w, mkSystem st (ts' ++ [(RJob job, runFullSync job)]))
          | None => (w', mkSystem st ts')
          end
      end
  | _ => ws
  end.

Fixpoint advances (n i : nat) (ws : Cluster.cluster * system (Q:=Z)) : Cluster.cluster * system (Q:=Z) :=
  match n with O => ws | S n' => advances n' i (advance i ws) end.

Lemma advance_reachable i w s : reachable s → reachable (snd (advance i (w, s))).
Proof.
  intros H. destruct s as [st ts]. unfold advance.
  destruct (ts !! i) as [[rl [a|o k]]|] eqn:E; [done| |done].
  destruct (shared_answer Z o st) as [[r st']|] eqn:Es.
  - eapply reachable_step; [exact H|]. by eapply step_shared.
  - destruct (Cluster.handler o w) as [r w'].
    destruct (is_go o) as [job|] eqn:Eg; cbn [snd].
    + destruct o; try discriminate. injection Eg as ->. destruct r.
      eapply reachable_step; [exact H|]. by eapply step_go.
    + eapply reachable_step; [exact H|]. eapply step_environment; [done|done|].
      intros job ->. discriminate.
Qed.

(** Two manual triggers of one volume: the first starts a job, the second
    is refused while it runs. *)
Definition ex_threads : system (Q:=Z) :=
  mkSystem repl_start
    [(RMain, TriggerFullSync ex_cfg "games" "world" ;;; Ret tt);
     (RMain, TriggerFullSync ex_cfg "games" "world" ;;; Ret tt)].

Definition ex_system : system (Q:=Z) :=
  snd (advances 8 1 (advances 8 0 (ex_cluster, ex_threads))).

Lemma ex_system_reachable : reachable ex_system.
Proof.
  assert (∀ n i ws, reachable (snd ws) → reachable (snd (advances n i ws))) as Hiter.
  { intros n i. induction n as [|n IH]; intros [w s] H; [exact H|]. cbn [advances].
    by apply IH, advance_reachable. }
  unfold ex_system. apply Hiter, Hiter. cbn [snd].
  unfold ex_threads. eapply (reachable_step (mkSystem _ [_])); [|apply (step_manual _ [_])].
  eapply reachable_step; [apply reachable_start|apply (step_manual _ [])].
Qed.

Lemma one_full_sync_per_volume_witness :
  length (filter (λ t, match fst t with RJob _ => true | RMain => false end = true)
            (sys_threads ex_system)) = 1 ∧
  reachable ex_system ∧
  ((∀ i rl p, sys_threads ex_system !! i = Some (rl, p) → p = Ret tt) →
   rs_runningSyncs (sys_state ex_system) = ∅).
Proof.
  split; [vm_compute; reflexivity|]. split; [exact ex_system_reachable|].
  exact (proj2 (one_full_sync_per_volume ex_system ex_system_reachable)).
Defined.

(** ** When a watch starts and a synchronisation counts as done *)
Section watch.
Context {Q : Type} `{!QuantityOps Q}.
Abbreviation trace := (list (event (ctl_sig Q))).

(** Neither starts a watch nor marks anything as done. *)
Definition unmarked (o : ctl_op) : Prop :=
  match o with
  | HttpDo _ _ (PostWatchStart _) | SetStartedWatch _ _ | SetCompletedSync _ | SetLastScheduledOn _ _ => False
  | _ => True
  end.

Ltac unmarked_solve := walk_calls trivial_call.

Lemma fullSyncTargets_unmarked d token : calls_only (S:=ctl_sig Q) unmarked (fullSyncTargets d token).
Proof.
  unfold fullSyncTargets, prepareShadow, postJSONDecode, sync_target, postJSON, record_freshness_call.
  cbv zeta. unmarked_solve.
Qed.

Lemma stopReplicaWatches_unmarked d token : calls_only (S:=ctl_sig Q) unmarked (stopReplicaWatches d token).
Proof. unfold stopReplicaWatches, stopWatch. cbv zeta. unmarked_solve. Qed.

Lemma unmarked_not (tr : trace) (o : ctl_op) (r : ctl_ans Q o) :
  Forall (λ e, unmarked (ev_op (S:=ctl_sig Q) e)) tr → cdid o r tr → unmarked o.
Proof. intros H Hin. rewrite Forall_forall in H. exact (H _ Hin). Qed.

(** Starts a watch or notes that it did. *)
Definition starts_watch (o : ctl_op) : Prop :=
  match o with HttpDo _ _ (PostWatchStart _) | SetStartedWatch _ _ => True | _ => False end.

Lemma watch_marked o : starts_watch o → ¬ unmarked o.
Proof. unfold starts_watch, unmarked. repeat case_match; tauto. Qed.

Lemma starting_watch_only d token sig :
  calls_only (S:=ctl_sig Q) starts_watch (startWatchAndRemember d token sig).
Proof. unfold startWatchAndRemember, startWatch, postJSON. unmarked_solve. Qed.

(** The first call that is not like those of [l] comes after them. *)
Lemma split_after {A} (P : A → Prop) l r l1 e l2 :
  Forall P l → ¬ P e → l ++ r = l1 ++ e :: l2 → ∃ k, l1 = l ++ k ∧ r = k ++ e :: l2.
Proof.
  intros Hl He. revert l1. induction Hl as [|x l Hx _ IH]; intros l1 E; [by exists l1|].
  destruct l1 as [|y l1]; [by injection E as -> _|]. injection E as -> E.
  destruct (IH l1 E) as (k & -> & ->). by exists k.
Qed.

Lemma reconcileOne_watch zone d token now (tr1 tr2 : trace) r url auth req ans :
  exec (reconcileOne zone d token now) (tr1 ++ Ev (S:=ctl_sig Q) (HttpDo url auth (PostWatchStart req)) ans :: tr2) r →
  dr_FullSync d = true →
  ∃ epoch k, tr1 = [Ev (S:=ctl_sig Q) (NoteActiveNode (desired_key d) (dr_ActiveNode d)) epoch;
                    Ev (S:=ctl_sig Q) (CompletedSync (desired_key d +:+ ":" +:+ epoch_signature epoch d)) true] ++ k.
Proof.
  intros H Hfull. remember (tr1 ++ _ :: tr2) as tr eqn:Etr. unfold reconcileOne in H.
  apply exec_bind in H as (epoch & t1 & t2 & -> & H1 & H). exec_step H1. cbv zeta in H.
  rewrite Hfull in H. apply exec_bind in H as (done & t3 & t4 & -> & H1 & H). exec_step H1.
  rewrite app_assoc in Etr. apply (split_after (λ e, unmarked (ev_op (S:=ctl_sig Q) e))) in Etr as (k & -> & ->);
    [|by repeat constructor|by intros []].
  exists epoch, k. destruct done; [done|]. cbn [negb] in H. exfalso.
  assert (calls_only (S:=ctl_sig Q) unmarked
    (started <- ctl_call Q (TryStartSync (desired_key d) (desired_key d +:+ ":" +:+ epoch_signature epoch d)) ;;
     (if started : bool then
        stopReplicaWatches d token ;;;
        ctl_call Q (GoRunFullSync (mkSyncJob (desired_key d +:+ ":" +:+ epoch_signature epoch d) d token
           (SyncStartup epoch (epoch_signature epoch d))))
      else Ret tt) ;;; Ret (Ok tt))) as Hc.
  { pose proof stopReplicaWatches_unmarked. unmarked_solve; auto. }
  specialize (Hc _ _ H). rewrite Forall_forall in Hc. apply (Hc (Ev (S:=ctl_sig Q) (HttpDo url auth (PostWatchStart req)) ans)).
  apply elem_of_app. right. left.
Qed.

(** What a goroutine does once its synchronisation succeeded. *)
Definition checked (job : sync_job) (epoch : Z) (current : bool) : event (ctl_sig Q) :=
  Ev (S:=ctl_sig Q) (IsCurrentActiveEpoch (desired_key (job_desired job)) (dr_ActiveNode (job_desired job)) epoch) current.
Definition recorded (job : sync_job) (u : unit) : event (ctl_sig Q) :=
  Ev (S:=ctl_sig Q) (SetCompletedSync (job_syncKey job)) u.

Lemma runFullSync_marks job (tr1 tr2 : trace) u e :
  exec (runFullSync job) (tr1 ++ e :: tr2) u → ¬ unmarked (ev_op (S:=ctl_sig Q) e) →
  ∃ tr0, exec (fullSyncTargets (job_desired job) (job_token job)) tr0 (Ok tt) ∧
    match job_kind job with
    | SyncStartup epoch _ =>
        (tr1 = tr0 ++ [checked job epoch true] ∧ ∃ v, e = recorded job v) ∨
        (starts_watch (ev_op e) ∧ ∃ v k, tr1 = tr0 ++ [checked job epoch true; recorded job v] ++ k)
    | SyncManual _ => False
    | SyncScheduled key day => tr1 = tr0 ∧ ev_op e = SetLastScheduledOn key day
    end.
Proof.
  intros H Hm. remember (tr1 ++ e :: tr2) as tr eqn:Etr. unfold runFullSync in H.
  apply exec_bind in H as (r & t1 & t2 & -> & H1 & H).
  apply (split_after (λ e, unmarked (ev_op (S:=ctl_sig Q) e))) in Etr as (k & -> & ->);
    [|by eapply fullSyncTargets_unmarked|done].
  apply exec_bind in H as ([] & t3 & t4 & Et & H2 & H). exec_step H.
  destruct r as [[]|er].
  2:{ destruct H2 as [-> _]. cbn in Et. destruct k as [|x k]; [|by destruct k]. injection Et as -> _. by destruct Hm. }
  exists t1. split; [done|]. unfold on_success in H2. destruct (job_kind job) as [epoch sig|epoch|sched today].
  - apply exec_bind in H2 as (cur & t5 & t6 & -> & H3 & H2). exec_step H3. symmetry in Et. rewrite <-app_assoc in Et.
    apply (split_after (λ e, unmarked (ev_op (S:=ctl_sig Q) e))) in Et as (k2 & -> & Et); [|by repeat constructor|done].
    destruct cur; cbn [negb] in H2.
    2:{ destruct H2 as [-> _]. cbn in Et. destruct k2 as [|x k2]; [|by destruct k2]. injection Et as <- _. by destruct Hm. }
    apply exec_bind in H2 as (v & t7 & t8 & -> & H3 & H2). exec_step H3.
    destruct k2 as [|x k2]; [left; injection Et as <- _; split; [done|]; by exists v|].
    injection Et as <- Et. right. apply exec_bind in H2 as (w & t9 & t10 & -> & H3 & [-> _]). rewrite app_nil_r in Et.
    split; [|exists v, k2; done]. pose proof (starting_watch_only _ _ _ _ _ H3) as Hw. rewrite Forall_forall in Hw.
    assert (e ∈ t9 ++ [Ev (S:=ctl_sig Q) (EndSync (job_syncKey job)) u]) as [Hin|Hin]%elem_of_app
      by (rewrite Et; apply elem_of_app; right; left); [by apply Hw|].
    apply list_elem_of_singleton in Hin as ->. by destruct Hm.
  - apply exec_bind in H2 as (cur & t5 & t6 & -> & H3 & [-> _]). exec_step H3. cbn in Et.
    assert (Forall (λ e, unmarked (ev_op (S:=ctl_sig Q) e)) (k ++ e :: tr2)) as Hall by (rewrite Et; by repeat constructor).
    apply Hm. rewrite Forall_forall in Hall. apply Hall, elem_of_app. right. left.
  - exec_step H2. destruct k as [|x k]; [|destruct k as [|y k]; [|by destruct k]].
    + rewrite app_nil_r. by injection Et as -> _.
    + injection Et as _ -> _. by destruct Hm.
Qed.

(** C17: Order of a startup synchronisation and its watch.  A
    reconciliation of a volume that asks for a full synchronisation at
    start contacts the source to start a watch only after the shared state
    answered that the synchronisation of the current epoch and
    configuration is done.  The goroutine of a synchronisation starts a
    watch only for a synchronisation at start, after its targets were
    synchronised, after its epoch was found to be still current, and after
    it was recorded as done; it records as done no synchronisation but its
    own, at start, after the same checks; and a scheduled synchronisation
    notes its day only after its targets were synchronised. *)
Theorem watch_only_after_full_sync :
  (∀ zone d token now (tr1 tr2 : trace) r url auth req ans,
     exec (reconcileOne zone d token now) (tr1 ++ Ev (S:=ctl_sig Q) (HttpDo url auth (PostWatchStart req)) ans :: tr2) r →
     dr_FullSync d = true →
     ∃ epoch, cdid (NoteActiveNode (desired_key d) (dr_ActiveNode d)) epoch tr1 ∧
       cdid (CompletedSync (desired_key d +:+ ":" +:+ epoch_signature epoch d)) true tr1) ∧
  (∀ job (tr1 tr2 : trace) e u,
     exec (runFullSync job) (tr1 ++ e :: tr2) u → starts_watch (ev_op (S:=ctl_sig Q) e) →
     ∃ epoch sig tr0 v k, job_kind job = SyncStartup epoch sig ∧
       exec (fullSyncTargets (job_desired job) (job_token job)) tr0 (Ok tt) ∧
       tr1 = tr0 ++ [checked job epoch true; recorded job v] ++ k) ∧
  (∀ job (tr1 tr2 : trace) sk v u,
     exec (runFullSync job) (tr1 ++ Ev (S:=ctl_sig Q) (SetCompletedSync sk) v :: tr2) u →
     sk = job_syncKey job ∧ ∃ epoch sig tr0, job_kind job = SyncStartup epoch sig ∧
       exec (fullSyncTargets (job_desired job) (job_token job)) tr0 (Ok tt) ∧ tr1 = tr0 ++ [checked job epoch true]) ∧
  (∀ job (tr1 tr2 : trace) key day v u,
     exec (runFullSync job) (tr1 ++ Ev (S:=ctl_sig Q) (SetLastScheduledOn key day) v :: tr2) u →
     job_kind job = SyncScheduled key day ∧ exec (fullSyncTargets (job_desired job) (job_token job)) tr1 (Ok tt)).
Proof.
  split_and!.
  - intros zone d token now tr1 tr2 r url auth req ans H Hf.
    destruct (reconcileOne_watch _ _ _ _ _ _ _ _ _ _ _ H Hf) as (epoch & k & ->). exists epoch. split; [left|right; left].
  - intros job tr1 tr2 e u H Hw. destruct (runFullSync_marks _ _ _ _ _ H) as (tr0 & H0 & Hk); [by apply watch_marked|].
    destruct (job_kind job) as [epoch sig| |]; [|done|destruct Hk as [_ E]; by rewrite E in Hw].
    destruct Hk as [[_ [v ->]]|(_ & v & k & ->)]; [done|]. by exists epoch, sig, tr0, v, k.
  - intros job tr1 tr2 sk v u H. destruct (runFullSync_marks _ _ _ _ _ H) as (tr0 & H0 & Hk); [by intros []|].
    destruct (job_kind job) as [epoch sig| |]; [|done|by destruct Hk].
    destruct Hk as [[-> [w E]]|[[] _]]. injection E as ->. split; [done|]. by exists epoch, sig, tr0.
  - intros job tr1 tr2 key day v u H. destruct (runFullSync_marks _ _ _ _ _ H) as (tr0 & H0 & Hk); [by intros []|].
    destruct (job_kind job) as [epoch sig| |]; [|done|].
    + by destruct Hk as [[_ [w E]]|[[] _]].
    + destruct Hk as [-> E]. injection E as -> ->. done.
Qed.

End watch.

(** A synchronisation at start that starts its watch. *)
Definition ex_start_job : sync_job := mkSyncJob "k" ex_desired "token" (SyncStartup 0 "sig").
Definition ex_start_cluster : Cluster.cluster :=
  Cluster.set_repl ex_cluster (snd (ReplState.noteActiveNode (desired_key ex_desired) (dr_ActiveNode ex_desired) repl_start)).
Definition ex_start_run := run Cluster.handler (runFullSync (Q:=Z) ex_start_job) ex_start_cluster.

Lemma watch_only_after_full_sync_witness :
  ∃ tr1 e tr2, snd ex_start_run = tr1 ++ e :: tr2 ∧ starts_watch (ev_op (S:=ctl_sig Z) e) ∧
  ∃ epoch sig tr0 v k, job_kind ex_start_job = SyncStartup epoch sig ∧
    exec (fullSyncTargets ex_desired "token") tr0 (Ok tt) ∧
    tr1 = tr0 ++ [checked ex_start_job epoch true; recorded ex_start_job v] ++ k.
Proof.
  set (n := length (snd ex_start_run) - 3).
  assert (∃ e, snd ex_start_run !! n = Some e ∧ starts_watch (ev_op (S:=ctl_sig Z) e)) as (e & He & Hw).
  { eexists. split; [vm_compute; reflexivity|exact I]. }
  exists (take n (snd ex_start_run)), e, (drop (S n) (snd ex_start_run)).
  assert (snd ex_start_run = take n (snd ex_start_run) ++ e :: drop (S n) (snd ex_start_run)) as E
    by (by rewrite take_drop_middle).
  split; [exact E|]. split; [exact Hw|].
  apply (proj1 (proj2 watch_only_after_full_sync) ex_start_job _ (drop (S n) (snd ex_start_run)) e (fst (fst ex_start_run)));
    [|exact Hw].
  rewrite <-E. apply run_self.
Defined.

(** ** What is replicated where *)
Section desired.
Context {Q : Type} `{!QuantityOps Q}.
Abbreviation trace := (list (event (ctl_sig Q))).

Lemma desired_targets_spec (agents : gmap string (Pod Q)) active token t :
  t ∈ desired_targets agents active token ↔
  ∃ pod, agents !! dt_Node t = Some pod ∧ dt_Node t ≠ active ∧
         dt_Ref t = mkTargetRef (agentHTTPURL (pod_PodIP pod)) token.
Proof.
  unfold desired_targets. rewrite stable_sort_elem_of. split.
  - intros Hin. apply list_elem_of_In, in_map_iff in Hin as ([n pod] & <- & Hin).
    apply list_elem_of_In, list_elem_of_filter in Hin as [Hne Hin].
    apply elem_of_map_to_list in Hin. by exists pod.
  - intros (pod & Hp & Hne & Hr). apply list_elem_of_In, in_map_iff. exists (dt_Node t, pod).
    split; [destruct t; cbn in *; by subst|]. apply list_elem_of_In, list_elem_of_filter.
    split; [done|]. by apply elem_of_map_to_list.
Qed.

Lemma desired_targets_nodup (agents : gmap string (Pod Q)) active token :
  NoDup (map dt_Node (desired_targets agents active token)).
Proof.
  unfold desired_targets. rewrite stable_sort_perm, map_map. cbn [dt_Node].
  apply (sublist_NoDup _ (map fst (map_to_list agents))); [apply NoDup_fst_map_to_list|].
  generalize (map_to_list agents) as l. intros l. induction l as [|[n p] l IH]; [constructor|].
  destruct (decide (n = active)) as [->|Hne].
  - rewrite filter_cons_False by (cbn; tauto). by constructor.
  - rewrite filter_cons_True by done. cbn. by constructor.
Qed.

(** The active node of a claim: that of its oldest running pod, else the
    annotated one. *)
Definition active_node_of (pvc : PersistentVolumeClaim) (pods : list (Pod Q)) (active : string) : Prop :=
  (∃ pod, pod ∈ pods ∧ active_candidate (pvc_Name pvc) pod = true ∧ pod_NodeName pod = active ∧
     ∀ pod', pod' ∈ pods → active_candidate (pvc_Name pvc) pod' = true →
       (pod_CreationTimestamp pod ≤ pod_CreationTimestamp pod')%Z) ∨
  (∀ pod, pod ∈ pods → active_candidate (pvc_Name pvc) pod = false) ∧
  active = TrimSpace (annotation (pvc_Annotations pvc) AnnotationActiveNode).

Instance age_order : LessOrder (λ a b : Pod Q, (pod_CreationTimestamp a <? pod_CreationTimestamp b)%Z).
Proof. split; intros *; rewrite ?Z.ltb_lt, ?Z.ltb_ge; lia. Qed.

Lemma activePodForPVC_inv pvc (tr : trace) active :
  exec (activePodForPVC (pvc_Namespace pvc) (pvc_Name pvc)) tr (Ok active) →
  ∃ pods, tr = [Ev (S:=ctl_sig Q) (ListPods (pvc_Namespace pvc) "") (Ok pods)] ∧
    match active with
    | Some pod => active_node_of pvc pods (pod_NodeName pod)
    | None => active_node_of pvc pods (TrimSpace (annotation (pvc_Annotations pvc) AnnotationActiveNode))
    end.
Proof.
  unfold activePodForPVC. intros H.
  apply exec_try in H as [(pods & t1 & t2 & -> & H1 & H)|(e & _ & E)]; [|done].
  exec_step H1. cbv zeta in H. exists pods.
  destruct (stable_sort _ _) as [|pod rest] eqn:Es; destruct H as [-> [= ->]]; (split; [done|]).
  - right. split; [|done]. apply stable_sort_nil in Es. intros pod Hp.
    apply not_true_is_false. intros Hc.
    assert (pod ∈ filter (λ pod, active_candidate (pvc_Name pvc) pod = true) pods) as Hin
      by (by apply list_elem_of_filter).
    rewrite Es in Hin. by apply elem_of_nil in Hin.
  - left. apply stable_sort_head in Es as [Hin Hmin]; [|apply _].
    apply list_elem_of_filter in Hin as [Hc Hin]. exists pod. split_and!; try done.
    intros pod' Hp' Hc'. destruct (Hmin pod') as [->|Hl]; [by apply list_elem_of_filter|done|].
    by apply Z.ltb_ge in Hl.
Qed.

(** What [DesiredReplications] promises of one entry. *)
Record desired_ok (cfg : ReplicationControllerConfig) (token : string)
    (pvcs : list PersistentVolumeClaim) (agents : gmap string (Pod Q)) (tr : trace)
    (d : DesiredReplication) : Prop := {
  dok_claim : ∃ pvc pods, pvc ∈ pvcs ∧ replicationEnabled pvc (cfg_StorageClassName cfg) = true ∧
    dr_Namespace d = pvc_Namespace pvc ∧ dr_ClaimName d = pvc_Name pvc ∧
    dr_Volume d = pvc_VolumeName pvc ∧ dr_Volume d ≠ "" ∧
    cdid (ListPods (pvc_Namespace pvc) "") (Ok pods) tr ∧ active_node_of pvc pods (dr_ActiveNode d);
  dok_source : ∃ pod, agents !! dr_ActiveNode d = Some pod ∧
    dr_SourceURL d = agentWebDAVURL (pod_PodIP pod);
  dok_targets : dr_Targets d = desired_targets agents (dr_ActiveNode d) token;
  dok_nonempty : dr_Targets d ≠ [];
}.

Lemma desired_for_inv cfg token agents pvc (tr : trace) d :
  exec (desired_for cfg token agents pvc) tr (Ok (Some d)) →
  desired_ok cfg token [pvc] agents tr d.
Proof.
  unfold desired_for. intros H.
  destruct (replicationEnabled pvc _) eqn:Er; cbn [negb] in H; [|by destruct H].
  destruct (String.eqb_spec (pvc_VolumeName pvc) "") as [Ev0|Ev0]; [by destruct H|].
  apply exec_try in H as [(active & t1 & t2 & -> & H1 & H)|(e & _ & E)]; [|done].
  apply activePodForPVC_inv in H1 as (pods & -> & Hact).
  assert (∃ node own, active_node_of pvc pods node ∧
    match active with
    | Some pod => (pod_NodeName pod, inferOwnershipFromPod pod (pvc_Name pvc))
    | None => (TrimSpace (annotation (pvc_Annotations pvc) AnnotationActiveNode), empty_ownership)
    end = (node, own)) as (node & own & Hn & E) by (destruct active; eauto).
  rewrite E in H. destruct (ownershipPolicyFromAnnotations _); [|by destruct H].
  destruct (String.eqb_spec node "") as [|Hnode]; [by destruct H|].
  destruct (agents !! node) as [source|] eqn:Ea; [|by destruct H]. cbv zeta in H.
  destruct (desired_targets agents node token) as [|t ts] eqn:Et; [by destruct H|].
  destruct H as [-> [= ->]]. rewrite <-Et. rewrite app_nil_r. split; cbn.
  - exists pvc, pods. split_and!; try done; left.
  - by exists source.
  - done.
  - by rewrite Et.
Qed.

Lemma desired_loop_inv cfg token agents pvcs : ∀ (tr : trace) out d,
  exec (desired_loop cfg token agents pvcs) tr (Ok out) → d ∈ out →
  desired_ok cfg token pvcs agents tr d.
Proof.
  induction pvcs as [|pvc pvcs IH]; intros tr out d H Hd; cbn [desired_loop] in H.
  { destruct H as [_ [= ->]]. by apply elem_of_nil in Hd. }
  apply exec_try in H as [(item & t1 & t2 & -> & H1 & H)|(e & _ & E)]; [|done].
  apply exec_try in H as [(rest & t3 & t4 & -> & H2 & [-> [= ->]])|(e & _ & E)]; [|done].
  rewrite app_nil_r.
  assert (d ∈ rest → desired_ok cfg token (pvc :: pvcs) agents (t1 ++ t3) d) as Hrest.
  { intros Hin. destruct (IH _ _ _ H2 Hin) as [(p & pods & Hp & ? & ? & ? & ? & ? & Hl & ?) Hs Ht Hn].
    split; try done. exists p, pods. split_and!; try done; [by right|]. apply cdid_app. by right. }
  destruct item as [x|]; [|auto]. apply elem_of_cons in Hd as [->|Hd]; [|auto].
  destruct (desired_for_inv _ _ _ _ _ _ H1) as [(p & pods & Hp & ? & ? & ? & ? & ? & Hl & ?) Hs Ht Hn].
  split; try done. exists p, pods. apply list_elem_of_singleton in Hp as ->.
  split_and!; try done; [left|]. apply cdid_app. by left.
Qed.

(** C27: The desired replications.  Every entry belongs to a listed, bound
    claim of the storage class with replication enabled; its active node
    is that of the oldest running pod using the claim, or the annotated
    node when there is none, and has a ready agent, which is the source;
    its targets are exactly the other nodes with a ready agent, each
    once, never the source itself, and there is at least one. *)
Theorem desired_replications_correct cfg token (tr : trace) out :
  exec (DesiredReplications cfg token) tr (Ok out) →
  ∃ pvcs agentPods,
    cdid ListPVCs (Ok pvcs) tr ∧
    cdid (ListPods (cfg_Namespace cfg) (cfg_AgentLabelSelector cfg)) (Ok agentPods) tr ∧
    ∀ d, d ∈ out →
      desired_ok cfg token pvcs (readyAgentPods agentPods) tr d ∧
      NoDup (map dt_Node (dr_Targets d)) ∧
      ∀ n, n ∈ map dt_Node (dr_Targets d) ↔
           n ≠ dr_ActiveNode d ∧ is_Some (readyAgentPods agentPods !! n).
Proof.
  unfold DesiredReplications. intros H.
  apply exec_try in H as [(pvcs & t1 & t2 & -> & H1 & H)|(e & _ & E)]; [|done]. exec_step H1.
  apply exec_try in H as [(pods & t3 & t4 & -> & H1 & H)|(e & _ & E)]; [|done]. exec_step H1.
  apply exec_try in H as [(l & t5 & t6 & -> & H1 & [-> [= ->]])|(e & _ & E)]; [|done].
  exists pvcs, pods. split; [left|]. split; [right; left|]. intros d Hd.
  rewrite stable_sort_elem_of in Hd. rewrite app_nil_r.
  destruct (desired_loop_inv _ _ _ _ _ _ _ H1 Hd) as [(p & ps & Hp & ? & ? & ? & ? & ? & Hl & ?) Hs Ht Hn].
  split.
  { split; try done. exists p, ps. split_and!; try done. by do 2 right. }
  rewrite Ht. split; [apply desired_targets_nodup|]. intros n. split.
  - intros Hin. apply list_elem_of_In, in_map_iff in Hin as (t & <- & Hin).
    apply list_elem_of_In, desired_targets_spec in Hin as (pod & ? & ? & _). eauto.
  - intros [Hne [pod Hpod]]. apply list_elem_of_In, in_map_iff.
    exists (mkDesiredTarget n (mkTargetRef (agentHTTPURL (pod_PodIP pod)) token)). split; [done|].
    apply list_elem_of_In, desired_targets_spec. by exists pod.
Qed.

(** The answer of a leading list of claims. *)
Definition listed_claims (tr : trace) : option (list PersistentVolumeClaim) :=
  match tr with
  | Ev ListPVCs (Ok pvcs) :: _ => Some pvcs
  | _ => None
  end.

(** A claim whose ownership annotations do not parse stops the
    replication of every claim: whenever an enabled, bound claim of the
    list has such an annotation, the desired replications are an error. *)
Theorem bad_annotation_blocks_all cfg token (tr : trace) r pvcs pvc e :
  exec (DesiredReplications cfg token) tr r →
  listed_claims tr = Some pvcs → pvc ∈ pvcs →
  replicationEnabled pvc (cfg_StorageClassName cfg) = true → pvc_VolumeName pvc ≠ "" →
  ownershipPolicyFromAnnotations (pvc_Annotations pvc) = Err e →
  is_ok r = false.
Proof.
  unfold DesiredReplications. intros H Hl Hin Hen Hv Herr.
  apply exec_try in H as [(pvcs' & t1 & t2 & -> & H1 & H)|(e' & _ & ->)]; [|done]. exec_step H1.
  cbn in Hl. injection Hl as ->.
  assert (∀ l t out, exec (desired_loop (Q:=Q) cfg token l pvcs) t (Ok out) → False) as Hno.
  { clear -Hin Hen Hv Herr. induction pvcs as [|x l IH]; intros ag t out H;
      [by apply elem_of_nil in Hin|]. cbn [desired_loop] in H.
    apply exec_try in H as [(item & t1 & t2 & -> & H1 & H)|(e' & _ & E)]; [|done].
    apply exec_try in H as [(rest & t3 & t4 & -> & H2 & H)|(e' & _ & E)]; [|done].
    apply elem_of_cons in Hin as [<-|Hin]; [|by eapply IH].
    unfold desired_for in H1. rewrite Hen in H1. cbn [negb] in H1.
    rewrite (proj2 (String.eqb_neq _ "") Hv) in H1.
    apply exec_try in H1 as [(a & t5 & t6 & -> & _ & H1)|(e' & _ & E)]; [|done].
    rewrite Herr in H1. destruct a; by destruct H1 as [_ ?]. }
  apply exec_try in H as [(pods & t3 & t4 & -> & H1 & H)|(e' & _ & ->)]; [|done].
  apply exec_try in H as [(l & t5 & t6 & -> & H2 & H)|(e' & _ & ->)]; [|done].
  by apply Hno in H2.
Qed.

End desired.

Lemma desired_replications_correct_witness :
  ∃ tr d, exec (DesiredReplications (Q:=Z) ex_cfg "token") tr (Ok [d]) ∧
    dr_ActiveNode d = "n1" ∧ map dt_Node (dr_Targets d) = ["n2"] ∧ "n1" ∉ map dt_Node (dr_Targets d).
Proof.
  set (p := DesiredReplications (Q:=Z) ex_cfg "token").
  set (d := mkDesiredReplication "games" "world" "pv-1" "n1" "http://10.0.0.1:8081"
    [mkDesiredTarget "n2" (mkTargetRef "http://10.0.0.2:8080" "token")]
    [] [] false [] empty_ownership "" false "" ConsistencyModeLive 1).
  assert (Hex : exec p (snd (run Cluster.handler p ex_cluster)) (Ok [d])).
  { assert (Ok [d] = fst (fst (run Cluster.handler p ex_cluster))) as -> by (vm_compute; reflexivity).
    exact (run_self Cluster.handler p ex_cluster). }
  exists (snd (run Cluster.handler p ex_cluster)), d. split; [exact Hex|]. split; [reflexivity|].
  split; [reflexivity|].
  destruct (desired_replications_correct ex_cfg "token" (snd (run Cluster.handler p ex_cluster)) [d] Hex)
    as (pvcs & pods & _ & _ & H).
  intros Hin. destruct (H d) as (_ & _ & Ht); [left|]. by destruct (proj1 (Ht "n1") Hin).
Defined.

(** A claim with a malformed owner beside the good one. *)
Definition ex_bad_pvc : PersistentVolumeClaim :=
  mkPVC "other" "data" {[AnnotationReplicationEnabled := "true"; AnnotationReplicationOwnerUID := "root"]}
    (Some "simple-volume") "pv-2".
Definition ex_bad_cluster : Cluster.cluster :=
  Cluster.mkCluster (Cluster.k_pods ex_cluster) [] [ex_pvc; ex_bad_pvc] [] (mkShared ∅ ∅) 0 repl_start.

Lemma bad_annotation_blocks_all_witness :
  is_ok (fst (fst (run Cluster.handler (DesiredReplications (Q:=Z) ex_cfg "token") ex_bad_cluster))) = false.
Proof.
  eapply (bad_annotation_blocks_all ex_cfg "token"
    (snd (run Cluster.handler (DesiredReplications (Q:=Z) ex_cfg "token") ex_bad_cluster)) _
    [ex_pvc; ex_bad_pvc] ex_bad_pvc).
  - exact (run_self Cluster.handler (DesiredReplications (Q:=Z) ex_cfg "token") ex_bad_cluster).
  - vm_compute. reflexivity.
  - right. left.
  - vm_compute. reflexivity.
  - discriminate.
  - vm_compute. reflexivity.
Defined.

(** ** Ownership *)

Lemma digits_from_nonneg base : (0 ≤ base)%Z → ∀ s acc v,
  (0 ≤ acc)%Z → digits_from base acc s = Some v → (0 ≤ v)%Z.
Proof.
  intros Hb s. induction s as [|c s IH]; intros acc v Ha; cbn; [by intros [= <-]|].
  unfold digit_of. destruct (_ && _) eqn:E; [|done]. apply IH. bool_hyps.
  match goal with H : (0 <=? _)%Z = true |- _ => apply Z.leb_le in H; nia end.
Qed.

Lemma parseOptionalInt64_inv annotations key v :
  parseOptionalInt64Annotation annotations key = Ok v →
  (v = None ↔ TrimSpace (annotation annotations key) = "") ∧
  ∀ id, v = Some id → (0 ≤ id ≤ int64_max)%Z.
Proof.
  unfold parseOptionalInt64Annotation, int64_max.
  destruct (String.eqb_spec (TrimSpace (annotation annotations key)) ""); [by intros [= <-]|].
  destruct (ParseInt64 _) as [n0|] eqn:E; [|done].
  destruct (Z.ltb_spec n0 0); [done|]. intros [= <-]. split; [done|]. intros id [= <-].
  split; [done|]. unfold ParseInt64 in E. revert E.
  generalize (match TrimSpace (annotation annotations key) with
    | String c t => if ascii_eqb c "-" then (true, t) else if ascii_eqb c "+" then (false, t)
                    else (false, TrimSpace (annotation annotations key))
    | EmptyString => (false, TrimSpace (annotation annotations key)) end) as x.
  intros [neg t]. destruct (is_empty t); [done|].
  destruct (digits_from 10 0 t) as [w|] eqn:Ed; [|done].
  apply digits_from_nonneg in Ed; [|lia..].
  destruct neg; [destruct (Z.leb_spec w (2 ^ 63))|destruct (Z.ltb_spec w (2 ^ 63))];
    try done; intros [= <-]; lia.
Qed.

Lemma parseOptionalMode_inv annotations key v :
  parseOptionalModeAnnotation annotations key = Ok v →
  (v = None ↔ TrimSpace (annotation annotations key) = "") ∧
  ∀ mode, v = Some mode → (0 ≤ mode ≤ 4095)%Z.
Proof.
  unfold parseOptionalModeAnnotation.
  destruct (String.eqb_spec (TrimSpace (annotation annotations key)) ""); [by intros [= <-]|].
  destruct (ParseUint _ _ _) as [m|] eqn:E; [|done].
  destruct (Z.ltb_spec 4095 m); [done|]. intros [= <-]. split; [done|]. intros mode [= <-].
  split; [|done]. unfold ParseUint in E. destruct (is_empty _); [done|].
  destruct (digits_from 8 0 _) as [w|] eqn:Ed; [|done].
  apply digits_from_nonneg in Ed; [|lia..]. destruct (_ <? _)%Z; [|done]. by injection E as <-.
Qed.

(** C40: Ownership read from annotations is in range: identifiers are
    non-negative 64-bit numbers, modes have no bits beyond 07777, and a
    field is absent exactly when its annotation is blank. *)
Theorem ownership_annotations_bounds annotations policy :
  ownershipPolicyFromAnnotations annotations = Ok policy →
  (∀ id, own_UID policy = Some id ∨ own_GID policy = Some id → (0 ≤ id ≤ int64_max)%Z) ∧
  (∀ mode, own_FileMode policy = Some mode ∨ own_DirMode policy = Some mode → (0 ≤ mode ≤ 4095)%Z) ∧
  (own_UID policy = None ↔ TrimSpace (annotation annotations AnnotationReplicationOwnerUID) = "") ∧
  (own_GID policy = None ↔ TrimSpace (annotation annotations AnnotationReplicationOwnerGID) = "") ∧
  (own_FileMode policy = None ↔ TrimSpace (annotation annotations AnnotationReplicationFileMode) = "") ∧
  (own_DirMode policy = None ↔ TrimSpace (annotation annotations AnnotationReplicationDirMode) = "").
Proof.
  unfold ownershipPolicyFromAnnotations.
  intros (uid & [H1 H1']%parseOptionalInt64_inv & H)%rbind_ok.
  apply rbind_ok in H as (gid & [H2 H2']%parseOptionalInt64_inv & H).
  apply rbind_ok in H as (fm & [H3 H3']%parseOptionalMode_inv & H).
  apply rbind_ok in H as (dm & [H4 H4']%parseOptionalMode_inv & [= <-]). cbn.
  split_and!; try done; naive_solver.
Qed.

Lemma ownership_annotations_bounds_witness :
  ownershipPolicyFromAnnotations
    {[AnnotationReplicationOwnerUID := " 1000 "; AnnotationReplicationFileMode := "0664"]}
    = Ok (mkOwnershipPolicy (Some 1000%Z) None (Some 436%Z) None) ∧ (0 ≤ 436 ≤ 4095)%Z.
Proof.
  assert (H : ownershipPolicyFromAnnotations
    {[AnnotationReplicationOwnerUID := " 1000 "; AnnotationReplicationFileMode := "0664"]}
    = Ok (mkOwnershipPolicy (Some 1000%Z) None (Some 436%Z) None)) by (vm_compute; reflexivity).
  split; [exact H|].
  exact (proj1 (proj2 (ownership_annotations_bounds _ _ H)) 436%Z (or_introl eq_refl)).
Defined.

End ReplProps.
