(* ===== verification/Loop.v ===== *)
(** * The process of the replication controller

    [NewReplicationController], [NewInClusterReplicationController],
    [RunReplicationController] and [Run] of
    [internal/controller/replication_controller.go]: how a controller is
    made, and the loop that reconciles on every tick until its context
    ends.  The theorems carry what FailoverProps shows of single
    reconciliations over to the life of the process. *)
From S2P Require Import Prelude GoStrings GoTime Labels Effects AgentTypes Kube Claims Resources Failover ReplState Repl KubeMem FailoverProps.

Module Loop.
Import Str Labels Claims Resources Failover ReplState Repl FailoverProps.

(** ** The controller *)

(** A [ReplicationController]: its configuration and the timers of its
    failover controller; the maps its goroutines share are in ReplState. *)
Record ReplicationController : Type := mkReplicationController {
  rc_cfg : ReplicationControllerConfig;
  rc_outages : gmap string Z;
}.

(** How [Run] ended: [time.NewTicker] panics for an interval that is not
    positive; [Running] is a loop that was watched for the given number of
    rounds only. *)
Inductive run_end : Type :=
| Panicked
| Returned (e : error)
| Running.

Definition NewReplicationController (cfg : ReplicationControllerConfig) : ReplicationController :=
  mkReplicationController (with_defaults cfg) ∅.

Section progs.
Context {Q : Type} `{!QuantityOps Q}.
Abbreviation ctl := (prog (ctl_sig Q)).
Abbreviation do_call o := (ctl_call Q o).
Abbreviation trace := (list (event (ctl_sig Q))).

Definition NewInClusterReplicationController (cfg : ReplicationControllerConfig)
  : ctl (result ReplicationController) :=
  restConfig <- do_call InClusterConfig ;;
  match restConfig with
  | Err e => Ret (Err (Wrapf "load in-cluster config: %w" [] e))
  | Ok _ =>
      client <- do_call NewForConfig ;;
      match client with
      | Err e => Ret (Err (Wrapf "create kubernetes client: %w" [] e))
      | Ok _ => Ret (Ok (NewReplicationController cfg))
      end
  end.

(** The error of a reconciliation is logged. *)
Definition reconcile_logged (zone : Z) (c : ReplicationController) : ctl ReplicationController :=
  r <- ReconcileReplication (rc_cfg c) zone (rc_outages c) ;;
  Ret (mkReplicationController (rc_cfg c) (fst r)).

(** The [for] loop of [Run], for at most [rounds] rounds. *)
Fixpoint run_loop (zone : Z) (rounds : nat) (c : ReplicationController) : ctl run_end :=
  match rounds with
  | 0 => Ret Running
  | S rounds =>
      done <- do_call RunSelect ;;
      match done with
      | Some e => Ret (Returned e)
      | None => c' <- reconcile_logged zone c ;; run_loop zone rounds c'
      end
  end.

Definition Run (zone : Z) (rounds : nat) (c : ReplicationController) : ctl run_end :=
  c' <- reconcile_logged zone c ;;
  if (cfg_ReconcileInterval (rc_cfg c') <=? 0)%Z then Ret Panicked
  else run_loop zone rounds c'.

Definition RunReplicationController (zone : Z) (rounds : nat) (cfg : ReplicationControllerConfig)
  : ctl run_end :=
  controller <- NewInClusterReplicationController cfg ;;
  match controller with
  | Err e => Ret (Returned e)
  | Ok c => Run zone rounds c
  end.

(** ** The rounds of failover in a run *)

(** The rounds of one reconciliation at the time [now] with their calls
    [tr]: if the cluster could be listed, one round for every claim in the
    answer that failover is enabled for, in order, with the nodes and pods
    of the answers, each a run of [reconcilePVC]; otherwise none. *)
Definition round_of (agents : gmap string (Pod Q)) (ready : gmap string bool)
    (available : gmap string (ResourceList Q)) (now : Z) (rd : round (Q:=Q)) : Prop :=
  rd_now rd = now ∧ rd_agents rd = agents ∧ rd_ready rd = ready ∧ rd_available rd = available ∧
  ∃ seen seen', exec (reconcilePVC (rd_pvc rd) agents ready available now seen) (rd_trace rd) (seen', rd_result rd).

Definition listing (o : ctl_op) : Prop :=
  match o with ListPVCs | ListPods _ _ | ListNodes => True | _ => False end.

Definition rounds_of (cfg : ReplicationControllerConfig) (now : Z) (rds : list (round (Q:=Q))) (tr : trace) : Prop :=
  (rds = [] ∧ Forall (λ e : event (ctl_sig Q), listing (ev_op e)) tr) ∨
  ∃ pvcs agentPods nodes allPods,
    tr = [Ev (S:=ctl_sig Q) ListPVCs (Ok pvcs);
          Ev (S:=ctl_sig Q) (ListPods (cfg_Namespace cfg) (cfg_AgentLabelSelector cfg)) (Ok agentPods);
          Ev (S:=ctl_sig Q) ListNodes (Ok nodes); Ev (S:=ctl_sig Q) (ListPods "" "") (Ok allPods)] ++
         concat (map rd_trace rds) ∧
    map rd_pvc rds = List.filter (λ pvc, failoverEnabled pvc (cfg_StorageClassName cfg)) pvcs ∧
    Forall (round_of (readyAgentPods agentPods) (readyNodeSet nodes) (nodeAvailableResources nodes allPods) now) rds.

(** [life cfg zone h tr]: [tr] is a run of the controller so far, and [h]
    all its rounds: the controller is made; then it reconciles, at the
    time it read from its clock, or waits for the next tick. *)
Inductive life (cfg : ReplicationControllerConfig) (zone : Z) : list (round (Q:=Q)) → trace → Prop :=
| life_made tr r : exec (NewInClusterReplicationController cfg) tr r → life cfg zone [] tr
| life_waits h tr a : life cfg zone h tr → life cfg zone h (tr ++ [Ev (S:=ctl_sig Q) RunSelect a])
| life_reconciles h tr now rds tr1 tr2 r :
    life cfg zone h tr → rounds_of (with_defaults cfg) now rds tr1 →
    exec (reconcile_all (with_defaults cfg) zone now) tr2 r →
    life cfg zone (h ++ rds) (tr ++ Ev (S:=ctl_sig Q) TimeNow now :: tr1 ++ tr2).

Lemma fold_rounds cfg (agents : gmap string (Pod Q)) readyNodes available now pvcs : ∀ seen tr seen' h,
  exec (fold_prog pvcs (λ seen pvc,
    if negb (failoverEnabled pvc (cfg_StorageClassName cfg)) then Ret seen
    else r <- reconcilePVC pvc agents readyNodes available now seen ;; Ret (fst r)) seen) tr seen' →
  history h seen → ∃ rds, history (h ++ rds) seen' ∧ tr = concat (map rd_trace rds) ∧
    map rd_pvc rds = List.filter (λ pvc, failoverEnabled pvc (cfg_StorageClassName cfg)) pvcs ∧
    Forall (round_of agents readyNodes available now) rds.
Proof.
  induction pvcs as [|pvc pvcs IH]; intros seen tr seen' h H Hh; cbn [fold_prog] in H.
  { exec_step H. exists []. by rewrite app_nil_r. }
  apply exec_bind in H as (s1 & t1 & t2 & -> & H1 & H2). cbn [List.filter].
  destruct (failoverEnabled pvc _); cbn [negb] in H1.
  2:{ destruct H1 as [-> ->]. by eapply IH. }
  apply exec_bind in H1 as ([s2 res] & t3 & t4 & -> & H3 & [-> ->]). rewrite app_nil_r. cbn [fst] in H2.
  set (rd := mkRound pvc agents readyNodes available now t3 res).
  destruct (IH _ _ _ (h ++ [rd]) H2) as (rds & Hh' & -> & Hm & Hf); [by apply (history_round h seen rd)|].
  exists (rd :: rds). rewrite <-app_assoc in Hh'. cbn [map concat]. split_and!; [done|done|by rewrite Hm|].
  constructor; [|done]. split_and!; eauto.
Qed.

(** ** Which calls a reconciliation makes *)

(** Neither of the two calls the theorems are about. *)
Definition ordinary (o : ctl_op) : Prop :=
  match o with DeletePod _ _ | RunSelect => False | _ => True end.

Definition not_select (o : ctl_op) : Prop := match o with RunSelect => False | _ => True end.

Lemma ordinary_not_delete o : ordinary o → not_delete o.
Proof. by destruct o. Qed.
Lemma ordinary_not_select o : ordinary o → not_select o.
Proof. by destruct o. Qed.

Ltac walk := walk_calls trivial_call.

Lemma reconcileOne_ordinary zone d token now :
  calls_only (S:=ctl_sig Q) ordinary (reconcileOne zone d token now).
Proof.
  unfold reconcileOne, stopReplicaWatches, stopWatch, ensureWatchStarted, watchStatus, recordWatchFreshness,
    record_freshness_call, startWatchAndRemember, startWatch, postJSON. cbv zeta. walk.
Qed.

Lemma desired_ordinary cfg token : calls_only (S:=ctl_sig Q) ordinary (DesiredReplications cfg token).
Proof.
  unfold DesiredReplications. walk. induction a as [|pvc l IH]; cbn [desired_loop]; [walk|].
  apply calls_only_try; [unfold desired_for, activePodForPVC; cbv zeta; walk|]. walk. apply IH.
Qed.

Lemma reconcile_all_ordinary cfg zone now : calls_only (S:=ctl_sig Q) ordinary (reconcile_all cfg zone now).
Proof.
  unfold reconcile_all, syncToken, secretToken. apply calls_only_try; [cbv zeta; walk|]. intros token.
  apply calls_only_try; [apply desired_ordinary|]. intros desired.
  apply calls_only_bind; [|walk]. apply calls_only_fold. intros d u _.
  apply calls_only_bind; [apply reconcileOne_ordinary|walk].
Qed.

Lemma failover_not_select cfg now seen : calls_only (S:=ctl_sig Q) not_select (Reconcile cfg now seen).
Proof.
  assert (∀ pvc (active : string) candidates, calls_only (S:=ctl_sig Q) not_select (reconcileNodeLabels pvc active candidates)) as Hl
    by (intros; unfold reconcileNodeLabels; cbv zeta; walk).
  assert (∀ pvc t p, calls_only (S:=ctl_sig Q) not_select (promoteStorageState pvc t p)) as Hs
    by (intros; unfold promoteStorageState, promotePVCState; cbv zeta; walk).
  assert (∀ kinds pvc, calls_only (S:=ctl_sig Q) not_select (workloads_want kinds pvc)) as Hw
    by (intros kinds pvc; induction kinds; cbn [workloads_want]; walk; done).
  unfold Reconcile. do 4 (apply calls_only_keep; [walk|intros ?]). cbv zeta.
  apply calls_only_bind; [|walk]. apply calls_only_fold. intros pvc seen1 _. destruct (negb _); [walk|].
  apply calls_only_bind; [|walk]. unfold reconcilePVC. apply calls_only_keep; [walk|intros pods]. cbv zeta.
  do 2 (apply calls_only_bind; [walk|intros ?]).
  apply calls_only_keep; [unfold claimHasDesiredConsumer; case_match; [walk|apply Hw]|intros demand].
  apply calls_only_keep; [unfold recordActiveNode; walk; first [apply Hs|unfold promotePVCState; walk]|intros _].
  apply calls_only_keep; [apply Hl|intros _]. unfold failover_if_due, promote_claim, promoteNodeLabel, evict, record_demoted_call.
  cbv zeta. repeat (case_match; try apply calls_only_ret); (apply calls_only_keep; [apply Hs|intros _]);
    (apply calls_only_keep; [apply Hl|intros _]); walk.
Qed.

(** The failover part of a reconciliation is a sequence of rounds. *)
Lemma reconcile_rounds cfg now seen (tr : trace) seen' res h :
  exec (Reconcile cfg now seen) tr (seen', res) → history h seen →
  ∃ rds, history (h ++ rds) seen' ∧ rounds_of cfg now rds tr.
Proof.
  intros H Hh. unfold Reconcile in H.
  assert (∀ tr', Forall (λ e : event (ctl_sig Q), listing (ev_op e)) tr' →
    ∃ rds, history (h ++ rds) seen ∧ rounds_of cfg now rds tr') as Hfail.
  { intros tr' Ht. exists []. rewrite app_nil_r. split; [done|]. by left. }
  do 4 (apply exec_keep in H as [(? & ? & ? & -> & ?H1 & H)|(? & H & [= -> ->])];
    [match goal with H1 : exec _ _ (Ok _) |- _ => exec_step H1 end|exec_step H; apply Hfail; by repeat constructor]).
  apply exec_bind in H as (seen2 & t9 & t10 & -> & H1 & [-> [= -> _]]). rewrite app_nil_r.
  destruct (fold_rounds _ _ _ _ _ _ _ _ _ _ H1 Hh) as (rds & Hh' & -> & Hm & Hf).
  exists rds. split; [done|]. right. do 4 eexists. split; [reflexivity|done].
Qed.

Lemma reconcile_logged_rounds cfg zone c (tr : trace) c' h tr0 :
  exec (reconcile_logged zone c) tr c' → rc_cfg c = with_defaults cfg → history h (rc_outages c) → life cfg zone h tr0 →
  rc_cfg c' = rc_cfg c ∧ ∃ h', history h' (rc_outages c') ∧ life cfg zone h' (tr0 ++ tr).
Proof.
  intros H Hcfg Hh Hc. unfold reconcile_logged, ReconcileReplication in H.
  apply exec_bind in H as (r & t1 & t2 & -> & H & [-> ->]). split; [done|]. cbn [rc_outages].
  exec_step H. exec_step H0. exec_step H. destruct a0 as [seen' res]. exec_step H. destruct H as [-> ->]. cbn [fst].
  destruct (reconcile_rounds _ _ _ _ _ _ _ H0 Hh) as (rds & Hh' & Hr). rewrite Hcfg in Hr, H1.
  exists (h ++ rds). split; [done|]. rewrite !app_nil_r. exact (life_reconciles cfg zone h tr0 a rds _ _ _ Hc Hr H1).
Qed.

Lemma run_loop_rounds cfg zone rounds : ∀ c (tr : trace) res h tr0,
  exec (run_loop zone rounds c) tr res → rc_cfg c = with_defaults cfg → history h (rc_outages c) → life cfg zone h tr0 →
  ∃ h' seen, history h' seen ∧ life cfg zone h' (tr0 ++ tr).
Proof.
  induction rounds as [|rounds IH]; intros c tr res h tr0 H Hcfg Hh Hc; cbn [run_loop] in H.
  { exec_step H. exists h, (rc_outages c). by rewrite app_nil_r. }
  exec_step H. exec_step H0. rewrite app_assoc. apply (life_waits _ _ _ _ a) in Hc.
  destruct a as [e|]; [exec_step H; rewrite app_nil_r; eauto|].
  exec_step H. destruct (reconcile_logged_rounds _ _ _ _ _ _ _ H0 Hcfg Hh Hc) as (Hcfg' & h' & Hh' & Hc').
  rewrite app_assoc. eapply IH; [done|congruence|done..].
Qed.

(** Calls that look for the cluster the process runs in. *)
Definition finds_cluster (o : ctl_op) : bool :=
  match o with InClusterConfig | NewForConfig => true | _ => false end.

Lemma new_in_cluster cfg (tr : trace) r :
  exec (NewInClusterReplicationController cfg) tr r →
  (∀ c, r = Ok c → c = NewReplicationController cfg) ∧
  Forall (λ e : event (ctl_sig Q), finds_cluster (ev_op e) = true) tr.
Proof.
  intros H. unfold NewInClusterReplicationController in H. exec_step H. exec_step H0.
  destruct a as [u|e]; [|exec_step H; split; [done|by repeat constructor]].
  exec_step H. exec_step H0. match type of H with exec (match ?x with _ => _ end) _ _ => destruct x end;
    exec_step H; (split; [try done; by intros c [= <-]|by repeat constructor]).
Qed.

Lemma run_rounds zone rounds cfg (tr : trace) res :
  exec (RunReplicationController zone rounds cfg) tr res → ∃ h seen, history h seen ∧ life cfg zone h tr.
Proof.
  intros H. unfold RunReplicationController in H. exec_step H. pose proof (life_made _ zone _ _ H0) as Hc.
  destruct a as [c|e]; [|exec_step H; rewrite app_nil_r; exists [], ∅; by split; [constructor|]].
  pose proof (proj1 (new_in_cluster _ _ _ H0) c eq_refl) as ->.
  unfold Run in H. exec_step H.
  destruct (reconcile_logged_rounds cfg _ _ _ _ [] tr0 H1) as (Hcfg & h' & Hh' & Hc'); [done|constructor|done|].
  rewrite app_assoc. destruct (_ <=? 0)%Z; [exec_step H; rewrite app_nil_r; eauto|]. by eapply run_loop_rounds.
Qed.

(** Only rounds delete. *)
Lemma rounds_delete cfg now rds (tr : trace) ns n (d : ctl_ans Q (DeletePod ns n)) :
  rounds_of cfg now rds tr → cdid (DeletePod ns n) d tr → ∃ rd, rd ∈ rds ∧ cdid (DeletePod ns n) d (rd_trace rd).
Proof.
  intros [[_ H]|(pvcs & pods & nodes & all & -> & _ & _)] Hd.
  - rewrite Forall_forall in H. by destruct (H _ Hd).
  - apply cdid_app in Hd as [Hd|Hd].
    { exfalso. unfold cdid in Hd. by repeat (apply elem_of_cons in Hd as [[=]|Hd]); apply elem_of_nil in Hd. }
    unfold cdid in *. apply list_elem_of_In, in_concat in Hd as (l & Hl & Hd%list_elem_of_In).
    apply list_elem_of_In, list_elem_of_fmap in Hl as (rd & -> & Hrd). eauto.
Qed.

Lemma life_delete cfg zone h (tr : trace) ns n (d : ctl_ans Q (DeletePod ns n)) :
  life cfg zone h tr → cdid (DeletePod ns n) d tr →
  ∃ h1 rd h2, h = h1 ++ rd :: h2 ∧ cdid (DeletePod ns n) d (rd_trace rd).
Proof.
  induction 1 as [tr r H|h tr a _ IH|h tr now rds tr1 tr2 r _ IH Hr Hall]; rewrite ?cdid_app.
  - intros Hd. pose proof (proj2 (new_in_cluster _ _ _ H)) as Hf. rewrite Forall_forall in Hf. by pose proof (Hf _ Hd).
  - intros [Hd|Hd]; [auto|]. by apply list_elem_of_singleton in Hd.
  - change (?e :: tr1 ++ tr2) with ([e] ++ tr1 ++ tr2). rewrite !cdid_app.
    intros [Hd|[Hd|[Hd|Hd]]]; [|by apply list_elem_of_singleton in Hd| |].
    + destruct (IH Hd) as (h1 & rd & h2 & -> & Hrd). exists h1, rd, (h2 ++ rds). by rewrite <-app_assoc.
    + destruct (rounds_delete _ _ _ _ _ _ _ Hr Hd) as (rd & (r1 & r2 & ->)%list_elem_of_split & Hrd).
      exists (h ++ r1), rd, r2. by rewrite <-app_assoc.
    + pose proof (reconcile_all_ordinary _ _ _ _ _ Hall) as Ho. rewrite Forall_forall in Ho. by destruct (Ho _ Hd).
Qed.

(** The rounds up to one of a history. *)
Lemma history_split h1 rd h2 seen :
  history (Q:=Q) (h1 ++ rd :: h2) seen →
  ∃ s s', history h1 s ∧
    exec (reconcilePVC (rd_pvc rd) (rd_agents rd) (rd_ready rd) (rd_available rd) (rd_now rd) s)
      (rd_trace rd) (s', rd_result rd).
Proof.
  revert seen. induction h2 as [|x h2 IH] using rev_ind; intros seen H.
  - inversion H as [E|h s rd' s' Hh Hex E1 E2]; [by destruct h1|]. apply app_inj_tail in E1 as [-> ->]. eauto.
  - inversion H as [E|h s rd' s' Hh Hex E1 E2]; [by destruct h1|].
    rewrite app_comm_cons, app_assoc in E1. apply app_inj_tail in E1 as [-> ->]. by eapply IH.
Qed.

(** ** Theorems *)

(** C2: The grace period over the life of the controller.  However long
    the process runs and whatever the cluster answers, when it deletes a
    pod it does so in a round for a claim which found that the claim is
    wanted and has no healthy pod; an earlier round of the same process for
    the same claim found that too, by the clock at least the grace period
    before; and no round for the claim between the two that ended without
    an error found a healthy pod.  The rounds are all the rounds of the
    run ([life]): one for each enabled claim of every reconciliation, with
    the time the controller read and the nodes and pods it was answered. *)
Theorem run_respects_grace zone rounds cfg (tr : trace) res ns n (d : ctl_ans Q (DeletePod ns n)) :
  exec (RunReplicationController zone rounds cfg) tr res → cdid (DeletePod ns n) d tr →
  ∃ h1 rd0 h2 rd h3, life cfg zone (h1 ++ rd0 :: h2 ++ rd :: h3) tr ∧
    cdid (DeletePod ns n) d (rd_trace rd) ∧ saw_outage rd ∧
    pvcKey (rd_pvc rd0) = pvcKey (rd_pvc rd) ∧ saw_outage rd0 ∧
    (failoverGracePeriod (rd_pvc rd) ≤ Time.Sub (rd_now rd) (rd_now rd0))%Z ∧
    ∀ r, r ∈ h2 → pvcKey (rd_pvc r) = pvcKey (rd_pvc rd) → ¬ saw_recovery r.
Proof.
  intros H Hd. destruct (run_rounds _ _ _ _ _ H) as (h & seen & Hh & Hc).
  destruct (life_delete _ _ _ _ _ _ _ Hc Hd) as (h0 & rd & h3 & -> & Hrd).
  destruct (history_split _ _ _ _ Hh) as (s & s' & Hh0 & Hex).
  destruct (failover_respects_grace _ _ _ _ _ _ _ Hh0 Hex Hrd) as (Ho & h1 & rd0 & h2 & -> & Hk & Ho' & Hg & Hn).
  exists h1, rd0, h2, rd, h3. rewrite <-app_assoc in Hc. by split_and!.
Qed.

(** ** How the loop ends *)
Definition is_tick (e : event (ctl_sig Q)) : bool :=
  match e with Ev RunSelect None => true | _ => false end.

(** The ticks the loop got. *)
Definition ticks (tr : trace) : nat := length (List.filter is_tick tr).

Lemma ticks_app tr1 tr2 : ticks (tr1 ++ tr2) = ticks tr1 + ticks tr2.
Proof. unfold ticks. by rewrite List.filter_app, length_app. Qed.

Lemma ticks_none tr : Forall (λ e : event (ctl_sig Q), not_select (ev_op e)) tr → ticks tr = 0.
Proof. unfold ticks. induction 1 as [|[o r] tr Ho _ IH]; [done|]. by destruct o. Qed.

Lemma reconcile_logged_quiet zone c (tr : trace) c' :
  exec (reconcile_logged zone c) tr c' → rc_cfg c' = rc_cfg c ∧ ticks tr = 0.
Proof.
  intros H. split; [unfold reconcile_logged in H; exec_step H; by exec_step H|]. apply ticks_none.
  enough (calls_only (S:=ctl_sig Q) not_select (reconcile_logged zone c)) as Hc by by eapply Hc.
  unfold reconcile_logged, ReconcileReplication. apply calls_only_bind; [|walk].
  apply calls_only_bind; [walk|intros now]. apply calls_only_bind; [apply failover_not_select|intros r].
  apply calls_only_bind; [|walk]. eapply calls_only_mono; [exact ordinary_not_select|apply reconcile_all_ordinary].
Qed.

Lemma run_loop_ends zone rounds : ∀ c (tr : trace) res,
  exec (run_loop zone rounds c) tr res →
  (res = Running ∧ ticks tr = rounds) ∨
  ∃ e tr0, res = Returned e ∧ tr = tr0 ++ [Ev (S:=ctl_sig Q) RunSelect (Some e)] ∧ ticks tr < rounds.
Proof.
  induction rounds as [|rounds IH]; intros c tr res H; cbn [run_loop] in H; [exec_step H; by left|].
  exec_step H. exec_step H0. destruct a as [e|].
  { exec_step H. right. exists e, []. split_and!; [done|done|]. cbn. lia. }
  exec_step H. destruct (reconcile_logged_quiet _ _ _ _ H0) as [_ Ht]. rewrite !ticks_app, Ht.
  change (ticks [Ev (S:=ctl_sig Q) RunSelect None]) with 1.
  destruct (IH _ _ _ H) as [[-> <-]|(e & t & -> & -> & Hl)]; [by left|]. right. eexists e, _. split; [done|].
  split; [by rewrite !app_assoc|]. rewrite ticks_app in *. lia.
Qed.

(** C30: The controller outlives its errors.  Whatever fails in a
    reconciliation, the process goes on to the next tick: it returns only
    because it could not reach the cluster it runs in when it was started,
    before anything else was done, or because its context ended, with the
    error of the context; and it never panics, since the interval of the
    ticker is positive for every configuration. *)
Theorem run_ends_with_context zone rounds cfg (tr : trace) res :
  exec (RunReplicationController zone rounds cfg) tr res →
  (res = Running ∧ ticks tr = rounds) ∨
  (∃ e tr0, res = Returned e ∧ tr = tr0 ++ [Ev (S:=ctl_sig Q) RunSelect (Some e)] ∧ ticks tr < rounds) ∨
  (∃ e, res = Returned e ∧ Forall (λ e : event (ctl_sig Q), finds_cluster (ev_op e) = true) tr).
Proof.
  intros H. unfold RunReplicationController in H. exec_step H.
  destruct (new_in_cluster _ _ _ H0) as [Hc Hf]. destruct a as [c|e].
  2:{ exec_step H. rewrite app_nil_r. right. right. by exists e. }
  rewrite (Hc c eq_refl) in H. unfold Run in H. exec_step H.
  destruct (reconcile_logged_quiet _ _ _ _ H1) as [Hcfg Ht]. rewrite Hcfg in H.
  assert (ticks tr0 = 0) as Ht0.
  { apply ticks_none. eapply Forall_impl; [exact Hf|]. by intros [[] ?]. }
  assert ((cfg_ReconcileInterval (rc_cfg (NewReplicationController cfg)) <=? 0)%Z = false) as Hi.
  { cbn. destruct (cfg_ReconcileInterval cfg <=? 0)%Z eqn:E; [done|exact E]. }
  rewrite Hi, !ticks_app, Ht, Ht0 in *.
  destruct (run_loop_ends _ _ _ _ _ H) as [[-> <-]|(e & t & -> & -> & Hl)]; [by left|right; left].
  eexists e, _. split; [done|]. split; [by rewrite !app_assoc|]. rewrite ticks_app in *. lia.
Qed.

End progs.
(** ** Examples

    The cluster of FailoverProps, with a clock: 80 seconds after the first
    reconciliation there is a tick, then the context ends. *)
Definition ex_time (w : Cluster.cluster) (now : Z) : Cluster.cluster :=
  Cluster.mkCluster (Cluster.k_pods w) (Cluster.k_nodes w) (Cluster.k_pvcs w) (Cluster.k_pvs w)
    (Cluster.k_shared w) now (Cluster.k_repl w).

Definition ex_handler (o : op (ctl_sig Z)) (w : Cluster.cluster) : ans (ctl_sig Z) o * Cluster.cluster :=
  match o return ctl_ans Z o * Cluster.cluster with
  | RunSelect => if (Cluster.k_now w <? 50 * Time.Second)%Z then (None, ex_time w (100 * Time.Second))
                 else (Some Canceled, w)
  | o => Cluster.handler o w
  end.

Definition ex_run := run ex_handler (RunReplicationController 0 10 ex_cfg) (ex_time ex_cluster2 (20 * Time.Second)).

Definition deleted (ns n : string) (e : event (ctl_sig Z)) : bool :=
  match e with
  | Ev (DeletePod a b) (Ok _) => String.eqb a ns && String.eqb b n
  | _ => false
  end.

Lemma deleted_did ns n tr : existsb (deleted ns n) tr = true → cdid (DeletePod ns n) (Ok tt) tr.
Proof.
  intros ([o r] & Hin & H)%existsb_exists. apply list_elem_of_In in Hin. destruct o; try done.
  destruct r as [[]|]; [|done]. cbn in H. apply andb_true_iff in H as [->%String.eqb_eq ->%String.eqb_eq]. exact Hin.
Qed.

Lemma run_respects_grace_witness :
  cdid (DeletePod "games" "server-0") (Ok tt) (snd ex_run) ∧
  ∃ h1 rd0 h2 rd h3, life ex_cfg 0 (h1 ++ rd0 :: h2 ++ rd :: h3) (snd ex_run) ∧
    saw_outage rd0 ∧ saw_outage rd ∧ pvcKey (rd_pvc rd0) = pvcKey (rd_pvc rd) ∧
    (failoverGracePeriod (rd_pvc rd) ≤ Time.Sub (rd_now rd) (rd_now rd0))%Z.
Proof.
  assert (cdid (DeletePod "games" "server-0") (Ok tt) (snd ex_run)) as Hd.
  { apply deleted_did. vm_compute. reflexivity. }
  split; [exact Hd|].
  destruct (run_respects_grace 0 10 ex_cfg (snd ex_run) (fst (fst ex_run)) _ _ _ (run_self _ _ _) Hd)
    as (h1 & rd0 & h2 & rd & h3 & H0 & _ & H1 & H2 & H3 & H4 & _).
  exists h1, rd0, h2, rd, h3. exact (conj H0 (conj H3 (conj H1 (conj H2 H4)))).
Defined.

Lemma run_ends_with_context_witness :
  fst (fst ex_run) = Returned Canceled ∧ ticks (snd ex_run) = 1 ∧
  ∃ e tr0, Returned Canceled = Returned e ∧ snd ex_run = tr0 ++ [Ev (S:=ctl_sig Z) RunSelect (Some e)].
Proof.
  assert (fst (fst ex_run) = Returned Canceled) as E by (vm_compute; reflexivity). split; [exact E|].
  split; [vm_compute; reflexivity|].
  destruct (run_ends_with_context 0 10 ex_cfg (snd ex_run) (fst (fst ex_run)) (run_self _ _ _))
    as [[H _]|[(e & tr0 & H1 & H2 & _)|(e & _ & H)]].
  - rewrite E in H. discriminate.
  - rewrite E in H1. exists e, tr0. exact (conj H1 H2).
  - exfalso. assert (forallb (λ e : event (ctl_sig Z), finds_cluster (ev_op e)) (snd ex_run) = true) as Hf.
    { apply forallb_forall. intros x Hx%list_elem_of_In. rewrite Forall_forall in H. exact (H x Hx). }
    vm_compute in Hf. discriminate.
Defined.

End Loop.
