(* ===== verification/Main.v ===== *)
(** * The commands: [cmd/simple-volume/main.go]

    What the four commands put together: their flags, the configuration
    they make of flags and environment, how they start, the routes of an
    agent and of the controller, and the handlers written in place.  A
    request carries its body as a string, which the handlers decode as
    JSON.  The theorems on composition say that what the controller and the
    senders post is what the handlers of an agent work on.  Listening,
    signals and logging are not modelled. *)
From S2P Require Import Prelude GoStrings GoPath GoTime Flags Json Wire Effects Api AgentTypes AgentEnv AgentMem.
From S2P Require Import Agent Filter Commands Apply ApplyProps Shadow Handlers Watch WatchManager Archive Csi.
From S2P Require Import Labels Kube Claims Resources Failover Repl KubeMem FailoverProps Loop.

Module Main.
Import Str Path Flags Json Wire Agent Commands Apply ApplyProps Handlers WatchManager Archive Csi Claims Failover Repl Loop.

(** ** The environment *)
Definition getenv (env : gmap string string) (name fallback : string) : string :=
  let value := default "" (env !! name) in
  if negb (is_empty value) then value else fallback.

Inductive command : Type := CmdController | CmdCSIController | CmdAgent | CmdCSINode.

(** [main]: the command to run and its arguments, or the usage message. *)
Definition dispatch (args : list string) : option (command * list string) :=
  match args with
  | [] | [_] => None
  | _ :: name :: rest =>
      if String.eqb name "controller" then Some (CmdController, rest)
      else if String.eqb name "csi-controller" then Some (CmdCSIController, rest)
      else if String.eqb name "agent" then Some (CmdAgent, rest)
      else if String.eqb name "csi-node" then Some (CmdCSINode, rest)
      else None
  end.

Definition usage : string :=
  "usage: simple-volume <controller|csi-controller|agent|csi-node> [flags]" +:+ bytes [10%Z].

(** ** The flags of the commands *)
Abbreviation environment := (gmap string string).

(** [os.Getenv] *)
Definition Getenv (env : environment) (name : string) : string := default "" (env !! name).

Definition string_flag (name value : string) : Flag := mkFlag name (StringValue value).
Definition bool_flag (name : string) (value : bool) : Flag := mkFlag name (BoolValue value).
Definition duration_flag (name : string) (value : Z) : Flag := mkFlag name (DurationValue value).

Definition controller_flags (env : environment) : FlagSet :=
  [string_flag "http" ":8080";
   bool_flag "enable-replication-controller"
     (String.eqb (getenv env "SIMPLE_VOLUME_ENABLE_REPLICATION_CONTROLLER" "true") "true");
   string_flag "namespace" (getenv env "POD_NAMESPACE" "simple-volume-system");
   string_flag "storage-class" (getenv env "SIMPLE_VOLUME_STORAGE_CLASS" "simple-volume");
   string_flag "sync-token-secret-name" (getenv env "SIMPLE_VOLUME_TOKEN_SECRET_NAME" "simple-volume-sync-token");
   string_flag "sync-token-secret-key" (getenv env "SIMPLE_VOLUME_TOKEN_SECRET_KEY" "token");
   duration_flag "reconcile-interval" (30 * Time.Second)%Z;
   duration_flag "failover-timeout" (10 * Time.Second)%Z].

Definition agent_flags (env : environment) : FlagSet :=
  [string_flag "http" ":8080";
   string_flag "pool-name" (getenv env "SIMPLE_VOLUME_POOL_NAME" "default");
   string_flag "pool-path" (getenv env "SIMPLE_VOLUME_POOL_PATH" "/var/lib/simple-volume");
   bool_flag "allow-non-empty-pool" (String.eqb (getenv env "SIMPLE_VOLUME_ALLOW_NON_EMPTY_POOL" "") "true");
   bool_flag "webdav-enabled" (String.eqb (getenv env "SIMPLE_VOLUME_WEBDAV_ENABLED" "true") "true");
   string_flag "webdav-addr" (getenv env "SIMPLE_VOLUME_WEBDAV_ADDR" ":8081");
   string_flag "token" (Getenv env "SIMPLE_VOLUME_TOKEN")].

Definition csi_node_flags (env : environment) : FlagSet :=
  [string_flag "endpoint" (getenv env "CSI_ENDPOINT" "unix:///csi/csi.sock");
   string_flag "node-name" (Getenv env "NODE_NAME");
   string_flag "pool-name" (getenv env "SIMPLE_VOLUME_POOL_NAME" "default");
   string_flag "pool-path" (getenv env "SIMPLE_VOLUME_POOL_PATH" "/var/lib/simple-volume");
   bool_flag "allow-non-empty-pool" (String.eqb (getenv env "SIMPLE_VOLUME_ALLOW_NON_EMPTY_POOL" "") "true")].

Definition csi_controller_flags (env : environment) : FlagSet :=
  [string_flag "endpoint" (getenv env "CSI_ENDPOINT" "unix:///csi/csi.sock");
   string_flag "pool-name" (getenv env "SIMPLE_VOLUME_POOL_NAME" "default");
   string_flag "pool-path" (getenv env "SIMPLE_VOLUME_POOL_PATH" "/var/lib/simple-volume")].

(** ** What the commands make of them *)
Definition controller_config (m : values) : ReplicationControllerConfig :=
  mkControllerConfig (string_of m "namespace") (string_of m "storage-class")
    (string_of m "sync-token-secret-name") (string_of m "sync-token-secret-key")
    (duration_of m "reconcile-interval") (duration_of m "failover-timeout") 0 "".

Definition csi_node_config (m : values) : ServerConfig :=
  mkServerConfig (string_of m "endpoint") (string_of m "node-name") (string_of m "pool-name")
    (string_of m "pool-path") true (bool_of m "allow-non-empty-pool").

Definition csi_controller_config (m : values) : ServerConfig :=
  mkServerConfig (string_of m "endpoint") "controller" (string_of m "pool-name")
    (string_of m "pool-path") false false.

Record agent_config : Type := mkAgentConfig {
  ac_addr : string;
  ac_pool : Pool;
  ac_allowNonEmpty : bool;
  ac_webdav : bool;
  ac_webdavAddr : string;
  ac_token : string;
}.

Definition agent_config_of (m : values) : agent_config :=
  mkAgentConfig (string_of m "http") (mkPool (string_of m "pool-name") (string_of m "pool-path"))
    (bool_of m "allow-non-empty-pool") (bool_of m "webdav-enabled") (string_of m "webdav-addr")
    (string_of m "token").

(** ** Starting *)

(** How a command goes on: it ends with a code, it logs an error and ends
    with code 1, or it serves on an address. *)
Inductive process (A : Type) : Type :=
| Exit (code : Z)
| Fatal (what : string) (e : error)
| Serving (addr : string) (a : A).
Arguments Exit {A} code.
Arguments Fatal {A} what e.
Arguments Serving {A} addr a.

(** [startBackgroundCommand], and its goroutine: the process ends with the
    command if that fails. *)
Definition startBackgroundCommand (spec : CommandSpec) : prog agent_sig (option (string * error)) :=
  r <- os_call (StartProcess spec) ;;
  Ret (match r with Err e => Some ("start " +:+ cmd_Name spec, e) | Ok _ => None end).

Definition wait_background (spec : CommandSpec) : prog agent_sig (option (string * error)) :=
  r <- os_call (WaitProcess spec) ;;
  Ret (match r with Err e => Some (cmd_Name spec +:+ " exited", e) | Ok _ => None end).

(** [runAgent] up to serving: the pool is made or adopted, then the WebDAV
    server is started. *)
Definition start_agent (cfg : agent_config) : prog agent_sig (process agent_config) :=
  pool <- EnsurePool (ac_pool cfg) (ac_allowNonEmpty cfg) ;;
  match pool with
  | Err e => Ret (Fatal "initialize storage pool" e)
  | Ok _ =>
      started <- (if ac_webdav cfg then
                    startBackgroundCommand
                      (BuildRcloneServeWebDAVCommand (pool_Path (ac_pool cfg)) (ac_webdavAddr cfg) true)
                  else Ret None) ;;
      Ret (match started with
           | Some (what, e) => Fatal what e
           | None => Serving (ac_addr cfg) cfg
           end)
  end.

Definition runAgent (env : environment) (args : list string) : prog agent_sig (process agent_config) :=
  match Parse (agent_flags env) args with
  | ExitProcess code => Ret (Exit code)
  | Parsed m _ => start_agent (agent_config_of m)
  end.

(** The two CSI commands end with whatever [RunServer] returns. *)
Definition run_csi (cfg : ServerConfig) : prog agent_sig (process Server) :=
  r <- RunServer cfg ;;
  Ret (match r with
       | Err e => Fatal "" e
       | Ok (impl, (network, address)) => Serving (network +:+ "://" +:+ address) impl
       end).

Definition runCSINode (env : environment) (args : list string) : prog agent_sig (process Server) :=
  match Parse (csi_node_flags env) args with
  | ExitProcess code => Ret (Exit code)
  | Parsed m _ => run_csi (csi_node_config m)
  end.

Definition runCSIController (env : environment) (args : list string) : prog agent_sig (process Server) :=
  match Parse (csi_controller_flags env) args with
  | ExitProcess code => Ret (Exit code)
  | Parsed m _ => run_csi (csi_controller_config m)
  end.

Section start_controller.
Context {Q : Type} `{!QuantityOps Q}.

(** [runController] up to serving: without replication it only answers
    health checks. *)
Definition runController (env : environment) (args : list string)
  : prog (ctl_sig Q) (process (option ReplicationController)) :=
  match Parse (controller_flags env) args with
  | ExitProcess code => Ret (Exit code)
  | Parsed m _ =>
      if negb (bool_of m "enable-replication-controller") then Ret (Serving (string_of m "http") None)
      else
        controller <- NewInClusterReplicationController (controller_config m) ;;
        Ret (match controller with
             | Err e => Fatal "replication controller" e
             | Ok c => Serving (string_of m "http") (Some c)
             end)
  end.

(** The goroutine that runs the controller: [Some] ends the process. *)
Definition controller_goroutine (zone : Z) (rounds : nat) (c : ReplicationController)
  : prog (ctl_sig Q) (option error) :=
  r <- Run zone rounds c ;;
  Ret (match r with
       | Returned Canceled | Running => None
       | Returned e => Some e
       | Panicked => Some (Errorf "non-positive interval for NewTicker" [])
       end).

End start_controller.

(** ** The agent's endpoints *)
Record http_request : Type := mkHttpRequest {
  hq_Method : string;
  hq_Path : string;
  hq_Authorization : string;
  hq_Query : gmap string (list string);
  hq_Body : string;
}.

(** [Query().Get] *)
Definition query_get (r : http_request) (name : string) : string :=
  match hq_Query r !! name with Some (v :: _) => v | _ => "" end.
Definition query_all (r : http_request) (name : string) : list string :=
  default [] (hq_Query r !! name).

(** The body of "/volumes/prepare". *)
Record PrepareRequest : Type := mkPrepareRequest {
  pq_Namespace : string;
  pq_Name : string;
}.

#[export] Instance PrepareRequest_wire : Wire PrepareRequest := {
  wire_zero := mkPrepareRequest "" "";
  to_json r := JObj [("namespace", JStr (pq_Namespace r)); ("name", JStr (pq_Name r))];
  of_json := dec_struct
    [("namespace", λ j r, option_map (λ x, mkPrepareRequest x (pq_Name r)) (dec_string j (pq_Namespace r)));
     ("name", λ j r, option_map (λ x, mkPrepareRequest (pq_Namespace r) x) (dec_string j (pq_Name r)))];
}.

(** A request as its handler sees it, with the body decoded, and one whose
    handler does not look at the body. *)
Definition as_request {B} `{Wire B} (r : http_request) : request B :=
  mkRequest (hq_Method r) (hq_Authorization r) (Decode (hq_Body r)).
Definition without_body (r : http_request) : request unit :=
  mkRequest (hq_Method r) (hq_Authorization r) (Ok tt).

Inductive pool_reply : Type :=
| PoolError (code : Z) (e : error)
| PoolInfo (text : string).

(** The handler of "/pool". *)
Definition pool_handler (pool : Pool) (token : string) (r : http_request) : pool_reply :=
  if negb (Authorize token (hq_Authorization r)) then PoolError 401 (Errorf "unauthorized" [])
  else PoolInfo ("name=" +:+ pool_Name pool +:+ bytes [10%Z] +:+ "path=" +:+ pool_Path pool +:+ bytes [10%Z]).

Inductive prepare_reply : Type :=
| PrepareError (code : Z) (e : error)
| PreparePath (path : string).

(** The handler of "/volumes/prepare". *)
Definition prepare_handler (pool : Pool) (token : string) (r : request PrepareRequest)
  : prog agent_sig prepare_reply :=
  if negb (String.eqb (rq_Method r) "POST") then Ret (PrepareError 405 (Errorf "method not allowed" []))
  else if negb (Authorize token (rq_Authorization r)) then
    Ret (PrepareError 401 (Errorf "unauthorized" []))
  else
    match rq_Body r with
    | Err e => Ret (PrepareError 400 e)
    | Ok req =>
        p <- EnsureVolumePath (mkVolumePath pool (pq_Namespace req) (pq_Name req) "") 493 ;;
        Ret (match p with Err e => PrepareError 500 e | Ok path => PreparePath path end)
    end.

(** What an agent does with a request. *)
Inductive served : Type :=
| Plain (code : Z)
| Redirect (path : string)
| PoolReply (r : pool_reply)
| Prepare (p : prog agent_sig prepare_reply)
| Replicate (j : response + job)
| Stream (p : prog agent_sig archive_reply)
| WatchReply (m : manager) (r : reply) (s : option session).

(** [cleanPath] of net/http. *)
Definition cleanPath (p : string) : string :=
  if is_empty p then "/"
  else
    let p := if HasPrefix p "/" then p else "/" +:+ p in
    let np := Clean p in
    if HasSuffix p "/" && negb (String.eqb np "/") then np +:+ "/" else np.

(** The routes of [runAgent]; [now] is the time [Start] and [Stop] read. *)
Definition route_agent (pool : Pool) (token : string) (m : manager) (now : Z)
    (r : http_request) : served :=
  let path := hq_Path r in
  if String.eqb path "/healthz" || String.eqb path "/readyz" then Plain 200
  else if String.eqb path "/pool" then PoolReply (pool_handler pool token r)
  else if String.eqb path "/volumes/prepare" then
    Prepare (prepare_handler pool token (as_request r))
  else if String.eqb path "/replication/sync-batch" then
    Replicate (SyncBatchHandler pool token (as_request r))
  else if String.eqb path "/replication/full-sync" then
    Replicate (FullSyncHandler pool token (as_request r))
  else if String.eqb path "/replication/shadow/prepare" then
    Replicate (ShadowPrepareHandler pool token (as_request r))
  else if String.eqb path "/replication/archive" then
    Stream (ArchiveHandler pool token (without_body r) (query_get r "namespace")
              (query_get r "volume") (query_all r "include") (query_all r "exclude"))
  else if String.eqb path "/replication/watch/start" then
    let '(m', rep, s) := StartHandler pool token m now (as_request r) in
    WatchReply m' rep s
  else if String.eqb path "/replication/watch/stop" then
    let '(m', rep) := StopHandler token m now (as_request r) in
    WatchReply m' rep None
  else if String.eqb path "/replication/watch/status" then
    WatchReply m (StatusHandler token m (without_body r) (query_get r "namespace")
                    (query_get r "volume")) None
  else Plain 404.

(** The mux sends a client with an unclean path to the cleaned one (301). *)
Definition serve_agent (pool : Pool) (token : string) (m : manager) (now : Z) (r : http_request) : served :=
  if negb (String.eqb (cleanPath (hq_Path r)) (hq_Path r)) then Redirect (cleanPath (hq_Path r))
  else route_agent pool token m now r.

(** ** The controller's endpoint *)
Record ManualFullSyncRequest : Type := mkManualFullSyncRequest {
  mf_Namespace : string;
  mf_ClaimName : string;
}.

#[export] Instance ManualFullSyncRequest_wire : Wire ManualFullSyncRequest := {
  wire_zero := mkManualFullSyncRequest "" "";
  to_json r := JObj [("namespace", JStr (mf_Namespace r)); ("claimName", JStr (mf_ClaimName r))];
  of_json := dec_struct
    [("namespace", λ j r, option_map (λ x, mkManualFullSyncRequest x (mf_ClaimName r)) (dec_string j (mf_Namespace r)));
     ("claimName", λ j r, option_map (λ x, mkManualFullSyncRequest (mf_Namespace r) x) (dec_string j (mf_ClaimName r)))];
}.

Inductive manual_reply : Type :=
| ManualError (code : Z) (e : error)
| ManualAccepted (r : ManualFullSyncResponse).

(** The user the RBAC proxy in front of the controller has set. *)
Definition hasRBACProxyUser (remoteUser : string) : bool := negb (is_empty (TrimSpace remoteUser)).

Section controller.
Context {Q : Type} `{!QuantityOps Q}.
(** [err.Error()] *)
Context (Error : error → string).

Definition trigger_status (e : error) : Z :=
  if Contains (Error e) "required" then 400
  else if Contains (Error e) "not found" then 404
  else 500.

Definition manualFullSyncHandler (cfg : ReplicationControllerConfig) (method : string)
    (body : result ManualFullSyncRequest) (queryNamespace remoteUser : string)
  : prog (ctl_sig Q) manual_reply :=
  if negb (String.eqb method "POST") then Ret (ManualError 405 (Errorf "method not allowed" []))
  else
    match body with
    | Err e => Ret (ManualError 400 e)
    | Ok req =>
        if is_empty queryNamespace then
          Ret (ManualError 400 (Errorf "namespace query parameter is required" []))
        else
          let namespace := if is_empty (mf_Namespace req) then queryNamespace else mf_Namespace req in
          if negb (String.eqb namespace queryNamespace) then
            Ret (ManualError 400 (Errorf "namespace query parameter must match request body" []))
          else if negb (hasRBACProxyUser remoteUser) then
            Ret (ManualError 401 (Errorf "unauthorized" []))
          else
            r <- TriggerFullSync cfg namespace (mf_ClaimName req) ;;
            Ret (match r with
                 | Err e => ManualError (trigger_status e) e
                 | Ok resp => ManualAccepted resp
                 end)
    end.
(** [serveControllerHTTP]: the routes of the controller; [remoteUser] is the
    header X-Remote-User. *)
Inductive controller_served : Type :=
| Answer (code : Z)
| Trigger (p : prog (ctl_sig Q) manual_reply).

Definition serveControllerHTTP (c : ReplicationController) (remoteUser : string) (r : http_request) : controller_served :=
  if String.eqb (hq_Path r) "/healthz" || String.eqb (hq_Path r) "/readyz" then Answer 200
  else if String.eqb (hq_Path r) "/replication/full-sync/trigger" then
    Trigger (manualFullSyncHandler (rc_cfg c) (hq_Method r) (Decode (hq_Body r))
               (query_get r "namespace") remoteUser)
  else Answer 404.

(** [serveHealth] *)
Definition serveHealth (r : http_request) : Z :=
  if String.eqb (hq_Path r) "/healthz" || String.eqb (hq_Path r) "/readyz" then 200 else 404.
End controller.

(** ** Theorems *)

(** The value of a flag after some settings. *)
Definition string_setting (l : list setting) (name fallback : string) : string :=
  match last_set l name with Some (StringValue s) => s | Some _ => "" | None => fallback end.
Definition bool_setting (l : list setting) (name : string) (fallback : bool) : bool :=
  match last_set l name with Some (BoolValue b) => b | Some _ => false | None => fallback end.

Lemma string_of_settings m l name fallback :
  m !! name = Some (StringValue fallback) →
  string_of (apply_settings m l) name = string_setting l name fallback.
Proof.
  intros H. unfold string_of, string_setting. rewrite apply_settings_lookup, H. by destruct (last_set l name).
Qed.

Lemma bool_of_settings m l name fallback :
  m !! name = Some (BoolValue fallback) →
  bool_of (apply_settings m l) name = bool_setting l name fallback.
Proof.
  intros H. unfold bool_of, bool_setting. rewrite apply_settings_lookup, H. by destruct (last_set l name).
Qed.

(** Looks the default of a flag up. *)
Ltac default_of :=
  repeat first [ apply lookup_insert_eq | rewrite lookup_insert_ne by done ].

(** C37: Where the configuration of an agent comes from.  Started with any
    settings of its flags, in any order and any number, an agent works
    with the last setting of each flag; without one, with the variable of
    its environment if that is set and not empty; and otherwise with the
    built-in default.  The token has no default: without a setting and a
    variable it is empty. *)
Theorem agent_configured env l :
  Forall (valid (agent_flags env)) l →
  runAgent env (map render l) =
  start_agent (mkAgentConfig (string_setting l "http" ":8080")
    (mkPool (string_setting l "pool-name" (getenv env "SIMPLE_VOLUME_POOL_NAME" "default"))
       (string_setting l "pool-path" (getenv env "SIMPLE_VOLUME_POOL_PATH" "/var/lib/simple-volume")))
    (bool_setting l "allow-non-empty-pool" (String.eqb (Getenv env "SIMPLE_VOLUME_ALLOW_NON_EMPTY_POOL") "true"))
    (bool_setting l "webdav-enabled" (String.eqb (getenv env "SIMPLE_VOLUME_WEBDAV_ENABLED" "true") "true"))
    (string_setting l "webdav-addr" (getenv env "SIMPLE_VOLUME_WEBDAV_ADDR" ":8081"))
    (string_setting l "token" (Getenv env "SIMPLE_VOLUME_TOKEN"))).
Proof.
  intros Hl. unfold runAgent. rewrite <-(app_nil_r (map render l)), parse_render by done.
  unfold agent_config_of.
  rewrite (string_of_settings _ l "http" ":8080"),
    (string_of_settings _ l "pool-name" (getenv env "SIMPLE_VOLUME_POOL_NAME" "default")),
    (string_of_settings _ l "pool-path" (getenv env "SIMPLE_VOLUME_POOL_PATH" "/var/lib/simple-volume")),
    (string_of_settings _ l "webdav-addr" (getenv env "SIMPLE_VOLUME_WEBDAV_ADDR" ":8081")),
    (string_of_settings _ l "token" (Getenv env "SIMPLE_VOLUME_TOKEN")),
    (bool_of_settings _ l "allow-non-empty-pool" (String.eqb (getenv env "SIMPLE_VOLUME_ALLOW_NON_EMPTY_POOL" "") "true")),
    (bool_of_settings _ l "webdav-enabled" (String.eqb (getenv env "SIMPLE_VOLUME_WEBDAV_ENABLED" "true") "true"))
    by (unfold agent_flags, defaults; cbn [foldr fl_Name fl_DefValue string_flag bool_flag]; default_of).
  do 3 f_equal. unfold getenv, Getenv. by destruct (default "" _).
Qed.

(** Nothing was done: an error answer, and the watches as they were. *)
Definition refused (m : manager) (s : served) : Prop :=
  match s with
  | Plain code => code = 404%Z
  | Redirect _ => True
  | PoolReply r => ∃ e, r = PoolError 401 e
  | Prepare p => ∃ code e, p = Ret (PrepareError code e) ∧ (code = 401 ∨ code = 405)%Z
  | Replicate j => ∃ code e, j = inl (HttpError code e) ∧ (code = 401 ∨ code = 405)%Z
  | Stream p => ∃ code e, p = Ret (ArchiveError code e) ∧ (code = 401 ∨ code = 405)%Z
  | WatchReply m' r s => m' = m ∧ s = None ∧ ∃ code e, r = ErrorReply code e ∧ (code = 401 ∨ code = 405)%Z
  end.

Lemma admit_refuses {B} token (r : request B) f :
  Authorize token (rq_Authorization r) = false →
  ∃ code e, admit_request token r f = inl (HttpError code e) ∧ (code = 401 ∨ code = 405)%Z.
Proof.
  intros Ha. unfold admit_request. rewrite Ha. destruct (negb _); [by eexists _, _; split; [|right]|].
  by eexists _, _; split; [|left].
Qed.

Lemma watch_refuses {B} method token (r : request B) :
  Authorize token (rq_Authorization r) = false →
  ∃ code e, refuse method token r = Some (ErrorReply code e) ∧ (code = 401 ∨ code = 405)%Z.
Proof.
  intros Ha. unfold refuse. rewrite Ha. destruct (negb _); [by eexists _, _; split; [|right]|].
  by eexists _, _; split; [|left].
Qed.

(** C22: Every endpoint of an agent except the two health checks demands
    the token: whatever a request asks for, if no token is configured or
    the Authorization header is not "Bearer " and the token, the agent
    touches no file, runs no command, sends no archive, starts or stops no
    watch and tells no status; it answers that the request is not
    authorized, that the method is wrong, that there is no such path, or
    that the path should be written differently. *)
Theorem agent_requires_token pool token m now r :
  token = "" ∨ hq_Authorization r ≠ "Bearer " +:+ token →
  hq_Path r ≠ "/healthz" → hq_Path r ≠ "/readyz" →
  refused m (serve_agent pool token m now r).
Proof.
  intros Hauth Hh Hr. assert (Authorize token (hq_Authorization r) = false) as Ha.
  { unfold Authorize. destruct Hauth as [->|Hne]; [done|]. destruct (is_empty token); [done|].
    by apply String.eqb_neq. }
  unfold serve_agent. destruct (negb _); [done|].
  unfold route_agent. rewrite (proj2 (String.eqb_neq _ _) Hh), (proj2 (String.eqb_neq _ _) Hr). cbn [orb].
  repeat match goal with |- context [if String.eqb ?p ?q then _ else _] => destruct (String.eqb p q) end.
  - unfold pool_handler. rewrite Ha. by eexists.
  - cbn. unfold prepare_handler. cbn [as_request without_body rq_Method rq_Authorization]. rewrite Ha.
    destruct (negb _); [by eexists _, _; split; [|right]|by eexists _, _; split; [|left]].
  - by apply admit_refuses.
  - by apply admit_refuses.
  - by apply admit_refuses.
  - cbn. unfold ArchiveHandler. cbn [as_request without_body rq_Method rq_Authorization]. rewrite Ha.
    destruct (negb _); [by eexists _, _; split; [|right]|by eexists _, _; split; [|left]].
  - unfold StartHandler. destruct (watch_refuses "POST" token (as_request (B:=WatchStartRequest) r) Ha) as (c & e & -> & Hc).
    cbn. split; [done|]. split; [done|]. by exists c, e.
  - unfold StopHandler. destruct (watch_refuses "POST" token (as_request (B:=WatchStopRequest) r) Ha) as (c & e & -> & Hc).
    cbn. split; [done|]. split; [done|]. by exists c, e.
  - unfold StatusHandler.
    destruct (watch_refuses "GET" token (without_body r) Ha) as (c & e & -> & Hc).
    cbn. split; [done|]. split; [done|]. by exists c, e.
  - done.
Qed.

(** C34: A manual full sync is triggered only by a POST request that came
    through the proxy with a user, and only in the namespace the proxy
    checked, the one of the query: otherwise the handler does nothing at
    all and answers 400, 401 or 405. *)
Theorem manual_sync_guarded {Q : Type} `{!QuantityOps Q} (Error : error → string) cfg method body
    queryNamespace remoteUser tr rep :
  exec (manualFullSyncHandler (Q:=Q) Error cfg method body queryNamespace remoteUser) tr rep →
  (tr = [] ∧ ∃ code e, rep = ManualError code e ∧ (code = 400 ∨ code = 401 ∨ code = 405)%Z) ∨
  ∃ req r, method = "POST" ∧ body = Ok req ∧ TrimSpace remoteUser ≠ "" ∧ queryNamespace ≠ "" ∧
    (mf_Namespace req = "" ∨ mf_Namespace req = queryNamespace) ∧
    exec (TriggerFullSync (Q:=Q) cfg queryNamespace (mf_ClaimName req)) tr r ∧
    rep = match r with Err e => ManualError (trigger_status Error e) e | Ok resp => ManualAccepted resp end.
Proof.
  intros H. unfold manualFullSyncHandler in H.
  destruct (String.eqb_spec method "POST") as [Hm|]; cbn [negb] in H; [|exec_step H; left; eauto 10].
  destruct body as [req|e]; [|exec_step H; left; eauto 10].
  destruct (is_empty queryNamespace) eqn:Eq; [exec_step H; left; eauto 10|]. cbv zeta in H.
  destruct (String.eqb_spec (if is_empty (mf_Namespace req) then queryNamespace else mf_Namespace req)
              queryNamespace) as [En|]; cbn [negb] in H; [|exec_step H; left; eauto 10].
  rewrite En in H. unfold hasRBACProxyUser in H.
  destruct (is_empty (TrimSpace remoteUser)) eqn:Eu; cbn [negb] in H; [exec_step H; left; eauto 10|].
  exec_step H. exec_step H. rewrite app_nil_r. right. exists req, a.
  split_and!; [done|done|by apply is_empty_false|by apply is_empty_false| |done|done].
  destruct (is_empty (mf_Namespace req)) eqn:Em; [left|by right]. by destruct (mf_Namespace req).
Qed.

(** A claim that does not exist is reported as a bad request when its name
    contains "required", since the status is chosen by looking for words
    in the text of the error. *)
Lemma missing_claim_status (Error : error → string) :
  Error (Errorf "replication target %s/%s not found" ["games"; "required-data"]) =
    "replication target games/required-data not found" →
  trigger_status Error (Errorf "replication target %s/%s not found" ["games"; "required-data"]) = 400%Z.
Proof. intros E. unfold trigger_status. by rewrite E. Qed.

(** ** Examples *)
Lemma agent_requires_token_witness :
  refused NewWatchManager (serve_agent (mkPool "local" "/pool") "secret" NewWatchManager 0
    (mkHttpRequest "POST" "/volumes/prepare" "Bearer guess" ∅ "{}")).
Proof.
  apply agent_requires_token; [right; discriminate|discriminate|discriminate].
Defined.

Definition ex_settings : list setting :=
  [mkSetting (string_flag "pool-path" "/data") "/mnt/a" (StringValue "/mnt/a");
   mkSetting (bool_flag "webdav-enabled" true) "f" (BoolValue false);
   mkSetting (string_flag "pool-path" "/data") "/mnt/b=c" (StringValue "/mnt/b=c")].

Lemma agent_configured_witness :
  let env := {["SIMPLE_VOLUME_POOL_PATH" := "/data"; "SIMPLE_VOLUME_TOKEN" := "secret"]} in
  map render ex_settings = ["-pool-path=/mnt/a"; "-webdav-enabled=f"; "-pool-path=/mnt/b=c"] ∧
  runAgent env (map render ex_settings) =
  start_agent (mkAgentConfig ":8080" (mkPool "default" "/mnt/b=c") false false ":8081" "secret").
Proof.
  intros env. split; [reflexivity|]. apply (agent_configured env ex_settings).
  repeat apply Forall_cons_2; try apply Forall_nil_2;
    (split; [reflexivity|reflexivity|by intros x [= <-]|discriminate|reflexivity]).
Defined.

Definition ex_manual : prog (ctl_sig Z) manual_reply :=
  manualFullSyncHandler (λ _, "failed") FailoverProps.ex_cfg "POST"
    (Ok (mkManualFullSyncRequest "" "world")) "games" "alice".

Lemma manual_sync_guarded_witness :
  let r := Effects.run Cluster.handler ex_manual FailoverProps.ex_cluster2 in
  snd r ≠ [] ∧ ∃ result,
    exec (TriggerFullSync (Q:=Z) FailoverProps.ex_cfg "games" "world") (snd r) result ∧
    fst (fst r) = match result with
                  | Err e => ManualError (trigger_status (λ _, "failed") e) e
                  | Ok resp => ManualAccepted resp
                  end.
Proof.
  intros r. assert (snd r ≠ []) as Hne by (vm_compute; discriminate). split; [exact Hne|].
  destruct (manual_sync_guarded (λ _, "failed") FailoverProps.ex_cfg "POST"
    (Ok (mkManualFullSyncRequest "" "world")) "games" "alice" (snd r) (fst (fst r))
    (run_self Cluster.handler ex_manual FailoverProps.ex_cluster2))
    as [[E _]|(req & result & _ & [= <-] & _ & _ & _ & H1 & H2)].
  - by destruct Hne.
  - exists result. split; [exact H1|exact H2].
Defined.

End Main.
