(* ===== verification/Protocol.v ===== *)
(** * Controller and agents together

    The controller sends requests and the agents send batches over HTTP
    with JSON bodies; this file puts the senders (Repl, WatchManager), the
    wire format (Wire) and the receiving agent (Main) together: every
    request goes to the endpoint that expects its body, arrives there as
    it was sent, and the whole way of a change, from the live volume over
    the shadow and the network to a replica, brings the replica to the
    state of the live volume. *)
From S2P Require Import Prelude GoStrings GoPath GoUrl GoTime Json Wire WireStatus Effects Api AgentTypes AgentEnv AgentMem.
From S2P Require Import Agent Filter Commands Apply ApplyProps Shadow Replica Handlers Watch WatchManager Archive ArchiveSync Csi.
From S2P Require Import Labels Kube Claims Resources Failover Repl KubeMem FailoverProps Loop Main.

Module Protocol.
Import Str Path Json Wire WireStatus Agent Filter Commands Apply ApplyProps Shadow Replica Handlers WatchManager Claims Failover Repl Loop Main.

(** ** Requests on the wire *)
Definition posted {A} `{Wire A} (path auth : string) (a : A) : http_request :=
  mkHttpRequest "POST" path auth ∅ (Marshal a).

(** The header that carries a token. *)
Definition bearer (token : string) : string := "Bearer " +:+ token.

(** The request an agent gets for a call of the controller with the
    Authorization header [auth]. *)
Definition http_of (auth : string) (req : agent_request) : http_request :=
  match req with
  | PostWatchStart r => posted "/replication/watch/start" auth r
  | PostWatchStop r => posted "/replication/watch/stop" auth r
  | PostFullSync r => posted "/replication/full-sync" auth r
  | PostShadowPrepare r => posted "/replication/shadow/prepare" auth r
  | GetWatchStatus namespace volume =>
      mkHttpRequest "GET" "/replication/watch/status" auth (Url.ParseQuery (status_query namespace volume)) ""
  end.

(** The path and query a request is sent to. *)
Definition request_target (req : agent_request) : string :=
  hq_Path (http_of "" req) +:+
  match req with GetWatchStatus namespace volume => "?" +:+ status_query namespace volume | _ => "" end.

Lemma status_query_back namespace volume :
  Url.values_get (Url.ParseQuery (status_query namespace volume)) "namespace" = namespace ∧
  Url.values_get (Url.ParseQuery (status_query namespace volume)) "volume" = volume.
Proof.
  unfold Url.ParseQuery.
  assert (Split "&" (status_query namespace volume) =
    [Url.encode_pair "namespace" namespace; Url.encode_pair "volume" volume]) as ->.
  { apply (Url.Split_sep_Join "&" [Url.encode_pair "namespace" namespace; Url.encode_pair "volume" volume]); [done|].
    repeat constructor; apply Url.pair_without; by left. }
  cbn [foldl]. rewrite !Url.query_pair, !Url.values_get_all, !Url.values_all_add. done.
Qed.

(** Texts are UTF-8 and numbers in range. *)
Definition request_ok (req : agent_request) : bool :=
  match req with
  | PostWatchStart r => wire_ok r
  | PostWatchStop r => wire_ok r
  | PostFullSync r => wire_ok r
  | PostShadowPrepare r => wire_ok r
  | GetWatchStatus _ _ => true
  end.

(** What the agent is to do for it. *)
Definition work (pool : Pool) (token : string) (m : manager) (now : Z) (req : agent_request) : served :=
  match req with
  | PostWatchStart r =>
      match Start pool m now r with
      | (m', Err e) => WatchReply m' (ErrorReply 400 e) None
      | (m', Ok (status, s)) => WatchReply m' (StatusReply status) (Some s)
      end
  | PostWatchStop r =>
      match Stop m now (wx_Namespace r) (wx_Volume r) with
      | (m', None) => WatchReply m' (ErrorReply 404 (Errorf "watch not found" [])) None
      | (m', Some status) => WatchReply m' (StatusReply status) None
      end
  | PostFullSync r =>
      Replicate (inr (mkJob (fs_Namespace r) (fs_Volume r)
        (applied <- ApplyFullSyncWithToken pool r token ;;
         match applied with Err e => Ret (HttpError 500 e) | Ok _ => Ret (SyncReply (fs_Volume r)) end)))
  | PostShadowPrepare r =>
      Replicate (inr (mkJob (sp_Namespace r) (sp_Volume r)
        (prepared <- PrepareShadow pool r ;;
         match prepared with Err e => Ret (HttpError 500 e) | Ok resp => Ret (ShadowReply resp) end)))
  | GetWatchStatus namespace volume =>
      WatchReply m (if is_empty volume then StatusesReply (Statuses m)
                    else match Status m namespace volume with
                         | None => ErrorReply 404 (Errorf "watch not found" [])
                         | Some status => StatusReply status
                         end) None
  end.

Lemma serve_clean pool token m now r :
  cleanPath (hq_Path r) = hq_Path r → serve_agent pool token m now r = route_agent pool token m now r.
Proof. intros E. unfold serve_agent. by rewrite E, String.eqb_refl. Qed.

Lemma bearer_authorized token : token ≠ "" → Authorize token (bearer token) = true.
Proof.
  intros Ht. unfold Authorize. destruct (is_empty token) eqn:E; [by apply is_empty_spec in E|].
  apply String.eqb_refl.
Qed.

(** A message posted with the token is accepted, and arrives as it was
    sent. *)
Lemma posted_accepted {A} `{WireLaws A} path token (a : A) f :
  token ≠ "" → wire_ok a = true →
  admit_request token (as_request (posted path (bearer token) a)) f = inr (f a).
Proof.
  intros Ht Ha. unfold admit_request, posted, as_request. cbn [rq_Method rq_Authorization rq_Body hq_Method hq_Authorization hq_Body].
  rewrite bearer_authorized, message_decodes by done. done.
Qed.

Lemma request_understood pool token m now req :
  token ≠ "" → request_ok req = true → serve_agent pool token m now (http_of (bearer token) req) = work pool token m now req.
Proof.
  intros Ht Hok. destruct req as [r|r|r|r|ns v]; cbn [request_ok] in Hok; rewrite serve_clean by reflexivity; unfold route_agent.
  - change (hq_Path (http_of (bearer token) (PostWatchStart r))) with "/replication/watch/start".
    cbn [String.eqb Ascii.eqb Bool.eqb orb]. cbn [http_of work]. unfold StartHandler, refuse, as_request, posted.
    cbn [rq_Method rq_Authorization rq_Body hq_Method hq_Authorization hq_Body].
    rewrite bearer_authorized, message_decodes by done. cbn. by destruct (Start pool m now r) as [m' [[st s]|e]].
  - change (hq_Path (http_of (bearer token) (PostWatchStop r))) with "/replication/watch/stop".
    cbn [String.eqb Ascii.eqb Bool.eqb orb]. cbn [http_of work]. unfold StopHandler, refuse, as_request, posted.
    cbn [rq_Method rq_Authorization rq_Body hq_Method hq_Authorization hq_Body].
    rewrite bearer_authorized, message_decodes by done. cbn. by destruct (Stop m now _ _) as [m' [st|]].
  - change (hq_Path (http_of (bearer token) (PostFullSync r))) with "/replication/full-sync".
    cbn [String.eqb Ascii.eqb Bool.eqb orb http_of work]. unfold FullSyncHandler. rewrite posted_accepted by done.
    unfold posted, as_request. cbn [rq_Authorization hq_Authorization]. unfold bearer. by rewrite TrimPrefix_app.
  - change (hq_Path (http_of (bearer token) (PostShadowPrepare r))) with "/replication/shadow/prepare".
    cbn [String.eqb Ascii.eqb Bool.eqb orb http_of work]. unfold ShadowPrepareHandler. by rewrite posted_accepted by done.
  - change (hq_Path (http_of (bearer token) (GetWatchStatus ns v))) with "/replication/watch/status".
    cbn [String.eqb Ascii.eqb Bool.eqb orb].
    assert (query_get (http_of (bearer token) (GetWatchStatus ns v)) "namespace" = ns) as -> by apply (status_query_back ns v).
    assert (query_get (http_of (bearer token) (GetWatchStatus ns v)) "volume" = v) as -> by apply (status_query_back ns v).
    unfold StatusHandler, refuse, without_body. cbn [http_of rq_Method rq_Authorization hq_Method hq_Authorization].
    by rewrite bearer_authorized by done.
Qed.

(** ** Where the controller sends its requests *)
Section addresses.
Context {Q : Type} `{!QuantityOps Q}.
Abbreviation trace := (list (event (ctl_sig Q))).

(** A request is addressed to the endpoint for its body and carries the
    token. *)
Definition addressed (token : string) (o : ctl_op) : Prop :=
  match o with
  | HttpDo url auth req => (∃ base, url = base +:+ request_target req) ∧ (token ≠ "" → auth = bearer token)
  | _ => True
  end.

Ltac address :=
  walk_calls ltac:(first [ trivial_call
    | match goal with |- @calls_only _ _ ?P (@call ?S ?o) =>
        apply (@calls_only_call S P o); split; [eexists; reflexivity|];
        intros Hne; first [reflexivity|by rewrite (proj2 (String.eqb_neq _ _) Hne)] end ]).

Lemma reconcileOne_addressed zone d token now :
  calls_only (S:=ctl_sig Q) (addressed token) (reconcileOne zone d token now).
Proof.
  unfold reconcileOne, stopReplicaWatches, stopWatch, ensureWatchStarted, watchStatus, recordWatchFreshness,
    record_freshness_call, startWatchAndRemember, startWatch, postJSON. cbv zeta. address.
Qed.

Lemma desired_addressed cfg token : calls_only (S:=ctl_sig Q) (addressed token) (DesiredReplications cfg token).
Proof.
  unfold DesiredReplications. address. induction a as [|pvc l IH]; cbn [desired_loop]; [address|].
  apply calls_only_try; [unfold desired_for, activePodForPVC; cbv zeta; address|]. address. apply IH.
Qed.

(** The token is read first; it is not empty. *)
Lemma token_read cfg (tr : trace) r : exec (syncToken cfg) tr r →
  Forall (λ e, ∀ url auth req, ev_op (S:=ctl_sig Q) e ≠ HttpDo url auth req) tr ∧ ∀ token, r = Ok token → token ≠ "".
Proof.
  intros H. unfold syncToken, secretToken in H. exec_step H. exec_step H0. cbv zeta in H.
  assert (∀ x, Forall (λ e, ∀ url auth req, ev_op (S:=ctl_sig Q) e ≠ HttpDo url auth req)
    ([Ev (S:=ctl_sig Q) (GetSecretKey (cfg_Namespace cfg) (cfg_TokenSecretName cfg) (cfg_TokenSecretKey cfg)) x] ++ [])) as Hq
    by (intros x; constructor; [done|constructor]).
  destruct a as [data|e]; [destruct (String.eqb_spec (TrimSpace data) "")|destruct (IsNotFound e)];
    exec_step H; (split; [apply Hq|]); by try intros token [= <-].
Qed.

Lemma reconcile_addressed cfg zone now (tr : trace) r url auth req :
  exec (reconcile_all cfg zone now) tr r → HttpDo url auth req ∈ cops tr →
  ∃ token tr0 tr1, tr = tr0 ++ tr1 ∧ exec (syncToken cfg) tr0 (Ok token) ∧ token ≠ "" ∧ addressed token (HttpDo url auth req).
Proof.
  intros H Hin. unfold cops in Hin. apply list_elem_of_fmap in Hin as ([o a] & E & Hin). cbn in E. subst o.
  unfold reconcile_all in H. apply exec_try in H as [(token & t1 & t2 & -> & H1 & H)|(e & H & ->)].
  2:{ apply token_read in H as [Hq _]. rewrite Forall_forall in Hq. by destruct (Hq _ Hin url auth req). }
  destruct (token_read _ _ _ H1) as [Hq Hne]. exists token, t1, t2. split_and!; [done|done|by apply Hne|].
  apply elem_of_app in Hin as [Hin|Hin]; [rewrite Forall_forall in Hq; by destruct (Hq _ Hin url auth req)|].
  enough (calls_only (S:=ctl_sig Q) (addressed token) (desired <-! DesiredReplications cfg token ;;
    fold_prog desired (λ _ d, reconcileOne zone d token now ;;; Ret tt) tt ;;; Ret (Ok tt))) as Hc.
  { specialize (Hc _ _ H). rewrite Forall_forall in Hc. exact (Hc _ Hin). }
  apply calls_only_try; [apply desired_addressed|]. intros desired.
  apply calls_only_bind; [|address]. apply calls_only_fold. intros d u _.
  apply calls_only_bind; [apply reconcileOne_addressed|address].
Qed.

Lemma full_sync_addressed job : calls_only (S:=ctl_sig Q) (addressed (job_token job)) (runFullSync job).
Proof.
  unfold runFullSync, fullSyncTargets, prepareShadow, postJSONDecode, sync_target, on_success, startWatchAndRemember,
    startWatch, postJSON, record_freshness_call. cbv zeta. address.
Qed.
End addresses.

(** The work of a batch. *)
Definition batch_work (pool : Pool) (b : EventBatch) : job :=
  mkJob (eb_Namespace b) (eb_Volume b)
    (applied <- ApplyEventBatch pool b ;;
     match applied with
     | Err e => Ret (HttpError 500 e)
     | Ok _ => Ret (BatchReply (eb_Volume b) (length (eb_Events b)))
     end).

Lemma batch_accepted pool token m now b :
  token ≠ "" → wire_ok b = true →
  serve_agent pool token m now (posted "/replication/sync-batch" (bearer token) b) = Replicate (inr (batch_work pool b)).
Proof.
  intros Ht Hb. rewrite serve_clean by reflexivity. unfold route_agent. change (hq_Path (posted "/replication/sync-batch" (bearer token) b)) with "/replication/sync-batch".
  cbn [String.eqb Ascii.eqb Bool.eqb orb]. unfold SyncBatchHandler. by rewrite posted_accepted by done.
Qed.

(** ** Theorems *)

(** A request of the controller that an agent with the same token, at the
    address it is sent to, decodes and answers as it was meant. *)
Definition understood (token url auth : string) (req : agent_request) : Prop :=
  (∃ base, url = base +:+ request_target req) ∧
  ∀ pool m now, token ≠ "" → request_ok req = true →
    serve_agent pool token m now (http_of auth req) = work pool token m now req.

Lemma addressed_understood token url auth req : addressed token (HttpDo url auth req) → understood token url auth req.
Proof. intros [Hu Ha]. split; [done|]. intros pool m now Ht Hok. rewrite Ha by done. by apply request_understood. Qed.

(** C15: Controller and agents speak the same language.  Every request the
    controller sends goes to the path (and, for a status, the query) of the
    endpoint that is made for its body; and an agent with the token that
    was sent, that gets the request there with the header it was sent with,
    decodes exactly the request that was sent and does the work it asks
    for, provided the token is not empty and the texts and numbers of the
    request survive JSON ([request_ok]): no request is refused for its form
    or header or taken for another.  While it reconciles, the controller
    sends the token of the secret, which is not empty; a full sync sends
    the token it was started with. *)
Theorem controller_requests_understood {Q : Type} `{!QuantityOps Q} (tr : list (event (ctl_sig Q))) url auth req :
  HttpDo url auth req ∈ cops tr →
  (∀ cfg zone now r, exec (reconcile_all cfg zone now) tr r →
     ∃ token tr0 tr1, tr = tr0 ++ tr1 ∧ exec (syncToken cfg) tr0 (Ok token) ∧ token ≠ "" ∧ understood token url auth req) ∧
  (∀ job u, exec (runFullSync job) tr u → understood (job_token job) url auth req).
Proof.
  intros Hin. split.
  - intros cfg zone now r H. destruct (reconcile_addressed _ _ _ _ _ _ _ _ H Hin) as (token & tr0 & tr1 & E & Ht & Hne & Ha).
    exists token, tr0, tr1. split_and!; try done. by apply addressed_understood.
  - intros job u H. apply addressed_understood. pose proof (full_sync_addressed job tr u H) as Hc.
    unfold cops in Hin. apply list_elem_of_fmap in Hin as ([o a] & E & Hin). cbn in E. subst o.
    rewrite Forall_forall in Hc. exact (Hc _ Hin).
Qed.

(** C3: From the live volume to the replica.  A batch of events is brought
    into the shadow of the source node and the batch that results is
    posted to another node with the agents' token.  Then its agent accepts
    it for the volume it is about, and once it has answered that the batch
    is applied: the live volume is unchanged, the replica changed only at
    paths the batch names, and a path of the batch that no later event
    touches is on the replica as the event says: one that was deleted is
    gone with all below it, and one that was written holds what the live
    volume holds there (unless the agent saw a directory there: a
    directory is left to the events of its files).  The commands of both
    agents do what rclone is documented to do for their arguments, the
    source serves its pool, a file that is said to be missing is missing,
    and the paths and the address of the source need no escaping. *)
Theorem delivery_converges {C} (same : C → C → bool) (files : SourceRef → tree C) poolS poolT token m now batch f trS out S S' :
  usable poolS → usable poolT → web_source (eb_Source batch) → token ≠ "" →
  exec (ApplyShadowEventBatch poolS batch f) trS (Ok out) → honest_local S trS → effects same files trS S S' →
  wire_ok out = true →
  (∀ q, files (eb_Source batch) q = S' (Clean (pool_Path poolS) +:+ "/" +:+ q)) →
  let live := volume_root poolS (eb_Namespace batch) (eb_Volume batch) in
  let replica := volume_root poolT (eb_Namespace batch) (eb_Volume batch) in
  let events := keep_last (omap (admitted f) (eb_Events batch)) in
  Forall (λ e, plain_path (ev_Path e)) events →
  ∃ j, serve_agent poolT token m now (posted "/replication/sync-batch" (bearer token) out) = Replicate (inr j) ∧
    job_Namespace j = eb_Namespace batch ∧ job_Volume j = eb_Volume batch ∧
    ∀ trT v n R R', exec (job_Prog j) trT (BatchReply v n) → honest files trT → effects same files trT R R' →
      (∀ q, inside live q = true → S' q = S q) ∧
      (∀ q, (∀ e, e ∈ events → inside (place replica e) q = false) → R' q = R q) ∧
      ∀ l1 e l2, events = l1 ++ e :: l2 → Forall (apart e) l2 →
        (is_delete e = true → ∀ q, inside (place replica e) q = true → R' q = None) ∧
        (is_delete e = false →
         (∀ info, did (OsLstat (place live e)) (Ok info) trS → info_IsDir info && negb (info_IsSymlink info) = false) →
         R' (place replica e) = S (place live e)).
Proof.
  intros HpS HpT Hsrc Ht HexS HhS HeS Hok Hfiles live replica events Hplain.
  destruct (shadow_batch_spec same files poolS batch f trS out S S' HpS HexS HhS HeS) as (gen & outs & Eout & _).
  exists (batch_work poolT out). split; [by apply batch_accepted|]. split; [|split].
  - by rewrite Eout.
  - by rewrite Eout.
  - clear Eout. intros trT v n R R' HexT HhT HeT. cbn [job_Prog batch_work] in HexT. exec_step HexT.
    destruct a as [[]|e]; [|by exec_step HexT]. exec_step HexT. rewrite app_nil_r in *.
    exact (pipeline_converges same files poolS poolT batch f trS out S S' _ R R' HpS HpT Hsrc HexS HhS HeS HexT0 HhT HeT Hfiles Hplain).
Qed.

(** The archive of a volume that another node asks for is served: the
    request [applyAgentArchiveFullSync] makes for a source is taken by the
    agent at that address as a request for the archive of the volume with
    the filter that was meant. *)
Theorem archive_request_understood pool token m now host port source namespace volume f :
  token ≠ "" → Url.web_host host port → src_WebDAVURL source = Url.web_url host port "" →
  has_byte "/" namespace = false →
  Trim is_slash (namespace +:+ "/" +:+ volume) = namespace +:+ "/" +:+ volume →
  ∃ q, ArchiveSync.archiveURLFromSource source (namespace +:+ "/" +:+ volume) f =
         Ok (Url.web_url host "8080" "/replication/archive" +:+ "?" +:+ q) ∧
    let r := mkHttpRequest "GET" "/replication/archive" (bearer token) (Url.ParseQuery q) "" in
    serve_agent pool token m now r =
    Stream (Archive.ArchiveHandler pool token (without_body r) namespace volume (pf_IncludePaths f) (pf_ExcludePaths f)).
Proof.
  intros Ht Hw Hs Hn Hv.
  destruct (ArchiveSync.archive_url_correct host port source namespace volume f Hw Hs Hn Hv) as (q & Hq & H1 & H2 & H3 & H4).
  exists q. split; [exact Hq|]. intros r. rewrite serve_clean by reflexivity. unfold route_agent. change (hq_Path r) with "/replication/archive".
  cbn [String.eqb Ascii.eqb Bool.eqb orb].
  change (query_get r ?k) with (Url.values_get (Url.ParseQuery q) k).
  change (query_all r ?k) with (Url.values_all (Url.ParseQuery q) k). by rewrite H1, H2, H3, H4.
Qed.

(** ** The answer to a question for a status *)

(** The response that brings a reply of the watch manager to the
    controller: a status is written and read as JSON. *)
Definition carries (r : reply) (resp : http_response) : Prop :=
  match r with
  | ErrorReply code _ => hr_StatusCode resp = code
  | StatusReply status =>
      hr_StatusCode resp = 200%Z ∧ ∀ read, Decode (Marshal status) = Ok read → hr_Body resp = BodyStatus read
  | StatusesReply _ => hr_StatusCode resp = 200%Z
  end.

(** What the controller learns of a watch is what the agent knows: asked
    for a status, an agent with the watch gives the status of exactly that
    watch, to the nanosecond, and an agent without it is taken for one
    whose watch does not run.  Only a failed connection leaves the
    controller without an answer. *)
Theorem watch_status_agrees {Q : Type} `{!QuantityOps Q} pool token m now d (tr : list (event (ctl_sig Q))) r :
  token ≠ "" → dr_Volume d ≠ "" →
  (∀ status, Status m (dr_Namespace d) (dr_Volume d) = Some status → wire_ok status = true) →
  exec (watchStatus d token) tr r →
  (∀ url auth req resp, Ev (S:=ctl_sig Q) (HttpDo url auth req) (Ok resp) ∈ tr →
     ∃ reply, serve_agent pool token m now (http_of auth req) = WatchReply m reply None ∧ carries reply resp) →
  r = Ok (default no_watch_status (Status m (dr_Namespace d) (dr_Volume d))) ∨
  ∃ url auth req e, Ev (S:=ctl_sig Q) (HttpDo url auth req) (Err e) ∈ tr ∧ r = Err e.
Proof.
  intros Ht Hv Hok Hex Hans. unfold watchStatus in Hex. exec_step Hex.
  - exec_step Hex0. destruct (Hans _ _ _ _ (list_elem_of_here _ _)) as (reply & Hs & Hc).
    rewrite request_understood in Hs by done. cbn [work] in Hs.
    destruct (is_empty (dr_Volume d)) eqn:Ev; [by apply is_empty_spec in Ev|]. injection Hs as <-.
    destruct (Status m (dr_Namespace d) (dr_Volume d)) as [status|] eqn:Es; cbn [carries] in Hc.
    + destruct Hc as [Hcode Hbody]. specialize (Hbody status (message_decodes status (Hok status eq_refl))).
      unfold status_failed in Hex. rewrite Hcode, Hbody in Hex. destruct Hex as [_ ->]. by left.
    + rewrite Hc in Hex. destruct Hex as [_ ->]. by left.
  - exec_step Hex. right. do 4 eexists. split; [apply list_elem_of_here|done].
Qed.

(** ** Examples *)
Definition ex_job : sync_job := mkSyncJob "k"
  (mkDesiredReplication "games" "world" "pv-1" "n1" "http://10.0.0.1:8081"
     [mkDesiredTarget "n2" (mkTargetRef "http://10.0.0.2:8080" "token")] ["saves"] [] false [] empty_ownership ""
     true "" "live" 1) "token" (SyncManual 0).

Definition ex_sync_run := Effects.run Cluster.handler (runFullSync (Q:=Z) ex_job) FailoverProps.ex_cluster2.
Definition ex_sync_request : agent_request :=
  PostFullSync (mkFullSyncRequest "games" "pv-1" (mkSourceRef "http://10.0.0.1:8081" "" "") "" ["saves"] [] false []
                  empty_ownership false).

Lemma controller_requests_understood_witness :
  HttpDo "http://10.0.0.2:8080/replication/full-sync" "Bearer token" ex_sync_request ∈ cops (snd ex_sync_run) ∧
  serve_agent (mkPool "local" "/pool") "token" NewWatchManager 0 (http_of "Bearer token" ex_sync_request) =
  work (mkPool "local" "/pool") "token" NewWatchManager 0 ex_sync_request.
Proof.
  assert (HttpDo "http://10.0.0.2:8080/replication/full-sync" "Bearer token" ex_sync_request ∈ cops (snd ex_sync_run)) as Hin.
  { apply list_elem_of_In. vm_compute. tauto. }
  split; [exact Hin|].
  destruct (proj2 (controller_requests_understood (snd ex_sync_run) _ _ _ Hin) ex_job (fst (fst ex_sync_run)) (run_self _ _ _))
    as [_ H].
  apply H; [discriminate|vm_compute; reflexivity].
Defined.

Lemma delivery_converges_witness :
  ex_replica_disk' "/data/ns/v/save" = Some "new" ∧
  ex_replica_disk' "/data/ns/v/save" = ex_disk "/data/ns/v/save".
Proof.
  split; [vm_compute; reflexivity|].
  destruct (delivery_converges ex_same (λ _, ex_served) ApplyProps.ex_pool ApplyProps.ex_pool "secret" NewWatchManager 0 ex_changes no_filter
    (snd ex_shadow_run) ex_forwarded ex_disk ex_disk') as (j & Hj & _ & _ & H).
  - apply ex_pool_usable.
  - apply ex_pool_usable.
  - exact ex_web_source.
  - discriminate.
  - assert (Ok ex_forwarded = fst (fst ex_shadow_run)) as -> by (vm_compute; reflexivity). apply run_self.
  - apply looks_match_honest. vm_compute. reflexivity.
  - exact ex_shadow_effects.
  - vm_compute. reflexivity.
  - intros q. reflexivity.
  - exact ex_paths_plain.
  - rewrite batch_accepted in Hj; [|discriminate|vm_compute; reflexivity]. injection Hj as <-.
    destruct (H (snd ex_replica_run) "v" 2 ex_replica_disk ex_replica_disk') as (_ & _ & H').
    + cbn [job_Prog batch_work]. match goal with |- exec ?p _ _ => pose proof (run_self Mem.handler p ex_replica_world) as Hr end.
      match type of Hr with exec _ ?t ?r =>
        assert (t = snd ex_replica_run) as E1 by (vm_compute; reflexivity);
        assert (r = BatchReply "v" 2) as E2 by (vm_compute; reflexivity) end.
      rewrite E1, E2 in Hr. exact Hr.
    + apply nothing_missing_honest. vm_compute. reflexivity.
    + exact ex_replica_effects.
    + refine (proj2 (H' [] (mkFileEvent "save" EventOpUpsert) [mkFileEvent "lost" EventOpUpsert] eq_refl _) eq_refl _).
      * apply Forall_singleton. by split; apply (bool_decide_unpack _); vm_compute.
      * intros info Hd. apply (check_did (λ e, match ev_op e as o return agent_ans o → bool with
          OsLstat _ => λ r, match r with Ok i => negb (info_IsDir i && negb (info_IsSymlink i)) | Err _ => true end
          | _ => λ _, true end (ev_ans e))) in Hd; [|vm_compute; reflexivity].
        cbn in Hd. by apply negb_true_iff in Hd.
Defined.

End Protocol.
